(** * uftrace TUI (cmds/tui.c): call-graph model, report index, window engine

    A shallow embedding of the data model and of the operations of
    [cmds/tui.c], followed by the properties of the specification that
    were checked against it.

    Conventions of the embedding:
    - [uint64_t] values are [Z] with the wrap-around written [wrap_u64];
      [unsigned] is [wrap_u32] and [int] is [wrap_int] (two's complement);
    - a graph node owns its children ([n_head], in insertion order); the
      parent back-reference and the sibling links of the C structure are
      the position of the node in the tree: a pointer to a node is its
      path from the root, innermost index first ([gpath]);
    - a [NULL] pointer is [None]; dereferencing it is a fault, the [None]
      result of the operation that does it. *)

From Stdlib Require Import ZArith Lia List Bool String Ascii.
From Stdlib Require OrderedTypeEx.
From stdpp Require Import base list strings gmap sorting.

Local Open Scope Z_scope.
Set Warnings "-register-all".

(** ** Machine integers *)

Definition wrap_u64 (z : Z) : Z := z mod 2 ^ 64.
Definition wrap_u32 (z : Z) : Z := z mod 2 ^ 32.
Definition wrap_int (z : Z) : Z := (z + 2 ^ 31) mod 2 ^ 32 - 2 ^ 31.

Definition INT_MAX : Z := 2 ^ 31 - 1.

(** ** Graph nodes

    [struct tui_graph_node] with its embedded [struct uftrace_graph_node n]
    flattened: [n_addr], [n_name], [n_nr_edges], [n_nr_calls], [n_time],
    [n_child_time] and the children list [n_head].  [graph] is the index
    of the owning graph in [tui_graph_list] ([None] while unset), [link]
    tells whether the node already sits on the occurrence list of a report
    node (that is, whether [list_is_none(&node->link)] is false). *)

Inductive tui_graph_node : Type := TuiGraphNode {
  n_addr : Z;
  n_name : string;
  n_nr_edges : Z;
  n_nr_calls : Z;
  n_time : Z;
  n_child_time : Z;
  n_head : list tui_graph_node;
  graph : option nat;
  link : bool;
  folded : bool
}.

(** Induction over the whole subtree of a node. *)
Section tui_graph_node_ind.
Variable P : tui_graph_node -> Prop.
Hypothesis IH : forall a nm e c t ct head g l f,
      Forall P head -> P (TuiGraphNode a nm e c t ct head g l f).

Fixpoint tui_graph_node_rect' (node : tui_graph_node) : P node :=
    match node with
    | TuiGraphNode a nm e c t ct head g l f =>
        IH a nm e c t ct head g l f
           ((fix all (cs : list tui_graph_node) : Forall P cs :=
               match cs with
               | [] => ListDef.Forall_nil P
               | child :: rest =>
                   ListDef.Forall_cons P child rest
                                (tui_graph_node_rect' child) (all rest)
               end) head)
    end.
End tui_graph_node_ind.

Definition set_head (head : list tui_graph_node) (node : tui_graph_node) :=
  TuiGraphNode (n_addr node) (n_name node) (n_nr_edges node) (n_nr_calls node)
               (n_time node) (n_child_time node) head
               (graph node) (link node) (folded node).

Definition set_folded (f : bool) (node : tui_graph_node) :=
  TuiGraphNode (n_addr node) (n_name node) (n_nr_edges node) (n_nr_calls node)
               (n_time node) (n_child_time node) (n_head node)
               (graph node) (link node) f.

(** [list_empty(&node->n.head)] and [list_is_singular(&node->n.head)]. *)
Definition list_empty (node : tui_graph_node) : bool :=
  match n_head node with [] => true | _ => false end.

Definition list_is_singular (node : tui_graph_node) : bool :=
  match n_head node with [_] => true | _ => false end.

(** A pointer to a node of a tree: the child indices from the node up to
    the root.  [[]] is the root, [i :: p] the [i]-th child of [p]. *)
Definition gpath := list nat.

Fixpoint node_at (root : tui_graph_node) (p : gpath) : option tui_graph_node :=
  match p with
  | [] => Some root
  | i :: parent =>
      match node_at root parent with
      | Some n => n_head n !! i
      | None => None
      end
  end.

(** Number of nodes of a subtree. *)
Fixpoint nr_nodes (node : tui_graph_node) : Z :=
  match node with
  | TuiGraphNode _ _ _ _ _ _ head _ _ _ =>
      1 + (fix sum (cs : list tui_graph_node) : Z :=
             match cs with
             | [] => 0
             | child :: rest => nr_nodes child + sum rest
             end) head
  end.

(** [list_for_each_entry] over a children list with an accumulator that
    is threaded through the loop body, the body updating the child. *)
Definition for_each_entry {S : Type}
    (body : tui_graph_node -> S -> S * tui_graph_node) :
    list tui_graph_node -> S -> S * list tui_graph_node :=
  fix loop (cs : list tui_graph_node) (s : S) : S * list tui_graph_node :=
    match cs with
    | [] => (s, [])
    | child :: rest =>
        let '(s1, child') := body child s in
        let '(s2, rest') := loop rest s1 in
        (s2, child' :: rest')
    end.

(** ** Folding ([fold_graph_node], [win_collapse_graph], [win_expand_graph]) *)

Fixpoint fold_graph_node (fold : bool) (node : tui_graph_node)
    : Z * tui_graph_node :=
  match node with
  | TuiGraphNode a nm e c t ct head g l f =>
      match head with
      | [] => (0, node)
      | _ :: _ =>
          let '(f', count) :=
            if negb (Bool.eqb f fold) then (fold, wrap_int (0 + 1)) else (f, 0) in
          let '(count', head') :=
            for_each_entry
              (fun child count =>
                 let '(k, child') := fold_graph_node fold child in
                 (wrap_int (count + k), child'))
              head count in
          (count', TuiGraphNode a nm e c t ct head' g l f')
      end
  end.

(** The [int count] is returned through the [bool] return type. *)
Definition int_to_bool (count : Z) : bool := negb (count =? 0).

Definition win_collapse_graph (curr : tui_graph_node) : bool * tui_graph_node :=
  let '(count, head') :=
    for_each_entry
      (fun child count =>
         let '(k, child') := fold_graph_node true child in
         (wrap_int (count + k), child'))
      (n_head curr) 0 in
  (int_to_bool count, set_head head' curr).

Definition win_expand_graph (curr : tui_graph_node) : bool * tui_graph_node :=
  let '(count, head') :=
    for_each_entry
      (fun child count =>
         let '(k, child') := fold_graph_node false child in
         (wrap_int (count + k), child'))
      (n_head curr) 0 in
  (int_to_bool count, set_head head' curr).

(** *** Vocabulary for the statements about folding *)

(** Two nodes that differ at most by their fold flag and their subtrees. *)
Definition same_payload (a b : tui_graph_node) : Prop :=
  n_addr a = n_addr b /\ n_name a = n_name b /\
  n_nr_edges a = n_nr_edges b /\ n_nr_calls a = n_nr_calls b /\
  n_time a = n_time b /\ n_child_time a = n_child_time b /\
  graph a = graph b /\ link a = link b /\
  length (n_head a) = length (n_head b).

(** Number of positions at which the fold flags of two trees of the same
    shape differ: the number of nodes whose flag changed between them. *)
Fixpoint flag_diff (a b : tui_graph_node) : Z :=
  match a, b with
  | TuiGraphNode _ _ _ _ _ _ ha _ _ fa, TuiGraphNode _ _ _ _ _ _ hb _ _ fb =>
      (if Bool.eqb fa fb then 0 else 1) +
      (fix sum (xs ys : list tui_graph_node) : Z :=
         match xs, ys with
         | x :: xs', y :: ys' => flag_diff x y + sum xs' ys'
         | _, _ => 0
         end) ha hb
  end.

(** Every strict descendant that has children carries the flag [fold]. *)
Definition fully_folded (fold : bool) (curr : tui_graph_node) : Prop :=
  forall p n, p <> [] -> node_at curr p = Some n -> n_head n <> [] ->
              folded n = fold.

(** The same for a node and its whole subtree, as a computation. *)
Fixpoint is_folded_all (fold : bool) (node : tui_graph_node) : bool :=
  match node with
  | TuiGraphNode _ _ _ _ _ _ head _ _ f =>
      match head with
      | [] => true
      | _ => Bool.eqb f fold && forallb (is_folded_all fold) head
      end
  end.

(** *** Sample trees *)

(** A node called once, with the given children, owned by graph 0. *)
Definition sample_node (name : string) (head : list tui_graph_node)
    (f : bool) : tui_graph_node :=
  TuiGraphNode 0 name (Z.of_nat (length head)) 1 0 0 head (Some 0%nat) false f.

(** [main -> a -> b -> c], nothing folded. *)
Definition sample_chain : tui_graph_node :=
  sample_node "main"
    [sample_node "a" [sample_node "b" [sample_node "c" [] false] false] false]
    false.

(** ** Graph traversal ([graph_prev_node], [graph_next_node]) *)

(** [node->name[0] == '=']; the first character of the empty string is the
    terminating NUL. *)
Definition is_special_node (node : tui_graph_node) : bool :=
  match n_name node with
  | String c _ => Ascii.eqb c "="%char
  | EmptyString => false
  end.

(** [prev->n.head.next == &next->n.list]: [next] is the first child of
    [prev].  [prev->n.head.prev == &next->n.list]: it is its last child. *)
Definition is_first_child (prev next : gpath) : bool :=
  bool_decide (next = 0%nat :: prev).

Definition is_last_child (root : tui_graph_node) (prev next : gpath) : bool :=
  match node_at root prev with
  | Some p =>
      match next with
      | i :: pp => bool_decide (pp = prev) && bool_decide (S i = length (n_head p))
      | [] => false
      end
  | None => false
  end.

(** [n->parent], [NULL] for the root. *)
Definition parent_of (root : tui_graph_node) (node : gpath)
    : option tui_graph_node :=
  match node with
  | [] => None
  | _ :: parent => node_at root parent
  end.

(** [if (indent_mask) indent_mask[i] = b].  The array has [max_stack]
    entries; a store past its end is outside the model (the list is left
    as it is). *)
Definition mask_set (i : Z) (b : bool) (indent_mask : option (list bool))
    : option (list bool) :=
  (fun m => <[Z.to_nat i := b]> m) <$> indent_mask.

(** The second half of [graph_prev_node]: from a previous sibling, go down
    to the last child for as long as the node has children and is not
    folded.  [p] is the pointer to [n]. *)
Fixpoint graph_prev_descend (n : tui_graph_node) (p : gpath) (depth : Z)
    (indent_mask : option (list bool)) : gpath * Z * option (list bool) :=
  match n with
  | TuiGraphNode _ _ _ _ _ _ head _ _ f =>
      if negb (match head with [] => true | _ => false end) && negb f then
        let '(depth, indent_mask) :=
          if negb (match head with [_] => true | _ => false end)
          then (wrap_int (depth + 1), mask_set depth false indent_mask)
          else (depth, indent_mask) in
        (fix last_entry (cs : list tui_graph_node) (i : nat) :=
           match cs with
           | [] => (p, depth, indent_mask)
           | [c] => graph_prev_descend c (i :: p) depth indent_mask
           | _ :: cs' => last_entry cs' (S i)
           end) head 0%nat
      else (p, depth, indent_mask)
  end.

Definition graph_prev_node (root : tui_graph_node) (node : gpath) (depth : Z)
    (indent_mask : option (list bool))
    : option (option gpath * Z * option (list bool)) :=
  n ← node_at root node;
  match node with
  | [] => Some (None, 0, indent_mask)            (* root node *)
  | i :: pp =>
      parent ← node_at root pp;
      '(r, depth, indent_mask) ←
        (if is_first_child pp node then
           (* simple case: if it's the first child, move to the parent *)
           let '(depth, indent_mask) :=
             if negb (list_is_singular parent) && (0 <? depth)
             then (wrap_int (depth - 1), mask_set (wrap_int (depth - 1)) false indent_mask)
             else (depth, indent_mask) in
           Some (pp, depth, indent_mask)
         else
           (* move to sibling; if it has children, move to the last child *)
           sibling ← n_head parent !! (i - 1)%nat;
           Some (graph_prev_descend sibling ((i - 1)%nat :: pp) depth indent_mask));
      let indent_mask :=
        match parent_of root r with
        | Some rp =>
            if negb (list_is_singular rp) && (0 <? depth)
            then mask_set (depth - 1) true indent_mask else indent_mask
        | None => indent_mask
        end in
      Some (Some r, depth, indent_mask)
  end.

(** The [while (n->parent != NULL)] loop of [graph_next_node]. *)
Fixpoint graph_next_climb (root : tui_graph_node) (n : gpath) (depth : Z)
    (indent_mask : option (list bool))
    : option (option gpath * Z * option (list bool)) :=
  match n with
  | [] => Some (None, depth, indent_mask)
  | i :: pp =>
      parent ← node_at root pp;
      if negb (is_last_child root pp n) then
        (* move to sibling if possible *)
        sibling ← n_head parent !! S i;
        Some (Some (S i :: pp),
              if is_special_node sibling then 0 else depth, indent_mask)
      else
        (* otherwise look up parent *)
        let '(depth, indent_mask) :=
          if negb (list_is_singular parent) && (0 <? depth)
          then (wrap_int (depth - 1), mask_set (wrap_int (depth - 1)) false indent_mask)
          else (depth, indent_mask) in
        graph_next_climb root pp depth indent_mask
  end.

Definition graph_next_node (root : tui_graph_node) (node : gpath) (depth : Z)
    (indent_mask : option (list bool))
    : option (option gpath * Z * option (list bool)) :=
  n ← node_at root node;
  let parent := parent_of root node in
  let indent_mask :=
    match parent with
    | Some p =>
        if negb (list_is_singular p) && is_last_child root (tail node) node
           && (0 <? depth)
        then mask_set (depth - 1) false indent_mask else indent_mask
    | None => indent_mask
    end in
  if negb (list_empty n) &&
     (match parent with None => true | Some _ => negb (folded n) end) then
    (* simple case: if it has children, move to it *)
    let '(depth, indent_mask) :=
      if negb (list_is_singular n)
      then (wrap_int (depth + 1), mask_set depth true indent_mask)
      else (depth, indent_mask) in
    first ← n_head n !! 0%nat;
    Some (Some (0%nat :: node),
          if is_special_node first then 0 else depth, indent_mask)
  else
    (* parent should not be folded *)
    graph_next_climb root node depth indent_mask.

(** *** Vocabulary for the statements about traversal *)

(** A node is on display when it exists and none of its ancestors other
    than the root is folded. *)
Fixpoint visible (root : tui_graph_node) (p : gpath) : bool :=
  match p with
  | [] => true
  | i :: pp =>
      match node_at root pp with
      | Some n =>
          bool_decide (i < length (n_head n))%nat &&
          (bool_decide (pp = []) || negb (folded n)) && visible root pp
      | None => false
      end
  end.

(** The node an operation returns, without the depth and the mask. *)
Definition step_node (r : option (option gpath * Z * option (list bool)))
    : option (option gpath) :=
  (fun x => fst (fst x)) <$> r.

(** The rows of the graph view in traversal order: the nodes met from [x]
    on by stepping with [graph_next_node], as many as [fuel] allows. *)
Fixpoint graph_walk (root : tui_graph_node) (fuel : nat) (x : gpath)
    : list gpath :=
  match fuel with
  | O => []
  | S k =>
      x :: match step_node (graph_next_node root x 0 None) with
           | Some (Some y) => graph_walk root k y
           | _ => []
           end
  end.

(** ** Rows of the graph window ([win_display_graph])

    What is written to the screen is kept as the list of the [printw]
    calls, each with its format and its arguments. *)

Inductive printw_arg : Type :=
| arg_string (s : string)
| arg_int (z : Z).

Record printw_call : Type := Printw {
  pw_format : string;
  pw_args : list printw_arg
}.

(** [struct display_field] of utils/field.h, as far as it is used here:
    the width of the column and the function that prints it. *)
Record display_field : Type := DisplayField {
  df_length : Z;
  df_print : tui_graph_node -> list printw_call
}.

Definition FIELD_SPACE : Z := 2.
Definition FIELD_SEP : string := " :".

(** [strlen], and the number of characters that ["%d"] prints. *)
Definition strlen (s : string) : Z := Z.of_nat (String.length s).

Fixpoint decimal_digits (fuel : nat) (z : Z) : Z :=
  match fuel with
  | O => 1
  | S fuel => if z <? 10 then 1 else 1 + decimal_digits fuel (z / 10)
  end.

Definition snprintf_d (z : Z) : Z :=
  if z <? 0 then 1 + decimal_digits 10 (- z) else decimal_digits 10 z.

(** ** Windows ([struct tui_window], [struct tui_window_ops])

    A window is the first member of the structure of its view
    ([struct tui_graph], [struct tui_report]) and the operations of a view
    cast the window pointer back to that structure: [w_ext] holds the other
    members of the enclosing structure.  [N] is the type of the [void *]
    node pointers of the view. *)

Record tui_window (N X : Type) : Type := TuiWindow {
  w_top : option N;
  w_curr : option N;
  w_old : option N;
  top_index : Z;
  curr_index : Z;
  search_count : Z;
  w_ext : X
}.
Arguments TuiWindow {N X}.
Arguments w_top {N X}.
Arguments w_curr {N X}.
Arguments w_old {N X}.
Arguments top_index {N X}.
Arguments curr_index {N X}.
Arguments search_count {N X}.
Arguments w_ext {N X}.

Section window_setters.
Context {N X : Type}.
Implicit Type win : tui_window N X.

Definition set_top (v : option N) win :=
    TuiWindow v (w_curr win) (w_old win) (top_index win) (curr_index win)
              (search_count win) (w_ext win).
Definition set_curr (v : option N) win :=
    TuiWindow (w_top win) v (w_old win) (top_index win) (curr_index win)
              (search_count win) (w_ext win).
Definition set_old (v : option N) win :=
    TuiWindow (w_top win) (w_curr win) v (top_index win) (curr_index win)
              (search_count win) (w_ext win).
Definition set_top_index (v : Z) win :=
    TuiWindow (w_top win) (w_curr win) (w_old win) v (curr_index win)
              (search_count win) (w_ext win).
Definition set_curr_index (v : Z) win :=
    TuiWindow (w_top win) (w_curr win) (w_old win) (top_index win) v
              (search_count win) (w_ext win).
Definition set_ext (v : X) win :=
    TuiWindow (w_top win) (w_curr win) (w_old win) (top_index win)
              (curr_index win) (search_count win) v.
End window_setters.

(** The navigation entries of [struct tui_window_ops].  An operation
    returns [None] when it dereferences an invalid pointer; otherwise it
    returns its result and the window (the view may update its own members,
    as the graph view does with its depth and mask).  The second node of
    [needs_blank] may be [NULL].  The entries [enter], [collapse], [expand]
    are the folding functions above applied to the node under the cursor;
    [header], [footer], [display] and [search] do not move the cursor. *)
Record tui_window_ops (N X : Type) : Type := TuiWindowOps {
  ops_prev : tui_window N X -> N -> bool -> option (option N * tui_window N X);
  ops_next : tui_window N X -> N -> bool -> option (option N * tui_window N X);
  ops_top : tui_window N X -> bool -> option (option N * tui_window N X);
  ops_parent : tui_window N X -> N -> option (option N);
  ops_sibling_prev : tui_window N X -> N -> option (option N * tui_window N X);
  ops_sibling_next : tui_window N X -> N -> option (option N * tui_window N X);
  ops_needs_blank : tui_window N X -> N -> option N -> bool
}.
Arguments ops_prev {N X}.
Arguments ops_next {N X}.
Arguments ops_top {N X}.
Arguments ops_parent {N X}.
Arguments ops_sibling_prev {N X}.
Arguments ops_sibling_next {N X}.
Arguments ops_needs_blank {N X}.

(** *** Common window operations *)

Section window_engine.
Context {N X : Type} `{EqDecision N}.
Variable ops : tui_window_ops N X.
  (** The number of screen lines of the terminal (curses' [LINES]). *)
Variable LINES : Z.
Implicit Type win : tui_window N X.

Definition tui_window_init win : option (tui_window N X) :=
    '(top, win) ← ops_top ops win true;
    Some (set_curr_index 0 (set_top_index 0
            (set_old top (set_curr top (set_top top win))))).

Definition tui_window_move_home win : option (tui_window N X) :=
    '(top, win) ← ops_top ops win true;
    Some (set_curr_index 0 (set_top_index 0 (set_curr top (set_top top win)))).

Definition tui_window_move_up win : option (tui_window N X) :=
    curr ← w_curr win;
    '(node, win) ← ops_prev ops win curr false;
    match node with
    | None => Some win
    | Some node =>
        let win := set_curr_index (wrap_int (curr_index win - 1)) win in
        let win :=
          if ops_needs_blank ops win node (Some curr)
          then set_curr_index (wrap_int (curr_index win - 1)) win else win in
        win ←
          (if curr_index win <? top_index win then
             top ← w_top win;
             '(top', win) ← ops_prev ops win top true;
             Some (set_top_index (curr_index win) (set_top top' win))
           else Some win);
        Some (set_curr (Some node) win)
    end.

  (** [while (win->curr_index - win->top_index >= LINES - 2)]: move the top
      down.  Every round adds at least one to [top_index], so that the loop
      ends within the number of rounds given by [scroll_rounds] as long as
      the indices do not overflow; [None] stands for a fault as well as for
      a loop that did not end within these rounds. *)
Fixpoint scroll_top (rounds : nat) win : option (tui_window N X) :=
    if LINES - 2 <=? curr_index win - top_index win then
      match rounds with
      | O => None
      | S rounds =>
          top ← w_top win;
          '(node, win) ← ops_next ops win top true;
          let win := set_top_index (wrap_int (top_index win + 1)) win in
          let win :=
            if ops_needs_blank ops win top node
            then set_top_index (wrap_int (top_index win + 1)) win else win in
          scroll_top rounds (set_top node win)
      end
    else Some win.

Definition scroll_rounds win : nat :=
    Z.to_nat (curr_index win - top_index win - (LINES - 2) + 1).

Definition tui_window_move_down win : option (tui_window N X) :=
    curr ← w_curr win;
    '(node, win) ← ops_next ops win curr false;
    match node with
    | None => Some win
    | Some node =>
        let win := set_curr_index (wrap_int (curr_index win + 1)) win in
        let win :=
          if ops_needs_blank ops win curr (Some node)
          then set_curr_index (wrap_int (curr_index win + 1)) win else win in
        let win := set_curr (Some node) win in
        scroll_top (scroll_rounds win) win
    end.

  (** [while (win->curr != target) step(win)], at most [rounds] times. *)
Fixpoint move_until (step : tui_window N X -> option (tui_window N X))
      (target : N) (rounds : nat) win : option (tui_window N X) :=
    if bool_decide (w_curr win = Some target) then Some win
    else match rounds with
         | O => None
         | S rounds => win ← step win; move_until step target rounds win
         end.

  (** Move to the previous sibling; [None] when a fault occurs or the
      sibling is not reached within [rounds] steps. *)
Definition tui_window_move_prev (rounds : nat) win
      : option (tui_window N X) :=
    curr ← w_curr win;
    '(prev, win) ← ops_sibling_prev ops win curr;
    match prev with
    | None => Some win
    | Some prev => move_until tui_window_move_up prev rounds win
    end.

  (** Move to the next sibling. *)
Definition tui_window_move_next (rounds : nat) win
      : option (tui_window N X) :=
    curr ← w_curr win;
    '(next, win) ← ops_sibling_next ops win curr;
    match next with
    | None => Some win
    | Some next => move_until tui_window_move_down next rounds win
    end.

  (** [n] times the same key. *)
Fixpoint repeat_op (step : tui_window N X -> option (tui_window N X))
      (n : nat) win : option (tui_window N X) :=
    match n with
    | O => Some win
    | S n => win ← step win; repeat_op step n win
    end.
End window_engine.

(** ** The graph view

    [struct tui_graph] without its first member [win], and, of the embedded
    [struct uftrace_graph ug], the session ([ug_sess], an index into the
    sessions of the trace) and the root node ([ug_root]).  The masks are
    the arrays of [max_stack] booleans allocated by [tui_graph_init]. *)
Record tui_graph : Type := TuiGraph {
  ug_sess : option nat;
  ug_root : tui_graph_node;
  disp : option gpath;
  top_depth : Z;
  curr_depth : Z;
  disp_depth : Z;
  width : Z;
  top_mask : list bool;
  disp_mask : list bool;
  disp_update : bool
}.

Definition set_top_state (d : Z) (m : list bool) (g : tui_graph) : tui_graph :=
  TuiGraph (ug_sess g) (ug_root g) (disp g) d (curr_depth g) (disp_depth g)
           (width g) m (disp_mask g) (disp_update g).

Definition set_disp_state (n : option gpath) (d : Z) (m : list bool)
    (g : tui_graph) : tui_graph :=
  TuiGraph (ug_sess g) (ug_root g) n (top_depth g) (curr_depth g) d
           (width g) (top_mask g) m (disp_update g).

Definition set_ug_root (root : tui_graph_node) (g : tui_graph) : tui_graph :=
  TuiGraph (ug_sess g) root (disp g) (top_depth g) (curr_depth g)
           (disp_depth g) (width g) (top_mask g) (disp_mask g) (disp_update g).

Definition graph_window := tui_window gpath tui_graph.

(** *** Per-window operations for the graph window *)

Definition win_top_graph (win : graph_window) (update : bool)
    : option (option gpath * graph_window) :=
  let graph := w_ext win in
  let win :=
    if update then set_ext (set_top_state 0 (top_mask graph) graph) win
    else win in
  Some (Some [], win).

(** Without [update] the depth passed is an uninitialised local and the
    mask is [NULL]; both results are dropped. *)
Definition win_prev_graph (win : graph_window) (node : gpath) (update : bool)
    : option (option gpath * graph_window) :=
  let graph := w_ext win in
  if update then
    '(prev, depth, mask) ←
      graph_prev_node (ug_root graph) node (top_depth graph)
                      (Some (top_mask graph));
    Some (prev, set_ext (set_top_state depth (default (top_mask graph) mask)
                                       graph) win)
  else
    '(prev, _, _) ← graph_prev_node (ug_root graph) node 0 None;
    Some (prev, win).

Definition win_next_graph (win : graph_window) (node : gpath) (update : bool)
    : option (option gpath * graph_window) :=
  let graph := w_ext win in
  if update then
    (* update top node for new page *)
    '(next, depth, mask) ←
      graph_next_node (ug_root graph) node (top_depth graph)
                      (Some (top_mask graph));
    Some (next, set_ext (set_top_state depth (default (top_mask graph) mask)
                                       graph) win)
  else if disp_update graph then
    (* update display node for next *)
    '(next, depth, mask) ←
      graph_next_node (ug_root graph) node (disp_depth graph)
                      (Some (disp_mask graph));
    Some (next, set_ext (set_disp_state next depth
                           (default (disp_mask graph) mask) graph) win)
  else
    '(next, _, _) ← graph_next_node (ug_root graph) node 0 None;
    Some (next, win).

(** A [NULL] [next] is not the first child of anything. *)
Definition win_needs_blank_graph (win : graph_window) (prev : gpath)
    (next : option gpath) : bool :=
  match next with
  | Some next => negb (is_first_child prev next)
  | None => true
  end.

Definition win_sibling_prev_graph (win : graph_window) (node : gpath)
    : option (option gpath * graph_window) :=
  _ ← node_at (ug_root (w_ext win)) node;
  match node with
  | [] => Some (None, win)
  | i :: parent =>
      if bool_decide (i = 0%nat) then Some (None, win)
      else Some (Some ((i - 1)%nat :: parent), win)
  end.

Definition win_sibling_next_graph (win : graph_window) (node : gpath)
    : option (option gpath * graph_window) :=
  _ ← node_at (ug_root (w_ext win)) node;
  match node with
  | [] => Some (None, win)
  | i :: parent =>
      if is_last_child (ug_root (w_ext win)) parent node then Some (None, win)
      else Some (Some (S i :: parent), win)
  end.

Definition win_parent_graph (win : graph_window) (node : gpath)
    : option (option gpath) :=
  _ ← node_at (ug_root (w_ext win)) node;
  match node with
  | [] => Some None
  | _ :: parent => Some (Some parent)
  end.

Definition graph_ops : tui_window_ops gpath tui_graph := {|
  ops_prev := win_prev_graph;
  ops_next := win_next_graph;
  ops_top := win_top_graph;
  ops_parent := win_parent_graph;
  ops_sibling_prev := win_sibling_prev_graph;
  ops_sibling_next := win_sibling_next_graph;
  ops_needs_blank := win_needs_blank_graph
|}.

(** The rendering of a row.  [graph_output_fields] is the list of the
    columns chosen by the options and [COLS] the width of the terminal.
    The widths are a depth, the length of a name and a column count: they
    are added as integers, without wrap-around. *)
Section graph_display.
Variable graph_output_fields : list display_field.
Variable COLS : Z.

Definition print_graph_field (node : tui_graph_node) : list printw_call :=
  match graph_output_fields with
  | [] => []
  | _ =>
      flat_map (fun field =>
                  Printw "%*s" [arg_int FIELD_SPACE; arg_string ""]
                  :: df_print field node)
               graph_output_fields
      ++ [Printw FIELD_SEP []]
  end.

Definition print_graph_empty : list printw_call :=
  match graph_output_fields with
  | [] => []
  | _ =>
      map (fun field =>
             Printw "%*s" [arg_int (df_length field + FIELD_SPACE); arg_string ""])
          graph_output_fields
      ++ [Printw FIELD_SEP []]
  end.

Definition print_graph_indent (graph : tui_graph) (node : gpath) (depth : Z)
    (single_child : bool) : list printw_call :=
  map (fun i =>
         if negb (default false (disp_mask graph !! i)) then Printw "   " []
         else if (Z.of_nat i <? depth - 1) || single_child then Printw "  │" []
         else if is_last_child (ug_root graph) (tail node) node
              then Printw "  └" []
              else Printw "  ├" [])
      (seq 0 (Z.to_nat depth)).

Definition win_display_graph (win : graph_window) (node : option gpath)
    : option (list printw_call) :=
  let graph := w_ext win in
  let d := disp_depth graph in
  let w := width graph in
  match node with
  | None =>
      shown ← disp graph;
      Some (print_graph_empty ++ print_graph_indent graph shown d true)
  | Some node =>
      curr ← node_at (ug_root graph) node;
      let fold_sign := if folded curr then "▶" else "─" in
      let '(fold_sign, single_child) :=
        match parent_of (ug_root graph) node with
        | None => (" ", false)
        | Some parent =>
            if list_is_singular parent
            then (if negb (folded curr) then " " else fold_sign, true)
            else (fold_sign, false)
        end in
      let width := d * 3 + strlen (n_name curr) + w in
      let '(label, width) :=
        if is_special_node curr then
          (Printw "%s" [arg_string (n_name curr)], width)
        else
          (Printw "%s(%d) %s" [arg_string fold_sign; arg_int (n_nr_calls curr);
                               arg_string (n_name curr)],
           (* 4 = fold_sign(1) + parenthesis(2) + space(1) *)
           if negb (is_special_node curr)
           then width + (snprintf_d (n_nr_calls curr) + 4) else width) in
      Some (print_graph_field curr
            ++ print_graph_indent graph node d single_child
            ++ [label]
            ++ (if width <? COLS
                then [Printw "%*s" [arg_int (COLS - width); arg_string ""]]
                else []))
  end.
End graph_display.

(** *** Some default (no-op) window operations *)

Section default_ops.
Context {N X : Type}.

Definition win_needs_blank_no (win : tui_window N X) (prev : N)
      (next : option N) : bool := false.

  (** [win->ops->prev(win, node, false)]; [prev] is the [prev] entry of the
      operations of the window. *)
Definition win_sibling_prev_no
      (prev : tui_window N X -> N -> bool -> option (option N * tui_window N X))
      (win : tui_window N X) (node : N) := prev win node false.

Definition win_sibling_next_no
      (next : tui_window N X -> N -> bool -> option (option N * tui_window N X))
      (win : tui_window N X) (node : N) := next win node false.

Definition win_parent_no (win : tui_window N X) (node : N)
      : option (option N) := Some None.
End default_ops.

(** ** The report

    [struct tui_report_node].  [name_link] and [sort_link] are the places
    of the node in the two trees below; [r_head] lists the occurrences
    linked to the node, each a pointer to a graph node: the index of its
    graph in [tui_graph_list] and its path in that graph. *)
Record tui_report_node : Type := TuiReportNode {
  r_head : list (nat * gpath);
  r_name : string;
  r_time : Z;
  r_min_time : Z;
  r_max_time : Z;
  r_self_time : Z;
  r_min_self_time : Z;
  r_max_self_time : Z;
  r_recursive_time : Z;
  r_calls : Z
}.

(** [struct rb_root]: a binary tree whose entries are pointers to report
    nodes (indices into the nodes allocated so far). *)
Inductive rb_color : Type := RB_RED | RB_BLACK.

Inductive rb_tree : Type :=
| rb_leaf
| rb_node (color : rb_color) (rb_left : rb_tree) (entry : nat)
          (rb_right : rb_tree).

Fixpoint rb_inorder (t : rb_tree) : list nat :=
  match t with
  | rb_leaf => []
  | rb_node _ l x r => rb_inorder l ++ x :: rb_inorder r
  end.

(** The element after (before) the first occurrence of [x] in a list. *)
Fixpoint list_succ (l : list nat) (x : nat) : option nat :=
  match l with
  | a :: (b :: _) as rest => if bool_decide (a = x) then Some b else list_succ rest x
  | _ => None
  end.

Fixpoint list_pred (l : list nat) (x : nat) : option nat :=
  match l with
  | a :: (b :: _) as rest => if bool_decide (b = x) then Some a else list_pred rest x
  | _ => None
  end.

(** Modelled from the spec: [rb_first], [rb_next] and [rb_prev] of
    utils/rbtree.c, which is not part of the sources at hand; the
    specification asks of the tree an in-order traversal, and these are the
    first entry, the successor and the predecessor of that traversal. *)
Definition rb_first (t : rb_tree) : option nat := head (rb_inorder t).
Definition rb_next (t : rb_tree) (x : nat) : option nat := list_succ (rb_inorder t) x.
Definition rb_prev (t : rb_tree) (x : nat) : option nat := list_pred (rb_inorder t) x.

(** [struct tui_report] without its first member [win].  [rp_nodes] is the
    heap of report nodes: [find_report_node] allocates at its end and a
    pointer to a report node is its index. *)
Record tui_report : Type := TuiReport {
  rp_nodes : list tui_report_node;
  name_tree : rb_tree;
  sort_tree : rb_tree;
  nr_sess : Z;
  nr_func : Z
}.

Definition report_window := tui_window nat tui_report.

(** [strcmp], by its sign. *)
Definition strcmp (a b : string) : comparison := String.compare a b.

(** A node as [xzalloc] and [xstrdup] leave it. *)
Definition new_report_node (symname : string) : tui_report_node :=
  TuiReportNode [] symname 0 0 0 0 0 0 0 0.

Definition set_r_totals (time self_time calls : Z) (node : tui_report_node) :=
  TuiReportNode (r_head node) (r_name node) time (r_min_time node)
                (r_max_time node) self_time (r_min_self_time node)
                (r_max_self_time node) (r_recursive_time node) calls.

(** [gn->n.time], ... of the occurrence [ref] in the list of graphs. *)
Definition deref_graph_node (graphs : list tui_graph) (ref : nat * gpath)
    : option tui_graph_node :=
  g ← graphs !! fst ref; node_at (ug_root g) (snd ref).

Definition prepare_report_node (graphs : list tui_graph)
    (node : tui_report_node) : option tui_report_node :=
  occurrences ← mapM (deref_graph_node graphs) (r_head node);
  let node :=
    fold_left
      (fun node gn =>
         set_r_totals
           (wrap_u64 (r_time node + n_time gn))
           (wrap_u64 (r_self_time node + wrap_u64 (n_time gn - n_child_time gn)))
           (wrap_u32 (r_calls node + n_nr_calls gn))
           node)
      occurrences node in
  Some (set_r_totals (wrap_u64 (r_time node - r_recursive_time node))
                     (r_self_time node) (r_calls node) node).

Definition cmp_report_node (a b : tui_report_node) : Z :=
  if negb (r_time a =? r_time b)
  then (if r_time b <? r_time a then 1 else -1)
  else 0.

Section report_trees.
  (** [rb_insert_color(node, root)] of utils/rbtree.c rebalances the tree
      after [rb_link_node]; it is a parameter of the model. *)
Variable rb_insert_color : nat -> rb_tree -> rb_tree.

  (** The descent of [find_report_node]: the node found, or the tree with
      the node [new] linked where the descent ended. *)
Fixpoint name_tree_link (nodes : list tui_report_node) (symname : string)
      (new : nat) (t : rb_tree) : option (nat + rb_tree) :=
    match t with
    | rb_leaf => Some (inr (rb_node RB_RED rb_leaf new rb_leaf))
    | rb_node c l x r =>
        node ← nodes !! x;
        match strcmp (r_name node) symname with
        | Eq => Some (inl x)
        | Lt =>
            res ← name_tree_link nodes symname new l;
            Some (match res with
                  | inl found => inl found
                  | inr l' => inr (rb_node c l' x r)
                  end)
        | Gt =>
            res ← name_tree_link nodes symname new r;
            Some (match res with
                  | inl found => inl found
                  | inr r' => inr (rb_node c l x r')
                  end)
        end
    end.

Definition find_report_node (report : tui_report) (symname : string)
      : option (nat * tui_report) :=
    let new := length (rp_nodes report) in
    res ← name_tree_link (rp_nodes report) symname new (name_tree report);
    match res with
    | inl found => Some (found, report)
    | inr linked =>
        Some (new,
              TuiReport (rp_nodes report ++ [new_report_node symname])
                        (rb_insert_color new linked) (sort_tree report)
                        (nr_sess report) (wrap_int (nr_func report + 1)))
    end.

  (** The descent of [sort_report_node]. *)
Fixpoint sort_tree_link (nodes : list tui_report_node)
      (node : tui_report_node) (new : nat) (t : rb_tree) : option rb_tree :=
    match t with
    | rb_leaf => Some (rb_node RB_RED rb_leaf new rb_leaf)
    | rb_node c l x r =>
        iter ← nodes !! x;
        if cmp_report_node iter node <? 0 then
          l' ← sort_tree_link nodes node new l; Some (rb_node c l' x r)
        else
          r' ← sort_tree_link nodes node new r; Some (rb_node c l x r')
    end.

Definition sort_report_node (graphs : list tui_graph) (report : tui_report)
      (ptr : nat) : option tui_report :=
    node ← rp_nodes report !! ptr;
    node ← prepare_report_node graphs node;
    let nodes := <[ptr := node]> (rp_nodes report) in
    linked ← sort_tree_link nodes node ptr (sort_tree report);
    Some (TuiReport nodes (name_tree report) (rb_insert_color ptr linked)
                    (nr_sess report) (nr_func report)).

  (** The walk over the name tree with [rb_first] and [rb_next]; the name
      tree is not changed on the way. *)
Definition sort_tui_report (graphs : list tui_graph) (report : tui_report)
      : option tui_report :=
    foldl (fun report ptr => report ← report; sort_report_node graphs report ptr)
          (Some report) (rb_inorder (name_tree report)).
End report_trees.

(** *** Per-window operations for the report window *)

Definition win_top_report (win : report_window) (update : bool)
    : option (option nat * report_window) :=
  node ← rb_first (sort_tree (w_ext win));
  Some (Some node, win).

Definition win_prev_report (win : report_window) (node : nat) (update : bool)
    : option (option nat * report_window) :=
  Some (rb_prev (sort_tree (w_ext win)) node, win).

Definition win_next_report (win : report_window) (node : nat) (update : bool)
    : option (option nat * report_window) :=
  Some (rb_next (sort_tree (w_ext win)) node, win).

Definition report_ops : tui_window_ops nat tui_report := {|
  ops_prev := win_prev_report;
  ops_next := win_next_report;
  ops_top := win_top_report;
  ops_parent := win_parent_no;
  ops_sibling_prev := win_sibling_prev_no win_prev_report;
  ops_sibling_next := win_sibling_next_no win_next_report;
  ops_needs_blank := win_needs_blank_no
|}.

(** *** Vocabulary for the statements about windows *)

(** The screen row of the [k]-th element of a sequence of rows, the first
    one being on row 0: one row per element, and one more wherever a blank
    separator row is needed between two neighbours. *)
Fixpoint row_index {N : Type} (blank : N -> N -> bool) (rows : list N)
    (k : nat) : Z :=
  match k with
  | O => 0
  | S k' =>
      row_index blank rows k' + 1 +
      match rows !! k', rows !! k with
      | Some a, Some b => if blank a b then 1 else 0
      | _, _ => 0
      end
  end.

(** At the node [x] of a window the two step primitives undo each other:
    whenever one of them returns a node, the other one returns [x] from
    there (whatever the update flags), and neither faults. *)
Definition steps_inverse {N X : Type} (ops : tui_window_ops N X)
    (win : tui_window N X) (x : N) : Prop :=
  (forall u, exists r win', ops_prev ops win x u = Some (r, win')) /\
  (forall u, exists r win', ops_next ops win x u = Some (r, win')) /\
  (forall u y win', ops_prev ops win x u = Some (Some y, win') ->
     forall u', exists win'', ops_next ops win' y u' = Some (Some x, win'')) /\
  (forall u y win', ops_next ops win x u = Some (Some y, win') ->
     forall u', exists win'', ops_prev ops win' y u' = Some (Some x, win'')).

(** A graph window over a tree, as [xzalloc] and [tui_graph_init] leave it
    before [tui_window_init]: masks of [max_stack] cleared entries. *)
Definition sample_graph_window (root : tui_graph_node) (max_stack : nat)
    : graph_window :=
  TuiWindow None None None 0 0 0
            (TuiGraph (Some 0%nat) root None 0 0 0 0
                      (replicate max_stack false) (replicate max_stack false)
                      false).

(** *** Auxiliary definitions for the proofs about folding *)

Definition sum_nodes (cs : list tui_graph_node) : Z :=
  fold_right (fun c acc => nr_nodes c + acc) 0 cs.

Definition sum_diff (xs ys : list tui_graph_node) : Z :=
  fold_right (fun xy acc => flag_diff (fst xy) (snd xy) + acc) 0 (zip xs ys).

(** The result of [fold_graph_node], field by field. *)
Definition fold_tree (fold : bool) (node : tui_graph_node) : tui_graph_node :=
  snd (fold_graph_node fold node).

Definition fold_body (fold : bool) (child : tui_graph_node) (count : Z) :=
  let '(k, child') := fold_graph_node fold child in
  (wrap_int (count + k), child').

(** The count returned is the number of flags that changed. *)
Definition count_ok (fold : bool) (c : tui_graph_node) : Prop :=
  nr_nodes c <= INT_MAX ->
  fst (fold_graph_node fold c) = flag_diff c (fold_tree fold c) /\
  0 <= flag_diff c (fold_tree fold c) <= nr_nodes c.

(** The two window operations as one loop over the children. *)
Definition win_fold (fold : bool) (curr : tui_graph_node) : bool * tui_graph_node :=
  let r := for_each_entry (fold_body fold) (n_head curr) 0 in
  (int_to_bool (fst r), set_head (snd r) curr).

(** *** Auxiliary definitions for the proofs about traversal *)

(** The node at which the downward loop of [graph_prev_node] ends. *)
Definition spine (n : tui_graph_node) (p : gpath) : gpath :=
  (graph_prev_descend n p 0 None).1.1.

(** The node returned by the upward loop of [graph_next_node]. *)
Definition climb_node (root : tui_graph_node) (n : gpath) :=
  step_node (graph_next_climb root n 0 None).

(** The next row, if there is one. *)
Definition next_of (root : tui_graph_node) (x : gpath) : option gpath :=
  match step_node (graph_next_node root x 0 None) with
  | Some (Some y) => Some y
  | _ => None
  end.

(** The cursor of [win] is on the [j]-th of [rows] and the top of the screen
    on the [i]-th, [R] holding of the state of the view. *)
Definition on_rows {N X : Type} (rows : list N) (B : nat) (R : X -> Prop)
    (blank : N -> N -> bool) (win : tui_window N X) (i j : nat) : Prop :=
  R (w_ext win) /\ (i <= j)%nat /\ (j <= B)%nat /\
  is_Some (rows !! j) /\
  w_top win = rows !! i /\ w_curr win = rows !! j /\
  top_index win = row_index blank rows i /\
  curr_index win = row_index blank rows j.

(** A report of two functions after sorting: ["f"] (total 10) before
    ["g"] (total 5), the cursor and the top on ["f"]. *)
Definition sample_report : tui_report :=
  TuiReport [TuiReportNode [] "f" 10 10 10 4 4 4 0 1;
             TuiReportNode [] "g" 5 5 5 5 5 5 0 1]
            (rb_node RB_BLACK (rb_node RB_RED rb_leaf 1%nat rb_leaf) 0%nat rb_leaf)
            (rb_node RB_BLACK rb_leaf 0%nat (rb_node RB_RED rb_leaf 1%nat rb_leaf))
            1 2.

Definition sample_report_window : report_window :=
  TuiWindow (Some 0%nat) (Some 0%nat) (Some 0%nat) 0 0 0 sample_report.

(** ** The partial graph ([append_graph_node], [copy_graph_node],
    [build_partial_graph]) *)

(** Apply [f] to the node at [p]; the tree is returned as it is when there
    is no such node. *)
Fixpoint update_at (root : tui_graph_node) (p : gpath)
    (f : tui_graph_node -> tui_graph_node) : tui_graph_node :=
  match p with
  | [] => f root
  | i :: parent =>
      update_at root parent
        (fun n => match n_head n !! i with
                  | Some c => set_head (<[i := f c]> (n_head n)) n
                  | None => n
                  end)
  end.

Definition set_times (time child_time nr_calls : Z) (node : tui_graph_node) :=
  TuiGraphNode (n_addr node) (n_name node) (n_nr_edges node) nr_calls
               time child_time (n_head node) (graph node) (link node)
               (folded node).

(** [append_graph_node(dst, graph, name)] on the node [dst] itself: the
    node with its new last child, and the index of that child.  The new
    node is zeroed but for its name and its graph ([owner]). *)
Definition append_graph_node (dst : tui_graph_node) (owner : option nat)
    (name : string) : tui_graph_node * nat :=
  let node := TuiGraphNode 0 name 0 0 0 0 [] owner false false in
  (TuiGraphNode (n_addr dst) (n_name dst) (wrap_int (n_nr_edges dst + 1))
                (n_nr_calls dst) (n_time dst) (n_child_time dst)
                (n_head dst ++ [node]) (graph dst) (link dst) (folded dst),
   length (n_head dst)).

(** The same on the node at [dst] of a tree: the tree and the pointer to
    the new node. *)
Definition append_graph_node_at (root : tui_graph_node) (dst : gpath)
    (owner : option nat) (name : string) : option (tui_graph_node * gpath) :=
  d ← node_at root dst;
  Some (update_at root dst (fun d => fst (append_graph_node d owner name)),
        length (n_head d) :: dst).

(** [copy_graph_node(dst, src)], [dst] being the subtree that is updated:
    every child of [src] is added to the first child of [dst] of the same
    name, which is appended first when there is none, and its own children
    are copied below that node in the same way. *)
Fixpoint copy_graph_node (src : tui_graph_node) (dst : tui_graph_node)
    : tui_graph_node :=
  match src with
  | TuiGraphNode _ _ _ _ _ _ head owner _ _ =>
      fold_left
        (fun dst child =>
           let '(dst, i) :=
             match list_find (fun node => n_name child = n_name node) (n_head dst) with
             | Some (i, _) => (dst, i)
             | None => append_graph_node dst owner (n_name child)
             end in
           update_at dst [i]
             (fun node =>
                copy_graph_node child
                  (set_times (wrap_u64 (n_time node + n_time child))
                             (wrap_u64 (n_child_time node + n_child_time child))
                             (wrap_int (n_nr_calls node + n_nr_calls child))
                             node)))
        head dst
  end.

(** The loop over the ancestors of an occurrence in the back-trace part:
    [parent] walks up from the occurrence in its own tree [tree] while
    [tmp] walks down in the partial graph [pg]; [n] counts the rounds. *)
Fixpoint backtrace_loop (tree : tui_graph_node) (node : tui_graph_node)
    (owner : option nat) (parent : gpath) (pg : tui_graph_node) (tmp : gpath)
    (n : Z) : option (tui_graph_node * gpath * Z) :=
  match parent with
  | [] => Some (pg, tmp, n)
  | _ :: up =>
      p ← node_at tree parent;
      '(pg, tmp) ← append_graph_node_at pg tmp owner (n_name p);
      let pg :=
        update_at pg tmp
          (set_times (n_time node) (n_child_time node) (n_nr_calls node)) in
      (* fold backtrace at the first child *)
      let pg := if n =? 1 then update_at pg tmp (set_folded true) else pg in
      backtrace_loop tree node owner up pg tmp (wrap_int (n + 1))
  end.

(** Modelled from the spec: [graph_destroy] of utils/graph.c, which is not
    part of the sources at hand, discards the previous synthetic tree: the
    root is left without children. *)
Definition graph_destroy (g : tui_graph) : tui_graph :=
  set_ug_root (set_head [] (ug_root g)) g.

Definition set_name (name : string) (node : tui_graph_node) :=
  TuiGraphNode (n_addr node) name (n_nr_edges node) (n_nr_calls node)
               (n_time node) (n_child_time node) (n_head node) (graph node)
               (link node) (folded node).

Definition set_ug_sess (sess : option nat) (g : tui_graph) : tui_graph :=
  TuiGraph sess (ug_root g) (disp g) (top_depth g) (curr_depth g)
           (disp_depth g) (width g) (top_mask g) (disp_mask g) (disp_update g).

(** The occurrences of [root_node] that belong to the graph [target]
    ([node->graph == &target->ug]), each with the tree it lives in and its
    pointer there. *)
Definition target_entries (graphs : list tui_graph)
    (root_node : tui_report_node) (target : nat)
    : option (list (tui_graph_node * gpath * tui_graph_node)) :=
  entries ← mapM (fun ref =>
                    g ← graphs !! fst ref;
                    node ← node_at (ug_root g) (snd ref);
                    Some (ug_root g, snd ref, node))
                 (r_head root_node);
  Some (filter (fun e => graph (snd e) = Some target) entries).

(** The body of the first loop of [build_partial_graph] over the
    occurrences: the branch of one occurrence [e] (its tree, its pointer
    and the node itself) is hung below the back-trace node [root]. *)
Definition back_trace_entry (root : gpath) (owner : option nat)
    (pg : option tui_graph_node) (e : tui_graph_node * gpath * tui_graph_node)
    : option tui_graph_node :=
  pg ← pg;
  let '(tree, ptr, node) := e in
  '(pg, tmp, n) ← backtrace_loop tree node owner ptr pg root 0;
  (* but, unfold it if it's the last child *)
  Some (if n =? 2 then update_at pg tmp (set_folded false) else pg).

Definition build_partial_graph (graphs : list tui_graph)
    (partial_graph : graph_window) (root_node : tui_report_node)
    (target : nat) : option graph_window :=
  tg ← graphs !! target;
  entries ← target_entries graphs root_node target;
  let g := graph_destroy (w_ext partial_graph) in
  let g := set_ug_sess (ug_sess tg) g in
  let str := ("=== Function Call Graph for '" +:+ r_name root_node +:+ "' ===")%string in
  let pg := set_times 0 0 0 (set_name str (ug_root g)) in
  (* special node *)
  '(pg, root) ← append_graph_node_at pg [] (Some target)
                  "========== Back-trace ==========";
  pg ← foldl (back_trace_entry root (Some target)) (Some pg) entries;
  (* special node *)
  '(pg, root) ← append_graph_node_at pg [] (Some target)
                  "========== Call Graph ==========";
  '(pg, root) ← append_graph_node_at pg root (Some target) (r_name root_node);
  let pg :=
    foldl
      (fun pg e =>
         let '(_, _, node) := e in
         let pg :=
           update_at pg root
             (fun r => set_times (wrap_u64 (n_time r + n_time node))
                                 (wrap_u64 (n_child_time r + n_child_time node))
                                 (wrap_int (n_nr_calls r + n_nr_calls node)) r) in
         update_at pg root (copy_graph_node node))
      pg entries in
  win ← tui_window_init graph_ops (set_ext (set_ug_root pg g) partial_graph);
  let g := w_ext win in
  Some (set_ext (set_top_state (top_depth g)
                               (replicate (length (top_mask g)) false) g) win).

(** *** Auxiliary definitions for the proofs about the partial graph *)

(** The branch that [backtrace_loop] hangs below [tmp], as a value: one
    node per ancestor, each the only child of the one before. *)
Fixpoint back_trace_chain (tree node : tui_graph_node) (owner : option nat)
    (n : Z) (parent : gpath) : list tui_graph_node :=
  match parent with
  | [] => []
  | _ :: up =>
      match node_at tree parent with
      | Some p =>
          [TuiGraphNode 0 (n_name p)
                        (match up with [] => 0 | _ => wrap_int (0 + 1) end)
                        (n_nr_calls node) (n_time node) (n_child_time node)
                        (back_trace_chain tree node owner (wrap_int (n + 1)) up)
                        owner false (n =? 1)]
      | None => []
      end
  end.

(** A node with one more child, when there is one to add. *)
Definition graft (cs : list tui_graph_node) (d : tui_graph_node)
    : tui_graph_node :=
  match cs with
  | [] => d
  | _ =>
      TuiGraphNode (n_addr d) (n_name d) (wrap_int (n_nr_edges d + 1))
                   (n_nr_calls d) (n_time d) (n_child_time d)
                   (n_head d ++ cs) (graph d) (link d) (folded d)
  end.

(** The pointer to the last node of a chain of [len] nodes hung below
    [tmp] as its child number [base]. *)
Definition chain_end (len base : nat) (tmp : gpath) : gpath :=
  match len with
  | O => tmp
  | S k => replicate k 0%nat ++ base :: tmp
  end.

(** Every ancestor of [ptr], itself included, is a node of [tree]. *)
Definition path_in (tree : tui_graph_node) (ptr : gpath) : Prop :=
  forall k, (k <= length ptr)%nat -> is_Some (node_at tree (drop k ptr)).

(** The branch of an occurrence in the back-trace part once its loop is
    over and the fold of a two-level branch is undone. *)
Definition back_trace_branch (tree node : tui_graph_node) (owner : option nat)
    (ptr : gpath) : list tui_graph_node :=
  let chain := back_trace_chain tree node owner 0 ptr in
  if bool_decide (length ptr = 2%nat)
  then (fun c => update_at c [0%nat] (set_folded false)) <$> chain
  else chain.

(** One round of the second loop, call-graph part, on the pivot node. *)
Definition call_graph_entry (r : tui_graph_node)
    (e : tui_graph_node * gpath * tui_graph_node) : tui_graph_node :=
  copy_graph_node (snd e)
    (set_times (wrap_u64 (n_time r + n_time (snd e)))
               (wrap_u64 (n_child_time r + n_child_time (snd e)))
               (wrap_int (n_nr_calls r + n_nr_calls (snd e))) r).

(** A node as [append_graph_node] allocates it. *)
Definition new_graph_node (owner : option nat) (name : string) :=
  TuiGraphNode 0 name 0 0 0 0 [] owner false false.

(** An occurrence whose pointer is valid and not deeper than [INT_MAX]. *)
Definition entry_ok (e : tui_graph_node * gpath * tui_graph_node) : Prop :=
  node_at (fst (fst e)) (snd (fst e)) = Some (snd e) /\
  Z.of_nat (length (snd (fst e))) <= INT_MAX.

(** The pointer to the last node of a chain, from the node it hangs on. *)
Definition rel_end (len base : nat) : gpath :=
  match len with
  | O => []
  | S k => replicate k 0%nat ++ [base]
  end.

(** What one round of the first loop does to the back-trace node. *)
Definition back_trace_fun (e : tui_graph_node * gpath * tui_graph_node)
    (owner : option nat) (d : tui_graph_node) : tui_graph_node :=
  let '(tree, ptr, node) := e in
  let g := graft (back_trace_chain tree node owner 0 ptr) d in
  if Nat.iter (length ptr) (fun z => wrap_int (z + 1)) 0 =? 2
  then update_at g (rel_end (length ptr) (length (n_head d))) (set_folded false)
  else g.

(** The name of the root of the partial graph of a function. *)
Definition partial_graph_title (name : string) : string :=
  ("=== Function Call Graph for '" +:+ name +:+ "' ===")%string.

(** *** Vocabulary for the statements about the partial graph *)

(** What the back-trace branch of an occurrence looks like at its level
    [m] (0 for the node hung on the section node): it is named after the
    ancestor [m] steps above the occurrence, carries the times and the
    count of the occurrence, has one child unless it is the last level, and
    is folded exactly when it is the second level of a branch of more than
    two levels. *)
Definition back_trace_level (e : tui_graph_node * gpath * tui_graph_node)
    (branch : tui_graph_node) (m : nat) : Prop :=
  let '(tree, ptr, node) := e in
  exists nd anc,
    node_at branch (replicate m 0%nat) = Some nd /\
    node_at tree (drop m ptr) = Some anc /\
    n_name nd = n_name anc /\
    n_time nd = n_time node /\ n_child_time nd = n_child_time node /\
    n_nr_calls nd = n_nr_calls node /\
    length (n_head nd) = (if (S m <? length ptr)%nat then 1 else 0)%nat /\
    (folded nd = true <-> m = 1%nat /\ (2 < length ptr)%nat).

(** The trace of the specification: [main -> foo -> bar] twice and
    [main -> baz -> bar] once, below the root of the session. *)
Definition scenario_node (name : string) (time child_time calls : Z)
    (head : list tui_graph_node) : tui_graph_node :=
  TuiGraphNode 0 name (Z.of_nat (length head)) calls time child_time head
               (Some 0%nat) true false.

Definition scenario_tree : tui_graph_node :=
  scenario_node "a.out" 100 100 1
    [scenario_node "main" 100 90 1
       [scenario_node "foo" 60 50 2 [scenario_node "bar" 50 0 2 []];
        scenario_node "baz" 30 20 1 [scenario_node "bar" 20 0 1 []]]].

Definition scenario_graphs : list tui_graph :=
  [TuiGraph (Some 0%nat) scenario_tree None 0 0 0 0
            (replicate 8 false) (replicate 8 false) false].

(** The report node of [bar] with its two occurrences. *)
Definition scenario_bar : tui_report_node :=
  TuiReportNode [(0%nat, [0%nat; 0%nat; 0%nat]); (0%nat, [0%nat; 1%nat; 0%nat])]
                "bar" 0 50 20 0 50 20 0 0.

Definition scenario_partial : graph_window :=
  sample_graph_window (sample_node "" [] false) 8.

(** The sum of [g] over a list of nodes. *)
Definition children_sum (g : tui_graph_node -> Z) (l : list tui_graph_node) : Z :=
  foldr (fun c acc => g c + acc) 0 l.



(** The sum of a field over the occurrences. *)
Definition entries_sum (g : tui_graph_node -> Z)
    (entries : list (tui_graph_node * gpath * tui_graph_node)) : Z :=
  foldr (fun e acc => g (snd e) + acc) 0 entries.

(** [node] after the three [+=] of [copy_graph_node] for [child]. *)
Definition accumulate (node child : tui_graph_node) : tui_graph_node :=
  set_times (wrap_u64 (n_time node + n_time child))
            (wrap_u64 (n_child_time node + n_child_time child))
            (wrap_int (n_nr_calls node + n_nr_calls child)) node.

(** One round of the loop of [copy_graph_node], [copy] being the function
    called on the child. *)
Definition copy_step (owner : option nat)
    (copy : tui_graph_node -> tui_graph_node -> tui_graph_node)
    (dst child : tui_graph_node) : tui_graph_node :=
  let '(dst, i) :=
    match list_find (fun node => n_name child = n_name node) (n_head dst) with
    | Some (i, _) => (dst, i)
    | None => append_graph_node dst owner (n_name child)
    end in
  update_at dst [i] (fun node => copy child (accumulate node child)).

(** *** Vocabulary for the statements about the ranking *)

(** The total time of the report node [x], 0 for a pointer to nothing. *)
Definition total_of (nodes : list tui_report_node) (x : nat) : Z :=
  default 0 (r_time <$> nodes !! x).

(** [a] may stand before [b] in the ranking. *)
Definition ranks_before (nodes : list tui_report_node) (a b : nat) : Prop :=
  total_of nodes b <= total_of nodes a.

(** Insertion into a ranking: before the first entry of a smaller total,
    hence after the entries of the same total. *)
Fixpoint rank_insert (nodes : list tui_report_node) (new : nat)
    (l : list nat) : list nat :=
  match l with
  | [] => [new]
  | x :: rest =>
      if total_of nodes x <? total_of nodes new
      then new :: x :: rest
      else x :: rank_insert nodes new rest
  end.

(** The nodes and the ranking after finalizing the nodes [names] in turn,
    without any tree. *)
Definition rank_fold (graphs : list tui_graph)
    (start : list tui_report_node * list nat) (names : list nat)
    : option (list tui_report_node * list nat) :=
  foldl (fun state ptr =>
           '(nodes, ranking) ← state;
           node ← nodes !! ptr;
           node ← prepare_report_node graphs node;
           let nodes := <[ptr := node]> nodes in
           Some (nodes, rank_insert nodes ptr ranking))
        (Some start) names.

(** The pointer [x] is to a report node whose occurrences are all nodes of
    the graphs. *)
Definition node_ready (graphs : list tui_graph)
    (nodes : list tui_report_node) (x : nat) : Prop :=
  exists node, nodes !! x = Some node /\
    Forall (fun ref => is_Some (deref_graph_node graphs ref)) (r_head node).

(** The rebalancing keeps the in-order walk of the tree. *)
Definition keeps_inorder (rb_insert_color : nat -> rb_tree -> rb_tree) : Prop :=
  forall x t, rb_inorder (rb_insert_color x t) = rb_inorder t.

(** A report with the nodes ["bar"] and ["foo"] of the trace of the
    specification, before finalization: the totals are zero, the ranking
    tree is empty, and the name tree holds the greater name first. *)
Definition scenario_report : tui_report :=
  TuiReport [TuiReportNode [(0%nat, [0%nat; 0%nat; 0%nat]);
                            (0%nat, [0%nat; 1%nat; 0%nat])]
                           "bar" 0 20 25 0 20 25 0 0;
             TuiReportNode [(0%nat, [0%nat; 0%nat])] "foo" 0 30 30 0 5 5 0 0]
            (rb_node RB_BLACK (rb_node RB_RED rb_leaf 1%nat rb_leaf) 0%nat rb_leaf)
            rb_leaf 1 2.

(** ** The builder ([get_graph], [build_tui_node]) *)

Inductive uftrace_record_type : Type :=
  UFTRACE_ENTRY | UFTRACE_EXIT | UFTRACE_LOST | UFTRACE_EVENT.

(** What [build_tui_node] reads of a [struct uftrace_record]. *)
Record uftrace_record : Type := UftraceRecord {
  rec_type : uftrace_record_type;
  rec_time : Z;
  rec_addr : Z
}.

Record fstack : Type := Fstack {
  fs_addr : Z;
  fs_total_time : Z;
  fs_child_time : Z
}.

(** What [build_tui_node] reads of a [struct ftrace_task_handle]: [tid],
    [t->pid], [func_stack] and [stack_count]. *)
Record ftrace_task_handle : Type := TaskHandle {
  tid : Z;
  t_pid : Z;
  func_stack : list fstack;
  stack_count : Z
}.

(** [task->h->sessions] with the lookups of the session reader:
    [find_task_session(sessions, tid, time)], [sessions->first],
    [is_kernel_address(&first->symtabs, addr)], and the name that
    [task_find_sym_addr] and [symbol_getname] give for a task, a time and an
    address.  A session is known by a number. *)
Record uftrace_session_link : Type := SessionLink {
  find_task_session : Z -> Z -> option nat;
  first_session : nat;
  is_kernel_address : Z -> bool;
  symbol_getname : Z -> Z -> Z -> string
}.

(** A pointer to a graph node, the literal [NULL] apart: the node at [p] of
    the graph [g] of [tui_graph_list], or the address [&graph->root] formed
    from a null [graph], where no node is.  Whether that address compares
    equal to [NULL] is up to the layout of [struct uftrace_graph], which is
    declared outside tui.c; [build_tui_node] does not tell the two apart. *)
Inductive graph_node_ptr : Type :=
| null_graph_root
| graph_node_at (g : nat) (p : gpath).

#[global] Instance graph_node_ptr_eq_dec : EqDecision graph_node_ptr.
Proof. solve_decision. Defined.

(** [struct uftrace_task_graph]: the cursor of a task. *)
Record uftrace_task_graph : Type := TaskGraph {
  tg_node : option graph_node_ptr;
  tg_graph : option nat
}.

(** The static data of tui.c that the builder works on. *)
Record tui_data : Type := TuiData {
  td_graphs : list tui_graph;
  td_report : tui_report
}.

Definition get_graph (sessions : uftrace_session_link)
    (graphs : list tui_graph) (task : ftrace_task_handle) (time addr : Z)
    : option nat :=
  let sess := find_task_session sessions (tid task) time in
  let sess :=
    match sess with
    | None => find_task_session sessions (t_pid task) time
    | Some _ => sess
    end in
  sess ← match sess with
         | None =>
             if is_kernel_address sessions addr
             then Some (first_session sessions) else None
         | Some _ => sess
         end;
  fst <$> list_find (fun graph => bool_decide (ug_sess graph = Some sess)) graphs.

(** [&graph->root]. *)
Definition root_of (graph : option nat) : graph_node_ptr :=
  match graph with
  | Some g => graph_node_at g []
  | None => null_graph_root
  end.

(** The graph node a pointer is to; none for a pointer to no node. *)
Definition deref_ptr (graphs : list tui_graph) (ptr : graph_node_ptr)
    : option tui_graph_node :=
  match ptr with
  | null_graph_root => None
  | graph_node_at g p => deref_graph_node graphs (g, p)
  end.

(** A write through a pointer to a graph node. *)
Definition update_ptr (graphs : list tui_graph) (ptr : graph_node_ptr)
    (f : tui_graph_node -> tui_graph_node) : option (list tui_graph) :=
  match ptr with
  | null_graph_root => None
  | graph_node_at g p =>
      graph ← graphs !! g;
      _ ← node_at (ug_root graph) p;
      Some (<[g := set_ug_root (update_at (ug_root graph) p f) graph]> graphs)
  end.

Definition set_link (l : bool) (node : tui_graph_node) :=
  TuiGraphNode (n_addr node) (n_name node) (n_nr_edges node) (n_nr_calls node)
               (n_time node) (n_child_time node) (n_head node) (graph node) l
               (folded node).

Definition set_graph (owner : option nat) (node : tui_graph_node) :=
  TuiGraphNode (n_addr node) (n_name node) (n_nr_edges node) (n_nr_calls node)
               (n_time node) (n_child_time node) (n_head node) owner (link node)
               (folded node).

Definition set_r_head (head : list (nat * gpath)) (node : tui_report_node) :=
  TuiReportNode head (r_name node) (r_time node) (r_min_time node)
                (r_max_time node) (r_self_time node) (r_min_self_time node)
                (r_max_self_time node) (r_recursive_time node) (r_calls node).

Definition set_r_min_max (min_time max_time min_self_time max_self_time : Z)
    (node : tui_report_node) :=
  TuiReportNode (r_head node) (r_name node) (r_time node) min_time max_time
                (r_self_time node) min_self_time max_self_time
                (r_recursive_time node) (r_calls node).

Definition set_r_recursive_time (recursive_time : Z) (node : tui_report_node) :=
  TuiReportNode (r_head node) (r_name node) (r_time node) (r_min_time node)
                (r_max_time node) (r_self_time node) (r_min_self_time node)
                (r_max_self_time node) recursive_time (r_calls node).

Definition set_rp_nodes (nodes : list tui_report_node) (report : tui_report) :=
  TuiReport nodes (name_tree report) (sort_tree report) (nr_sess report)
            (nr_func report).

(** The loop over [func_stack[0 .. stack_count - 1]]: whether a frame of
    the address of [fstack] is met. *)
Definition frame_below (task : ftrace_task_handle) (fstack : fstack) : bool :=
  existsb (fun frame => fs_addr frame =? fs_addr fstack)
          (take (Z.to_nat (stack_count task)) (func_stack task)).

Section builder.
Variable sessions : uftrace_session_link.
Variable rb_insert_color : nat -> rb_tree -> rb_tree.
  (** [graph_add_node(tg, type, name, node_size)] of utils/graph.c, which
      works on the cursor and on the graphs. *)
Variable graph_add_node :
    ftrace_task_handle -> uftrace_record_type -> string ->
    uftrace_task_graph -> list tui_graph ->
    option (uftrace_task_graph * list tui_graph).

  (** The cursor after [if (tg->node == NULL || tg->graph != graph)
      tg->node = &graph->root; tg->graph = graph;]. *)
Definition task_cursor (graph : option nat) (tg : uftrace_task_graph)
      : uftrace_task_graph :=
    match tg_node tg with
    | Some node =>
        if bool_decide (tg_graph tg <> graph)
        then TaskGraph (Some (root_of graph)) graph
        else TaskGraph (Some node) graph
    | None => TaskGraph (Some (root_of graph)) graph
    end.

  (** The block of [build_tui_node] for [UFTRACE_EXIT].  Each of the four
      tests on a minimum or a maximum writes the one field it reads. *)
Definition build_exit (task : ftrace_task_handle) (tg : uftrace_task_graph)
      (name : string) (data : tui_data) : option tui_data :=
    if stack_count task <? 0 then None else
    fstack ← func_stack task !! Z.to_nat (stack_count task);
    let total_time := fs_total_time fstack in
    let self_time := wrap_u64 (fs_total_time fstack - fs_child_time fstack) in
    '(ptr, report) ← find_report_node rb_insert_color (td_report data) name;
    node ← rp_nodes report !! ptr;
    cursor ← tg_node tg;
    graph_node ← deref_ptr (td_graphs data) cursor;
    '(graphs, node) ←
      (if negb (link graph_node) then
         match cursor with
         | graph_node_at g p =>
             graphs ← update_ptr (td_graphs data) cursor (set_link true);
             Some (graphs, set_r_head (r_head node ++ [(g, p)]) node)
         | null_graph_root => None
         end
       else Some (td_graphs data, node));
    let node :=
      set_r_min_max
        (if (r_min_time node =? 0) || (total_time <? r_min_time node)
         then total_time else r_min_time node)
        (if r_max_time node <? total_time then total_time else r_max_time node)
        (if (r_min_self_time node =? 0) || (self_time <? r_min_self_time node)
         then self_time else r_min_self_time node)
        (if r_max_self_time node <? self_time
         then self_time else r_max_self_time node)
        node in
    let node :=
      if frame_below task fstack
      then set_r_recursive_time (wrap_u64 (r_recursive_time node + total_time)) node
      else node in
    Some (TuiData graphs (set_rp_nodes (<[ptr := node]> (rp_nodes report)) report)).

Definition build_tui_node (task : ftrace_task_handle) (rec : uftrace_record)
      (tg : uftrace_task_graph) (data : tui_data)
      : option (uftrace_task_graph * tui_data) :=
    let graph :=
      get_graph sessions (td_graphs data) task (rec_time rec) (rec_addr rec) in
    let tg := task_cursor graph tg in
    let name := symbol_getname sessions (tid task) (rec_time rec) (rec_addr rec) in
    data ← match rec_type rec with
           | UFTRACE_EXIT => build_exit task tg name data
           | _ => Some data
           end;
    '(tg, graphs) ← graph_add_node task (rec_type rec) name tg (td_graphs data);
    graphs ← match tg_node tg with
             | Some node =>
                 if bool_decide (node <> root_of graph)
                 then update_ptr graphs node (set_graph graph)
                 else Some graphs
             | None => Some graphs
             end;
    Some (tg, TuiData graphs (td_report data)).

  (** The records of a task in turn, each with the call stack of the task at
      that record. *)
Definition build_tui_nodes (trace : list (ftrace_task_handle * uftrace_record))
      (tg : uftrace_task_graph) (data : tui_data)
      : option (uftrace_task_graph * tui_data) :=
    foldl (fun state step =>
             '(tg, data) ← state;
             build_tui_node (fst step) (snd step) tg data)
          (Some (tg, data)) trace.
End builder.

(** Modelled from the spec: [graph_add_node] of utils/graph.c, which is not
    part of the sources at hand.  On a call-entry record a child is created
    or reused under the current node, keyed by the name, and the cursor
    descends; on a call-exit record the inclusive time, the child-inclusive
    time and the call count of the current node are updated from the frame
    of the task and the cursor ascends to the parent.  Other records, and a
    task without a current node, change nothing; a current node that is no
    node of a graph is a fault. *)
Definition graph_add_node (task : ftrace_task_handle)
    (type : uftrace_record_type) (name : string) (tg : uftrace_task_graph)
    (graphs : list tui_graph) : option (uftrace_task_graph * list tui_graph) :=
  match tg_node tg with
  | None => Some (tg, graphs)
  | Some cursor =>
      match type with
      | UFTRACE_ENTRY =>
          curr ← deref_ptr graphs cursor;
          match cursor with
          | null_graph_root => None
          | graph_node_at g p =>
              match list_find (fun c => String.eqb (n_name c) name) (n_head curr) with
              | Some (i, _) =>
                  Some (TaskGraph (Some (graph_node_at g (i :: p))) (tg_graph tg),
                        graphs)
              | None =>
                  graphs ← update_ptr graphs cursor
                             (fun d => set_head (n_head d ++ [new_graph_node None name]) d);
                  Some (TaskGraph (Some (graph_node_at g (length (n_head curr) :: p)))
                                  (tg_graph tg),
                        graphs)
              end
          end
      | UFTRACE_EXIT =>
          if stack_count task <? 0 then None else
          fstack ← func_stack task !! Z.to_nat (stack_count task);
          graphs ← update_ptr graphs cursor
                     (fun n => set_times (wrap_u64 (n_time n + fs_total_time fstack))
                                         (wrap_u64 (n_child_time n + fs_child_time fstack))
                                         (wrap_int (n_nr_calls n + 1)) n);
          Some (TaskGraph match cursor with
                          | graph_node_at g (_ :: parent) => Some (graph_node_at g parent)
                          | _ => None
                          end
                          (tg_graph tg),
                graphs)
      | _ => Some (tg, graphs)
      end
  end.

(** *** A function that calls itself once *)

(** One session, which every task and time resolve to, and one name. *)
Definition recursion_sessions : uftrace_session_link :=
  SessionLink (fun _ _ => Some 0%nat) 0%nat (fun _ => false) (fun _ _ _ => "f").

(** The graph of the session and the report, as [tui_setup] leaves them. *)
Definition recursion_data : tui_data :=
  TuiData [TuiGraph (Some 0%nat) (new_graph_node None "a.out") None 0 0 0 0 [] []
                    false]
          (TuiReport [] rb_leaf rb_leaf 1 0).

(** [f] is entered at 4096, enters itself, and both calls return: the
    inner one after [inner], the outer one after [outer].  A record comes
    with the call stack of the task as the reader has it then: the frame of
    an exit is [func_stack[stack_count]]. *)
Definition recursion_trace (inner outer : Z)
    : list (ftrace_task_handle * uftrace_record) :=
  [(TaskHandle 1 1 [Fstack 4096 0 0] 1, UftraceRecord UFTRACE_ENTRY 0 4096);
   (TaskHandle 1 1 [Fstack 4096 0 0; Fstack 4096 0 0] 2,
    UftraceRecord UFTRACE_ENTRY 1 4096);
   (TaskHandle 1 1 [Fstack 4096 0 0; Fstack 4096 inner 0] 1,
    UftraceRecord UFTRACE_EXIT (1 + inner) 4096);
   (TaskHandle 1 1 [Fstack 4096 outer inner; Fstack 4096 inner 0] 0,
    UftraceRecord UFTRACE_EXIT outer 4096)].

(** The report after the trace of the recursion has been read and the
    report has been sorted, from the data of [tui_setup]. *)
Definition recursion_report (rb_insert_color : nat -> rb_tree -> rb_tree)
    (inner outer : Z) : option tui_report :=
  '(_, data) ← build_tui_nodes recursion_sessions rb_insert_color graph_add_node
                 (recursion_trace inner outer) (TaskGraph None None)
                 recursion_data;
  sort_tui_report rb_insert_color (td_graphs data) (td_report data).

(** A frame of the address of [fstack] lies below the frame of the exit. *)
Definition recursive_frame (task : ftrace_task_handle) (fstack : fstack) : Prop :=
  exists i frame,
    Z.of_nat i < stack_count task /\
    func_stack task !! i = Some frame /\
    fs_addr frame = fs_addr fstack.

(** The data after the two entries of the trace of the recursion: the
    cursor of the task is on the inner [f], at [[0; 0]] of the graph 0. *)
Definition recursion_entered : tui_data :=
  TuiData [TuiGraph (Some 0%nat)
                    (set_head [set_head [new_graph_node (Some 0%nat) "f"]
                                        (new_graph_node (Some 0%nat) "f")]
                              (new_graph_node None "a.out"))
                    None 0 0 0 0 [] [] false]
          (TuiReport [] rb_leaf rb_leaf 1 0).

(** *** A record of no session *)

(** A session reader that resolves no task, and no address to the kernel. *)
Definition unresolved_sessions : uftrace_session_link :=
  SessionLink (fun _ _ => None) 0%nat (fun _ => false) (fun _ _ _ => "f").

(** The exit of a call of 30 time units at 4096, of a task seen for the
    first time. *)
Definition unresolved_task : ftrace_task_handle :=
  TaskHandle 7 7 [Fstack 4096 30 0] 0.

Definition unresolved_exit : uftrace_record :=
  UftraceRecord UFTRACE_EXIT 50 4096.


(** ** Times on the screen ([print_time]) *)

(** The calls of curses that the views make. *)
Inductive curses_call : Type :=
| curses_printw (format : string) (args : list printw_arg)
| curses_attron (attrs : Z)
| curses_attroff (attrs : Z)
| curses_move (y x : Z).

Definition C_NORMAL : Z := 0.
Definition C_HEADER : Z := 1.
Definition C_GREEN : Z := 2.
Definition C_YELLOW : Z := 3.
Definition C_RED : Z := 4.

(** [COLOR_PAIR(n)] of curses, left as it is. *)
Definition COLOR_PAIR (n : Z) : Z := n.

(** The arrays [units], [pairs] and [limit] of [print_time]. *)
Definition time_units : list string := ["us"; "ms"; " s"; " m"; " h"].
Definition time_pairs : list Z := [C_NORMAL; C_GREEN; C_YELLOW; C_RED; C_RED].
Definition time_limit : list Z := [1000; 1000; 1000; 60; 24; INT_MAX].

(** The loop [for (idx = 0; idx < ARRAY_SIZE(units); idx++)] from [idx] on,
    [rounds] being the number of units left: the index, the time and the
    fraction when the loop is left.  A read past the end of [limit] has no
    value. *)
Fixpoint print_time_loop (rounds idx : nat) (ntime fract : Z)
    : option (nat * Z * Z) :=
  match rounds with
  | O => Some (idx, ntime, fract)
  | S rounds =>
      limit ← time_limit !! idx;
      let fract := ntime mod limit in
      let ntime := ntime / limit in
      next ← time_limit !! S idx;
      if ntime <? next then Some (idx, ntime, fract)
      else print_time_loop rounds (S idx) ntime fract
  end.

(** [print_time(ntime)]; the format of a [uint64_t] ([PRIu64]) is written
    [lu].  A read past the end of [units] or [pairs] has no value. *)
Definition print_time (ntime : Z) : option (list curses_call) :=
  if ntime =? 0 then
    Some [curses_printw "%7s %2s" [arg_string ""; arg_string ""]]
  else
    '(idx, ntime, fract) ← print_time_loop (length time_units) 0 ntime 0;
    let '(ntime, fract) :=
      (* for some error cases *)
      if 999 <? ntime then (999, 999) else (ntime, fract) in
    unit ← time_units !! idx;
    pair ← time_pairs !! idx;
    Some [curses_printw "%3lu.%03lu " [arg_int ntime; arg_int fract];
          curses_attron (COLOR_PAIR pair);
          curses_printw "%2s" [arg_string unit];
          curses_attroff (COLOR_PAIR pair)].

(** The time as it is written: the number before the point, the number
    after it, and the index of the unit. *)
Definition time_shown (value fract : Z) (idx : nat) (out : list curses_call) : Prop :=
  exists unit pair,
    time_units !! idx = Some unit /\ time_pairs !! idx = Some pair /\
    out = [curses_printw "%3lu.%03lu " [arg_int value; arg_int fract];
           curses_attron (COLOR_PAIR pair);
           curses_printw "%2s" [arg_string unit];
           curses_attroff (COLOR_PAIR pair)].

(** ** The name tree ([find_report_node]) *)

(** The name of the report node [x]. *)
Definition name_of (nodes : list tui_report_node) (x : nat) : string :=
  default "" (r_name <$> nodes !! x).

(** [a] stands before [b] in the name tree: its name is the greater one. *)
Definition name_above (nodes : list tui_report_node) (a b : nat) : Prop :=
  strcmp (name_of nodes b) (name_of nodes a) = Lt.

(** The name tree points to report nodes, and its in-order walk goes down
    the names strictly. *)
Definition name_tree_ok (report : tui_report) : Prop :=
  Forall (fun x => is_Some (rp_nodes report !! x)) (rb_inorder (name_tree report)) /\
  StronglySorted (name_above (rp_nodes report)) (rb_inorder (name_tree report)).

(** ** The exit block of the builder *)

(** What the exit block writes to the report node, the occurrence apart:
    the minima and maxima, then the recursive time. *)
Definition exit_node (task : ftrace_task_handle) (fstack : fstack)
    (node : tui_report_node) : tui_report_node :=
  let total_time := fs_total_time fstack in
  let self_time := wrap_u64 (fs_total_time fstack - fs_child_time fstack) in
  let node :=
    set_r_min_max
      (if (r_min_time node =? 0) || (total_time <? r_min_time node)
       then total_time else r_min_time node)
      (if r_max_time node <? total_time then total_time else r_max_time node)
      (if (r_min_self_time node =? 0) || (self_time <? r_min_self_time node)
       then self_time else r_min_self_time node)
      (if r_max_self_time node <? self_time
       then self_time else r_max_self_time node)
      node in
  if frame_below task fstack
  then set_r_recursive_time (wrap_u64 (r_recursive_time node + total_time)) node
  else node.

(** Every occurrence on the list of a report node is a node of the graphs
    that is marked as linked, and no occurrence is listed twice, be it by
    one report node or by two. *)
Definition links_ok (data : tui_data) : Prop :=
  (forall x node ref,
     rp_nodes (td_report data) !! x = Some node -> ref ∈ r_head node ->
     exists gn, deref_graph_node (td_graphs data) ref = Some gn /\ link gn = true) /\
  NoDup (concat (map r_head (rp_nodes (td_report data)))).

(** ** More common window operations *)

Definition set_search_count {N X : Type} (v : Z) (win : tui_window N X) :=
  TuiWindow (w_top win) (w_curr win) (w_old win) (top_index win)
            (curr_index win) v (w_ext win).

Section window_engine_pages.
Context {N X : Type} `{EqDecision N}.
Variable ops : tui_window_ops N X.
Variable LINES : Z.
Implicit Type win : tui_window N X.

  (** The loop of [tui_window_page_up]: the top goes up and takes
      [curr_index] with it until a page lies between it and [top_index], or
      there is no row above.  Every round takes at least one off
      [curr_index]; [None] stands for a fault as well as for a loop that did
      not end within the rounds given. *)
Fixpoint page_up_loop (rounds : nat) win : option (tui_window N X) :=
    if top_index win - curr_index win <? LINES - 2 then
      match rounds with
      | O => None
      | S rounds =>
          top ← w_top win;
          '(node, win) ← ops_prev ops win top true;
          match node with
          | None => Some win
          | Some node =>
              let win := set_curr_index (wrap_int (curr_index win - 1)) win in
              let win :=
                if ops_needs_blank ops win node (Some top)
                then set_curr_index (wrap_int (curr_index win - 1)) win
                else win in
              page_up_loop rounds (set_top (Some node) win)
          end
      end
    else Some win.

Definition page_up_rounds win : nat :=
    Z.to_nat (LINES - 2 - (top_index win - curr_index win)).

Definition tui_window_page_up win : option (tui_window N X) :=
    if bool_decide (w_curr win <> w_top win) then
      Some (set_curr_index (top_index win) (set_curr (w_top win) win))
    else
      win ← page_up_loop (page_up_rounds win) win;
      Some (set_top_index (curr_index win) (set_curr (w_top win) win)).

  (** The [do ... while] loop of [tui_window_page_down], entered with the
      node and the index that the cursor takes first.  Every round adds at
      least one to [next_index]: [rounds] bounds the number of times the
      loop is repeated, [None] standing for a fault as well as for a loop
      that did not end within them. *)
Fixpoint page_down_loop (rounds : nat) (orig_index next_index : Z) (node : N)
      win : option (tui_window N X) :=
    let win := set_curr_index next_index (set_curr (Some node) win) in
    '(next, win) ← ops_next ops win node false;
    match next with
    | None => Some win
    | Some next =>
        let next_index := wrap_int (next_index + 1) in
        let next_index :=
          if ops_needs_blank ops win node (Some next)
          then wrap_int (next_index + 1) else next_index in
        if next_index - orig_index <? LINES - 2 then
          match rounds with
          | O => None
          | S rounds => page_down_loop rounds orig_index next_index next win
          end
        else Some win
    end.

Definition tui_window_page_down win : option (tui_window N X) :=
    let orig_index := top_index win in
    let next_index := curr_index win in
    curr ← w_curr win;
    '(node, win) ← ops_next ops win curr false;
    match node with
    | None => Some win
    | Some node =>
        let next_index := wrap_int (next_index + 1) in
        let next_index :=
          if ops_needs_blank ops win curr (Some node)
          then wrap_int (next_index + 1) else next_index in
        let orig_index :=
          (* we're already at the end of page - move to next page *)
          if LINES - 2 <=? next_index - top_index win
          then next_index else orig_index in
        win ← page_down_loop (Z.to_nat (LINES - 2 - (next_index - orig_index)))
                             orig_index next_index node win;
        (* move top if page was moved *)
        scroll_top ops LINES (scroll_rounds LINES win) win
    end.

  (** The first loop of [tui_window_move_end], at most [rounds] rows far. *)
Fixpoint move_end_loop (rounds : nat) win : option (tui_window N X) :=
    curr ← w_curr win;
    '(node, win) ← ops_next ops win curr false;
    match node with
    | None => Some win
    | Some node =>
        match rounds with
        | O => None
        | S rounds =>
            let win := set_curr_index (wrap_int (curr_index win + 1)) win in
            let win :=
              if ops_needs_blank ops win curr (Some node)
              then set_curr_index (wrap_int (curr_index win + 1)) win else win in
            move_end_loop rounds (set_curr (Some node) win)
        end
    end.

Definition tui_window_move_end (rounds : nat) win : option (tui_window N X) :=
    win ← move_end_loop rounds win;
    scroll_top ops LINES (scroll_rounds LINES win) win.

  (** Move to the parent; [None] when a fault occurs or the parent is not
      reached within [rounds] steps. *)
Definition tui_window_move_parent (rounds : nat) win : option (tui_window N X) :=
    curr ← w_curr win;
    parent ← ops_parent ops win curr;
    match parent with
    | None => Some win
    | Some parent => move_until (tui_window_move_up ops) parent rounds win
    end.
End window_engine_pages.

(** *** Vocabulary for the statements about pages *)

(** The steps of a view follow [rows] up to the row [B]: [next] and [prev]
    return the neighbours in [rows] and leave the window alone but for the
    state of the view, of which they keep [R]; a blank row is needed
    between two rows as [blank] tells. *)
Definition follows_rows {N X : Type} (ops : tui_window_ops N X)
    (rows : list N) (B : nat) (R : X -> Prop) (blank : N -> N -> bool) : Prop :=
  (forall win k x u,
      R (w_ext win) -> (k <= B)%nat -> rows !! k = Some x ->
      exists e, ops_next ops win x u = Some (rows !! S k, set_ext e win) /\ R e) /\
  (forall win k x u,
      R (w_ext win) -> (k <= S B)%nat -> rows !! k = Some x ->
      exists e, ops_prev ops win x u =
                Some (match k with O => None | S k' => rows !! k' end,
                      set_ext e win) /\ R e) /\
  (forall win a b, ops_needs_blank ops win a (Some b) = blank a b).

(** The cursor is on one of the [LINES - 2] lines between the header and
    the footer. *)
Definition on_screen {N X : Type} (LINES : Z) (win : tui_window N X) : Prop :=
  0 <= curr_index win - top_index win < LINES - 2.

(** ** The rows of the graph view *)

(** The rows of the subtree of the node [n] at [p], in the order of the
    screen: the node, then the rows of its children in turn unless the node
    is folded.  [top] tells that the node is the root, which is never taken
    as folded. *)
Fixpoint subtree_rows (top : bool) (n : tui_graph_node) (p : gpath)
    : list gpath :=
  match n with
  | TuiGraphNode _ _ _ _ _ _ head _ _ f =>
      p :: (if top || negb f then
              (fix below (cs : list tui_graph_node) (i : nat) : list gpath :=
                 match cs with
                 | [] => []
                 | c :: cs' => subtree_rows false c (i :: p) ++ below cs' (S i)
                 end) head 0%nat
            else [])
  end.

(** The rows below a node: those of the children [cs], the first of which
    is the [i]-th child of [p]. *)
Fixpoint children_rows (cs : list tui_graph_node) (i : nat) (p : gpath)
    : list gpath :=
  match cs with
  | [] => []
  | c :: cs' => subtree_rows false c (i :: p) ++ children_rows cs' (S i) p
  end.

Definition graph_rows (root : tui_graph_node) : list gpath :=
  subtree_rows true root [].

(** The row after the subtree of [p], if there is one: the node that the
    upward loop of [graph_next_node] returns from [p]. *)
Definition climb_of (root : tui_graph_node) (p : gpath) : option gpath :=
  match climb_node root p with
  | Some (Some y) => Some y
  | _ => None
  end.

(** [main] calling [a] and then [b], [a] calling [c]; nothing folded. *)
Definition sample_fork : tui_graph_node :=
  sample_node "main"
    [sample_node "a" [sample_node "c" [] false] false; sample_node "b" [] false]
    false.

(** The graph window over [sample_fork], the top of the screen on [main]
    and the cursor on [a]. *)
Definition sample_fork_window : graph_window :=
  TuiWindow (Some []) (Some [0%nat]) None 0 1 0
            (TuiGraph (Some 0%nat) sample_fork None 0 0 0 0
                      (replicate 8 false) (replicate 8 false) false).

(** ** Searching ([tui_window_search_count], [tui_window_search_prev],
       [tui_window_search_next]) *)

(** [strstr(hay, needle) != NULL]: [needle] begins at some position of
    [hay]; the empty string begins at every one. *)
Fixpoint strstr (hay needle : string) : bool :=
  String.prefix needle hay ||
  match hay with
  | EmptyString => false
  | String _ rest => strstr rest needle
  end.

Definition win_search_graph (win : graph_window) (node : gpath) (str : string)
    : option bool :=
  curr ← node_at (ug_root (w_ext win)) node;
  Some (strstr (n_name curr) str).

Definition win_search_report (win : report_window) (node : nat) (str : string)
    : option bool :=
  curr ← rp_nodes (w_ext win) !! node;
  Some (strstr (r_name curr) str).

Section window_engine_search.
Context {N X : Type} `{EqDecision N}.
Variable ops : tui_window_ops N X.
Variable LINES : Z.
  (** [win->ops->search] and the global [tui_search], [None] for [NULL]. *)
Variable search : option (tui_window N X -> N -> string -> option bool).
Variable tui_search : option string.
Implicit Type win : tui_window N X.

  (** [while (node) { if (search(win, node, tui_search)) win->search_count++;
      node = next(win, node, false); }], at most [rounds] times. *)
Fixpoint search_count_loop
      (find : tui_window N X -> N -> string -> option bool) (str : string)
      (rounds : nat) (node : option N) win : option (tui_window N X) :=
    match node with
    | None => Some win
    | Some n =>
        match rounds with
        | O => None
        | S rounds =>
            found ← find win n str;
            let win :=
              if found : bool
              then set_search_count (wrap_int (search_count win + 1)) win
              else win in
            '(node, win) ← ops_next ops win n false;
            search_count_loop find str rounds node win
        end
    end.

Definition tui_window_search_count (rounds : nat) win
      : option (tui_window N X) :=
    match tui_search, search with
    | Some str, Some find =>
        if search_count win =? -1 then
          let win := set_search_count 0 win in
          '(node, win) ← ops_top ops win false;
          search_count_loop find str rounds node win
        else Some win
    | _, _ => Some win
    end.

  (** [while (true) { node = step(win, node, false); if (node == NULL)
      return; if (search(win, node, tui_search)) break; }], at most
      [rounds] times: the node found, or [None] for the [return]. *)
Fixpoint search_find
      (step : tui_window N X -> N -> bool -> option (option N * tui_window N X))
      (find : tui_window N X -> N -> string -> option bool) (str : string)
      (rounds : nat) (node : N) win : option (option N * tui_window N X) :=
    match rounds with
    | O => None
    | S rounds =>
        '(node, win) ← step win node false;
        match node with
        | None => Some (None, win)
        | Some n =>
            found ← find win n str;
            if found : bool then Some (Some n, win)
            else search_find step find str rounds n win
        end
    end.

  (** [win->curr] is read before the two tests, and used after them. *)
Definition tui_window_search_prev (rounds : nat) win
      : option (tui_window N X) :=
    match tui_search, search with
    | Some str, Some find =>
        node ← w_curr win;
        '(node, win) ← search_find (ops_prev ops) find str rounds node win;
        match node with
        | None => Some win
        | Some n => move_until (tui_window_move_up ops) n rounds win
        end
    | _, _ => Some win
    end.

Definition tui_window_search_next (rounds : nat) win
      : option (tui_window N X) :=
    match tui_search, search with
    | Some str, Some find =>
        node ← w_curr win;
        '(node, win) ← search_find (ops_next ops) find str rounds node win;
        match node with
        | None => Some win
        | Some n => move_until (tui_window_move_down ops LINES) n rounds win
        end
    | _, _ => Some win
    end.
End window_engine_search.

(** The first row of a view is what [top] returns, the window left alone
    but for the state of the view, of which [R] is kept. *)
Definition top_of_rows {N X : Type} (ops : tui_window_ops N X)
    (rows : list N) (R : X -> Prop) : Prop :=
  forall win u, R (w_ext win) ->
    exists e, ops_top ops win u = Some (rows !! 0%nat, set_ext e win) /\ R e.

(** [find] tells of every row whether it matches, as [m] does. *)
Definition searches_rows {N X : Type}
    (find : tui_window N X -> N -> string -> option bool) (str : string)
    (rows : list N) (R : X -> Prop) (m : N -> bool) : Prop :=
  forall win x, R (w_ext win) -> x ∈ rows -> find win x str = Some (m x).

(** The name of the node of a row of the graph view contains [str]. *)
Definition graph_match (root : tui_graph_node) (str : string) (p : gpath)
    : bool :=
  match node_at root p with
  | Some n => strstr (n_name n) str
  | None => false
  end.

(** ** Folding under the cursor ([win_enter_graph], [tui_window_enter],
       [tui_window_collapse], [tui_window_expand]) *)

(** The root, which has no parent, and the leaves are not foldable. *)
Definition win_enter_graph (win : graph_window) (node : gpath)
    : option (bool * graph_window) :=
  let graph := w_ext win in
  curr ← node_at (ug_root graph) node;
  match node with
  | [] => Some (false, win)
  | _ :: _ =>
      if list_empty curr then Some (false, win)
      else
        Some (true,
              set_ext (set_ug_root
                         (update_at (ug_root graph) node
                                    (set_folded (negb (folded curr))))
                         graph) win)
  end.

(** [win_collapse_graph] and [win_expand_graph] as entries of the graph
    view: [op] on the node that the pointer [node] names. *)
Definition win_fold_graph (op : tui_graph_node -> bool * tui_graph_node)
    (win : graph_window) (node : gpath) : option (bool * graph_window) :=
  let graph := w_ext win in
  curr ← node_at (ug_root graph) node;
  Some (fst (op curr),
        set_ext (set_ug_root
                   (update_at (ug_root graph) node (fun curr => snd (op curr)))
                   graph) win).

Section window_engine_fold.
Context {N X : Type}.
  (** The entry [enter], [collapse] or [expand] of the view, [None] for
      [NULL]. *)
Variable entry : option (tui_window N X -> N -> option (bool * tui_window N X)).
Implicit Type win : tui_window N X.

Definition tui_window_enter win : option (bool * tui_window N X) :=
    match entry with
    | None => Some (false, win)
    | Some enter => curr ← w_curr win; enter win curr
    end.

Definition tui_window_collapse win : option (bool * tui_window N X) :=
    match entry with
    | None => Some (false, win)
    | Some collapse => curr ← w_curr win; collapse win curr
    end.

Definition tui_window_expand win : option (bool * tui_window N X) :=
    match entry with
    | None => Some (false, win)
    | Some expand => curr ← w_curr win; expand win curr
    end.
End window_engine_fold.

(** The rows of the children of a node that are all shown as one row: the
    pointers to the children in turn. *)
Definition child_rows (n : tui_graph_node) (p : gpath) : list gpath :=
  imap (fun i _ => i :: p) (n_head n).

(** ** The lines of the tree (the depth and the mask of [graph_prev_node]
       and [graph_next_node])

    A node is drawn one column to the right of its parent when the parent
    has more than one child; the depth of a node is the number of its
    columns. *)
Fixpoint branch_depth (root : tui_graph_node) (x : gpath) : Z :=
  match x with
  | [] => 0
  | _ :: pp =>
      branch_depth root pp +
      match node_at root pp with
      | Some p => if list_is_singular p then 0 else 1
      | None => 0
      end
  end.

(** The columns of the rows below a node: a column carries a line when the
    node of that column on the way down from the root, which may be the
    node itself, has a sibling after it. *)
Fixpoint leave_mask (root : tui_graph_node) (x : gpath) : list bool :=
  match x with
  | [] => []
  | _ :: pp =>
      match node_at root pp with
      | Some p =>
          if list_is_singular p then leave_mask root pp
          else leave_mask root pp ++ [negb (is_last_child root pp x)]
      | None => []
      end
  end.

(** The columns of the row of a node: those of the rows below its parent,
    and its own column, which carries its branch. *)
Definition arrive_mask (root : tui_graph_node) (x : gpath) : list bool :=
  match x with
  | [] => []
  | _ :: pp =>
      match node_at root pp with
      | Some p =>
          if list_is_singular p then leave_mask root pp
          else leave_mask root pp ++ [true]
      | None => []
      end
  end.

(** The depth [d] and the mask [m] are those of the row of [x]; what the
    mask holds from the depth on does not matter. *)
Definition indent_ok (root : tui_graph_node) (x : gpath) (d : Z)
    (m : list bool) : Prop :=
  d = branch_depth root x /\ take (Z.to_nat d) m = arrive_mask root x.

(** The lines of the tree before the label of a node: one column for every
    node with siblings above the parent of the node, with a line when a
    sibling comes after it, and the branch of the node itself when it has
    siblings, an end piece for the last of them. *)
Definition tree_lines (root : tui_graph_node) (x : gpath) : list printw_call :=
  match x with
  | [] => []
  | _ :: pp =>
      match node_at root pp with
      | Some p =>
          map (fun b : bool => if b then Printw "  │" [] else Printw "   " [])
              (leave_mask root pp)
          ++ (if list_is_singular p then []
              else [if is_last_child root pp x then Printw "  └" []
                    else Printw "  ├" []])
      | None => []
      end
  end.

(** The lines of a blank row above a node: the columns of the row of the
    node, each with a line or without. *)
Definition blank_lines (root : tui_graph_node) (x : gpath) : list printw_call :=
  map (fun b : bool => if b then Printw "  │" [] else Printw "   " [])
      (arrive_mask root x).

(** Three levels: [main] calls [a] and [b]; [a] calls [f], which calls [g]
    and [h]; [b] calls [k]. *)
Definition sample_levels : tui_graph_node :=
  sample_node "main"
    [sample_node "a"
       [sample_node "f" [sample_node "g" [] false; sample_node "h" [] false]
                    false] false;
     sample_node "b" [sample_node "k" [] false] false]
    false.

(** The graph window over [sample_levels] while its rows are drawn, the
    display at the row of [h]. *)
Definition sample_levels_window : graph_window :=
  TuiWindow (Some []) (Some []) None 0 0 0
            (TuiGraph (Some 0%nat) sample_levels (Some [1%nat; 0%nat; 0%nat])
                      0 0 2 0 (replicate 4 false) [true; true; false; false]
                      true).

(** ** The keys of [tui_main_loop] *)

(** The keys of the [switch] of [tui_main_loop] that act on the window on
    display: the arrows and the page keys, Enter, and the letters [c], [e],
    [p], [n], [u], with [<] or [P] and [>] or [N] for the search. *)
Inductive tui_key : Type :=
| KEY_UP | KEY_DOWN | KEY_PPAGE | KEY_NPAGE | KEY_HOME | KEY_END | KEY_ENTER
| key_c | key_e | key_p | key_n | key_u | key_search_prev | key_search_next.

(** The [switch] of [tui_main_loop] for these keys with the full graph on
    display.  What enter, collapse and expand return only asks for the
    screen to be drawn anew.  [tui_search] is the string searched for, and
    [rounds] bounds the loops that go from row to row. *)
Definition tui_main_loop_switch (LINES : Z) (rounds : nat)
    (tui_search : option string) (key : tui_key) (win : graph_window)
    : option graph_window :=
  match key with
  | KEY_UP => tui_window_move_up graph_ops win
  | KEY_DOWN => tui_window_move_down graph_ops LINES win
  | KEY_PPAGE => tui_window_page_up graph_ops LINES win
  | KEY_NPAGE => tui_window_page_down graph_ops LINES win
  | KEY_HOME => tui_window_move_home graph_ops win
  | KEY_END => tui_window_move_end graph_ops LINES rounds win
  | KEY_ENTER => snd <$> tui_window_enter (Some win_enter_graph) win
  | key_c =>
      snd <$> tui_window_collapse (Some (win_fold_graph win_collapse_graph)) win
  | key_e =>
      snd <$> tui_window_expand (Some (win_fold_graph win_expand_graph)) win
  | key_p => tui_window_move_prev graph_ops rounds win
  | key_n => tui_window_move_next graph_ops LINES rounds win
  | key_u => tui_window_move_parent graph_ops rounds win
  | key_search_prev =>
      tui_window_search_prev graph_ops (Some win_search_graph) tui_search
                             rounds win
  | key_search_next =>
      tui_window_search_next graph_ops LINES (Some win_search_graph) tui_search
                             rounds win
  end.

(** One key after the other. *)
Fixpoint tui_main_loop_keys (LINES : Z) (rounds : nat)
    (tui_search : option string) (keys : list tui_key) (win : graph_window)
    : option graph_window :=
  match keys with
  | [] => Some win
  | key :: keys =>
      win ← tui_main_loop_switch LINES rounds tui_search key win;
      tui_main_loop_keys LINES rounds tui_search keys win
  end.

(** *** Vocabulary for the statements about the keys *)

(** A tree without its fold flags. *)
Fixpoint clear_folds (n : tui_graph_node) : tui_graph_node :=
  match n with
  | TuiGraphNode a nm e c t ct head g l _ =>
      TuiGraphNode a nm e c t ct (map clear_folds head) g l false
  end.

(** The rows of the tree are at most [B], its depths at most [M], the size
    of the masks, and none of its nodes is special. *)
Definition tree_fits (B M : nat) (root : tui_graph_node) : Prop :=
  nr_nodes root <= Z.of_nat B /\
  forall y n, node_at root y = Some n ->
              branch_depth root y <= Z.of_nat M /\ is_special_node n = false.

(** The state of the top of the screen is right: the depth and the mask
    kept for it are those of its row. *)
Definition top_ok (M : nat) (root : tui_graph_node) (top : option gpath)
    (g : tui_graph) : Prop :=
  ug_root g = root /\ length (top_mask g) = M /\
  forall t, top = Some t ->
            visible root t = true /\ indent_ok root t (top_depth g) (top_mask g).

(** What holds of the graph window between two keys: the cursor and the
    top are on rows of the tree, the first not above the second, with the
    screen rows of the two as their indices; the cursor is on the screen;
    and the state of the top is right. *)
Definition graph_inv (LINES : Z) (B M : nat) (win : graph_window) : Prop :=
  let root := ug_root (w_ext win) in
  tree_fits B M root /\
  (exists i j, on_rows (graph_rows root) B (fun g => ug_root g = root)
                       (fun a b => negb (is_first_child a b)) win i j) /\
  on_screen LINES win /\
  top_ok M root (w_top win) (w_ext win).

(** [tree_fits] as a test: the nodes of a tree are the rows of the tree
    with nothing folded. *)
Definition tree_fitsb (B M : nat) (root : tui_graph_node) : bool :=
  (nr_nodes root <=? Z.of_nat B) &&
  forallb (fun y =>
             (branch_depth root y <=? Z.of_nat M) &&
             match node_at root y with
             | Some n => negb (is_special_node n)
             | None => true
             end)
          (graph_rows (clear_folds root)).

(** ** The screen ([tui_window_display], [win_header_graph],
       [win_footer_graph]) *)

(** [A_REVERSE] and [A_BOLD] of curses. *)
Definition A_REVERSE : Z := 262144.
Definition A_BOLD : Z := 2097152.

(** A [printw] of a view as a call of curses. *)
Definition curses_of (c : printw_call) : curses_call :=
  curses_printw (pw_format c) (pw_args c).

Section window_engine_display.
Context {N X : Type} `{EqDecision N}.
Variable ops : tui_window_ops N X.
Variable LINES : Z.
  (** The entries [header], [display] and [footer] of the view, with what
      they write. *)
Variable header : tui_window N X -> list curses_call * tui_window N X.
Variable display : tui_window N X -> option N -> option (list curses_call).
Variable footer : tui_window N X -> list curses_call * tui_window N X.
Implicit Type win : tui_window N X.

  (** The loop [for (count = 0; count < LINES - 2; count++)] from [count]
      and [node] on.  Every round adds at least one to [count]; [None]
      stands for a fault as well as for a loop that did not end within the
      rounds given. *)
Fixpoint display_loop (rounds : nat) (full_redraw : bool) (count : Z)
      (node : N) win : option (list curses_call * tui_window N X) :=
    if count <? LINES - 2 then
      match rounds with
      | O => None
      | S rounds =>
          let is_curr := bool_decide (Some node = w_curr win) in
          here ←
            (if full_redraw || is_curr || bool_decide (Some node = w_old win)
             then
               row ← display win (Some node);
               Some ((if is_curr then [curses_attron A_REVERSE] else [])
                     ++ [curses_move (wrap_int (count + 1)) 0] ++ row
                     ++ (if is_curr then [curses_attroff A_REVERSE] else []))
             else Some []);
          '(next, win) ← ops_next ops win node false;
          match next with
          | None => Some (here, win)
          | Some next =>
              '(count, blank) ←
                (if ops_needs_blank ops win node (Some next) then
                   let count := wrap_int (count + 1) in
                   row ← display win None;
                   Some (count, curses_move (wrap_int (count + 1)) 0 :: row)
                 else Some (count, []));
              '(rest, win) ←
                display_loop rounds full_redraw (wrap_int (count + 1)) next win;
              Some (here ++ blank ++ rest, win)
          end
      end
    else Some ([], win).

  (** [win->top] is read before the header is written. *)
Definition tui_window_display (full_redraw : bool) win
      : option (list curses_call * tui_window N X) :=
    (* too small screen *)
    if LINES <=? 2 then Some ([], win)
    else
      let node := w_top win in
      let attrs := Z.lor (COLOR_PAIR C_HEADER) A_BOLD in
      let '(head, win) := header win in
      node ← node;
      '(rows, win) ← display_loop (Z.to_nat (LINES - 2)) full_redraw 0 node win;
      let '(foot, win) := footer win in
      Some ([curses_move 0 0; curses_attron attrs] ++ head
            ++ [curses_attroff attrs] ++ rows
            ++ [curses_move (LINES - 1) 0; curses_attron attrs] ++ foot
            ++ [curses_attroff attrs], win).
End window_engine_display.

Definition set_width (w : Z) (g : tui_graph) : tui_graph :=
  TuiGraph (ug_sess g) (ug_root g) (disp g) (top_depth g) (curr_depth g)
           (disp_depth g) w (top_mask g) (disp_mask g) (disp_update g).

Definition set_disp_update (b : bool) (g : tui_graph) : tui_graph :=
  TuiGraph (ug_sess g) (ug_root g) (disp g) (top_depth g) (curr_depth g)
           (disp_depth g) (width g) (top_mask g) (disp_mask g) b.

Section graph_screen.
Variable graph_output_fields : list display_field.
Variable COLS : Z.
  (** [field->header], and the line that [snprintf] leaves in [buf] for
      the footer, with the session, the search or the debug values. *)
Variable field_header : display_field -> string.
Variable footer_text : graph_window -> string.

  (** The widths are added as integers, without wrap-around.  With no
      field chosen the function returns after the title.  The two masks
      have [mask_size] bytes, which [memcpy] copies. *)
Definition win_header_graph (win : graph_window)
    : list curses_call * graph_window :=
  let graph := w_ext win in
  (* calculate width for fields *)
  let w := fold_left (fun w field => w + (df_length field + FIELD_SPACE))
                     graph_output_fields 0 in
  let w := match graph_output_fields with
           | [] => w
           | _ => w + strlen FIELD_SEP
           end in
  let graph := set_width w graph in
  let w := w + strlen " FUNCTION" in
  match graph_output_fields with
  | [] =>
      ([curses_printw "%-*s" [arg_int COLS; arg_string "uftrace graph TUI"]],
       set_ext graph win)
  | _ =>
      (flat_map (fun field =>
                   [curses_printw "%*s" [arg_int FIELD_SPACE; arg_string ""];
                    curses_printw "%s" [arg_string (field_header field)]])
                graph_output_fields
       ++ [curses_printw "%s %s" [arg_string FIELD_SEP; arg_string "FUNCTION"]]
       ++ (if w <? COLS
           then [curses_printw "%*s" [arg_int (COLS - w); arg_string ""]]
           else []),
       (* start with same make as top *)
       set_ext (set_disp_update true
                  (set_disp_state (w_top win) (top_depth graph) (top_mask graph)
                                  graph)) win)
  end.

Definition win_footer_graph (win : graph_window)
    : list curses_call * graph_window :=
  ([curses_printw "%-*s" [arg_int COLS; arg_string (footer_text win)]],
   set_ext (set_disp_update false (w_ext win)) win).

  (** [win_display_graph] as an entry of the view. *)
Definition graph_display (win : graph_window) (node : option gpath)
    : option (list curses_call) :=
  map curses_of <$> win_display_graph graph_output_fields COLS win node.

  (** The rows as they are to be drawn.  A window in which the display is
      at the row of [x], the width of the fields being [w]. *)
Definition row_window (root : tui_graph_node) (w : Z) (x : gpath)
    : graph_window :=
  TuiWindow None None None 0 0 0
            (TuiGraph None root (Some x) 0 0 (branch_depth root x) w []
                      (arrive_mask root x) true).

  (** The row of [x] and the blank row above it, as [win_display_graph]
      writes them there. *)
Definition row_text (root : tui_graph_node) (w : Z) (x : gpath)
    : list curses_call :=
  default [] (graph_display (row_window root w x) (Some x)).

Definition blank_text (root : tui_graph_node) (w : Z) (x : gpath)
    : list curses_call :=
  default [] (graph_display (row_window root w x) None).

  (** The rows from the top of the screen on, [count] lines below the
      header: each where [redraw] tells, the cursor in reverse, with a
      blank row before a row that is not a first child. *)
Fixpoint draw_rows (LINES : Z) (root : tui_graph_node) (w : Z)
    (redraw : gpath -> bool) (curr : option gpath) (count : Z)
    (rows : list gpath) : list curses_call :=
  match rows with
  | [] => []
  | x :: rest =>
      if count <? LINES - 2 then
        let is_curr := bool_decide (Some x = curr) in
        (if redraw x
         then (if is_curr then [curses_attron A_REVERSE] else [])
              ++ [curses_move (count + 1) 0] ++ row_text root w x
              ++ (if is_curr then [curses_attroff A_REVERSE] else [])
         else [])
        ++ match rest with
           | [] => []
           | y :: _ =>
               if negb (is_first_child x y)
               then (curses_move (count + 2) 0 :: blank_text root w y)
                    ++ draw_rows LINES root w redraw curr (count + 2) rest
               else draw_rows LINES root w redraw curr (count + 1) rest
           end
      else []
  end.
End graph_screen.

(** The display is at the row of [x]: the depth and the mask of the
    display are those of the row, and the steps keep them so. *)
Definition disp_ok (M : nat) (root : tui_graph_node) (w : Z) (x : gpath)
    (g : tui_graph) : Prop :=
  ug_root g = root /\ width g = w /\ disp_update g = true /\
  disp g = Some x /\ length (disp_mask g) = M /\
  indent_ok root x (disp_depth g) (disp_mask g).

(** A field of ten columns that writes the time of a node. *)
Definition sample_field : display_field :=
  DisplayField 10 (fun n => [Printw "%10d" [arg_int (n_time n)]]).

(** The graph window over [sample_levels] as [tui_window_init] leaves it,
    with masks of four entries. *)
Definition sample_levels_start : graph_window :=
  TuiWindow (Some []) (Some []) (Some []) 0 0 0
            (TuiGraph (Some 0%nat) sample_levels None 0 0 0 0
                      (replicate 4 false) (replicate 4 false) false).


(** * Folding: collapse and expand *)

Section for_each_entry_facts.
Context {S : Type} (body : tui_graph_node -> S -> S * tui_graph_node).

Lemma for_each_entry_cons child rest s :
    for_each_entry body (child :: rest) s =
    (fst (for_each_entry body rest (fst (body child s))),
     snd (body child s) :: snd (for_each_entry body rest (fst (body child s)))).
  Proof.
    simpl. destruct (body child s) as [s1 c']. simpl.
    destruct (for_each_entry body rest s1). reflexivity.
  Qed.

Lemma for_each_entry_snd (g : tui_graph_node -> tui_graph_node) cs :
    Forall (fun c => forall s, snd (body c s) = g c) cs ->
    forall s, snd (for_each_entry body cs s) = map g cs.
  Proof.
    induction 1 as [|c cs Hc _ IH]; intros s; [reflexivity|].
    rewrite for_each_entry_cons. simpl. rewrite Hc, IH. reflexivity.
  Qed.
End for_each_entry_facts.

#[local] Arguments for_each_entry : simpl never.

Lemma wrap_int_small z : - 2 ^ 31 <= z <= INT_MAX -> wrap_int z = z.
Proof.
  unfold wrap_int, INT_MAX. intros H.
  rewrite Z.mod_small; lia.
Qed.


Lemma nr_nodes_eq node : nr_nodes node = 1 + sum_nodes (n_head node).
Proof.
  destruct node as [a nm e c t ct head g l f]. reflexivity.
Qed.

Lemma nr_nodes_pos node : 0 < nr_nodes node.
Proof.
  induction node as [a nm e c t ct head g l f IH] using tui_graph_node_rect'.
  rewrite nr_nodes_eq. simpl.
  assert (0 <= sum_nodes head); [|lia].
  induction IH as [|x xs Hx _ IHxs]; simpl; lia.
Qed.

Lemma sum_nodes_nonneg cs : 0 <= sum_nodes cs.
Proof.
  induction cs as [|x xs IH]; simpl; [lia|]. pose proof (nr_nodes_pos x). lia.
Qed.


Lemma flag_diff_eq a b :
  flag_diff a b =
  (if Bool.eqb (folded a) (folded b) then 0 else 1) + sum_diff (n_head a) (n_head b).
Proof.
  destruct a as [a1 nm1 e1 c1 t1 ct1 ha g1 l1 fa].
  destruct b as [a2 nm2 e2 c2 t2 ct2 hb g2 l2 fb]. simpl. f_equal.
  revert hb. induction ha as [|x xs IH]; intros [|y ys]; simpl; try reflexivity.
  now rewrite IH.
Qed.



Lemma fold_body_snd fold child count :
  snd (fold_body fold child count) = fold_tree fold child.
Proof. unfold fold_body, fold_tree. now destruct (fold_graph_node fold child). Qed.

Lemma fold_body_fst fold child count :
  fst (fold_body fold child count) =
  wrap_int (count + fst (fold_graph_node fold child)).
Proof. unfold fold_body. now destruct (fold_graph_node fold child). Qed.

Lemma fold_graph_node_eq fold node :
  fold_graph_node fold node =
  match n_head node with
  | [] => (0, node)
  | _ :: _ =>
      let fc := if negb (Bool.eqb (folded node) fold)
                then (fold, wrap_int (0 + 1)) else (folded node, 0) in
      let r := for_each_entry (fold_body fold) (n_head node) (snd fc) in
      (fst r, set_folded (fst fc) (set_head (snd r) node))
  end.
Proof.
  destruct node as [a nm e c t ct head g l f]. simpl.
  destruct head as [|x xs]; [reflexivity|].
  change (fun (child : tui_graph_node) (count : Z) =>
            let '(k, child') := fold_graph_node fold child in
            (wrap_int (count + k), child')) with (fold_body fold).
  destruct (negb (Bool.eqb f fold)); simpl;
    match goal with
    | |- context [for_each_entry ?b ?cs ?s] =>
        destruct (for_each_entry b cs s); reflexivity
    end.
Qed.

Lemma fold_tree_head fold node :
  n_head (fold_tree fold node) = map (fold_tree fold) (n_head node).
Proof.
  unfold fold_tree at 1. rewrite fold_graph_node_eq.
  destruct (n_head node) as [|x xs] eqn:Hh; [simpl; now rewrite Hh|].
  cbv zeta. cbn [snd n_head set_folded set_head].
  apply for_each_entry_snd with (g := fold_tree fold).
  apply Forall_forall. intros c _ s. apply fold_body_snd.
Qed.

Lemma fold_tree_folded fold node :
  folded (fold_tree fold node) = if list_empty node then folded node else fold.
Proof.
  unfold fold_tree, list_empty. rewrite fold_graph_node_eq.
  destruct (n_head node) as [|x xs]; simpl; [reflexivity|].
  destruct (folded node), fold; reflexivity.
Qed.

Lemma fold_tree_payload fold node : same_payload node (fold_tree fold node).
Proof.
  unfold same_payload. rewrite fold_tree_head, length_map.
  unfold fold_tree. rewrite fold_graph_node_eq.
  destruct (n_head node); simpl; repeat split; reflexivity.
Qed.

Lemma fold_tree_at fold node p :
  node_at (fold_tree fold node) p = fold_tree fold <$> node_at node p.
Proof.
  induction p as [|i p IH]; simpl; [reflexivity|].
  rewrite IH. destruct (node_at node p) as [n|]; simpl; [|reflexivity].
  rewrite fold_tree_head. apply list_lookup_fmap.
Qed.


Lemma fold_loop_count fold cs :
  Forall (count_ok fold) cs ->
  forall s, 0 <= s -> s + sum_nodes cs <= INT_MAX ->
  fst (for_each_entry (fold_body fold) cs s) =
    s + sum_diff cs (map (fold_tree fold) cs) /\
  0 <= sum_diff cs (map (fold_tree fold) cs) <= sum_nodes cs.
Proof.
  induction 1 as [|c cs Hc _ IH]; intros s Hs Hb.
  - unfold sum_diff. simpl. split; lia.
  - rewrite for_each_entry_cons. cbn [fst]. rewrite fold_body_fst.
    change (sum_nodes (c :: cs)) with (nr_nodes c + sum_nodes cs) in *.
    change (sum_diff (c :: cs) (map (fold_tree fold) (c :: cs)))
      with (flag_diff c (fold_tree fold c) + sum_diff cs (map (fold_tree fold) cs)).
    pose proof (sum_nodes_nonneg cs). pose proof (nr_nodes_pos c).
    destruct Hc as [Hc1 Hc2]; [lia|]. rewrite Hc1.
    rewrite wrap_int_small by (unfold INT_MAX in *; lia).
    destruct (IH (s + flag_diff c (fold_tree fold c))) as [IH1 IH2]; [lia..|].
    rewrite IH1. split; lia.
Qed.

Lemma fold_graph_node_count fold node : count_ok fold node.
Proof.
  induction node as [a nm e c t ct head g l f IH] using tui_graph_node_rect'.
  intros Hsz. rewrite flag_diff_eq, fold_tree_folded, fold_tree_head.
  rewrite fold_graph_node_eq. rewrite nr_nodes_eq in *.
  unfold list_empty. cbn [n_head folded] in *.
  destruct head as [|x xs].
  - unfold sum_diff. simpl. rewrite eqb_reflx. lia.
  - set (cs := x :: xs) in *. cbv zeta. cbn [fst snd].
    assert (Hc0 : 0 <= (if negb (Bool.eqb f fold)
                        then (fold, wrap_int (0 + 1)) else (f, 0)).2 <= 1
                  /\ (if negb (Bool.eqb f fold)
                        then (fold, wrap_int (0 + 1)) else (f, 0)).2 =
                     if Bool.eqb f fold then 0 else 1).
    { destruct (Bool.eqb f fold); simpl; rewrite ?wrap_int_small;
        unfold INT_MAX; lia. }
    destruct Hc0 as [Hr Hv].
    destruct (fold_loop_count fold cs IH _ (proj1 Hr)) as [H1 H2]; [lia|].
    rewrite H1, Hv. split; [reflexivity|].
    destruct (Bool.eqb f fold); lia.
Qed.

(** A subtree that is already in the requested state is left alone. *)
Lemma fold_graph_node_idle fold node :
  is_folded_all fold node = true -> fold_graph_node fold node = (0, node).
Proof.
  induction node as [a nm e c t ct head g l f IH] using tui_graph_node_rect'.
  intros Hall. rewrite fold_graph_node_eq. cbn [n_head folded].
  destruct head as [|x xs]; [reflexivity|].
  set (cs := x :: xs) in *.
  assert (Hf : Bool.eqb f fold = true /\ forallb (is_folded_all fold) cs = true).
  { simpl in Hall. apply andb_true_iff in Hall. exact Hall. }
  destruct Hf as [Hf Hcs]. rewrite Hf. cbv zeta. cbn [negb fst snd].
  assert (Hloop : for_each_entry (fold_body fold) cs 0 = (0, cs)).
  { clearbody cs. clear Hall. induction IH as [|y ys Hy _ IHys]; [reflexivity|].
    simpl in Hcs. apply andb_true_iff in Hcs. destruct Hcs as [Hy1 Hys1].
    rewrite for_each_entry_cons, fold_body_fst, fold_body_snd.
    unfold fold_tree. rewrite (Hy Hy1). cbn [fst snd].
    replace (wrap_int (0 + 0)) with 0 by reflexivity.
    rewrite (IHys Hys1). reflexivity. }
  rewrite Hloop. reflexivity.
Qed.

Lemma fold_tree_idle fold node :
  is_folded_all fold node = true -> fold_tree fold node = node.
Proof. intros H. unfold fold_tree. now rewrite fold_graph_node_idle. Qed.

Lemma fold_tree_is_folded_all fold node :
  is_folded_all fold (fold_tree fold node) = true.
Proof.
  induction node as [a nm e c t ct head g l f IH] using tui_graph_node_rect'.
  pose proof (fold_tree_head fold (TuiGraphNode a nm e c t ct head g l f)) as Hh.
  pose proof (fold_tree_folded fold (TuiGraphNode a nm e c t ct head g l f)) as Hf.
  destruct (fold_tree fold _) as [a' nm' e' c' t' ct' head' g' l' f'].
  cbn [n_head folded list_empty] in Hh, Hf. subst head'. simpl.
  destruct head as [|x xs]; [reflexivity|].
  unfold list_empty in Hf. cbn [n_head] in Hf. subst f'.
  rewrite eqb_reflx. cbn [andb].
  change (fold_tree fold x :: map (fold_tree fold) xs)
    with (map (fold_tree fold) (x :: xs)).
  apply forallb_forall. intros y Hy. apply in_map_iff in Hy.
  destruct Hy as [z [<- Hz]]. rewrite Forall_forall in IH. apply IH.
  apply list_elem_of_In. exact Hz.
Qed.

(** Folding twice (in whatever directions) is folding once. *)
Lemma fold_tree_twice a b node :
  fold_tree a (fold_tree b node) = fold_tree a node.
Proof.
  induction node as [a0 nm e c t ct head g l f IH] using tui_graph_node_rect'.
  set (node := TuiGraphNode a0 nm e c t ct head g l f).
  pose proof (fold_tree_head a (fold_tree b node)) as H1.
  pose proof (fold_tree_folded a (fold_tree b node)) as H2.
  pose proof (fold_tree_payload a (fold_tree b node)) as H3.
  pose proof (fold_tree_head a node) as H4.
  pose proof (fold_tree_folded a node) as H5.
  pose proof (fold_tree_payload a node) as H6.
  pose proof (fold_tree_head b node) as H7.
  pose proof (fold_tree_folded b node) as H8.
  pose proof (fold_tree_payload b node) as H9.
  rewrite H7, map_map in H1.
  assert (Hm : map (fun x => fold_tree a (fold_tree b x)) (n_head node) =
               map (fold_tree a) (n_head node)).
  { apply map_ext_Forall. exact IH. }
  rewrite Hm, <- H4 in H1.
  assert (He : list_empty (fold_tree b node) = list_empty node).
  { unfold list_empty. rewrite H7. now destruct (n_head node). }
  rewrite He, H8 in H2.
  assert (Hfd : folded (fold_tree a (fold_tree b node)) = folded (fold_tree a node)).
  { rewrite H2, H5. now destruct (list_empty node). }
  unfold same_payload in *.
  destruct (fold_tree a (fold_tree b node)) as [a1 nm1 e1 c1 t1 ct1 h1 g1 l1 f1].
  destruct (fold_tree a node) as [a2 nm2 e2 c2 t2 ct2 h2 g2 l2 f2].
  destruct (fold_tree b node) as [a3 nm3 e3 c3 t3 ct3 h3 g3 l3 f3].
  subst node. simpl in *.
  f_equal; intuition congruence.
Qed.

Lemma node_at_app root p q :
  node_at root (q ++ p) = node_at root p ≫= fun n => node_at n q.
Proof.
  induction q as [|i q IH]; simpl.
  - now destruct (node_at root p).
  - rewrite IH. now destruct (node_at root p).
Qed.

Lemma is_folded_all_paths fold c :
  (forall q n, node_at c q = Some n -> n_head n <> [] -> folded n = fold) ->
  is_folded_all fold c = true.
Proof.
  induction c as [a nm e c t ct head g l f IH] using tui_graph_node_rect'.
  intros Hp. simpl. destruct head as [|x xs]; [reflexivity|].
  set (cs := x :: xs) in *.
  assert (Hff : f = fold).
  { apply (Hp [] (TuiGraphNode a nm e c t ct cs g l f));
      [reflexivity | subst cs; discriminate]. }
  rewrite Hff, eqb_reflx. cbn [andb].
  apply forallb_forall. intros y Hy. apply list_elem_of_In in Hy.
  rewrite Forall_forall in IH. apply (IH y Hy).
  apply list_elem_of_lookup in Hy. destruct Hy as [i Hi].
  intros q n Hq. apply (Hp (q ++ [i])).
  rewrite node_at_app. simpl. rewrite Hi. exact Hq.
Qed.

Lemma fully_folded_children fold curr :
  fully_folded fold curr -> forallb (is_folded_all fold) (n_head curr) = true.
Proof.
  intros Hf. apply forallb_forall. intros y Hy. apply list_elem_of_In in Hy.
  apply list_elem_of_lookup in Hy. destruct Hy as [i Hi].
  apply is_folded_all_paths. intros q n Hq.
  apply (Hf (q ++ [i])).
  - intros E. apply app_eq_nil in E. destruct E; discriminate.
  - rewrite node_at_app. simpl. rewrite Hi. exact Hq.
Qed.


Lemma win_collapse_graph_eq curr : win_collapse_graph curr = win_fold true curr.
Proof.
  unfold win_collapse_graph, win_fold.
  change (fun (child : tui_graph_node) (count : Z) =>
            let '(k, child') := fold_graph_node true child in
            (wrap_int (count + k), child')) with (fold_body true).
  now destruct (for_each_entry (fold_body true) (n_head curr) 0).
Qed.

Lemma win_expand_graph_eq curr : win_expand_graph curr = win_fold false curr.
Proof.
  unfold win_expand_graph, win_fold.
  change (fun (child : tui_graph_node) (count : Z) =>
            let '(k, child') := fold_graph_node false child in
            (wrap_int (count + k), child')) with (fold_body false).
  now destruct (for_each_entry (fold_body false) (n_head curr) 0).
Qed.

Lemma win_fold_tree fold curr :
  snd (win_fold fold curr) = set_head (map (fold_tree fold) (n_head curr)) curr.
Proof.
  unfold win_fold. cbn [snd]. f_equal.
  apply for_each_entry_snd. apply Forall_forall. intros c _ s.
  apply fold_body_snd.
Qed.

Lemma win_fold_at fold curr p :
  node_at (snd (win_fold fold curr)) p =
  match p with
  | [] => Some (snd (win_fold fold curr))
  | _ => fold_tree fold <$> node_at curr p
  end.
Proof.
  destruct p as [|i p]; [reflexivity|].
  destruct (exists_last (l := i :: p)) as [q [j E]]; [discriminate|].
  rewrite E, !node_at_app, win_fold_tree. simpl.
  rewrite list_lookup_fmap. destruct (n_head curr !! j) as [c|]; simpl; [|reflexivity].
  apply fold_tree_at.
Qed.

Lemma win_fold_count fold curr :
  nr_nodes curr <= INT_MAX ->
  fst (win_fold fold curr) =
  negb (flag_diff curr (snd (win_fold fold curr)) =? 0).
Proof.
  intros Hsz. rewrite flag_diff_eq, win_fold_tree.
  unfold win_fold, int_to_bool. cbn [fst folded set_head n_head].
  rewrite eqb_reflx. rewrite nr_nodes_eq in Hsz.
  assert (HF : Forall (count_ok fold) (n_head curr)).
  { apply Forall_forall. intros c _. apply fold_graph_node_count. }
  destruct (fold_loop_count fold (n_head curr) HF 0) as [H1 _]; [lia..|].
  rewrite H1. reflexivity.
Qed.

Lemma win_fold_idle fold curr :
  fully_folded fold curr -> win_fold fold curr = (false, curr).
Proof.
  intros Hf. apply fully_folded_children in Hf.
  assert (Hloop : for_each_entry (fold_body fold) (n_head curr) 0 = (0, n_head curr)).
  { induction (n_head curr) as [|y ys IHys]; [reflexivity|].
    simpl in Hf. apply andb_true_iff in Hf. destruct Hf as [Hy Hys].
    rewrite for_each_entry_cons, fold_body_fst, fold_body_snd.
    unfold fold_tree. rewrite (fold_graph_node_idle _ _ Hy). cbn [fst snd].
    replace (wrap_int (0 + 0)) with 0 by reflexivity.
    rewrite (IHys Hys). reflexivity. }
  unfold win_fold. rewrite Hloop. cbn [fst snd]. f_equal. now destruct curr.
Qed.

Lemma win_fold_twice a b curr :
  snd (win_fold a (snd (win_fold b curr))) = snd (win_fold a curr).
Proof.
  rewrite !win_fold_tree. unfold set_head. cbn. rewrite map_map.
  f_equal. apply map_ext. intros c. apply fold_tree_twice.
Qed.

Lemma win_fold_spec fold curr p n :
  node_at curr p = Some n ->
  exists n', node_at (snd (win_fold fold curr)) p = Some n' /\
             same_payload n n' /\
             folded n' = if bool_decide (p = []) || list_empty n
                         then folded n else fold.
Proof.
  intros Hn. rewrite win_fold_at. destruct p as [|i p].
  - simpl in Hn. injection Hn as <-. eexists. split; [reflexivity|].
    rewrite win_fold_tree. split; [|reflexivity].
    unfold same_payload. cbn. rewrite length_map. repeat split; reflexivity.
  - rewrite Hn. eexists. split; [reflexivity|].
    split; [apply fold_tree_payload|]. apply fold_tree_folded.
Qed.

Lemma win_fold_fully_folded fold curr :
  fully_folded fold (snd (win_fold fold curr)).
Proof.
  intros p n Hp Hn Hh. rewrite win_fold_at in Hn.
  destruct p as [|i p]; [congruence|].
  destruct (node_at curr (i :: p)) as [m|]; [|discriminate].
  simpl in Hn. injection Hn as <-.
  rewrite fold_tree_folded. rewrite fold_tree_head in Hh.
  unfold list_empty. destruct (n_head m); [contradiction|reflexivity].
Qed.

(** C6 (as amended): collapse (expand) sets the fold flag to true (false)
    on every strict descendant of the current node that has children, and
    on nothing else: the current node and the leaves keep their flag, and
    no other field and no shape changes.  The value returned is the [bool]
    conversion of the internal counter: it is [true] exactly when at least
    one flag changed, not the number of changed flags.  Collapsing a fully
    collapsed subtree returns [false] and changes nothing, and expanding
    such a subtree and collapsing it again restores it (symmetrically for
    expand). *)
Theorem win_collapse_expand_graph_spec (curr : tui_graph_node) :
  nr_nodes curr <= INT_MAX ->
  let c := win_collapse_graph curr in
  let e := win_expand_graph curr in
  (forall p n, node_at curr p = Some n ->
     exists n', node_at (snd c) p = Some n' /\ same_payload n n' /\
                folded n' = if bool_decide (p = []) || list_empty n
                            then folded n else true) /\
  (forall p n, node_at curr p = Some n ->
     exists n', node_at (snd e) p = Some n' /\ same_payload n n' /\
                folded n' = if bool_decide (p = []) || list_empty n
                            then folded n else false) /\
  fst c = negb (flag_diff curr (snd c) =? 0) /\
  fst e = negb (flag_diff curr (snd e) =? 0) /\
  fully_folded true (snd c) /\
  fully_folded false (snd e) /\
  (fully_folded true curr -> c = (false, curr)) /\
  (fully_folded false curr -> e = (false, curr)) /\
  (fully_folded true curr -> snd (win_collapse_graph (snd e)) = curr) /\
  (fully_folded false curr -> snd (win_expand_graph (snd c)) = curr).
Proof.
  intros Hsz c e. subst c e.
  rewrite !win_collapse_graph_eq, !win_expand_graph_eq.
  repeat split.
  - intros p n. apply win_fold_spec.
  - intros p n. apply win_fold_spec.
  - now apply win_fold_count.
  - now apply win_fold_count.
  - apply win_fold_fully_folded.
  - apply win_fold_fully_folded.
  - apply win_fold_idle.
  - apply win_fold_idle.
  - intros Hf. rewrite win_fold_twice. now rewrite win_fold_idle.
  - intros Hf. rewrite win_fold_twice. now rewrite win_fold_idle.
Qed.

Lemma win_collapse_expand_graph_witness :
  nr_nodes sample_chain <= INT_MAX /\
  fst (win_collapse_graph sample_chain) =
    negb (flag_diff sample_chain (snd (win_collapse_graph sample_chain)) =? 0) /\
  fully_folded true (snd (win_collapse_graph sample_chain)).
Proof.
  assert (H : nr_nodes sample_chain <= INT_MAX) by (vm_compute; discriminate).
  split; [exact H|].
  destruct (win_collapse_expand_graph_spec sample_chain H)
    as (_ & _ & Hc & _ & Hf & _).
  split; [exact Hc | exact Hf].
Defined.

(** C6 as stated fails: on [main -> a -> b -> c] collapse changes two flags
    (those of [a] and [b]) but the value returned is the boolean [true],
    that is 1, not 2. *)
Lemma win_collapse_graph_returns_bool_not_count :
  flag_diff sample_chain (snd (win_collapse_graph sample_chain)) = 2 /\
  Z.b2z (fst (win_collapse_graph sample_chain)) <>
  flag_diff sample_chain (snd (win_collapse_graph sample_chain)).
Proof. vm_compute. split; [reflexivity | discriminate]. Qed.


(** * Graph traversal: [graph_prev_node] and [graph_next_node] *)

Lemma node_at_parent root i pp n :
  node_at root (i :: pp) = Some n ->
  exists parent, node_at root pp = Some parent /\ n_head parent !! i = Some n.
Proof.
  simpl. destruct (node_at root pp) as [parent|]; [|discriminate].
  intros H. now exists parent.
Qed.

(** [graph_prev_descend] as the loop it stands for. *)
Lemma graph_prev_descend_eq n p depth indent_mask :
  graph_prev_descend n p depth indent_mask =
  if negb (list_empty n) && negb (folded n) then
    let di := if negb (list_is_singular n)
              then (wrap_int (depth + 1), mask_set depth false indent_mask)
              else (depth, indent_mask) in
    match last (n_head n) with
    | Some c =>
        graph_prev_descend c ((length (n_head n) - 1)%nat :: p) (fst di) (snd di)
    | None => (p, fst di, snd di)
    end
  else (p, depth, indent_mask).
Proof.
  destruct n as [a nm e c t ct head g l f].
  unfold list_empty, list_is_singular. cbn [n_head folded].
  cbn [graph_prev_descend].
  destruct (negb (match head with [] => true | _ => false end) && negb f);
    [|reflexivity].
  destruct (if negb (match head with [_] => true | _ => false end)
            then (wrap_int (depth + 1), mask_set depth false indent_mask)
            else (depth, indent_mask)) as [d m]. cbn [fst snd].
  replace (length head - 1)%nat with (0 + Nat.pred (length head))%nat by lia.
  generalize 0%nat at 1 2 as i.
  induction head as [|x xs IH]; intros i; [reflexivity|].
  destruct xs as [|y ys].
  - simpl. f_equal. f_equal. lia.
  - change (last (x :: y :: ys)) with (last (y :: ys)).
    rewrite IH. cbn [length Nat.pred].
    replace (S i + length ys)%nat with (i + S (length ys))%nat by lia.
    reflexivity.
Qed.

(** The node reached does not depend on the depth and mask passed in. *)
Lemma graph_prev_descend_node n :
  forall p d m d' m',
    (graph_prev_descend n p d m).1.1 = (graph_prev_descend n p d' m').1.1.
Proof.
  induction n as [a nm e c t ct head g l f IH] using tui_graph_node_rect'.
  intros p d m d' m'. rewrite !(graph_prev_descend_eq _ p).
  destruct (negb _ && negb _); [|reflexivity]. cbn [n_head].
  destruct (last head) as [c0|] eqn:Hl; [|reflexivity].
  rewrite Forall_forall in IH. apply IH.
  apply last_Some in Hl. destruct Hl as [l' ->].
  apply elem_of_app. right. apply list_elem_of_singleton. reflexivity.
Qed.


Lemma spine_eq n p :
  spine n p =
  if negb (list_empty n) && negb (folded n) then
    match last (n_head n) with
    | Some c => spine c ((length (n_head n) - 1)%nat :: p)
    | None => p
    end
  else p.
Proof.
  unfold spine. rewrite graph_prev_descend_eq.
  destruct (negb _ && negb _); [|reflexivity].
  destruct (last (n_head n)); [|reflexivity].
  apply graph_prev_descend_node.
Qed.

Lemma last_lookup_Some {A} (l : list A) c :
  last l = Some c -> l !! (length l - 1)%nat = Some c.
Proof.
  intros H. apply last_Some in H. destruct H as [l' ->].
  rewrite length_app. simpl.
  replace (length l' + 1 - 1)%nat with (length l' + 0)%nat by lia.
  rewrite lookup_app_r by lia.
  replace (length l' + 0 - length l')%nat with 0%nat by lia. reflexivity.
Qed.

(** [graph_next_climb] likewise returns a node that does not depend on
    the depth and mask. *)
Lemma graph_next_climb_node root n :
  forall d m d' m',
    step_node (graph_next_climb root n d m) =
    step_node (graph_next_climb root n d' m').
Proof.
  induction n as [|i pp IH]; intros d m d' m'; [reflexivity|].
  cbn [graph_next_climb].
  destruct (node_at root pp) as [parent|]; [|reflexivity]. cbn.
  destruct (negb (is_last_child root pp (i :: pp))).
  - destruct (n_head parent !! S i); reflexivity.
  - destruct (negb (list_is_singular parent) && (0 <? d)),
             (negb (list_is_singular parent) && (0 <? d')); apply IH.
Qed.


Lemma climb_node_cons root i pp :
  climb_node root (i :: pp) =
  match node_at root pp with
  | Some parent =>
      if bool_decide (S i = length (n_head parent))
      then climb_node root pp
      else match n_head parent !! S i with
           | Some _ => Some (Some (S i :: pp))
           | None => None
           end
  | None => None
  end.
Proof.
  unfold climb_node. cbn [graph_next_climb].
  unfold is_last_child.
  destruct (node_at root pp) as [parent|]; [|reflexivity]. cbn.
  rewrite bool_decide_eq_true_2 by reflexivity. cbn [andb].
  destruct (bool_decide (S i = length (n_head parent))); cbn [negb].
  - rewrite andb_false_r. reflexivity.
  - destruct (n_head parent !! S i); reflexivity.
Qed.

(** The node returned by [graph_next_node], for any depth and mask. *)
Lemma graph_next_node_step root x d m :
  step_node (graph_next_node root x d m) =
  match node_at root x with
  | None => None
  | Some n =>
      if negb (list_empty n) && (bool_decide (x = []) || negb (folded n))
      then Some (Some (0%nat :: x))
      else climb_node root x
  end.
Proof.
  unfold graph_next_node.
  destruct (node_at root x) as [n|] eqn:Hn; [|reflexivity].
  cbn [mbind option_bind].
  assert (Hp : match parent_of root x with None => true | Some _ => negb (folded n) end
               = bool_decide (x = []) || negb (folded n)).
  { destruct x as [|i pp]; [reflexivity|].
    destruct (node_at_parent _ _ _ _ Hn) as [parent [Hpp _]].
    cbn [parent_of]. rewrite Hpp. reflexivity. }
  rewrite Hp. clear Hp.
  destruct (negb (list_empty n) && (bool_decide (x = []) || negb (folded n))) eqn:Hc.
  - apply andb_true_iff in Hc. destruct Hc as [Hne _].
    unfold list_empty in Hne. destruct (n_head n) as [|first rest] eqn:Hh;
      [discriminate|].
    destruct (negb (list_is_singular n)); reflexivity.
  - apply graph_next_climb_node.
Qed.

(** The node returned by [graph_prev_node], for any depth and mask. *)
Lemma graph_prev_node_step root x d m :
  step_node (graph_prev_node root x d m) =
  match node_at root x with
  | None => None
  | Some _ =>
      match x with
      | [] => Some None
      | i :: pp =>
          match node_at root pp with
          | None => None
          | Some parent =>
              if bool_decide (i = 0%nat) then Some (Some pp)
              else match n_head parent !! (i - 1)%nat with
                   | Some sibling => Some (Some (spine sibling ((i - 1)%nat :: pp)))
                   | None => None
                   end
          end
      end
  end.
Proof.
  unfold graph_prev_node.
  destruct (node_at root x) as [n|] eqn:Hn; [|reflexivity].
  cbn [mbind option_bind].
  destruct x as [|i pp]; [reflexivity|].
  destruct (node_at root pp) as [parent|] eqn:Hpp; [|reflexivity].
  cbn [mbind option_bind]. unfold is_first_child.
  destruct (decide (i = 0%nat)) as [->|Hi].
  - rewrite !bool_decide_eq_true_2 by reflexivity.
    destruct (negb (list_is_singular parent) && (0 <? d)); cbn [mbind option_bind];
      reflexivity.
  - rewrite !bool_decide_eq_false_2 by congruence.
    destruct (n_head parent !! (i - 1)%nat) as [sibling|]; [|reflexivity].
    cbn [mbind option_bind].
    pose proof (graph_prev_descend_node sibling ((i - 1)%nat :: pp) d m 0 None) as E.
    unfold spine. rewrite <- E.
    destruct (graph_prev_descend sibling ((i - 1)%nat :: pp) d m) as [[r d1] m1].
    reflexivity.
Qed.

(** Where the downward loop of [graph_prev_node] ends: at a node on
    display that has no children or is folded, below the starting node,
    and from which the upward loop of [graph_next_node] comes back. *)
Lemma spine_props root n :
  forall p, node_at root p = Some n ->
    (exists t, node_at root (spine n p) = Some t /\
               (list_empty t = true \/ folded t = true)) /\
    (visible root p = true -> visible root (spine n p) = true) /\
    climb_node root (spine n p) = climb_node root p /\
    (exists q, spine n p = q ++ p).
Proof.
  induction n as [a nm e c t ct head g l f IH] using tui_graph_node_rect'.
  intros p Hp. rewrite spine_eq.
  set (n := TuiGraphNode a nm e c t ct head g l f) in *.
  destruct (negb (list_empty n) && negb (folded n)) eqn:Hc.
  - apply andb_true_iff in Hc. destruct Hc as [Hne Hnf].
    apply negb_true_iff in Hne, Hnf.
    destruct (last (n_head n)) as [c0|] eqn:Hl.
    + pose proof (last_lookup_Some _ _ Hl) as Hk.
      set (k := (length (n_head n) - 1)%nat) in *.
      assert (Hc0 : node_at root (k :: p) = Some c0).
      { simpl. rewrite Hp. exact Hk. }
      rewrite Forall_forall in IH.
      destruct (IH c0) with (p := k :: p) as (Ht & Hv & Hcl & [q Hq]).
      { apply list_elem_of_lookup. now exists k. }
      { exact Hc0. }
      pose proof (lookup_lt_Some _ _ _ Hk) as Hlt.
      split; [exact Ht|]. split; [|split].
      * intros Hvp. apply Hv. simpl. rewrite Hp.
        rewrite bool_decide_eq_true_2 by exact Hlt.
        rewrite Hnf, Hvp. now rewrite orb_true_r.
      * rewrite Hcl, climb_node_cons, Hp.
        rewrite bool_decide_eq_true_2; [reflexivity|]. subst k. lia.
      * exists (q ++ [k]). rewrite Hq, <- app_assoc. reflexivity.
    + exfalso. unfold list_empty in Hne. subst n. cbn [n_head] in *.
      destruct head; [discriminate|]. apply last_None in Hl. discriminate.
  - split; [|split; [|split]].
    + exists n. split; [exact Hp|].
      apply andb_false_iff in Hc. destruct Hc as [Hc|Hc];
        apply negb_false_iff in Hc; auto.
    + auto.
    + reflexivity.
    + now exists [].
Qed.

Lemma visible_node_at root p :
  visible root p = true -> exists n, node_at root p = Some n.
Proof.
  destruct p as [|i pp]; [now exists root|]. simpl.
  destruct (node_at root pp) as [n|]; [|discriminate].
  intros H. apply andb_true_iff in H. destruct H as [H _].
  apply andb_true_iff in H. destruct H as [H _].
  apply bool_decide_eq_true in H. apply lookup_lt_is_Some in H.
  destruct H as [c Hc]. now exists c.
Qed.

Lemma visible_cons root i pp :
  visible root (i :: pp) = true ->
  visible root pp = true /\
  exists parent, node_at root pp = Some parent /\
                 (i < length (n_head parent))%nat /\
                 (pp = [] \/ folded parent = false).
Proof.
  simpl. destruct (node_at root pp) as [parent|]; [|discriminate].
  intros H. apply andb_true_iff in H. destruct H as [H Hv].
  apply andb_true_iff in H. destruct H as [Hlt Hf].
  apply bool_decide_eq_true in Hlt. split; [exact Hv|].
  exists parent. split; [reflexivity|]. split; [exact Hlt|].
  apply orb_true_iff in Hf. destruct Hf as [Hf|Hf].
  - left. now apply bool_decide_eq_true in Hf.
  - right. now apply negb_true_iff in Hf.
Qed.

Lemma visible_sibling root i j pp parent :
  visible root (i :: pp) = true -> node_at root pp = Some parent ->
  (j < length (n_head parent))%nat -> visible root (j :: pp) = true.
Proof.
  simpl. intros H Hp Hj. rewrite Hp in *.
  apply andb_true_iff in H. destruct H as [H Hv].
  apply andb_true_iff in H. destruct H as [_ Hf].
  rewrite Hf, Hv. now rewrite bool_decide_eq_true_2.
Qed.

(** *** Stepping back and forth *)

(** From a node on display other than the root, [graph_prev_node] returns
    a node on display from which [graph_next_node] returns the same node. *)
Lemma graph_next_prev root x :
  visible root x = true -> x <> [] ->
  exists y, (forall d m, step_node (graph_prev_node root x d m) = Some (Some y)) /\
            visible root y = true /\
            (forall d m, step_node (graph_next_node root y d m) = Some (Some x)).
Proof.
  intros Hv Hx. destruct x as [|i pp]; [congruence|]. clear Hx.
  destruct (visible_node_at _ _ Hv) as [n Hn].
  destruct (visible_cons _ _ _ Hv) as (Hvp & parent & Hpp & Hlt & Hfold).
  destruct (decide (i = 0%nat)) as [->|Hi].
  - exists pp. split; [|split].
    + intros d m. rewrite graph_prev_node_step, Hn, Hpp. reflexivity.
    + exact Hvp.
    + intros d m. rewrite graph_next_node_step, Hpp.
      assert (Hne : list_empty parent = false).
      { unfold list_empty. destruct (n_head parent); [simpl in Hlt; lia|reflexivity]. }
      rewrite Hne. cbn [negb andb].
      destruct Hfold as [->|Hf]; [reflexivity|].
      rewrite Hf. now rewrite orb_true_r.
  - assert (Hk : (i - 1 < length (n_head parent))%nat) by lia.
    apply lookup_lt_is_Some in Hk. destruct Hk as [sibling Hs].
    assert (Hsp : node_at root ((i - 1)%nat :: pp) = Some sibling).
    { simpl. rewrite Hpp. exact Hs. }
    destruct (spine_props root sibling _ Hsp) as ((t & Ht & Hterm) & Hvs & Hcl & (q & Hq)).
    exists (spine sibling ((i - 1)%nat :: pp)). split; [|split].
    + intros d m. rewrite graph_prev_node_step, Hn, Hpp, Hs.
      rewrite bool_decide_eq_false_2 by exact Hi. reflexivity.
    + apply Hvs. eapply visible_sibling; eauto. lia.
    + intros d m. rewrite graph_next_node_step, Ht.
      assert (Hcond : negb (list_empty t) &&
                      (bool_decide (spine sibling ((i - 1)%nat :: pp) = []) ||
                       negb (folded t)) = false).
      { destruct Hterm as [->|Hf]; [reflexivity|]. rewrite Hf.
        rewrite bool_decide_eq_false_2; [now rewrite andb_false_r|].
        rewrite Hq. intros E. apply app_eq_nil in E. destruct E; discriminate. }
      rewrite Hcond, Hcl, climb_node_cons, Hpp.
      rewrite bool_decide_eq_false_2 by lia.
      replace (S (i - 1)) with i by lia.
      apply lookup_lt_is_Some in Hlt. destruct Hlt as [c Hc]. now rewrite Hc.
Qed.

Lemma climb_inv root x :
  forall a na y,
    visible root a = true -> node_at root a = Some na -> spine na a = x ->
    climb_node root a = Some (Some y) ->
    exists i pp parent sib,
      y = S i :: pp /\ node_at root pp = Some parent /\
      n_head parent !! i = Some sib /\ is_Some (n_head parent !! S i) /\
      spine sib (i :: pp) = x /\ visible root y = true.
Proof.
  induction a as [|i pp IH]; intros na y Hv Hna Hsp Hcl.
  - discriminate.
  - destruct (visible_cons _ _ _ Hv) as (Hvp & parent & Hpp & Hlt & Hfold).
    rewrite climb_node_cons, Hpp in Hcl.
    assert (Hi : n_head parent !! i = Some na).
    { simpl in Hna. rewrite Hpp in Hna. exact Hna. }
    destruct (bool_decide (S i = length (n_head parent))) eqn:Hlast.
    + apply bool_decide_eq_true in Hlast.
      destruct pp as [|j qq]; [cbv in Hcl; discriminate Hcl|].
      destruct Hfold as [Hnil|Hf]; [discriminate Hnil|].
      apply (IH parent y Hvp Hpp); [|exact Hcl].
      rewrite spine_eq, Hf.
      assert (Hne : list_empty parent = false).
      { unfold list_empty. destruct (n_head parent); [simpl in Hlt; lia|reflexivity]. }
      rewrite Hne. cbn [negb andb].
      assert (Hl : last (n_head parent) = Some na).
      { rewrite last_lookup. replace (Nat.pred (length (n_head parent))) with i by lia.
        exact Hi. }
      rewrite Hl. replace (length (n_head parent) - 1)%nat with i by lia.
      exact Hsp.
    + apply bool_decide_eq_false in Hlast.
      destruct (n_head parent !! S i) as [s|] eqn:Hs; [|discriminate].
      injection Hcl as <-.
      exists i, pp, parent, na.
      split; [reflexivity|]. split; [exact Hpp|]. split; [exact Hi|].
      split; [rewrite Hs; now eexists|]. split; [exact Hsp|].
      eapply visible_sibling; eauto. now apply lookup_lt_Some in Hs.
Qed.

(** From a node on display that is not the last one, [graph_next_node]
    returns a node on display from which [graph_prev_node] returns the
    same node. *)
Lemma graph_prev_next root x y d m :
  visible root x = true ->
  step_node (graph_next_node root x d m) = Some (Some y) ->
  visible root y = true /\
  forall d' m', step_node (graph_prev_node root y d' m') = Some (Some x).
Proof.
  intros Hv Hnext. destruct (visible_node_at _ _ Hv) as [n Hn].
  rewrite graph_next_node_step, Hn in Hnext.
  destruct (negb (list_empty n) && (bool_decide (x = []) || negb (folded n))) eqn:Hc.
  - injection Hnext as <-. apply andb_true_iff in Hc. destruct Hc as [Hne Hr].
    assert (Hlt : (0 < length (n_head n))%nat).
    { unfold list_empty in Hne. destruct (n_head n); [discriminate|simpl; lia]. }
    split.
    + cbn [visible]. rewrite Hn.
      apply andb_true_iff. split; [apply andb_true_iff; split|].
      * now apply bool_decide_eq_true_2.
      * exact Hr.
      * exact Hv.
    + intros d' m'. rewrite graph_prev_node_step. cbn [node_at]. rewrite Hn.
      apply lookup_lt_is_Some in Hlt. destruct Hlt as [c ->]. reflexivity.
  - assert (Hsp : spine n x = x).
    { rewrite spine_eq.
      destruct (negb (list_empty n) && negb (folded n)) eqn:Hc2; [|reflexivity].
      apply andb_true_iff in Hc2. destruct Hc2 as [H1 H2].
      rewrite H1, H2, orb_true_r in Hc. discriminate. }
    destruct (climb_inv root x x n y Hv Hn Hsp Hnext)
      as (i & pp & parent & sib & -> & Hpp & Hi & [s Hs] & Hspine & Hvy).
    split; [exact Hvy|].
    intros d' m'. rewrite graph_prev_node_step. cbn [node_at]. rewrite Hpp, Hs.
    rewrite bool_decide_eq_false_2 by lia.
    replace (S i - 1)%nat with i by lia. rewrite Hi, Hspine. reflexivity.
Qed.

(** Every row of the traversal is on display. *)
Lemma graph_walk_visible root fuel :
  forall x, visible root x = true ->
            Forall (fun y => visible root y = true) (graph_walk root fuel x).
Proof.
  induction fuel as [|k IH]; intros x Hv; [constructor|].
  simpl. constructor; [exact Hv|].
  destruct (step_node (graph_next_node root x 0 None)) as [[y|]|] eqn:Hs;
    try constructor.
  apply IH. eapply graph_prev_next; eauto.
Qed.


(** * The window engine over a sequence of rows *)

Section engine_rows.
Context {N X : Type} `{EqDecision N}.
Variable ops : tui_window_ops N X.
Variable LINES : Z.
  (** The rows of the view from its top on, the steps being known to follow
      them up to row [B]; [R] is what the view keeps of its own state. *)
Variable rows : list N.
Variable B : nat.
Variable R : X -> Prop.
Variable blank : N -> N -> bool.

Hypothesis HLINES : 2 < LINES.
Hypothesis Hbound : 2 * Z.of_nat B + 2 <= INT_MAX.
Hypothesis Hnext : forall win k x u,
      R (w_ext win) -> (k <= B)%nat -> rows !! k = Some x ->
      exists e, ops_next ops win x u = Some (rows !! S k, set_ext e win) /\ R e.
Hypothesis Hprev : forall win k x u,
      R (w_ext win) -> (k <= S B)%nat -> rows !! k = Some x ->
      exists e, ops_prev ops win x u =
                Some (match k with O => None | S k' => rows !! k' end,
                      set_ext e win) /\ R e.
Hypothesis Hblank : forall win a b,
      ops_needs_blank ops win a (Some b) = blank a b.

#[local] Abbreviation row := (row_index blank rows).

Lemma row_index_step k : row k + 1 <= row (S k) <= row k + 2.
  Proof.
    simpl. destruct (rows !! k), (rows !! S k); try lia.
    destruct (blank _ _); lia.
  Qed.

Lemma row_index_bounds k : Z.of_nat k <= row k <= 2 * Z.of_nat k.
  Proof.
    induction k as [|k IH]; [simpl; lia|].
    pose proof (row_index_step k). lia.
  Qed.

Lemma row_index_mono i j : (i <= j)%nat -> row i <= row j.
  Proof.
    induction 1 as [|j _ IH]; [lia|]. pose proof (row_index_step j). lia.
  Qed.

Lemma row_index_lt i j : (i < j)%nat -> row i < row j.
  Proof.
    intros H. pose proof (row_index_mono (S i) j H).
    pose proof (row_index_step i). lia.
  Qed.

Lemma row_index_S k a b :
    rows !! k = Some a -> rows !! S k = Some b ->
    row (S k) = row k + 1 + (if blank a b then 1 else 0).
  Proof. intros Ha Hb. simpl. now rewrite Ha, Hb. Qed.

#[local] Arguments row_index : simpl never.
#[local] Abbreviation on_here := (on_rows rows B R blank).


Lemma on_rows_top_Some win i j : on_here win i j -> is_Some (rows !! i).
  Proof.
    intros (_ & Hij & _ & Hj & _). apply lookup_lt_is_Some.
    apply lookup_lt_is_Some in Hj. lia.
  Qed.

Lemma wrap_row k : (k <= S B)%nat -> wrap_int (row k) = row k.
  Proof.
    intros Hk. apply wrap_int_small. pose proof (row_index_bounds k).
    unfold INT_MAX in *. lia.
  Qed.

Lemma move_up_on_rows win i j :
    on_here win i j ->
    exists win', tui_window_move_up ops win = Some win' /\
                 on_here win' (Nat.min i (j - 1)) (j - 1).
  Proof.
    intros (HR & Hij & HjB & [c Hc] & Ht & Hcu & Hti & Hci).
    unfold tui_window_move_up. rewrite Hcu, Hc. cbn [mbind option_bind].
    destruct (Hprev win j c false HR ltac:(lia) Hc) as (e & -> & HRe).
    cbn [mbind option_bind].
    destruct j as [|j'].
    - (* already on the first row *)
      exists (set_ext e win). split; [reflexivity|].
      assert (i = 0%nat) by lia. subst i.
      unfold on_rows. cbn. rewrite Hc. repeat split; eauto; congruence.
    - replace (S j' - 1)%nat with j' by lia.
      assert (Hj' : is_Some (rows !! j')).
      { apply lookup_lt_is_Some. apply lookup_lt_Some in Hc. lia. }
      destruct Hj' as [b Hb]. rewrite Hb.
      rewrite Hblank. cbn [curr_index set_ext set_curr_index].
      rewrite Hci, (row_index_S j' b c Hb Hc).
      assert (Hrow : (if blank b c
                      then set_curr_index
                             (wrap_int (wrap_int (row j' + 1 + (if blank b c then 1 else 0) - 1) - 1))
                             (set_curr_index
                                (wrap_int (row j' + 1 + (if blank b c then 1 else 0) - 1))
                                (set_ext e win))
                      else set_curr_index
                             (wrap_int (row j' + 1 + (if blank b c then 1 else 0) - 1))
                             (set_ext e win))
                     = set_curr_index (row j') (set_ext e win)).
      { pose proof (row_index_bounds j') as Hb'.
        assert (W : forall z, 0 <= z <= row j' + 2 -> wrap_int z = z).
        { intros z Hz. apply wrap_int_small. unfold INT_MAX in *. lia. }
        destruct (blank b c); unfold set_curr_index; cbn; f_equal.
        - rewrite (W (row j' + 1 + 1 - 1)) by lia. rewrite W by lia. lia.
        - rewrite W by lia. lia. }
      cbn [curr_index set_curr_index] in Hrow |- *. rewrite Hrow. clear Hrow.
      cbn [curr_index top_index set_curr_index set_ext]. rewrite Hti.
      destruct (row j' <? row i) eqn:Hlt.
      + (* the cursor leaves the screen: the top follows *)
        apply Z.ltb_lt in Hlt.
        assert (i = S j').
        { destruct (decide (i = S j')) as [|Hne]; [assumption|].
          assert (Hle : (i <= j')%nat) by lia.
          pose proof (row_index_mono _ _ Hle). lia. }
        subst i. cbn [w_top set_curr_index set_ext]. rewrite Ht, Hc.
        cbn [mbind option_bind].
        destruct (Hprev (set_curr_index (row j') (set_ext e win)) (S j') c true)
          as (e2 & -> & HRe2); [exact HRe | lia | exact Hc |].
        cbn [mbind option_bind]. eexists. split; [reflexivity|].
        replace (Nat.min (S j') j') with j' by lia.
        unfold on_rows. cbn. rewrite Hb. repeat split; eauto; try lia; congruence.
      + apply Z.ltb_ge in Hlt. cbn [mbind option_bind].
        eexists. split; [reflexivity|].
        assert (Hle : (i <= j')%nat).
        { destruct (decide (i = S j')) as [->|Hne]; [|lia].
          pose proof (row_index_step j'). lia. }
        replace (Nat.min i j') with i by lia.
        unfold on_rows. cbn. rewrite Hb. repeat split; eauto; try lia; congruence.
  Qed.

Lemma scroll_top_on_rows j rounds :
    forall win i,
      on_here win i j ->
      (Z.to_nat (row j - row i - (LINES - 2) + 1) <= rounds)%nat ->
      exists win' i', scroll_top ops LINES rounds win = Some win' /\
                      on_here win' i' j.
  Proof.
    induction rounds as [|rounds IH]; intros win i Hinv Hr.
    - exists win, i. split; [|exact Hinv].
      destruct Hinv as (_ & _ & _ & _ & _ & _ & Hti & Hci).
      simpl. rewrite Hti, Hci.
      destruct (LINES - 2 <=? row j - row i) eqn:E; [|reflexivity].
      apply Z.leb_le in E. lia.
    - pose proof Hinv as (HR & Hij & HjB & [c Hc] & Ht & Hcu & Hti & Hci).
      cbn [scroll_top]. rewrite Hti, Hci.
      destruct (LINES - 2 <=? row j - row i) eqn:E; [|now exists win, i].
      apply Z.leb_le in E.
      assert (Hlt : (i < j)%nat).
      { destruct (decide (i = j)) as [->|]; [lia|lia]. }
      destruct (on_rows_top_Some _ _ _ Hinv) as [t Hrt].
      rewrite Ht, Hrt. cbn [mbind option_bind].
      destruct (Hnext win i t true HR ltac:(lia) Hrt) as (e & -> & HRe).
      cbn [mbind option_bind].
      assert (Hn : is_Some (rows !! S i)).
      { apply lookup_lt_is_Some. apply lookup_lt_Some in Hc. lia. }
      destruct Hn as [n Hn]. rewrite Hn, Hblank.
      cbn [top_index set_top_index set_ext]. rewrite Hti.
      pose proof (row_index_S i t n Hrt Hn) as HS.
      pose proof (row_index_bounds i) as Hbi.
      assert (W : forall z, 0 <= z <= row i + 2 -> wrap_int z = z).
      { intros z Hz. apply wrap_int_small. unfold INT_MAX in *. lia. }
      rewrite (W (row i + 1)) by lia.
      apply (IH _ (S i)).
      + unfold on_rows.
        destruct (blank t n); cbn; rewrite ?W by lia;
          repeat split; eauto; try lia; congruence.
      + pose proof (row_index_step i). lia.
  Qed.

Lemma move_down_on_rows win i j :
    on_here win i j -> (j < B)%nat ->
    exists win' i',
      tui_window_move_down ops LINES win = Some win' /\
      on_here win' i' (match rows !! S j with Some _ => S j | None => j end).
  Proof.
    intros (HR & Hij & HjB & [c Hc] & Ht & Hcu & Hti & Hci) HB.
    unfold tui_window_move_down. rewrite Hcu, Hc. cbn [mbind option_bind].
    destruct (Hnext win j c false HR ltac:(lia) Hc) as (e & -> & HRe).
    cbn [mbind option_bind].
    destruct (rows !! S j) as [n|] eqn:Hn.
    - rewrite Hblank. cbn [curr_index set_curr_index set_ext]. rewrite Hci.
      pose proof (row_index_S j c n Hc Hn) as HS.
      pose proof (row_index_bounds j) as Hbj.
      assert (W : forall z, 0 <= z <= row j + 2 -> wrap_int z = z).
      { intros z Hz. apply wrap_int_small. unfold INT_MAX in *. lia. }
      rewrite (W (row j + 1)) by lia.
      apply (scroll_top_on_rows (S j) _ _ i).
      + unfold on_rows.
        destruct (blank c n); cbn; rewrite ?W by lia;
          repeat split; eauto; try lia; congruence.
      + unfold scroll_rounds.
        destruct (blank c n); cbn; rewrite ?W by lia; rewrite Hti; lia.
    - exists (set_ext e win), i. split; [reflexivity|].
      unfold on_rows. cbn. repeat split; eauto; congruence.
  Qed.

Lemma repeat_down_on_rows n :
    forall win i j,
      on_here win i j -> (j + n <= B)%nat ->
      exists win' i' j',
        repeat_op (tui_window_move_down ops LINES) n win = Some win' /\
        on_here win' i' j' /\ (j' <= j + n)%nat.
  Proof.
    induction n as [|n IH]; intros win i j Hinv Hb.
    - exists win, i, j. split; [reflexivity|]. split; [exact Hinv | lia].
    - cbn [repeat_op].
      destruct (move_down_on_rows win i j Hinv) as (w1 & i1 & -> & H1); [lia|].
      cbn [mbind option_bind].
      set (j1 := match rows !! S j with Some _ => S j | None => j end) in *.
      assert (Hj1 : (j1 <= S j)%nat) by (subst j1; destruct (rows !! S j); lia).
      destruct (IH w1 i1 j1 H1) as (w2 & i2 & j2 & -> & H2 & Hj2); [lia|].
      exists w2, i2, j2. split; [reflexivity|]. split; [exact H2 | lia].
  Qed.

Lemma repeat_up_on_rows n :
    forall win i j,
      on_here win i j -> (j <= n)%nat ->
      exists win',
        repeat_op (tui_window_move_up ops) n win = Some win' /\
        on_here win' 0 0.
  Proof.
    induction n as [|n IH]; intros win i j Hinv Hj.
    - assert (j = 0%nat) by lia. subst j.
      assert (i = 0%nat) by (destruct Hinv as (_ & ? & _); lia). subst i.
      now exists win.
    - cbn [repeat_op].
      destruct (move_up_on_rows win i j Hinv) as (w1 & -> & H1).
      cbn [mbind option_bind].
      apply (IH w1 _ _ H1). lia.
  Qed.

  (** Moving down [n] times from a state where the cursor and the top are
      on the first row, then up [n] times, ends in such a state. *)
Lemma down_up_on_rows n win :
    on_here win 0 0 -> (n <= B)%nat ->
    exists win1 win2,
      repeat_op (tui_window_move_down ops LINES) n win = Some win1 /\
      repeat_op (tui_window_move_up ops) n win1 = Some win2 /\
      w_top win2 = w_top win /\ w_curr win2 = w_curr win /\
      top_index win2 = 0 /\ curr_index win2 = 0.
  Proof.
    intros Hinv Hn.
    destruct (repeat_down_on_rows n win 0 0 Hinv) as (w1 & i1 & j1 & E1 & H1 & Hj1);
      [lia|].
    destruct (repeat_up_on_rows n w1 i1 j1 H1) as (w2 & E2 & H2); [lia|].
    exists w1, w2. split; [exact E1|]. split; [exact E2|].
    destruct Hinv as (_ & _ & _ & _ & Ht & Hc & _).
    destruct H2 as (_ & _ & _ & _ & Ht2 & Hc2 & Hti2 & Hci2).
    repeat split; try congruence; assumption.
  Qed.
End engine_rows.


(** * The two views as sequences of rows *)

Lemma set_ext_same {N X} (win : tui_window N X) : set_ext (w_ext win) win = win.
Proof. now destruct win. Qed.

(** ** The graph view *)

Lemma climb_node_total root x :
  is_Some (node_at root x) -> is_Some (climb_node root x).
Proof.
  induction x as [|i pp IH]; intros [n Hn]; [exists None; reflexivity|].
  destruct (node_at_parent _ _ _ _ Hn) as (parent & Hpp & Hi).
  rewrite climb_node_cons, Hpp.
  destruct (bool_decide (S i = length (n_head parent))) eqn:E.
  - apply IH. exists parent. exact Hpp.
  - apply bool_decide_eq_false in E. apply lookup_lt_Some in Hi.
    assert (Hlt : (S i < length (n_head parent))%nat) by lia.
    apply lookup_lt_is_Some in Hlt. destruct Hlt as [s ->].
    eexists. reflexivity.
Qed.

Lemma graph_next_node_total root x d m :
  is_Some (node_at root x) ->
  exists r d' m', graph_next_node root x d m = Some (r, d', m') /\
                  step_node (graph_next_node root x 0 None) = Some r.
Proof.
  intros Hx.
  assert (Hs : is_Some (step_node (graph_next_node root x d m))).
  { rewrite graph_next_node_step. destruct Hx as [n Hn]. rewrite Hn.
    destruct (negb (list_empty n) && _); [eexists; reflexivity|].
    apply climb_node_total. exists n. exact Hn. }
  destruct Hs as [r Hr].
  pose proof Hr as Hr0. rewrite graph_next_node_step in Hr0.
  rewrite <- (graph_next_node_step root x 0 None) in Hr0.
  destruct (graph_next_node root x d m) as [[[r' d'] m']|]; [|discriminate].
  injection Hr as <-. now exists r', d', m'.
Qed.

Lemma graph_prev_node_total root x y d m :
  step_node (graph_prev_node root x 0 None) = Some y ->
  exists d' m', graph_prev_node root x d m = Some (y, d', m').
Proof.
  intros Hy. rewrite graph_prev_node_step in Hy.
  rewrite <- (graph_prev_node_step root x d m) in Hy.
  destruct (graph_prev_node root x d m) as [[[r' d'] m']|]; [|discriminate].
  injection Hy as <-. now exists d', m'.
Qed.


Lemma graph_walk_S root fuel :
  forall x0 k x,
    graph_walk root fuel x0 !! k = Some x -> (S k < fuel)%nat ->
    graph_walk root fuel x0 !! S k = next_of root x.
Proof.
  induction fuel as [|fuel IH]; intros x0 k x Hk Hf; [lia|].
  destruct k as [|k].
  - simpl in Hk. injection Hk as ->.
    cbn [graph_walk]. unfold next_of.
    destruct (step_node (graph_next_node root x 0 None)) as [[y|]|]; try reflexivity.
    destruct fuel as [|fuel]; [lia|]. reflexivity.
  - cbn [graph_walk] in Hk |- *.
    destruct (step_node (graph_next_node root x0 0 None)) as [[y|]|];
      try (simpl in Hk; discriminate).
    rewrite lookup_cons in Hk |- *. apply (IH y k x Hk). lia.
Qed.

Lemma graph_walk_row_visible root fuel k x :
  graph_walk root fuel [] !! k = Some x -> visible root x = true.
Proof.
  intros Hk. pose proof (graph_walk_visible root fuel [] eq_refl) as HF.
  rewrite Forall_forall in HF. apply HF. apply list_elem_of_lookup. now exists k.
Qed.

Section graph_rows.
Variable root : tui_graph_node.
Variable B : nat.

#[local] Abbreviation rows := (graph_walk root (S (S B)) []).
#[local] Abbreviation keeps g := (ug_root g = root).

Lemma win_next_graph_rows (win : graph_window) k x u :
    keeps (w_ext win) -> (k <= B)%nat -> rows !! k = Some x ->
    exists e, win_next_graph win x u = Some (rows !! S k, set_ext e win) /\ keeps e.
  Proof.
    intros HR Hk Hx.
    pose proof (graph_walk_row_visible _ _ _ _ Hx) as Hv.
    assert (Hs : rows !! S k = next_of root x).
    { apply graph_walk_S; [exact Hx | lia]. }
    assert (Hn : is_Some (node_at root x)).
    { destruct (visible_node_at _ _ Hv) as [n Hn]. exists n. exact Hn. }
    assert (T : forall d m, exists d' m',
               graph_next_node root x d m = Some (rows !! S k, d', m')).
    { intros d m. destruct (graph_next_node_total root x d m Hn) as (r & d' & m' & E & E0).
      exists d', m'. rewrite E, Hs. unfold next_of. rewrite E0. now destruct r. }
    unfold win_next_graph. rewrite HR.
    destruct u.
    - destruct (T (top_depth (w_ext win)) (Some (top_mask (w_ext win))))
        as (d' & m' & ->).
      cbn [mbind option_bind]. eexists. split; [reflexivity|]. exact HR.
    - destruct (disp_update (w_ext win)).
      + destruct (T (disp_depth (w_ext win)) (Some (disp_mask (w_ext win))))
          as (d' & m' & ->).
        cbn [mbind option_bind]. eexists. split; [reflexivity|]. exact HR.
      + destruct (T 0 None) as (d' & m' & ->).
        cbn [mbind option_bind]. exists (w_ext win).
        rewrite set_ext_same. split; [reflexivity|]. exact HR.
  Qed.

Lemma win_prev_graph_rows (win : graph_window) k x u :
    keeps (w_ext win) -> (k <= S B)%nat -> rows !! k = Some x ->
    exists e, win_prev_graph win x u =
              Some (match k with O => None | S k' => rows !! k' end,
                    set_ext e win) /\ keeps e.
  Proof.
    intros HR Hk Hx.
    assert (T : forall d m, exists d' m',
               graph_prev_node root x d m =
               Some (match k with O => None | S k' => rows !! k' end, d', m')).
    { intros d m. apply graph_prev_node_total.
      destruct k as [|k'].
      - simpl in Hx. injection Hx as <-. reflexivity.
      - assert (Hy : is_Some (rows !! k')).
        { apply lookup_lt_is_Some. apply lookup_lt_Some in Hx. lia. }
        destruct Hy as [y Hy]. rewrite Hy.
        pose proof (graph_walk_row_visible _ _ _ _ Hy) as Hv.
        assert (Hs : rows !! S k' = next_of root y).
        { apply graph_walk_S; [exact Hy | lia]. }
        rewrite Hx in Hs. unfold next_of in Hs.
        destruct (step_node (graph_next_node root y 0 None)) as [[z|]|] eqn:E;
          try discriminate.
        injection Hs as ->.
        now apply (graph_prev_next root y z 0 None Hv E). }
    unfold win_prev_graph. rewrite HR.
    destruct u.
    - destruct (T (top_depth (w_ext win)) (Some (top_mask (w_ext win))))
        as (d' & m' & ->).
      cbn [mbind option_bind]. eexists. split; [reflexivity|]. exact HR.
    - destruct (T 0 None) as (d' & m' & ->).
      cbn [mbind option_bind]. exists (w_ext win).
      rewrite set_ext_same. split; [reflexivity|]. exact HR.
  Qed.
End graph_rows.

(** ** The report view *)

Lemma list_succ_lookup l : forall k x,
  NoDup l -> l !! k = Some x -> list_succ l x = l !! S k.
Proof.
  induction l as [|a rest IH]; intros k x Hnd Hk; [discriminate|].
  apply NoDup_cons in Hnd. destruct Hnd as [Ha Hnd].
  destruct rest as [|b r].
  - destruct k; [reflexivity|discriminate].
  - change (list_succ (a :: b :: r) x)
      with (if bool_decide (a = x) then Some b else list_succ (b :: r) x).
    destruct k as [|k].
    + injection Hk as ->. now rewrite bool_decide_eq_true_2.
    + rewrite lookup_cons in Hk.
      rewrite bool_decide_eq_false_2.
      * rewrite (IH k x Hnd Hk). reflexivity.
      * intros ->. apply Ha. apply list_elem_of_lookup. now exists k.
Qed.

Lemma list_pred_absent c l x : x ∉ l -> list_pred (c :: l) x = None.
Proof.
  revert c. induction l as [|b r IH]; intros c Hx; [reflexivity|].
  change (list_pred (c :: b :: r) x)
    with (if bool_decide (b = x) then Some c else list_pred (b :: r) x).
  apply not_elem_of_cons in Hx. destruct Hx as [Hb Hr].
  rewrite bool_decide_eq_false_2 by congruence. apply IH. exact Hr.
Qed.

Lemma list_pred_lookup l : forall k x,
  NoDup l -> l !! k = Some x ->
  list_pred l x = match k with O => None | S k' => l !! k' end.
Proof.
  induction l as [|a rest IH]; intros k x Hnd Hk; [discriminate|].
  apply NoDup_cons in Hnd. destruct Hnd as [Ha Hnd].
  destruct k as [|k].
  - injection Hk as ->. now apply list_pred_absent.
  - rewrite lookup_cons in Hk. destruct rest as [|b r]; [discriminate|].
    change (list_pred (a :: b :: r) x)
      with (if bool_decide (b = x) then Some a else list_pred (b :: r) x).
    destruct k as [|k].
    + injection Hk as ->. now rewrite bool_decide_eq_true_2.
    + rewrite bool_decide_eq_false_2.
      * rewrite (IH (S k) x Hnd Hk). reflexivity.
      * intros ->. apply NoDup_cons in Hnd. destruct Hnd as [Hb _].
        apply Hb. rewrite lookup_cons in Hk.
        apply list_elem_of_lookup. now exists k.
Qed.

Section report_rows.
Variable t : rb_tree.
Hypothesis Hnodup : NoDup (rb_inorder t).

#[local] Abbreviation rrows := (rb_inorder t).
#[local] Abbreviation rkeeps r := (sort_tree r = t).

Lemma win_next_report_rows (win : report_window) k x u :
    rkeeps (w_ext win) -> rrows !! k = Some x ->
    exists e, win_next_report win x u = Some (rrows !! S k, set_ext e win) /\ rkeeps e.
  Proof.
    intros HR Hx. exists (w_ext win). rewrite set_ext_same.
    unfold win_next_report, rb_next. rewrite HR.
    rewrite (list_succ_lookup _ _ _ Hnodup Hx). now split.
  Qed.

Lemma win_prev_report_rows (win : report_window) k x u :
    rkeeps (w_ext win) -> rrows !! k = Some x ->
    exists e, win_prev_report win x u =
              Some (match k with O => None | S k' => rrows !! k' end,
                    set_ext e win) /\ rkeeps e.
  Proof.
    intros HR Hx. exists (w_ext win). rewrite set_ext_same.
    unfold win_prev_report, rb_prev. rewrite HR.
    rewrite (list_pred_lookup _ _ _ Hnodup Hx). now split.
  Qed.
End report_rows.

(** ** Round trips *)

Lemma graph_steps_inverse (win : graph_window) fuel x :
  x ∈ graph_walk (ug_root (w_ext win)) fuel [] ->
  steps_inverse graph_ops win x.
Proof.
  intros Hx. apply list_elem_of_lookup in Hx. destruct Hx as [k Hk].
  set (root := ug_root (w_ext win)) in *.
  pose proof (graph_walk_row_visible _ _ _ _ Hk) as Hv.
  assert (Hn : is_Some (node_at root x)).
  { destruct (visible_node_at _ _ Hv) as [n Hn]. exists n. exact Hn. }
  assert (Pt : forall d m, exists r d' m',
             graph_prev_node root x d m = Some (r, d', m') /\
             step_node (graph_prev_node root x 0 None) = Some r).
  { intros d m.
    assert (Hs : is_Some (step_node (graph_prev_node root x 0 None))).
    { destruct x as [|i pp].
      - eexists. reflexivity.
      - destruct (graph_next_prev root (i :: pp) Hv) as (y & Hy & _); [discriminate|].
        rewrite Hy. eexists. reflexivity. }
    destruct Hs as [r Hr].
    destruct (graph_prev_node_total root x r d m Hr) as (d' & m' & E).
    now exists r, d', m'. }
  assert (Pv : forall y, step_node (graph_prev_node root x 0 None) = Some (Some y) ->
                         forall w u', ug_root (w_ext w) = root ->
                                      exists w', win_next_graph w y u' = Some (Some x, w')).
  { intros y Hy w u' Hw.
    assert (Hx0 : x <> []) by (intros ->; discriminate).
    destruct (graph_next_prev root x Hv Hx0) as (y' & Hy' & Hvy & Hback).
    rewrite Hy' in Hy. injection Hy as ->.
    assert (T : forall d m, exists d' m',
               graph_next_node root y d m = Some (Some x, d', m')).
    { intros d m. specialize (Hback d m).
      destruct (graph_next_node root y d m) as [[[r' d'] m']|]; [|discriminate].
      injection Hback as ->. now exists d', m'. }
    unfold win_next_graph. rewrite Hw. destruct u'.
    - destruct (T (top_depth (w_ext w)) (Some (top_mask (w_ext w)))) as (d' & m' & ->).
      eexists. reflexivity.
    - destruct (disp_update (w_ext w)).
      + destruct (T (disp_depth (w_ext w)) (Some (disp_mask (w_ext w))))
          as (d' & m' & ->).
        eexists. reflexivity.
      + destruct (T 0 None) as (d' & m' & ->). eexists. reflexivity. }
  assert (Nv : forall y, step_node (graph_next_node root x 0 None) = Some (Some y) ->
                         forall w u', ug_root (w_ext w) = root ->
                                      exists w', win_prev_graph w y u' = Some (Some x, w')).
  { intros y Hy w u' Hw.
    destruct (graph_prev_next root x y 0 None Hv Hy) as (_ & Hback).
    assert (T : forall d m, exists d' m',
               graph_prev_node root y d m = Some (Some x, d', m')).
    { intros d m. apply graph_prev_node_total. apply Hback. }
    unfold win_prev_graph. rewrite Hw. destruct u'.
    - destruct (T (top_depth (w_ext w)) (Some (top_mask (w_ext w)))) as (d' & m' & ->).
      eexists. reflexivity.
    - destruct (T 0 None) as (d' & m' & ->). eexists. reflexivity. }
  unfold steps_inverse. cbn [ops_prev ops_next graph_ops].
  split; [|split; [|split]].
  - intros u. unfold win_prev_graph. fold root. destruct u.
    + destruct (Pt (top_depth (w_ext win)) (Some (top_mask (w_ext win))))
        as (r & d' & m' & -> & _). eexists _, _. reflexivity.
    + destruct (Pt 0 None) as (r & d' & m' & -> & _). eexists _, _. reflexivity.
  - intros u. unfold win_next_graph. fold root. destruct u; [|destruct (disp_update _)].
    + destruct (graph_next_node_total root x (top_depth (w_ext win))
                  (Some (top_mask (w_ext win))) Hn) as (r & d' & m' & -> & _).
      eexists _, _. reflexivity.
    + destruct (graph_next_node_total root x (disp_depth (w_ext win))
                  (Some (disp_mask (w_ext win))) Hn) as (r & d' & m' & -> & _).
      eexists _, _. reflexivity.
    + destruct (graph_next_node_total root x 0 None Hn) as (r & d' & m' & -> & _).
      eexists _, _. reflexivity.
  - intros u y win' E u'. apply Pv.
    + unfold win_prev_graph in E. fold root in E. destruct u.
      * destruct (Pt (top_depth (w_ext win)) (Some (top_mask (w_ext win))))
          as (r & d' & m' & E1 & E2). rewrite E1 in E.
        cbn in E. injection E as -> _. exact E2.
      * destruct (Pt 0 None) as (r & d' & m' & E1 & E2). rewrite E1 in E.
        cbn in E. injection E as -> _. exact E2.
    + clear Pt Pv Nv. unfold win_prev_graph in E. fold root in E. destruct u.
      * destruct (graph_prev_node root x _ _) as [[[r d'] m']|];
          cbn in E; [|discriminate E].
        injection E as _ <-. reflexivity.
      * destruct (graph_prev_node root x _ _) as [[[r d'] m']|];
          cbn in E; [|discriminate E].
        injection E as _ <-. reflexivity.
  - intros u y win' E u'. apply Nv.
    + unfold win_next_graph in E. fold root in E.
      destruct u; [|destruct (disp_update _)].
      * destruct (graph_next_node_total root x (top_depth (w_ext win))
                    (Some (top_mask (w_ext win))) Hn) as (r & d' & m' & E1 & E2).
        rewrite E1 in E. cbn in E. injection E as -> _. exact E2.
      * destruct (graph_next_node_total root x (disp_depth (w_ext win))
                    (Some (disp_mask (w_ext win))) Hn) as (r & d' & m' & E1 & E2).
        rewrite E1 in E. cbn in E. injection E as -> _. exact E2.
      * destruct (graph_next_node_total root x 0 None Hn) as (r & d' & m' & E1 & E2).
        rewrite E1 in E. cbn in E. injection E as -> _. exact E2.
    + clear Pt Pv Nv. unfold win_next_graph in E. fold root in E.
      destruct u; [|destruct (disp_update _)];
        (destruct (graph_next_node root x _ _) as [[[r d'] m']|];
         cbn in E; [|discriminate E]; injection E as _ <-; reflexivity).
Qed.

Lemma report_steps_inverse (win : report_window) x :
  NoDup (rb_inorder (sort_tree (w_ext win))) ->
  x ∈ rb_inorder (sort_tree (w_ext win)) ->
  steps_inverse report_ops win x.
Proof.
  intros Hnd Hx. apply list_elem_of_lookup in Hx. destruct Hx as [k Hk].
  unfold steps_inverse. cbn [ops_prev ops_next report_ops].
  unfold win_prev_report, win_next_report, rb_prev, rb_next.
  split; [|split; [|split]].
  - intros u. eexists _, _. reflexivity.
  - intros u. eexists _, _. reflexivity.
  - intros u y win' E u'. injection E as E <-.
    rewrite (list_pred_lookup _ _ _ Hnd Hk) in E.
    destruct k as [|k']; [discriminate|].
    rewrite (list_succ_lookup _ _ _ Hnd E), Hk. eexists. reflexivity.
  - intros u y win' E u'. injection E as E <-.
    rewrite (list_succ_lookup _ _ _ Hnd Hk) in E.
    rewrite (list_pred_lookup _ _ _ Hnd E), Hk. eexists. reflexivity.
Qed.

Lemma graph_down_up LINES n (win : graph_window) :
  2 < LINES -> 2 * Z.of_nat n + 2 <= INT_MAX ->
  exists home down up,
    tui_window_move_home graph_ops win = Some home /\
    repeat_op (tui_window_move_down graph_ops LINES) n home = Some down /\
    repeat_op (tui_window_move_up graph_ops) n down = Some up /\
    w_top up = w_top home /\ w_curr up = w_curr home /\
    top_index up = top_index home /\ curr_index up = curr_index home /\
    w_top home = Some [] /\ w_curr home = Some [] /\
    top_index home = 0 /\ curr_index home = 0.
Proof.
  intros HL Hn.
  set (root := ug_root (w_ext win)).
  set (home := set_curr_index 0 (set_top_index 0 (set_curr (Some [])
                 (set_top (Some [])
                    (set_ext (set_top_state 0 (top_mask (w_ext win)) (w_ext win))
                             win))))).
  assert (Hhome : tui_window_move_home graph_ops win = Some home) by reflexivity.
  destruct (down_up_on_rows graph_ops LINES
              (graph_walk root (S (S n)) []) n (fun g => ug_root g = root)
              (fun a b => negb (is_first_child a b)) HL Hn
              (win_next_graph_rows root n) (win_prev_graph_rows root n)
              (fun _ _ _ => eq_refl) n home)
    as (down & up & Hd & Hu & H1 & H2 & H3 & H4).
  { unfold on_rows, home. cbn. repeat split; try lia. eexists. reflexivity. }
  { lia. }
  exists home, down, up. rewrite H1, H2, H3, H4. repeat split; assumption.
Qed.

Lemma report_down_up LINES n (win home : report_window) :
  2 < LINES -> 2 * Z.of_nat n + 2 <= INT_MAX ->
  NoDup (rb_inorder (sort_tree (w_ext win))) ->
  tui_window_move_home report_ops win = Some home ->
  exists down up,
    repeat_op (tui_window_move_down report_ops LINES) n home = Some down /\
    repeat_op (tui_window_move_up report_ops) n down = Some up /\
    w_top up = w_top home /\ w_curr up = w_curr home /\
    top_index up = top_index home /\ curr_index up = curr_index home /\
    w_top home = rb_first (sort_tree (w_ext win)) /\
    w_curr home = rb_first (sort_tree (w_ext win)) /\
    top_index home = 0 /\ curr_index home = 0.
Proof.
  intros HL Hn Hnd Hhome.
  set (t := sort_tree (w_ext win)) in *.
  unfold tui_window_move_home in Hhome. cbn [ops_top report_ops] in Hhome.
  unfold win_top_report in Hhome. fold t in Hhome.
  destruct (rb_first t) as [first|] eqn:Hfirst; [|discriminate].
  cbn in Hhome. injection Hhome as <-.
  destruct (down_up_on_rows report_ops LINES (rb_inorder t) n
              (fun r => sort_tree r = t) (fun _ _ => false) HL Hn
              (fun w k x u HR _ Hx => win_next_report_rows t Hnd w k x u HR Hx)
              (fun w k x u HR _ Hx => win_prev_report_rows t Hnd w k x u HR Hx)
              (fun _ _ _ => eq_refl) n
              (set_curr_index 0 (set_top_index 0 (set_curr (Some first)
                 (set_top (Some first) win)))))
    as (down & up & Hd & Hu & H1 & H2 & H3 & H4).
  { unfold on_rows. cbn. unfold rb_first in Hfirst.
    destruct (rb_inorder t) as [|a l] eqn:E; [discriminate|].
    injection Hfirst as ->.
    repeat split; try lia; try reflexivity. eexists. reflexivity. }
  { lia. }
  exists down, up. rewrite H1, H2, H3, H4. repeat split; assumption.
Qed.

(** What holds of the round trip.  In the graph view and in the report
    view [next(prev(x)) == x] and [prev(next(x)) == x] for every row [x] of
    the view for which the inner step returns a node (every row but the
    first, resp. the last), the fold flags being fixed; and on a screen of
    more than two lines, from the canonical top, [n] times move-down
    followed by [n] times move-up brings the top and the cursor back to the
    canonical top with both row indices 0. *)
Theorem tui_window_round_trip :
  (forall (win : graph_window) fuel x,
      x ∈ graph_walk (ug_root (w_ext win)) fuel [] ->
      steps_inverse graph_ops win x) /\
  (forall (win : report_window) x,
      NoDup (rb_inorder (sort_tree (w_ext win))) ->
      x ∈ rb_inorder (sort_tree (w_ext win)) ->
      steps_inverse report_ops win x) /\
  (forall LINES n (win : graph_window),
      2 < LINES -> 2 * Z.of_nat n + 2 <= INT_MAX ->
      exists home down up,
        tui_window_move_home graph_ops win = Some home /\
        repeat_op (tui_window_move_down graph_ops LINES) n home = Some down /\
        repeat_op (tui_window_move_up graph_ops) n down = Some up /\
        w_top up = w_top home /\ w_curr up = w_curr home /\
        top_index up = top_index home /\ curr_index up = curr_index home /\
        w_top home = Some [] /\ w_curr home = Some [] /\
        top_index home = 0 /\ curr_index home = 0) /\
  (forall LINES n (win home : report_window),
      2 < LINES -> 2 * Z.of_nat n + 2 <= INT_MAX ->
      NoDup (rb_inorder (sort_tree (w_ext win))) ->
      tui_window_move_home report_ops win = Some home ->
      exists down up,
        repeat_op (tui_window_move_down report_ops LINES) n home = Some down /\
        repeat_op (tui_window_move_up report_ops) n down = Some up /\
        w_top up = w_top home /\ w_curr up = w_curr home /\
        top_index up = top_index home /\ curr_index up = curr_index home /\
        w_top home = rb_first (sort_tree (w_ext win)) /\
        w_curr home = rb_first (sort_tree (w_ext win)) /\
        top_index home = 0 /\ curr_index home = 0).
Proof.
  split; [exact graph_steps_inverse|].
  split; [exact report_steps_inverse|].
  split; [exact graph_down_up | exact report_down_up].
Qed.

Lemma tui_window_round_trip_witness :
  2 < 24 /\ 2 * Z.of_nat 5 + 2 <= INT_MAX /\
  exists home down up,
    tui_window_move_home graph_ops (sample_graph_window sample_chain 8) = Some home /\
    repeat_op (tui_window_move_down graph_ops 24) 5 home = Some down /\
    repeat_op (tui_window_move_up graph_ops) 5 down = Some up /\
    w_top up = Some [] /\ w_curr up = Some [] /\
    top_index up = 0 /\ curr_index up = 0.
Proof.
  assert (H1 : 2 < 24) by lia.
  assert (H2 : 2 * Z.of_nat 5 + 2 <= INT_MAX) by (vm_compute; discriminate).
  split; [exact H1|]. split; [exact H2|].
  destruct tui_window_round_trip as (_ & _ & Hg & _).
  destruct (Hg 24 5%nat (sample_graph_window sample_chain 8) H1 H2)
    as (home & down & up & E1 & E2 & E3 & E4 & E5 & E6 & E7 & E8 & E9 & E10 & E11).
  exists home, down, up. rewrite E4, E5, E6, E7 in *.
  repeat split; assumption.
Defined.

(** ** The round trip on a screen of two lines *)

(** A key that leaves the window as it is does so any number of times. *)
Lemma repeat_op_fixed {N X} (step : tui_window N X -> option (tui_window N X))
    n win :
  step win = Some win -> repeat_op step n win = Some win.
Proof.
  intros H. induction n as [|n IH]; [reflexivity|].
  cbn [repeat_op]. rewrite H. exact IH.
Qed.

Lemma repeat_op_add {N X} (step : tui_window N X -> option (tui_window N X))
    a b win :
  repeat_op step (a + b) win = (w ← repeat_op step a win; repeat_op step b w).
Proof.
  revert win. induction a as [|a IH]; intros win; [reflexivity|].
  cbn [repeat_op Nat.add]. destruct (step win) as [w|]; [|reflexivity].
  cbn [mbind option_bind]. apply IH.
Qed.

(** C5. With [LINES = 2] the round trip does not return.  The loop of
    [tui_window_move_down] has no bound on [LINES]: as soon as the cursor
    comes to the last row it moves the top past it, to [NULL], and the
    first [tui_window_move_up] then steps back from that null top, which is
    a fault.  So it is in the report of two functions for every number of
    moves but zero, and in the graph view of the chain of four nodes for
    every number of moves from three on. *)
Theorem tui_window_round_trip_small_screen :
  (forall n,
      exists home down,
        tui_window_move_home report_ops sample_report_window = Some home /\
        repeat_op (tui_window_move_down report_ops 2) (S n) home = Some down /\
        w_curr down = Some 1%nat /\ w_top down = None /\
        curr_index down = 1 /\ top_index down = 2 /\
        tui_window_move_up report_ops down = None /\
        repeat_op (tui_window_move_up report_ops) (S n) down = None) /\
  (forall n,
      exists home down,
        tui_window_move_home graph_ops (sample_graph_window sample_chain 8) =
          Some home /\
        repeat_op (tui_window_move_down graph_ops 2) (3 + n) home = Some down /\
        w_curr down = Some [0; 0; 0]%nat /\ w_top down = None /\
        curr_index down = 3 /\ top_index down = 5 /\
        tui_window_move_up graph_ops down = None /\
        repeat_op (tui_window_move_up graph_ops) (3 + n) down = None).
Proof.
  split; intros n.
  - let h := eval vm_compute in
         (tui_window_move_home report_ops sample_report_window) in
    match h with Some ?w => pose (home := w) end.
    let d := eval vm_compute in (tui_window_move_down report_ops 2 home) in
    match d with Some ?w => pose (down := w) end.
    assert (Ed : tui_window_move_down report_ops 2 home = Some down)
      by (vm_compute; reflexivity).
    assert (Estay : tui_window_move_down report_ops 2 down = Some down)
      by (vm_compute; reflexivity).
    assert (Eup : tui_window_move_up report_ops down = None)
      by (vm_compute; reflexivity).
    exists home, down. split; [vm_compute; reflexivity|].
    split.
    { cbn [repeat_op]. rewrite Ed. cbn [mbind option_bind].
      apply repeat_op_fixed, Estay. }
    do 4 (split; [reflexivity|]).
    split; [exact Eup|]. cbn [repeat_op]. rewrite Eup. reflexivity.
  - let h := eval vm_compute in
         (tui_window_move_home graph_ops (sample_graph_window sample_chain 8)) in
    match h with Some ?w => pose (home := w) end.
    let d := eval vm_compute in
         (repeat_op (tui_window_move_down graph_ops 2) 3 home) in
    match d with Some ?w => pose (down := w) end.
    assert (Ed : repeat_op (tui_window_move_down graph_ops 2) 3 home = Some down)
      by (vm_compute; reflexivity).
    assert (Estay : tui_window_move_down graph_ops 2 down = Some down)
      by (vm_compute; reflexivity).
    assert (Eup : tui_window_move_up graph_ops down = None)
      by (vm_compute; reflexivity).
    exists home, down. split; [vm_compute; reflexivity|].
    split.
    { rewrite repeat_op_add, Ed. cbn [mbind option_bind].
      apply repeat_op_fixed, Estay. }
    do 4 (split; [reflexivity|]).
    split; [exact Eup|].
    change (3 + n)%nat with (S (2 + n)). cbn [repeat_op]. rewrite Eup. reflexivity.
Qed.


(** * Moving to a sibling in the report view *)

Lemma list_pred_neq l x a : NoDup l -> list_pred l x = Some a -> a <> x.
Proof.
  induction l as [|c rest IH]; intros Hnd Hp; [discriminate|].
  destruct rest as [|b r]; [discriminate|].
  change (list_pred (c :: b :: r) x)
    with (if bool_decide (b = x) then Some c else list_pred (b :: r) x) in Hp.
  apply NoDup_cons in Hnd. destruct Hnd as [Hc Hnd].
  destruct (bool_decide (b = x)) eqn:E.
  - apply bool_decide_eq_true in E. injection Hp as <-. subst b.
    intros ->. apply Hc. left.
  - now apply IH.
Qed.

Lemma list_succ_neq l x b : NoDup l -> list_succ l x = Some b -> b <> x.
Proof.
  induction l as [|c rest IH]; intros Hnd Hs; [discriminate|].
  destruct rest as [|d r]; [discriminate|].
  change (list_succ (c :: d :: r) x)
    with (if bool_decide (c = x) then Some d else list_succ (d :: r) x) in Hs.
  apply NoDup_cons in Hnd. destruct Hnd as [Hc Hnd].
  destruct (bool_decide (c = x)) eqn:E.
  - apply bool_decide_eq_true in E. injection Hs as <-. subst c.
    intros ->. apply Hc. left.
  - now apply IH.
Qed.

Lemma scroll_top_curr {N X} (ops : tui_window_ops N X) LINES rounds :
  forall win win',
    (forall w x u r w', ops_next ops w x u = Some (r, w') -> w_curr w' = w_curr w) ->
    scroll_top ops LINES rounds win = Some win' -> w_curr win' = w_curr win.
Proof.
  induction rounds as [|rounds IH]; intros win win' Hops Hs; cbn [scroll_top] in Hs.
  - destruct (LINES - 2 <=? _); [discriminate|]. now injection Hs as <-.
  - destruct (LINES - 2 <=? _); [|now injection Hs as <-].
    destruct (w_top win) as [t|]; [|discriminate]. cbn [mbind option_bind] in Hs.
    destruct (ops_next ops win t true) as [[node w1]|] eqn:E; [|discriminate].
    cbn [mbind option_bind] in Hs.
    apply IH in Hs; [|exact Hops]. rewrite Hs.
    apply Hops in E. rewrite <- E.
    now destruct (ops_needs_blank ops _ t node).
Qed.

Lemma report_move_up_curr (win win' : report_window) p :
  w_curr win = Some p ->
  forall c, rb_prev (sort_tree (w_ext win)) p = Some c ->
  tui_window_move_up report_ops win = Some win' -> w_curr win' = Some c.
Proof.
  intros Hc c Hp. unfold tui_window_move_up. rewrite Hc.
  cbn [mbind option_bind ops_prev report_ops win_prev_report]. rewrite Hp.
  cbn [ops_needs_blank report_ops win_needs_blank_no].
  destruct (_ <? _).
  - destruct (w_top _) as [t|]; [|discriminate].
    cbn [mbind option_bind]. intros E. now injection E as <-.
  - cbn [mbind option_bind]. intros E. now injection E as <-.
Qed.

Lemma report_move_down_curr LINES (win win' : report_window) p :
  w_curr win = Some p ->
  forall c, rb_next (sort_tree (w_ext win)) p = Some c ->
  tui_window_move_down report_ops LINES win = Some win' -> w_curr win' = Some c.
Proof.
  intros Hc c Hn. unfold tui_window_move_down. rewrite Hc.
  cbn [mbind option_bind ops_next report_ops win_next_report]. rewrite Hn.
  cbn [ops_needs_blank report_ops win_needs_blank_no].
  intros E. apply scroll_top_curr in E; [exact E|].
  intros w x u r w' Hw. cbn in Hw. now injection Hw as _ <-.
Qed.

(** C9 (as amended): in the report view the sibling primitives are the
    steps to the previous and to the next row, so that move-to-sibling does
    what move-up and move-down do: it moves the cursor by one row, and
    leaves the window as it is only on the first row (previous) or on the
    last row (next). *)
Theorem report_move_sibling_is_step LINES rounds (win : report_window) :
  NoDup (rb_inorder (sort_tree (w_ext win))) ->
  tui_window_move_prev report_ops (S rounds) win =
    tui_window_move_up report_ops win /\
  tui_window_move_next report_ops LINES (S rounds) win =
    tui_window_move_down report_ops LINES win /\
  (forall x, w_curr win = Some x ->
     rb_prev (sort_tree (w_ext win)) x = None ->
     tui_window_move_prev report_ops (S rounds) win = Some win) /\
  (forall x, w_curr win = Some x ->
     rb_next (sort_tree (w_ext win)) x = None ->
     tui_window_move_next report_ops LINES (S rounds) win = Some win).
Proof.
  intros Hnd.
  assert (Hup : tui_window_move_prev report_ops (S rounds) win =
                tui_window_move_up report_ops win).
  { unfold tui_window_move_prev.
    destruct (w_curr win) as [x|] eqn:Hc;
      [|unfold tui_window_move_up; now rewrite Hc].
    cbn [mbind option_bind ops_sibling_prev report_ops win_sibling_prev_no
         win_prev_report].
    destruct (rb_prev (sort_tree (w_ext win)) x) as [p|] eqn:Hp.
    - pose proof (list_pred_neq _ _ _ Hnd Hp) as Hne.
      cbn [move_until]. rewrite Hc.
      rewrite bool_decide_eq_false_2 by congruence.
      destruct (tui_window_move_up report_ops win) as [w1|] eqn:E; [|reflexivity].
      cbn [mbind option_bind].
      pose proof (report_move_up_curr _ _ _ Hc _ Hp E) as Hc1.
      destruct rounds; cbn [move_until]; now rewrite Hc1, bool_decide_eq_true_2.
    - unfold tui_window_move_up. rewrite Hc.
      cbn [mbind option_bind ops_prev report_ops win_prev_report].
      now rewrite Hp. }
  assert (Hdown : tui_window_move_next report_ops LINES (S rounds) win =
                  tui_window_move_down report_ops LINES win).
  { unfold tui_window_move_next.
    destruct (w_curr win) as [x|] eqn:Hc;
      [|unfold tui_window_move_down; now rewrite Hc].
    cbn [mbind option_bind ops_sibling_next report_ops win_sibling_next_no
         win_next_report].
    destruct (rb_next (sort_tree (w_ext win)) x) as [p|] eqn:Hp.
    - pose proof (list_succ_neq _ _ _ Hnd Hp) as Hne.
      cbn [move_until]. rewrite Hc.
      rewrite bool_decide_eq_false_2 by congruence.
      destruct (tui_window_move_down report_ops LINES win) as [w1|] eqn:E;
        [|reflexivity].
      cbn [mbind option_bind].
      pose proof (report_move_down_curr _ _ _ _ Hc _ Hp E) as Hc1.
      destruct rounds; cbn [move_until]; now rewrite Hc1, bool_decide_eq_true_2.
    - unfold tui_window_move_down. rewrite Hc.
      cbn [mbind option_bind ops_next report_ops win_next_report].
      now rewrite Hp. }
  split; [exact Hup|]. split; [exact Hdown|]. split.
  - intros x Hc Hp. rewrite Hup. unfold tui_window_move_up. rewrite Hc.
    cbn [mbind option_bind ops_prev report_ops win_prev_report]. now rewrite Hp.
  - intros x Hc Hp. rewrite Hdown. unfold tui_window_move_down. rewrite Hc.
    cbn [mbind option_bind ops_next report_ops win_next_report]. now rewrite Hp.
Qed.

Lemma report_move_sibling_is_step_witness :
  NoDup (rb_inorder (sort_tree (w_ext sample_report_window))) /\
  tui_window_move_next report_ops 24 1 sample_report_window =
    tui_window_move_down report_ops 24 sample_report_window.
Proof.
  assert (H : NoDup (rb_inorder (sort_tree (w_ext sample_report_window)))).
  { cbn. apply NoDup_cons. split; [|apply NoDup_singleton].
    intros E. apply list_elem_of_singleton in E. discriminate E. }
  split; [exact H|].
  exact (proj1 (proj2 (report_move_sibling_is_step 24 0 sample_report_window H))).
Defined.

(** C9 as stated fails: with the cursor on the first of two rows,
    move-to-next-sibling moves the cursor to the second row. *)
Lemma report_move_next_moves :
  exists win',
    tui_window_move_next report_ops 24 1 sample_report_window = Some win' /\
    w_curr win' <> w_curr sample_report_window /\
    curr_index win' <> curr_index sample_report_window.
Proof. eexists. vm_compute. repeat split; discriminate. Qed.


(** * Updating a tree in place *)

Lemma update_at_ext root p f g :
  (forall n, f n = g n) -> update_at root p f = update_at root p g.
Proof.
  revert f g. induction p as [|i p IH]; intros f g E; simpl; [apply E|].
  apply IH. intros n. destruct (n_head n !! i); [|reflexivity]. now rewrite E.
Qed.

Lemma update_at_id root p : update_at root p (fun x => x) = root.
Proof.
  revert root. induction p as [|j t IH]; intros root; [reflexivity|].
  simpl. rewrite <- (IH root) at 2. apply update_at_ext. intros x.
  destruct (n_head x !! j) as [c|] eqn:E; [|reflexivity].
  rewrite list_insert_id by exact E. now destruct x.
Qed.

Lemma update_at_app root p q f :
  update_at root (q ++ p) f = update_at root p (fun s => update_at s q f).
Proof.
  revert f. induction q as [|i q IH]; intros f; [reflexivity|].
  simpl. apply IH.
Qed.

Lemma update_at_twice root p f g :
  update_at (update_at root p f) p g = update_at root p (fun n => g (f n)).
Proof.
  revert root f g. induction p as [|i p IH]; intros root f g; [reflexivity|].
  simpl. rewrite IH. apply update_at_ext. intros n.
  destruct (n_head n !! i) as [c|] eqn:E; [|now rewrite E].
  cbn [n_head set_head].
  rewrite list_lookup_insert_eq by (now apply lookup_lt_Some in E).
  unfold set_head. cbn. now rewrite list_insert_insert_eq.
Qed.

Lemma node_at_update_at root p f :
  node_at (update_at root p f) p = f <$> node_at root p.
Proof.
  revert root f. induction p as [|i p IH]; intros root f; [reflexivity|].
  simpl. rewrite IH. destruct (node_at root p) as [n|]; [|reflexivity].
  simpl. destruct (n_head n !! i) as [c|] eqn:E; [|now rewrite E].
  cbn [n_head set_head].
  now rewrite list_lookup_insert_eq by (now apply lookup_lt_Some in E).
Qed.

(** An update below the child [j] of a node leaves its other children. *)
Lemma update_at_other_child root q j i f :
  i <> j ->
  n_head (update_at root (q ++ [j]) f) !! i = n_head root !! i.
Proof.
  intros Hij. rewrite update_at_app. simpl.
  destruct (n_head root !! j) as [c|]; [|reflexivity].
  cbn [n_head set_head]. now apply list_lookup_insert_ne.
Qed.

Lemma update_at_child root q j f c :
  n_head root !! j = Some c ->
  n_head (update_at root (q ++ [j]) f) !! j = Some (update_at c q f).
Proof.
  intros Hj. rewrite update_at_app. simpl. rewrite Hj.
  cbn [n_head set_head].
  now rewrite list_lookup_insert_eq by (now apply lookup_lt_Some in Hj).
Qed.

Lemma append_graph_node_at_eq root dst owner name d :
  node_at root dst = Some d ->
  append_graph_node_at root dst owner name =
  Some (update_at root dst (fun d => fst (append_graph_node d owner name)),
        length (n_head d) :: dst).
Proof. intros H. unfold append_graph_node_at. now rewrite H. Qed.


(** * The back-trace part of the partial graph *)

Lemma update_at_ext_at root p f g d :
  node_at root p = Some d -> f d = g d ->
  update_at root p f = update_at root p g.
Proof.
  revert f g d. induction p as [|i p IH]; intros f g d Hd E.
  - simpl in *. now injection Hd as ->.
  - destruct (node_at_parent _ _ _ _ Hd) as (parent & Hp & Hi).
    simpl. apply (IH _ _ parent Hp). now rewrite Hi, E.
Qed.

Lemma path_in_tail tree i up : path_in tree (i :: up) -> path_in tree up.
Proof. intros H k Hk. apply (H (S k)). simpl. lia. Qed.

Lemma back_trace_chain_nil tree node owner n parent :
  path_in tree parent ->
  back_trace_chain tree node owner n parent = [] -> parent = [].
Proof.
  destruct parent as [|i up]; [reflexivity|]. intros Hin.
  destruct (Hin 0%nat) as [p Hp]; [simpl; lia|].
  rewrite drop_0 in Hp. cbn [back_trace_chain]. rewrite Hp. discriminate.
Qed.

(** The loop hangs the chain below [tmp]. *)
Lemma backtrace_loop_graft tree node owner parent :
  forall pg tmp n d,
    node_at pg tmp = Some d -> path_in tree parent ->
    backtrace_loop tree node owner parent pg tmp n =
    Some (update_at pg tmp (graft (back_trace_chain tree node owner n parent)),
          chain_end (length parent) (length (n_head d)) tmp,
          Nat.iter (length parent) (fun z => wrap_int (z + 1)) n).
Proof.
  induction parent as [|i up IH]; intros pg tmp n d Hd Hin.
  - simpl. f_equal. f_equal. f_equal.
    rewrite (update_at_ext _ _ (graft []) (fun x => x)) by reflexivity.
    symmetry. apply update_at_id.
  - destruct (Hin 0%nat) as [p Hp]; [simpl; lia|]. rewrite drop_0 in Hp.
    cbn [backtrace_loop]. rewrite Hp. cbn [mbind option_bind].
    rewrite (append_graph_node_at_eq _ _ _ _ d Hd). cbn [mbind option_bind].
    set (tmp1 := length (n_head d) :: tmp).
    set (pg1 := update_at pg tmp (fun d0 => (append_graph_node d0 owner (n_name p)).1)).
    set (new := TuiGraphNode 0 (n_name p) 0 0 0 0 [] owner false false).
    assert (Hnew : node_at pg1 tmp1 = Some new).
    { subst tmp1 pg1. cbn [node_at]. rewrite node_at_update_at, Hd. cbn.
      rewrite lookup_app_r by lia. now rewrite Nat.sub_diag. }
    set (F := fun x : tui_graph_node =>
                (if n =? 1 then set_folded true else fun y => y)
                  (set_times (n_time node) (n_child_time node) (n_nr_calls node) x)).
    assert (Hpg3 :
      (if n =? 1
       then update_at (update_at pg1 tmp1
                         (set_times (n_time node) (n_child_time node) (n_nr_calls node)))
                      tmp1 (set_folded true)
       else update_at pg1 tmp1
              (set_times (n_time node) (n_child_time node) (n_nr_calls node)))
      = update_at pg1 tmp1 F).
    { subst F. destruct (n =? 1); [apply update_at_twice|reflexivity]. }
    rewrite Hpg3.
    assert (Hd1 : node_at (update_at pg1 tmp1 F) tmp1 = Some (F new)).
    { now rewrite node_at_update_at, Hnew. }
    rewrite (IH _ _ _ _ Hd1 (path_in_tail _ _ _ Hin)).
    assert (Hlen : length (n_head (F new)) = 0%nat).
    { subst F new. now destruct (n =? 1). }
    rewrite Hlen. f_equal. f_equal; [f_equal|].
    + rewrite update_at_twice. subst tmp1 pg1. cbn [update_at].
      rewrite update_at_twice.
      apply (update_at_ext_at _ _ _ _ d Hd).
      cbn [append_graph_node fst n_head]. rewrite lookup_app_r by lia.
      rewrite Nat.sub_diag. cbn [lookup list_lookup].
      cbn [back_trace_chain]. rewrite Hp. unfold graft at 2.
      unfold set_head. cbn [n_addr n_name n_nr_edges n_nr_calls n_time
                            n_child_time graph link folded n_head].
      f_equal. rewrite insert_app_r_alt by lia. rewrite Nat.sub_diag.
      cbn [insert list_insert]. f_equal. f_equal.
      subst F new. unfold graft.
      destruct (back_trace_chain tree node owner (wrap_int (n + 1)) up) eqn:Hc.
      * apply back_trace_chain_nil in Hc; [|eapply path_in_tail; eauto].
        subst up. now destruct (n =? 1).
      * destruct up as [|j up']; [discriminate Hc|].
        now destruct (n =? 1).
    + subst tmp1. unfold chain_end. cbn [length].
      destruct (length up) as [|k]; [reflexivity|].
      rewrite (replicate_S_end k), <- app_assoc. reflexivity.
    + cbn [length]. rewrite Nat.iter_succ_r. reflexivity.
Qed.

Lemma iter_wrap_int (len : nat) :
  Z.of_nat len <= INT_MAX ->
  Nat.iter len (fun z => wrap_int (z + 1)) 0 = Z.of_nat len.
Proof.
  induction len as [|k IH]; intros Hb; [reflexivity|].
  rewrite Nat.iter_succ. rewrite IH by lia. rewrite wrap_int_small; unfold INT_MAX in *; lia.
Qed.

Lemma path_in_node_at tree ptr node :
  node_at tree ptr = Some node -> path_in tree ptr.
Proof.
  revert node. induction ptr as [|i up IH]; intros node Hn k Hk.
  - rewrite drop_nil. now exists tree.
  - destruct k as [|k]; [rewrite drop_0; now exists node|].
    destruct (node_at_parent _ _ _ _ Hn) as (parent & Hp & _).
    cbn [drop]. apply (IH parent Hp). simpl in Hk. lia.
Qed.

Lemma back_trace_chain_length tree node owner n parent :
  (length (back_trace_chain tree node owner n parent) <= 1)%nat.
Proof.
  destruct parent as [|i up]; [simpl; lia|].
  cbn [back_trace_chain]. destruct (node_at tree (i :: up)); cbn [length]; lia.
Qed.

Lemma chain_end_rel len base tmp : chain_end len base tmp = rel_end len base ++ tmp.
Proof.
  destruct len as [|k]; [reflexivity|]. unfold chain_end, rel_end.
  now rewrite <- app_assoc.
Qed.

(** One occurrence updates the back-trace node, and nothing else. *)
Lemma back_trace_entry_update pg root d owner tree ptr node :
  node_at pg root = Some d -> path_in tree ptr ->
  back_trace_entry root owner (Some pg) (tree, ptr, node) =
  Some (update_at pg root (back_trace_fun (tree, ptr, node) owner)).
Proof.
  intros Hd Hin. unfold back_trace_entry. cbn [mbind option_bind].
  rewrite (backtrace_loop_graft _ _ _ _ _ _ _ d Hd Hin).
  cbn [mbind option_bind]. f_equal. unfold back_trace_fun.
  destruct (Nat.iter (length ptr) (fun z => wrap_int (z + 1)) 0 =? 2).
  - rewrite chain_end_rel, update_at_app, update_at_twice.
    apply (update_at_ext_at _ _ _ _ d Hd). reflexivity.
  - reflexivity.
Qed.

(** It adds the branch of the occurrence. *)
Lemma back_trace_fun_branch tree ptr node owner d :
  path_in tree ptr -> Z.of_nat (length ptr) <= INT_MAX ->
  back_trace_fun (tree, ptr, node) owner d =
  graft (back_trace_branch tree node owner ptr) d.
Proof.
  intros Hin Hb. unfold back_trace_fun. rewrite iter_wrap_int by exact Hb.
  unfold back_trace_branch.
  destruct (decide (length ptr = 2%nat)) as [E|E].
  - rewrite E. cbn [Z.of_nat Pos.of_succ_nat Pos.succ Z.eqb Pos.eqb].
    rewrite bool_decide_eq_true_2 by reflexivity.
    destruct ptr as [|i [|j [|k ptr]]]; try discriminate E.
    cbn [back_trace_chain].
    destruct (Hin 0%nat) as [p Hp]; [simpl; lia|]. rewrite drop_0 in Hp.
    rewrite Hp. cbn [fmap list_fmap graft update_at rel_end replicate app].
    cbn [n_head]. rewrite lookup_app_r by lia. rewrite Nat.sub_diag.
    cbn [lookup list_lookup]. unfold set_head at 1.
    cbn [n_addr n_name n_nr_edges n_nr_calls n_time n_child_time graph link
         folded n_head].
    f_equal. rewrite insert_app_r_alt by lia. rewrite Nat.sub_diag. reflexivity.
  - rewrite bool_decide_eq_false_2 by exact E.
    assert (Hne : (Z.of_nat (length ptr) =? 2) = false) by (apply Z.eqb_neq; lia).
    now rewrite Hne.
Qed.

Lemma back_trace_fold root owner entries :
  forall pg d,
    node_at pg root = Some d ->
    Forall (fun e => node_at (fst (fst e)) (snd (fst e)) = Some (snd e)) entries ->
    foldl (back_trace_entry root owner) (Some pg) entries =
    Some (update_at pg root
            (fun d => foldl (fun d e => back_trace_fun e owner d) d entries)).
Proof.
  induction entries as [|[[tree ptr] node] es IH]; intros pg d Hd Hok.
  - simpl. now rewrite update_at_id.
  - apply Forall_cons in Hok. destruct Hok as [Hn Hok]. cbn [fst snd] in *.
    cbn [foldl].
    rewrite (back_trace_entry_update _ _ d _ _ _ _ Hd (path_in_node_at _ _ _ Hn)).
    erewrite IH; [|rewrite node_at_update_at, Hd; reflexivity|exact Hok].
    now rewrite update_at_twice.
Qed.

Lemma back_trace_fold_graft owner entries :
  Forall entry_ok entries ->
  forall d,
    foldl (fun d e => back_trace_fun e owner d) d entries =
    foldl (fun d e => graft (back_trace_branch (fst (fst e)) (snd e) owner
                                               (snd (fst e))) d) d entries.
Proof.
  induction 1 as [|[[tree ptr] node] es [Hn Hb] _ IH]; intros d; [reflexivity|].
  cbn [foldl fst snd] in *.
  rewrite (back_trace_fun_branch _ _ _ _ _ (path_in_node_at _ _ _ Hn) Hb).
  apply IH.
Qed.

Lemma graft_fold_head owner entries :
  forall d,
    n_head (foldl (fun d e =>
                     graft (back_trace_branch (fst (fst e)) (snd e) owner
                                              (snd (fst e))) d)
                  d entries) =
    n_head d ++
    concat (map (fun e => back_trace_branch (fst (fst e)) (snd e) owner
                                            (snd (fst e))) entries).
Proof.
  induction entries as [|e es IH]; intros d; simpl; [now rewrite app_nil_r|].
  rewrite IH. rewrite app_assoc. f_equal.
  unfold graft. destruct (back_trace_branch _ _ _ _); [now rewrite app_nil_r|].
  reflexivity.
Qed.

Lemma graft_fold_name owner entries :
  forall d,
    n_name (foldl (fun d e =>
                     graft (back_trace_branch (fst (fst e)) (snd e) owner
                                              (snd (fst e))) d)
                  d entries) = n_name d.
Proof.
  induction entries as [|e es IH]; intros d; simpl; [reflexivity|].
  rewrite IH. unfold graft. now destruct (back_trace_branch _ _ _ _).
Qed.

(** The first loop changes neither the name nor the times of the node. *)
Lemma back_trace_fun_fields e owner d :
  n_name (back_trace_fun e owner d) = n_name d /\
  n_time (back_trace_fun e owner d) = n_time d /\
  n_nr_calls (back_trace_fun e owner d) = n_nr_calls d.
Proof.
  destruct e as [[tree ptr] node]. unfold back_trace_fun.
  set (g := graft _ d).
  assert (Hg : n_name g = n_name d /\ n_time g = n_time d /\
               n_nr_calls g = n_nr_calls d).
  { subst g. unfold graft. now destruct (back_trace_chain _ _ _ _ _). }
  destruct (_ =? 2); [|exact Hg].
  destruct (length ptr) as [|k]; cbn [rel_end].
  - cbn [update_at]. now destruct g.
  - rewrite update_at_app. cbn [update_at].
    destruct (n_head g !! _); [|exact Hg]. exact Hg.
Qed.

(** * The tree built by [build_partial_graph] *)

Lemma target_entries_ok graphs root_node target entries :
  target_entries graphs root_node target = Some entries ->
  Forall (fun e => node_at (fst (fst e)) (snd (fst e)) = Some (snd e) /\
                   graph (snd e) = Some target) entries.
Proof.
  unfold target_entries.
  destruct (mapM _ (r_head root_node)) as [all|] eqn:E; [|discriminate].
  cbn [mbind option_bind]. intros H. injection H as <-.
  apply mapM_Some in E.
  apply Forall_forall. intros e He. apply list_elem_of_filter in He.
  destruct He as [Hg He]. split; [|exact Hg].
  clear Hg. induction E as [|ref e' refs es Hf _ IH]; [inversion He|].
  apply elem_of_cons in He. destruct He as [->|He]; [|now apply IH].
  destruct (graphs !! ref.1) as [g|]; [|discriminate]. cbn in Hf.
  destruct (node_at (ug_root g) ref.2) as [node|] eqn:Hn; [|discriminate].
  cbn in Hf. injection Hf as <-. exact Hn.
Qed.

Lemma call_graph_fold root entries :
  forall pg,
    foldl
      (fun pg (e : tui_graph_node * gpath * tui_graph_node) =>
         let '(_, _, node) := e in
         let pg :=
           update_at pg root
             (fun r => set_times (wrap_u64 (n_time r + n_time node))
                                 (wrap_u64 (n_child_time r + n_child_time node))
                                 (wrap_int (n_nr_calls r + n_nr_calls node)) r) in
         update_at pg root (copy_graph_node node))
      pg entries =
    update_at pg root (fun r => foldl call_graph_entry r entries).
Proof.
  induction entries as [|[[tree ptr] node] es IH]; intros pg.
  - simpl. now rewrite update_at_id.
  - cbn [foldl]. rewrite IH. rewrite !update_at_twice. reflexivity.
Qed.

Lemma update_at_root_fields root q j f :
  n_name (update_at root (q ++ [j]) f) = n_name root /\
  n_time (update_at root (q ++ [j]) f) = n_time root /\
  n_child_time (update_at root (q ++ [j]) f) = n_child_time root /\
  n_nr_calls (update_at root (q ++ [j]) f) = n_nr_calls root /\
  length (n_head (update_at root (q ++ [j]) f)) = length (n_head root).
Proof.
  rewrite update_at_app. cbn [update_at].
  destruct (n_head root !! j); [|now repeat split].
  cbn. rewrite length_insert. now repeat split.
Qed.

Lemma build_partial_graph_tree graphs partial_graph root_node target win :
  build_partial_graph graphs partial_graph root_node target = Some win ->
  exists tg entries,
    graphs !! target = Some tg /\
    target_entries graphs root_node target = Some entries /\
    n_name (ug_root (w_ext win)) = partial_graph_title (r_name root_node) /\
    n_time (ug_root (w_ext win)) = 0 /\
    n_child_time (ug_root (w_ext win)) = 0 /\
    n_nr_calls (ug_root (w_ext win)) = 0 /\
    n_head (ug_root (w_ext win)) =
      [foldl (fun d e => back_trace_fun e (Some target) d)
             (new_graph_node (Some target) "========== Back-trace ==========")
             entries;
       TuiGraphNode 0 "========== Call Graph ==========" (wrap_int (0 + 1))
                    0 0 0
                    [foldl call_graph_entry
                           (new_graph_node (Some target) (r_name root_node))
                           entries]
                    (Some target) false false] /\
    w_top win = Some [] /\ w_curr win = Some [] /\
    top_index win = 0 /\ curr_index win = 0.
Proof.
  unfold build_partial_graph. intros H.
  destruct (graphs !! target) as [tg|] eqn:Htg; [|discriminate].
  cbn [mbind option_bind] in H.
  destruct (target_entries graphs root_node target) as [entries|] eqn:Hent;
    [|discriminate].
  cbn [mbind option_bind] in H.
  pose proof (target_entries_ok _ _ _ _ Hent) as Hok.
  exists tg, entries. split; [reflexivity|]. split; [reflexivity|].
  set (g := set_ug_sess (ug_sess tg) (graph_destroy (w_ext partial_graph))) in *.
  set (pg0 := set_times 0 0 0
                (set_name ("=== Function Call Graph for '" +:+
                           r_name root_node +:+ "' ===") (ug_root g))) in *.
  assert (Hpg0 : n_head pg0 = []) by reflexivity.
  rewrite (append_graph_node_at_eq pg0 [] _ _ pg0 eq_refl) in H.
  cbn [mbind option_bind] in H. rewrite Hpg0 in H. cbn [length] in H.
  set (bt := new_graph_node (Some target) "========== Back-trace ==========") in *.
  set (pg1 := update_at pg0 [] _) in H.
  assert (Hpg1 : node_at pg1 [0%nat] = Some bt).
  { subst pg1. reflexivity. }
  rewrite (back_trace_fold [0%nat] (Some target) entries pg1 bt Hpg1) in H.
  2: { eapply Forall_impl; [exact Hok|]. now intros e [He _]. }
  cbn [mbind option_bind] in H.
  set (pg2 := update_at pg1 [0%nat] _) in H.
  assert (Hlen2 : length (n_head pg2) = 1%nat).
  { subst pg2. pose proof (update_at_root_fields pg1 [] 0%nat) as U.
    cbn [app] in U. destruct (U (fun d => foldl (fun d e => back_trace_fun e (Some target) d) d entries))
      as (_ & _ & _ & _ & ->). subst pg1. reflexivity. }
  rewrite (append_graph_node_at_eq pg2 [] _ _ pg2 eq_refl) in H.
  cbn [mbind option_bind] in H. rewrite Hlen2 in H.
  set (pg3 := update_at pg2 [] _) in H.
  set (cg := new_graph_node (Some target) "========== Call Graph ==========") in *.
  assert (Hpg3 : node_at pg3 [1%nat] = Some cg).
  { subst pg3. cbn [node_at update_at append_graph_node fst n_head].
    rewrite lookup_app_r by lia. rewrite Hlen2. reflexivity. }
  rewrite (append_graph_node_at_eq pg3 [1%nat] _ _ cg Hpg3) in H.
  cbn [mbind option_bind] in H. change (length (n_head cg)) with 0%nat in H.
  set (pg4 := update_at pg3 [1%nat] _) in H.
  rewrite call_graph_fold in H.
  set (pg5 := update_at pg4 [0%nat; 1%nat] _) in H.
  unfold tui_window_init in H. cbn [ops_top graph_ops win_top_graph] in H.
  cbn [mbind option_bind] in H. injection H as <-.
  cbn [w_ext set_ext set_curr_index set_top_index set_old set_curr set_top
       w_top w_curr top_index curr_index ug_root set_top_state set_ug_root].
  assert (Hq : forall (A : Type) (x y : A), [x; y] = [x] ++ [y]) by reflexivity.
  assert (F5 := update_at_root_fields pg4 [0%nat] 1%nat
                  (fun r => foldl call_graph_entry r entries)).
  assert (F4 := update_at_root_fields pg3 [] 1%nat
                  (fun d => (append_graph_node d (Some target) (r_name root_node)).1)).
  assert (F2 := update_at_root_fields pg1 [] 0%nat
                  (fun d => foldl (fun d e => back_trace_fun e (Some target) d) d entries)).
  cbn [app] in F5, F4, F2. fold pg5 in F5. fold pg4 in F4. fold pg2 in F2.
  destruct F5 as (N5 & T5 & C5 & K5 & L5).
  destruct F4 as (N4 & T4 & C4 & K4 & L4).
  destruct F2 as (N2 & T2 & C2 & K2 & L2).
  assert (H3 : n_name pg3 = n_name pg2 /\ n_time pg3 = n_time pg2 /\
               n_child_time pg3 = n_child_time pg2 /\ n_nr_calls pg3 = n_nr_calls pg2)
    by (subst pg3; now cbn).
  assert (H1 : n_name pg1 = n_name pg0 /\ n_time pg1 = n_time pg0 /\
               n_child_time pg1 = n_child_time pg0 /\ n_nr_calls pg1 = n_nr_calls pg0)
    by (subst pg1; now cbn).
  destruct H3 as (N3 & T3 & C3 & K3). destruct H1 as (N1 & T1 & C1 & K1).
  split; [rewrite N5, N4, N3, N2, N1; reflexivity|].
  split; [rewrite T5, T4, T3, T2, T1; reflexivity|].
  split; [rewrite C5, C4, C3, C2, C1; reflexivity|].
  split; [rewrite K5, K4, K3, K2, K1; reflexivity|].
  split; [|now repeat split].
  (* the two children of the root *)
  assert (Hc0 : n_head pg5 !! 0%nat =
                Some (foldl (fun d e => back_trace_fun e (Some target) d) bt entries)).
  { subst pg5. rewrite (update_at_other_child pg4 [0%nat] 1%nat 0%nat) by lia.
    subst pg4. rewrite (update_at_other_child pg3 [] 1%nat 0%nat) by lia.
    subst pg3. cbn [update_at append_graph_node fst n_head].
    rewrite lookup_app_l by lia.
    subst pg2. rewrite (update_at_child pg1 [] 0%nat _ bt); [reflexivity|].
    subst pg1. reflexivity. }
  assert (Hc1 : n_head pg5 !! 1%nat =
                Some (TuiGraphNode 0 "========== Call Graph =========="
                        (wrap_int (0 + 1)) 0 0 0
                        [foldl call_graph_entry
                           (new_graph_node (Some target) (r_name root_node)) entries]
                        (Some target) false false)).
  { subst pg5.
    assert (Hcg4 : n_head pg4 !! 1%nat =
                   Some ((append_graph_node cg (Some target) (r_name root_node)).1)).
    { subst pg4. rewrite (update_at_child pg3 [] 1%nat _ cg); [reflexivity|].
      simpl in Hpg3. exact Hpg3. }
    rewrite (update_at_child pg4 [0%nat] 1%nat _ _ Hcg4). reflexivity. }
  assert (Hl5 : length (n_head pg5) = 2%nat).
  { rewrite L5, L4. subst pg3. cbn [update_at append_graph_node fst n_head].
    rewrite length_app, Hlen2. reflexivity. }
  destruct (n_head pg5) as [|a [|b [|c rest]]]; try discriminate Hl5.
  cbn in Hc0, Hc1. now injection Hc0 as ->; injection Hc1 as ->.
Qed.

(** * Levels of a back-trace branch *)

Lemma back_trace_chain_cons tree node owner n i up :
  path_in tree (i :: up) ->
  exists p,
    node_at tree (i :: up) = Some p /\
    back_trace_chain tree node owner n (i :: up) =
    [TuiGraphNode 0 (n_name p)
                  (match up with [] => 0 | _ => wrap_int (0 + 1) end)
                  (n_nr_calls node) (n_time node) (n_child_time node)
                  (back_trace_chain tree node owner (wrap_int (n + 1)) up)
                  owner false (n =? 1)].
Proof.
  intros Hin. destruct (Hin 0%nat) as [p Hp]; [simpl; lia|].
  rewrite drop_0 in Hp. exists p. split; [exact Hp|].
  cbn [back_trace_chain]. now rewrite Hp.
Qed.

Lemma chain_levels tree node owner parent :
  forall n m c,
    path_in tree parent -> 0 <= n ->
    n + Z.of_nat (length parent) <= INT_MAX ->
    back_trace_chain tree node owner n parent = [c] ->
    (m < length parent)%nat ->
    exists nd anc,
      node_at c (replicate m 0%nat) = Some nd /\
      node_at tree (drop m parent) = Some anc /\
      n_name nd = n_name anc /\
      n_time nd = n_time node /\ n_child_time nd = n_child_time node /\
      n_nr_calls nd = n_nr_calls node /\
      length (n_head nd) = (if (S m <? length parent)%nat then 1 else 0)%nat /\
      folded nd = (n + Z.of_nat m =? 1).
Proof.
  induction parent as [|i up IH]; intros n m c Hin Hn Hb Hc Hm;
    [simpl in Hm; lia|].
  destruct (back_trace_chain_cons tree node owner n i up Hin) as (p & Hp & E).
  rewrite E in Hc. injection Hc as <-.
  pose proof (path_in_tail _ _ _ Hin) as Hin'.
  cbn [length] in Hb, Hm.
  assert (Hw : wrap_int (n + 1) = n + 1)
    by (apply wrap_int_small; unfold INT_MAX in *; lia).
  destruct m as [|m].
  - exists (TuiGraphNode 0 (n_name p)
              (match up with [] => 0 | _ => wrap_int (0 + 1) end)
              (n_nr_calls node) (n_time node) (n_child_time node)
              (back_trace_chain tree node owner (wrap_int (n + 1)) up)
              owner false (n =? 1)), p.
    cbn [replicate node_at drop n_name n_time n_child_time n_nr_calls n_head folded].
    rewrite Z.add_0_r. repeat split; try assumption.
    destruct up as [|j up']; [reflexivity|].
    destruct (back_trace_chain_cons tree node owner (wrap_int (n + 1)) j up' Hin')
      as (p' & _ & ->). reflexivity.
  - assert (Hup : up <> []) by (intros ->; simpl in Hm; lia).
    destruct up as [|j up']; [congruence|].
    destruct (back_trace_chain_cons tree node owner (wrap_int (n + 1)) j up' Hin')
      as (p' & Hp' & E').
    destruct (IH (wrap_int (n + 1)) m _ Hin' ltac:(lia) ltac:(rewrite Hw; lia) E'
                 ltac:(lia))
      as (nd & anc & H1 & H2 & H3 & H4 & H5 & H6 & H7 & H8).
    exists nd, anc. rewrite replicate_S_end, node_at_app.
    cbn [node_at mbind option_bind n_head]. rewrite E'.
    cbn [lookup list_lookup mbind option_bind]. rewrite H1.
    cbn [drop]. rewrite H2.
    repeat split; try assumption; try reflexivity.
    rewrite H8, Hw. f_equal. lia.
Qed.

Lemma branch_levels tree ptr node owner :
  node_at tree ptr = Some node -> Z.of_nat (length ptr) <= INT_MAX ->
  ptr <> [] ->
  exists c, back_trace_branch tree node owner ptr = [c] /\
            forall m, (m < length ptr)%nat ->
                      back_trace_level (tree, ptr, node) c m.
Proof.
  intros Hnode Hb Hne.
  pose proof (path_in_node_at _ _ _ Hnode) as Hin.
  destruct ptr as [|i up]; [congruence|].
  destruct (back_trace_chain_cons tree node owner 0 i up Hin) as (p & Hp & E).
  set (c0 := TuiGraphNode 0 (n_name p) _ _ _ _ _ owner false (0 =? 1)) in E.
  assert (L : forall m, (m < length (i :: up))%nat ->
            exists nd anc,
              node_at c0 (replicate m 0%nat) = Some nd /\
              node_at tree (drop m (i :: up)) = Some anc /\
              n_name nd = n_name anc /\
              n_time nd = n_time node /\ n_child_time nd = n_child_time node /\
              n_nr_calls nd = n_nr_calls node /\
              length (n_head nd) =
                (if (S m <? length (i :: up))%nat then 1 else 0)%nat /\
              folded nd = (0 + Z.of_nat m =? 1)).
  { intros m Hm. apply (chain_levels tree node owner (i :: up) 0 m c0 Hin); auto; lia. }
  unfold back_trace_branch. rewrite E.
  destruct (decide (length (i :: up) = 2%nat)) as [E2|E2].
  - rewrite bool_decide_eq_true_2 by exact E2.
    eexists. split; [reflexivity|]. intros m Hm. rewrite E2 in Hm.
    destruct (L 0%nat ltac:(lia)) as (nd0 & anc0 & A1 & A2 & A3 & A4 & A5 & A6 & A7 & A8).
    destruct (L 1%nat ltac:(lia)) as (nd1 & anc1 & B1 & B2 & B3 & B4 & B5 & B6 & B7 & B8).
    cbn [replicate node_at] in A1. injection A1 as <-.
    cbn [replicate node_at mbind option_bind] in B1.
    unfold back_trace_level.
    destruct m as [|[|m]]; [| |lia].
    + exists (update_at c0 [0%nat] (set_folded false)), anc0.
      cbn [replicate node_at update_at]. rewrite B1.
      cbn [n_name n_time n_child_time n_nr_calls n_head set_head folded].
      rewrite length_insert.
      do 7 (split; [assumption || reflexivity|]).
      split; [intros Hf; rewrite A8 in Hf; discriminate Hf | intros [? ?]; lia].
    + exists (set_folded false nd1), anc1.
      cbn [replicate node_at update_at mbind option_bind]. rewrite B1.
      cbn [n_head set_head].
      rewrite list_lookup_insert_eq by (now apply lookup_lt_Some in B1).
      cbn [set_folded n_name n_time n_child_time n_nr_calls n_head folded].
      do 7 (split; [assumption || reflexivity|]).
      split; [intros Hf; discriminate Hf | intros [? ?]; lia].
  - rewrite bool_decide_eq_false_2 by exact E2.
    exists c0. split; [reflexivity|]. intros m Hm.
    destruct (L m Hm) as (nd & anc & A1 & A2 & A3 & A4 & A5 & A6 & A7 & A8).
    unfold back_trace_level. exists nd, anc.
    do 7 (split; [assumption|]).
    split.
    + intros Hf. rewrite A8 in Hf. apply Z.eqb_eq in Hf. cbn [length] in *. lia.
    + intros [-> _]. rewrite A8. reflexivity.
Qed.

Lemma target_entries_ptr graphs root_node target entries :
  target_entries graphs root_node target = Some entries ->
  Forall (fun e => snd (fst e) ∈ map snd (r_head root_node)) entries.
Proof.
  unfold target_entries.
  destruct (mapM _ (r_head root_node)) as [all|] eqn:E; [|discriminate].
  cbn [mbind option_bind]. intros H. injection H as <-.
  apply mapM_Some in E.
  apply Forall_forall. intros e He. apply list_elem_of_filter in He.
  destruct He as [_ He].
  induction E as [|ref e' refs es Hf _ IH]; [inversion He|].
  cbn [map]. apply elem_of_cons in He. destruct He as [->|He].
  - destruct (graphs !! ref.1) as [g|]; [|discriminate]. cbn in Hf.
    destruct (node_at (ug_root g) ref.2) as [node|]; [|discriminate].
    cbn in Hf. injection Hf as <-. left.
  - right. now apply IH.
Qed.

Lemma branches_levels owner entries :
  Forall entry_ok entries ->
  Forall2 (fun e branch =>
             forall m, (m < length (snd (fst e)))%nat -> back_trace_level e branch m)
          (filter (fun e => snd (fst e) <> []) entries)
          (concat (map (fun e => back_trace_branch (fst (fst e)) (snd e) owner
                                                   (snd (fst e))) entries)).
Proof.
  induction 1 as [|[[tree ptr] node] es [Hn Hb] _ IH]; [constructor|].
  cbn [map concat fst snd] in *.
  destruct (decide (ptr = [])) as [->|Hne].
  - rewrite filter_cons_False by (cbn; congruence). exact IH.
  - rewrite filter_cons_True by exact Hne.
    destruct (branch_levels tree ptr node owner Hn Hb Hne) as (c & -> & Hc).
    cbn [app]. constructor; [exact Hc | exact IH].
Qed.

(** C8: every occurrence of the pivot in the focused graph has one branch
    below the Back-trace node, with one node per ancestor level; the node
    of the second level is folded when the branch has more than two levels,
    and no other node of a branch is folded: a branch of exactly two levels
    and a branch of one level have no folded node. *)
Theorem back_trace_fold_rule graphs partial_graph root_node target win :
  build_partial_graph graphs partial_graph root_node target = Some win ->
  Forall (fun ref => Z.of_nat (length (snd ref)) <= INT_MAX) (r_head root_node) ->
  exists entries section,
    target_entries graphs root_node target = Some entries /\
    n_head (ug_root (w_ext win)) !! 0%nat = Some section /\
    n_name section = "========== Back-trace ==========" /\
    Forall2 (fun e branch =>
               forall m, (m < length (snd (fst e)))%nat ->
                         back_trace_level e branch m)
            (filter (fun e => snd (fst e) <> []) entries)
            (n_head section).
Proof.
  intros Hb Hdepth.
  destruct (build_partial_graph_tree _ _ _ _ _ Hb)
    as (tg & entries & Htg & Hent & _ & _ & _ & _ & Hhead & _).
  assert (Hok : Forall entry_ok entries).
  { pose proof (target_entries_ok _ _ _ _ Hent) as H1.
    pose proof (target_entries_ptr _ _ _ _ Hent) as H2.
    rewrite Forall_forall in H1. rewrite Forall_forall in H2.
    rewrite Forall_forall in Hdepth. apply Forall_forall. intros e He.
    split; [apply (H1 e He)|].
    specialize (H2 e He). apply list_elem_of_fmap in H2.
    destruct H2 as (ref & -> & Href). now apply Hdepth. }
  exists entries. eexists. split; [exact Hent|].
  rewrite Hhead. split; [reflexivity|].
  rewrite (back_trace_fold_graft _ _ Hok).
  split; [apply graft_fold_name|].
  rewrite graft_fold_head. cbn [new_graph_node n_head app].
  now apply branches_levels.
Qed.

Lemma back_trace_fold_rule_witness :
  exists win section,
    build_partial_graph scenario_graphs scenario_partial scenario_bar 0 = Some win /\
    Forall (fun ref => Z.of_nat (length (snd ref)) <= INT_MAX) (r_head scenario_bar) /\
    n_head (ug_root (w_ext win)) !! 0%nat = Some section /\
    n_name section = "========== Back-trace ==========".
Proof.
  eexists. 
  assert (Hd : Forall (fun ref => Z.of_nat (length (snd ref)) <= INT_MAX)
                      (r_head scenario_bar)).
  { repeat constructor; vm_compute; discriminate. }
  assert (Hb : build_partial_graph scenario_graphs scenario_partial scenario_bar 0
               = Some (default scenario_partial
                         (build_partial_graph scenario_graphs scenario_partial
                                              scenario_bar 0))).
  { vm_compute. reflexivity. }
  destruct (back_trace_fold_rule _ _ _ _ _ Hb Hd)
    as (entries & section & _ & Hs & Hn & _).
  exists section. split; [exact Hb|]. split; [exact Hd|]. split; [exact Hs|exact Hn].
Defined.


(** * Merging subtrees by name: [copy_graph_node] *)

Lemma copy_graph_node_eq src dst :
  copy_graph_node src dst =
  fold_left (copy_step (graph src) copy_graph_node) (n_head src) dst.
Proof. destruct src. reflexivity. Qed.

Lemma children_sum_cons g x l :
  children_sum g (x :: l) = g x + children_sum g l.
Proof. reflexivity. Qed.



(** The step on the children list of [dst]. *)
Lemma copy_step_found owner copy dst child i c :
  list_find (fun node => n_name child = n_name node) (n_head dst) = Some (i, c) ->
  copy_step owner copy dst child =
  set_head (<[i := copy child (accumulate c child)]> (n_head dst)) dst.
Proof.
  intros Hf. unfold copy_step. rewrite Hf. cbn [update_at].
  apply list_find_Some in Hf. destruct Hf as (Hi & _ & _). now rewrite Hi.
Qed.

Lemma copy_step_new owner copy dst child :
  list_find (fun node => n_name child = n_name node) (n_head dst) = None ->
  copy_step owner copy dst child =
  TuiGraphNode (n_addr dst) (n_name dst) (wrap_int (n_nr_edges dst + 1))
               (n_nr_calls dst) (n_time dst) (n_child_time dst)
               (n_head dst ++
                [copy child (accumulate (new_graph_node owner (n_name child)) child)])
               (graph dst) (link dst) (folded dst).
Proof.
  intros Hf. unfold copy_step. rewrite Hf.
  cbn [append_graph_node update_at n_head].
  rewrite lookup_app_r by lia. rewrite Nat.sub_diag. cbn [lookup list_lookup].
  unfold set_head. cbn. rewrite insert_app_r_alt by lia.
  now rewrite Nat.sub_diag.
Qed.

(** [copy_graph_node] leaves the fields of [dst] itself. *)
Lemma copy_step_fields owner copy dst child :
  n_name (copy_step owner copy dst child) = n_name dst /\
  n_time (copy_step owner copy dst child) = n_time dst /\
  n_child_time (copy_step owner copy dst child) = n_child_time dst /\
  n_nr_calls (copy_step owner copy dst child) = n_nr_calls dst.
Proof.
  destruct (list_find (fun node => n_name child = n_name node) (n_head dst))
    as [[i c]|] eqn:Hf.
  - rewrite (copy_step_found _ _ _ _ _ _ Hf). now cbn.
  - rewrite (copy_step_new _ _ _ _ Hf). now cbn.
Qed.

Lemma copy_graph_node_fields src dst :
  n_name (copy_graph_node src dst) = n_name dst /\
  n_time (copy_graph_node src dst) = n_time dst /\
  n_child_time (copy_graph_node src dst) = n_child_time dst /\
  n_nr_calls (copy_graph_node src dst) = n_nr_calls dst.
Proof.
  rewrite copy_graph_node_eq. revert dst.
  induction (n_head src) as [|child cs IH]; intros dst; [now cbn|].
  cbn [fold_left].
  destruct (IH (copy_step (graph src) copy_graph_node dst child)) as (-> & -> & -> & ->).
  apply copy_step_fields.
Qed.

Section merge_sums.
  (** A field of the nodes that [copy_graph_node] adds up modulo [M]. *)
Variable field : tui_graph_node -> Z.
Variable M : Z.
Hypothesis M_pos : 0 < M.
Hypothesis field_new : forall owner name, field (new_graph_node owner name) = 0.
Hypothesis field_acc : forall node child,
      field (accumulate node child) mod M = (field node + field child) mod M.
Hypothesis field_copy : forall src dst, field (copy_graph_node src dst) = field dst.





End merge_sums.

(** ** No name twice among the children *)






(** ** The pivot node of the call-graph part *)

Lemma wrap_u64_add_l a b : wrap_u64 (wrap_u64 a + b) = wrap_u64 (a + b).
Proof. unfold wrap_u64. now rewrite Zplus_mod_idemp_l. Qed.

Lemma wrap_int_add_l a b : wrap_int (wrap_int a + b) = wrap_int (a + b).
Proof.
  unfold wrap_int. f_equal.
  replace ((a + 2 ^ 31) mod 2 ^ 32 - 2 ^ 31 + b + 2 ^ 31)
    with ((a + 2 ^ 31) mod 2 ^ 32 + b) by lia.
  rewrite Zplus_mod_idemp_l. f_equal. lia.
Qed.



Lemma call_graph_entry_eq r e :
  call_graph_entry r e = copy_graph_node (snd e) (accumulate r (snd e)).
Proof. reflexivity. Qed.

Lemma call_graph_fold_fields entries :
  forall r,
    let p := foldl call_graph_entry r entries in
    n_name p = n_name r /\
    n_time p = match entries with
               | [] => n_time r
               | _ => wrap_u64 (n_time r + entries_sum n_time entries)
               end /\
    n_child_time p = match entries with
                     | [] => n_child_time r
                     | _ => wrap_u64 (n_child_time r + entries_sum n_child_time entries)
                     end /\
    n_nr_calls p = match entries with
                   | [] => n_nr_calls r
                   | _ => wrap_int (n_nr_calls r + entries_sum n_nr_calls entries)
                   end.
Proof.
  induction entries as [|e es IH]; intros r; [now cbn|].
  cbn [foldl]. cbv zeta.
  destruct (IH (call_graph_entry r e)) as (H1 & H2 & H3 & H4).
  rewrite H1, H2, H3, H4. clear H1 H2 H3 H4.
  rewrite call_graph_entry_eq.
  destruct (copy_graph_node_fields (snd e) (accumulate r (snd e)))
    as (-> & -> & -> & ->).
  cbn [accumulate set_times n_name n_time n_child_time n_nr_calls].
  unfold entries_sum. cbn [foldr].
  fold (entries_sum n_time es) (entries_sum n_child_time es)
       (entries_sum n_nr_calls es).
  destruct es as [|e' es'].
  - unfold entries_sum. cbn [foldr]. rewrite !Z.add_0_r. now repeat split.
  - rewrite !wrap_u64_add_l, wrap_int_add_l, !Z.add_assoc. now repeat split.
Qed.






(** * Special nodes *)

Lemma is_special_node_name node :
  is_special_node node = true <-> exists rest, n_name node = String "=" rest.
Proof.
  unfold is_special_node. destruct (n_name node) as [|c rest].
  - split; [discriminate | intros [r Hr]; discriminate Hr].
  - split.
    + intros H. apply Ascii.eqb_eq in H. subst c. now exists rest.
    + intros [r Hr]. injection Hr as -> _. reflexivity.
Qed.

Lemma graph_next_climb_special root n :
  forall depth indent_mask y d' m' ny,
    graph_next_climb root n depth indent_mask = Some (Some y, d', m') ->
    node_at root y = Some ny -> is_special_node ny = true -> d' = 0.
Proof.
  induction n as [|i pp IH]; intros depth mask y d' m' ny H Hy Hs;
    [discriminate H|].
  cbn [graph_next_climb] in H.
  destruct (node_at root pp) as [parent|] eqn:Hp; [|discriminate H].
  cbn [mbind option_bind] in H.
  destruct (negb (is_last_child root pp (i :: pp))).
  - destruct (n_head parent !! S i) as [sibling|] eqn:Hsib; [|discriminate H].
    cbn [mbind option_bind] in H. injection H as <- <- <-.
    cbn [node_at] in Hy. rewrite Hp, Hsib in Hy. injection Hy as <-.
    now rewrite Hs.
  - destruct (negb (list_is_singular parent) && (0 <? depth)); eapply IH; eauto.
Qed.

(** Stepping forward to a special node sets the depth to 0. *)
Lemma graph_next_node_special root x depth indent_mask y d' m' ny :
  graph_next_node root x depth indent_mask = Some (Some y, d', m') ->
  node_at root y = Some ny -> is_special_node ny = true -> d' = 0.
Proof.
  unfold graph_next_node. intros H Hy Hs.
  destruct (node_at root x) as [n|] eqn:Hn; [|discriminate H].
  cbn [mbind option_bind] in H.
  destruct (negb (list_empty n) && _).
  - destruct (negb (list_is_singular n)).
    + destruct (n_head n !! 0%nat) as [first|] eqn:Hf; [|discriminate H].
      cbn [mbind option_bind] in H. injection H as <- <- <-.
      cbn [node_at] in Hy. rewrite Hn, Hf in Hy. injection Hy as <-.
      now rewrite Hs.
    + destruct (n_head n !! 0%nat) as [first|] eqn:Hf; [|discriminate H].
      cbn [mbind option_bind] in H. injection H as <- <- <-.
      cbn [node_at] in Hy. rewrite Hn, Hf in Hy. injection Hy as <-.
      now rewrite Hs.
  - eapply graph_next_climb_special; eauto.
Qed.

(** Stepping down to a first child that is not special counts the depth
    in the usual way: one more unless the child is an only child. *)
Lemma graph_next_node_first_child root x depth indent_mask n first :
  node_at root x = Some n -> n_head n !! 0%nat = Some first ->
  (x = [] \/ folded n = false) ->
  exists m',
    graph_next_node root x depth indent_mask =
    Some (Some (0%nat :: x),
          if is_special_node first then 0
          else if list_is_singular n then depth else wrap_int (depth + 1),
          m').
Proof.
  intros Hn Hf Hvis. unfold graph_next_node. rewrite Hn.
  cbn [mbind option_bind].
  assert (Hne : list_empty n = false).
  { unfold list_empty. now destruct (n_head n). }
  assert (Hc : match parent_of root x with
               | Some _ => negb (folded n) | None => true end = true).
  { destruct Hvis as [Hx|Hx]; rewrite Hx; [reflexivity|].
    now destruct (parent_of root x). }
  rewrite Hne, Hc. cbn [negb andb]. rewrite Hf.
  destruct (list_is_singular n); cbn [negb mbind option_bind];
    eexists; reflexivity.
Qed.

(** The part of the row after the columns and the indent. *)
Lemma win_display_graph_label fields COLS (win : graph_window) node curr :
  node_at (ug_root (w_ext win)) node = Some curr ->
  exists single_child fold_sign padding,
    win_display_graph fields COLS win (Some node) =
    Some (print_graph_field fields curr
          ++ print_graph_indent (w_ext win) node (disp_depth (w_ext win)) single_child
          ++ [if is_special_node curr
              then Printw "%s" [arg_string (n_name curr)]
              else Printw "%s(%d) %s"
                          [arg_string fold_sign; arg_int (n_nr_calls curr);
                           arg_string (n_name curr)]]
          ++ padding).
Proof.
  intros Hc. unfold win_display_graph. rewrite Hc. cbn [mbind option_bind].
  destruct (match parent_of (ug_root (w_ext win)) node with
            | Some parent => _ | None => _ end) as [sign single].
  exists single, sign.
  destruct (is_special_node curr); cbn [negb]; eexists; reflexivity.
Qed.

(** C10: a node is special exactly when its name begins with ['='],
    whatever made the node; stepping forward to a special node sets the
    depth to 0, while a first child that is not special gets the depth of
    its nesting; a special node is written with its name only, any other
    node with fold sign and call count; and the root and the two section
    nodes of a partial graph are special. *)
Theorem special_node_rule :
  (forall node,
      is_special_node node = true <-> exists rest, n_name node = String "=" rest) /\
  (forall root x depth indent_mask y d' m' ny,
      graph_next_node root x depth indent_mask = Some (Some y, d', m') ->
      node_at root y = Some ny -> is_special_node ny = true -> d' = 0) /\
  (forall root x depth indent_mask n first,
      node_at root x = Some n -> n_head n !! 0%nat = Some first ->
      (x = [] \/ folded n = false) -> is_special_node first = false ->
      exists m',
        graph_next_node root x depth indent_mask =
        Some (Some (0%nat :: x),
              if list_is_singular n then depth else wrap_int (depth + 1), m')) /\
  (forall fields COLS (win : graph_window) node curr,
      node_at (ug_root (w_ext win)) node = Some curr ->
      exists single_child fold_sign padding,
        win_display_graph fields COLS win (Some node) =
        Some (print_graph_field fields curr
              ++ print_graph_indent (w_ext win) node (disp_depth (w_ext win))
                                    single_child
              ++ [if is_special_node curr
                  then Printw "%s" [arg_string (n_name curr)]
                  else Printw "%s(%d) %s"
                              [arg_string fold_sign; arg_int (n_nr_calls curr);
                               arg_string (n_name curr)]]
              ++ padding)) /\
  (forall graphs partial_graph root_node target win,
      build_partial_graph graphs partial_graph root_node target = Some win ->
      is_special_node (ug_root (w_ext win)) = true /\
      exists back_trace call_graph pivot,
        n_head (ug_root (w_ext win)) = [back_trace; call_graph] /\
        is_special_node back_trace = true /\
        is_special_node call_graph = true /\
        n_head call_graph = [pivot] /\ n_name pivot = r_name root_node).
Proof.
  split; [exact is_special_node_name|].
  split; [exact graph_next_node_special|].
  split.
  { intros root x depth mask n first Hn Hf Hv Hs.
    destruct (graph_next_node_first_child root x depth mask n first Hn Hf Hv)
      as [m' E].
    rewrite Hs in E. now exists m'. }
  split; [exact win_display_graph_label|].
  intros graphs partial_graph root_node target win Hb.
  destruct (build_partial_graph_tree _ _ _ _ _ Hb)
    as (tg & entries & _ & _ & Hname & _ & _ & _ & Hhead & _).
  split.
  { apply is_special_node_name. rewrite Hname. eexists. reflexivity. }
  eexists _, _, _. split; [exact Hhead|].
  split; [|split; [reflexivity|split; [reflexivity|]]].
  - apply is_special_node_name.
    assert (N : forall es d,
               n_name (foldl (fun d e => back_trace_fun e (Some target) d) d es)
               = n_name d).
    { induction es as [|e es IH]; intros d; [reflexivity|].
      cbn [foldl]. rewrite IH.
      now destruct (back_trace_fun_fields e (Some target) d) as (-> & _). }
    rewrite N. eexists. reflexivity.
  - now destruct (call_graph_fold_fields entries
                    (new_graph_node (Some target) (r_name root_node))) as (-> & _).
Qed.

Lemma special_node_rule_witness :
  exists win,
    build_partial_graph scenario_graphs scenario_partial scenario_bar 0 = Some win /\
    is_special_node (ug_root (w_ext win)) = true.
Proof.
  assert (Hb : build_partial_graph scenario_graphs scenario_partial scenario_bar 0
               = Some (default scenario_partial
                         (build_partial_graph scenario_graphs scenario_partial
                                              scenario_bar 0))).
  { vm_compute. reflexivity. }
  eexists. split; [exact Hb|].
  destruct special_node_rule as (_ & _ & _ & _ & H).
  exact (proj1 (H _ _ _ _ _ Hb)).
Defined.


(** * Aggregation of a report node: [prepare_report_node] *)

Lemma wrap_u32_add_l a b : wrap_u32 (wrap_u32 a + b) = wrap_u32 (a + b).
Proof. unfold wrap_u32. now rewrite Zplus_mod_idemp_l. Qed.

Lemma wrap_u64_add_r a b : wrap_u64 (a + wrap_u64 b) = wrap_u64 (a + b).
Proof. unfold wrap_u64. now rewrite Zplus_mod_idemp_r. Qed.

Lemma wrap_u64_sub_l a b : wrap_u64 (wrap_u64 a - b) = wrap_u64 (a - b).
Proof. unfold wrap_u64. now rewrite Zminus_mod_idemp_l. Qed.

Lemma wrap_u64_small z : 0 <= z < 2 ^ 64 -> wrap_u64 z = z.
Proof. intros H. unfold wrap_u64. now apply Z.mod_small. Qed.

Lemma wrap_u32_small z : 0 <= z < 2 ^ 32 -> wrap_u32 z = z.
Proof. intros H. unfold wrap_u32. now apply Z.mod_small. Qed.

(** The loop over the occurrences. *)
Lemma prepare_loop occs :
  forall node,
    let node' :=
      fold_left
        (fun node gn =>
           set_r_totals
             (wrap_u64 (r_time node + n_time gn))
             (wrap_u64 (r_self_time node + wrap_u64 (n_time gn - n_child_time gn)))
             (wrap_u32 (r_calls node + n_nr_calls gn))
             node)
        occs node in
    wrap_u64 (r_time node') = wrap_u64 (r_time node + children_sum n_time occs) /\
    wrap_u64 (r_self_time node') =
      wrap_u64 (r_self_time node +
                children_sum (fun gn => n_time gn - n_child_time gn) occs) /\
    wrap_u32 (r_calls node') = wrap_u32 (r_calls node + children_sum n_nr_calls occs) /\
    (occs <> [] ->
     r_time node' = wrap_u64 (r_time node') /\
     r_self_time node' = wrap_u64 (r_self_time node') /\
     r_calls node' = wrap_u32 (r_calls node')) /\
    r_head node' = r_head node /\ r_name node' = r_name node /\
    r_min_time node' = r_min_time node /\ r_max_time node' = r_max_time node /\
    r_min_self_time node' = r_min_self_time node /\
    r_max_self_time node' = r_max_self_time node /\
    r_recursive_time node' = r_recursive_time node.
Proof.
  induction occs as [|gn occs IH]; intros node; cbv zeta.
  - unfold children_sum. cbn [fold_left foldr]. rewrite !Z.add_0_r.
    repeat split; congruence.
  - cbn [fold_left].
    set (first := set_r_totals
                    (wrap_u64 (r_time node + n_time gn))
                    (wrap_u64 (r_self_time node + wrap_u64 (n_time gn - n_child_time gn)))
                    (wrap_u32 (r_calls node + n_nr_calls gn)) node).
    specialize (IH first). cbv zeta in IH.
    set (node' := fold_left _ occs first) in *.
    destruct IH as (T & S & C & R & H1 & H2 & H3 & H4 & H5 & H6 & H7).
    rewrite !children_sum_cons.
    split.
    { rewrite T. subst first. cbn [set_r_totals r_time].
      rewrite wrap_u64_add_l. f_equal. lia. }
    split.
    { rewrite S. subst first. cbn [set_r_totals r_self_time].
      rewrite wrap_u64_add_l.
      replace (r_self_time node + wrap_u64 (n_time gn - n_child_time gn) +
               children_sum (fun gn0 => n_time gn0 - n_child_time gn0) occs)
        with (r_self_time node +
              children_sum (fun gn0 => n_time gn0 - n_child_time gn0) occs +
              wrap_u64 (n_time gn - n_child_time gn)) by lia.
      rewrite wrap_u64_add_r. f_equal. lia. }
    split.
    { rewrite C. subst first. cbn [set_r_totals r_calls].
      rewrite wrap_u32_add_l. f_equal. lia. }
    split.
    { intros _. destruct occs as [|gn' occs'].
      - subst node' first. cbn [fold_left set_r_totals r_time r_self_time r_calls].
        unfold wrap_u64, wrap_u32.
        repeat split; symmetry; apply Z.mod_mod; lia.
      - apply R. discriminate. }
    rewrite H1, H2, H3, H4, H5, H6, H7. subst first. now cbn.
Qed.

(** C1: once [prepare_report_node] has run on a node whose totals are
    still zero, its total time is the sum of the inclusive times of its
    occurrences minus its recursive time, its self time the sum of the
    (inclusive minus child-inclusive) times, and its call count the sum of
    the call counts, each in the arithmetic of its type ([uint64_t],
    [unsigned]); the equalities hold over the integers as they are when
    the sums fit their types. *)
Theorem prepare_report_node_totals graphs node occs :
  mapM (deref_graph_node graphs) (r_head node) = Some occs ->
  r_time node = 0 -> r_self_time node = 0 -> r_calls node = 0 ->
  exists node',
    prepare_report_node graphs node = Some node' /\
    r_time node' =
      wrap_u64 (children_sum n_time occs - r_recursive_time node) /\
    r_self_time node' =
      wrap_u64 (children_sum (fun gn => n_time gn - n_child_time gn) occs) /\
    r_calls node' = wrap_u32 (children_sum n_nr_calls occs) /\
    r_head node' = r_head node /\ r_name node' = r_name node /\
    r_recursive_time node' = r_recursive_time node /\
    r_min_time node' = r_min_time node /\ r_max_time node' = r_max_time node /\
    r_min_self_time node' = r_min_self_time node /\
    r_max_self_time node' = r_max_self_time node /\
    (0 <= r_recursive_time node <= children_sum n_time occs ->
     children_sum n_time occs < 2 ^ 64 ->
     r_time node' = children_sum n_time occs - r_recursive_time node) /\
    (0 <= children_sum (fun gn => n_time gn - n_child_time gn) occs < 2 ^ 64 ->
     r_self_time node' =
       children_sum (fun gn => n_time gn - n_child_time gn) occs) /\
    (0 <= children_sum n_nr_calls occs < 2 ^ 32 ->
     r_calls node' = children_sum n_nr_calls occs).
Proof.
  intros Hocc Ht Hs Hc. unfold prepare_report_node. rewrite Hocc.
  cbn [mbind option_bind]. eexists. split; [reflexivity|].
  destruct (prepare_loop occs node) as (T & S & C & R & H1 & H2 & H3 & H4 & H5 & H6 & H7).
  cbv zeta in T, S, C, R, H1, H2, H3, H4, H5, H6, H7.
  set (node' := fold_left _ occs node) in *.
  cbn [set_r_totals r_time r_self_time r_calls r_head r_name r_min_time
       r_max_time r_min_self_time r_max_self_time r_recursive_time].
  rewrite Ht, Hs, Hc, !Z.add_0_l in *.
  assert (Et : r_time node' = wrap_u64 (children_sum n_time occs) /\
               r_self_time node' =
                 wrap_u64 (children_sum (fun gn => n_time gn - n_child_time gn) occs) /\
               r_calls node' = wrap_u32 (children_sum n_nr_calls occs)).
  { destruct occs as [|gn occs'].
    - subst node'. cbn [fold_left]. rewrite Ht, Hs, Hc. now cbn.
    - destruct R as (R1 & R2 & R3); [discriminate|].
      rewrite R1, R2, R3, T, S, C. now repeat split. }
  destruct Et as (Et & Es & Ec).
  rewrite Et, Es, Ec, H7, wrap_u64_sub_l.
  repeat split; try assumption.
  - intros Hr Hb. apply wrap_u64_small. lia.
  - intros Hb. now apply wrap_u64_small.
  - intros Hb. now apply wrap_u32_small.
Qed.

Lemma prepare_report_node_totals_witness :
  exists occs node',
    mapM (deref_graph_node scenario_graphs) (r_head scenario_bar) = Some occs /\
    r_time scenario_bar = 0 /\ r_self_time scenario_bar = 0 /\
    r_calls scenario_bar = 0 /\
    prepare_report_node scenario_graphs scenario_bar = Some node' /\
    r_time node' = 70 /\ r_self_time node' = 70 /\ r_calls node' = 3.
Proof.
  assert (Ho : mapM (deref_graph_node scenario_graphs) (r_head scenario_bar) =
               Some (default [] (mapM (deref_graph_node scenario_graphs)
                                      (r_head scenario_bar))))
    by (vm_compute; reflexivity).
  destruct (prepare_report_node_totals scenario_graphs scenario_bar _ Ho
              eq_refl eq_refl eq_refl)
    as (node' & Hp & Ht & Hs & Hc & _).
  eexists _, node'. split; [exact Ho|].
  split; [reflexivity|]. split; [reflexivity|]. split; [reflexivity|].
  split; [exact Hp|].
  rewrite Ht, Hs, Hc. repeat split; vm_compute; reflexivity.
Defined.


(** * The ranking tree: [sort_report_node], [sort_tui_report] *)

Lemma rank_insert_app_lt nodes new l1 x l2 :
  total_of nodes x < total_of nodes new ->
  rank_insert nodes new (l1 ++ x :: l2) = rank_insert nodes new l1 ++ x :: l2.
Proof.
  intros Hx. induction l1 as [|a l1 IH]; cbn [rank_insert app].
  - now rewrite (proj2 (Z.ltb_lt _ _) Hx).
  - destruct (total_of nodes a <? total_of nodes new); [reflexivity|].
    now rewrite IH.
Qed.

Lemma rank_insert_app_ge nodes new l1 l2 :
  Forall (fun a => total_of nodes new <= total_of nodes a) l1 ->
  rank_insert nodes new (l1 ++ l2) = l1 ++ rank_insert nodes new l2.
Proof.
  induction 1 as [|a l1 Ha _ IH]; [reflexivity|]. cbn [rank_insert app].
  rewrite (proj2 (Z.ltb_ge _ _) Ha). now rewrite IH.
Qed.

Lemma rank_insert_perm nodes new l : rank_insert nodes new l ≡ₚ new :: l.
Proof.
  induction l as [|x l IH]; cbn [rank_insert]; [reflexivity|].
  destruct (_ <? _); [reflexivity|]. rewrite IH. apply Permutation_swap.
Qed.

Lemma rank_insert_sorted nodes new l :
  StronglySorted (ranks_before nodes) l ->
  StronglySorted (ranks_before nodes) (rank_insert nodes new l).
Proof.
  induction 1 as [|x l Hs IH Hx]; cbn [rank_insert].
  - repeat constructor.
  - destruct (total_of nodes x <? total_of nodes new) eqn:E.
    + apply Z.ltb_lt in E. constructor; [now constructor|].
      constructor; [unfold ranks_before; lia|].
      eapply Forall_impl; [exact Hx|]. unfold ranks_before. intros y Hy. lia.
    + apply Z.ltb_ge in E. constructor; [exact IH|].
      rewrite rank_insert_perm. constructor; [exact E | exact Hx].
Qed.

(** The descent of [sort_report_node] in a tree whose in-order walk is
    ranked ends where [rank_insert] puts the node. *)
Lemma sort_tree_link_inorder nodes node new t :
  nodes !! new = Some node ->
  Forall (fun x => is_Some (nodes !! x)) (rb_inorder t) ->
  StronglySorted (ranks_before nodes) (rb_inorder t) ->
  exists t', sort_tree_link nodes node new t = Some t' /\
             rb_inorder t' = rank_insert nodes new (rb_inorder t).
Proof.
  intros Hnew. induction t as [|c l IHl x r IHr]; intros Hval Hs.
  - eexists. split; reflexivity.
  - cbn [rb_inorder] in Hval, Hs.
    apply Forall_app in Hval. destruct Hval as [Hvl Hvr].
    apply Forall_cons in Hvr. destruct Hvr as [[iter Hx] Hvr].
    apply StronglySorted_app in Hs. destruct Hs as (Hlr & Hsl & Hsr).
    apply StronglySorted_cons in Hsr. destruct Hsr as [Hxr Hsr].
    cbn [sort_tree_link]. rewrite Hx. cbn [mbind option_bind].
    assert (Tx : total_of nodes x = r_time iter) by (unfold total_of; now rewrite Hx).
    assert (Tn : total_of nodes new = r_time node)
      by (unfold total_of; now rewrite Hnew).
    unfold cmp_report_node.
    destruct (Z.lt_trichotomy (r_time iter) (r_time node)) as [Hlt|[Heq|Hgt]].
    + (* the node ranks before [x]: to the left *)
      rewrite (proj2 (Z.eqb_neq (r_time iter) (r_time node))) by lia. cbn [negb].
      rewrite (proj2 (Z.ltb_ge (r_time node) (r_time iter))) by lia.
      cbn [Z.ltb Z.compare].
      destruct (IHl Hvl Hsl) as (l' & -> & El). cbn [mbind option_bind].
      eexists. split; [reflexivity|]. cbn [rb_inorder]. rewrite El.
      symmetry. apply rank_insert_app_lt. lia.
    + rewrite (proj2 (Z.eqb_eq _ _)) by lia. cbn [negb Z.ltb Z.compare].
      destruct (IHr Hvr Hsr) as (r' & -> & Er). cbn [mbind option_bind].
      eexists. split; [reflexivity|]. cbn [rb_inorder]. rewrite Er.
      symmetry. rewrite rank_insert_app_ge.
      * cbn [rank_insert app].
        now rewrite (proj2 (Z.ltb_ge (total_of nodes x) (total_of nodes new))) by lia.
      * apply Forall_forall. intros a Ha.
        assert (ranks_before nodes a x).
        { apply (Hlr a x Ha). left. }
        unfold ranks_before in *. lia.
    + rewrite (proj2 (Z.eqb_neq (r_time iter) (r_time node))) by lia. cbn [negb].
      rewrite (proj2 (Z.ltb_lt (r_time node) (r_time iter))) by lia.
      cbn [Z.ltb Z.compare].
      destruct (IHr Hvr Hsr) as (r' & -> & Er). cbn [mbind option_bind].
      eexists. split; [reflexivity|]. cbn [rb_inorder]. rewrite Er.
      symmetry. rewrite rank_insert_app_ge.
      * cbn [rank_insert app].
        now rewrite (proj2 (Z.ltb_ge (total_of nodes x) (total_of nodes new))) by lia.
      * apply Forall_forall. intros a Ha.
        assert (ranks_before nodes a x).
        { apply (Hlr a x Ha). left. }
        unfold ranks_before in *. lia.
Qed.

Lemma StronglySorted_lookup {A} (R : relation A) l i j a b :
  StronglySorted R l -> l !! i = Some a -> l !! j = Some b -> (i < j)%nat ->
  R a b.
Proof.
  intros Hs. revert i j. induction Hs as [|x l Hs IH Hx]; intros i j Hi Hj Hij.
  - discriminate Hi.
  - destruct j as [|j]; [lia|]. cbn in Hj. destruct i as [|i].
    + cbn in Hi. injection Hi as ->.
      rewrite Forall_forall in Hx. apply Hx. eapply list_elem_of_lookup_2, Hj.
    + cbn in Hi. apply (IH i j Hi Hj). lia.
Qed.

Lemma StronglySorted_ext {A} (R R' : relation A) l :
  (forall a b, a ∈ l -> b ∈ l -> R a b -> R' a b) ->
  StronglySorted R l -> StronglySorted R' l.
Proof.
  intros HR Hs. induction Hs as [|x l Hs IH Hx]; constructor.
  - apply IH. intros a b Ha Hb. apply HR; now right.
  - rewrite Forall_forall in *. intros y Hy.
    apply HR; [left | now right | now apply Hx].
Qed.

Lemma total_of_insert_ne nodes ptr node x :
  x <> ptr -> total_of (<[ptr := node]> nodes) x = total_of nodes x.
Proof.
  intros Hx. unfold total_of. now rewrite list_lookup_insert_ne by congruence.
Qed.

Lemma prepare_report_node_ready graphs node :
  Forall (fun ref => is_Some (deref_graph_node graphs ref)) (r_head node) ->
  is_Some (prepare_report_node graphs node).
Proof.
  intros H. apply mapM_is_Some_2 in H. destruct H as [occs H].
  unfold prepare_report_node. rewrite H. cbn [mbind option_bind]. eexists. reflexivity.
Qed.

Lemma foldl_rank_None graphs names :
  foldl (fun state ptr =>
           '(nodes, ranking) ← state;
           node ← nodes !! ptr;
           node ← prepare_report_node graphs node;
           let nodes := <[ptr := node]> nodes in
           Some (nodes, rank_insert nodes ptr ranking))
        None names = None.
Proof. induction names as [|x names IH]; [reflexivity | exact IH]. Qed.

Section ranking.
Variable rb_insert_color : nat -> rb_tree -> rb_tree.
Hypothesis rb_insert_color_inorder : keeps_inorder rb_insert_color.
Variable graphs : list tui_graph.

(** One node: finalized in place and linked where [rank_insert] puts it. *)
Lemma sort_report_node_step report ptr :
  node_ready graphs (rp_nodes report) ptr ->
  ptr ∉ rb_inorder (sort_tree report) ->
  Forall (fun x => is_Some (rp_nodes report !! x)) (rb_inorder (sort_tree report)) ->
  StronglySorted (ranks_before (rp_nodes report)) (rb_inorder (sort_tree report)) ->
  exists node node' report',
    rp_nodes report !! ptr = Some node /\
    prepare_report_node graphs node = Some node' /\
    sort_report_node rb_insert_color graphs report ptr = Some report' /\
    rp_nodes report' = <[ptr := node']> (rp_nodes report) /\
    name_tree report' = name_tree report /\
    rb_inorder (sort_tree report') =
      rank_insert (rp_nodes report') ptr (rb_inorder (sort_tree report)) /\
    Forall (fun x => is_Some (rp_nodes report' !! x)) (rb_inorder (sort_tree report')) /\
    StronglySorted (ranks_before (rp_nodes report')) (rb_inorder (sort_tree report')).
Proof.
  intros (node & Hptr & Hready) Hnew Hval Hs.
  destruct (prepare_report_node_ready graphs node Hready) as [node' Hprep].
  set (nodes' := <[ptr := node']> (rp_nodes report)).
  assert (Hptr' : nodes' !! ptr = Some node').
  { apply list_lookup_insert_eq. eapply lookup_lt_Some, Hptr. }
  assert (Hval' : Forall (fun x => is_Some (nodes' !! x)) (rb_inorder (sort_tree report))).
  { eapply Forall_impl; [exact Hval|]. intros x Hx. cbn beta in *.
    apply lookup_lt_is_Some. unfold nodes'. rewrite length_insert.
    now apply lookup_lt_is_Some. }
  assert (Hs' : StronglySorted (ranks_before nodes') (rb_inorder (sort_tree report))).
  { eapply StronglySorted_ext; [|exact Hs]. intros a b Ha Hb. unfold ranks_before, nodes'.
    rewrite !total_of_insert_ne; [tauto| |]; intros ->; contradiction. }
  destruct (sort_tree_link_inorder nodes' node' ptr (sort_tree report) Hptr' Hval' Hs')
    as (linked & Hlink & Hin).
  exists node, node'. eexists. split; [exact Hptr|]. split; [exact Hprep|].
  unfold sort_report_node. rewrite Hptr. cbn [mbind option_bind]. rewrite Hprep.
  cbn [mbind option_bind]. fold nodes'. rewrite Hlink. cbn [mbind option_bind].
  split; [reflexivity|]. cbn [rp_nodes name_tree sort_tree].
  rewrite rb_insert_color_inorder, Hin.
  split; [reflexivity|]. split; [reflexivity|]. split; [reflexivity|]. split.
  - rewrite rank_insert_perm. constructor; [now rewrite Hptr' | exact Hval'].
  - now apply rank_insert_sorted.
Qed.

(** The walk over the names: the nodes are finalized in turn, and the in-order
    walk of the ranking tree follows [rank_fold]. *)
Lemma sort_fold names : forall report,
  NoDup names ->
  Forall (fun x => x ∉ rb_inorder (sort_tree report)) names ->
  Forall (node_ready graphs (rp_nodes report)) names ->
  Forall (fun x => is_Some (rp_nodes report !! x)) (rb_inorder (sort_tree report)) ->
  StronglySorted (ranks_before (rp_nodes report)) (rb_inorder (sort_tree report)) ->
  exists report',
    foldl (fun report ptr =>
             report ← report; sort_report_node rb_insert_color graphs report ptr)
          (Some report) names = Some report' /\
    rank_fold graphs (rp_nodes report, rb_inorder (sort_tree report)) names =
      Some (rp_nodes report', rb_inorder (sort_tree report')) /\
    name_tree report' = name_tree report /\
    StronglySorted (ranks_before (rp_nodes report')) (rb_inorder (sort_tree report')) /\
    rb_inorder (sort_tree report') ≡ₚ names ++ rb_inorder (sort_tree report) /\
    (forall x, x ∉ names -> rp_nodes report' !! x = rp_nodes report !! x) /\
    (forall x, x ∈ names -> exists node node',
        rp_nodes report !! x = Some node /\
        prepare_report_node graphs node = Some node' /\
        rp_nodes report' !! x = Some node').
Proof.
  induction names as [|ptr names IH]; intros report Hnd Hnew Hready Hval Hs.
  - exists report. split; [reflexivity|]. split; [reflexivity|].
    split; [reflexivity|]. split; [exact Hs|]. split; [reflexivity|].
    split; [reflexivity|]. intros x Hx. inversion Hx.
  - apply NoDup_cons in Hnd. destruct Hnd as [Hptr Hnd].
    apply Forall_cons in Hnew. destruct Hnew as [Hnew1 Hnew].
    apply Forall_cons in Hready. destruct Hready as [Hready1 Hready].
    destruct (sort_report_node_step report ptr Hready1 Hnew1 Hval Hs)
      as (node & node' & report1 & Hn & Hp & Hstep & Hnodes & Hname & Hin & Hval1 & Hs1).
    destruct (IH report1 Hnd) as (report' & Hfold & Hrank & Hname' & Hs' & Hperm & Hout & Hfin).
    + rewrite Forall_forall in *. intros x Hx. rewrite Hin, rank_insert_perm.
      intros Hc. apply elem_of_cons in Hc. destruct Hc as [->|Hc]; [contradiction|].
      now apply (Hnew x).
    + rewrite Forall_forall in *. intros x Hx.
      destruct (Hready x Hx) as (n & Hx1 & Hx2). exists n. split; [|exact Hx2].
      rewrite Hnodes, list_lookup_insert_ne; [exact Hx1|]. intros ->. contradiction.
    + exact Hval1.
    + exact Hs1.
    + exists report'. cbn [foldl]. cbn [mbind option_bind]. rewrite Hstep.
      split; [exact Hfold|]. split.
      { unfold rank_fold. cbn [foldl]. cbn [mbind option_bind]. rewrite Hn.
        cbn [mbind option_bind]. rewrite Hp. cbn [mbind option_bind].
        rewrite <- Hnodes, <- Hin. exact Hrank. }
      split; [congruence|]. split; [exact Hs'|]. split.
      { rewrite Hperm, Hin, rank_insert_perm. cbn [app].
        symmetry. apply Permutation_middle. }
      split.
      { intros x Hx. apply not_elem_of_cons in Hx. destruct Hx as [Hx1 Hx2].
        rewrite (Hout x Hx2), Hnodes. now apply list_lookup_insert_ne. }
      intros x Hx. apply elem_of_cons in Hx. destruct Hx as [->|Hx].
      * exists node, node'. split; [exact Hn|]. split; [exact Hp|].
        rewrite (Hout ptr Hptr), Hnodes. apply list_lookup_insert_eq.
        eapply lookup_lt_Some, Hn.
      * destruct (Hfin x Hx) as (n & n' & H1 & H2 & H3). exists n, n'.
        split; [|split; assumption].
        rewrite Hnodes, list_lookup_insert_ne in H1; [exact H1|].
        intros ->. contradiction.
Qed.
End ranking.

(** C2. [sort_tui_report] over a report whose ranking tree is empty and whose
    name tree points to distinct nodes with resolvable occurrences returns,
    whatever the rebalancing does to the shape of the tree, a report in
    which: the in-order walk of the ranking tree holds each node of the
    name tree once, nodes of equal totals included; each of these nodes is
    the result of [prepare_report_node] on the node it was; a node of a
    greater total stands strictly before a node of a smaller one in the
    walk; and any other pass over the same nodes in the same order of
    names, under any other rebalancing, ends with the same finalized nodes
    and the same walk. *)
Theorem sort_tui_report_ranking rb_insert_color graphs report :
  keeps_inorder rb_insert_color ->
  sort_tree report = rb_leaf ->
  NoDup (rb_inorder (name_tree report)) ->
  Forall (node_ready graphs (rp_nodes report)) (rb_inorder (name_tree report)) ->
  exists report',
    sort_tui_report rb_insert_color graphs report = Some report' /\
    name_tree report' = name_tree report /\
    rb_inorder (sort_tree report') ≡ₚ rb_inorder (name_tree report) /\
    (forall x, x ∈ rb_inorder (name_tree report) ->
       exists node node',
         rp_nodes report !! x = Some node /\
         prepare_report_node graphs node = Some node' /\
         rp_nodes report' !! x = Some node') /\
    (forall i j a b A B,
       rb_inorder (sort_tree report') !! i = Some a ->
       rb_inorder (sort_tree report') !! j = Some b ->
       rp_nodes report' !! a = Some A ->
       rp_nodes report' !! b = Some B ->
       r_time B < r_time A ->
       (i < j)%nat) /\
    (forall rb_insert_color2 report2,
       keeps_inorder rb_insert_color2 ->
       sort_tree report2 = rb_leaf ->
       rp_nodes report2 = rp_nodes report ->
       rb_inorder (name_tree report2) = rb_inorder (name_tree report) ->
       exists report2',
         sort_tui_report rb_insert_color2 graphs report2 = Some report2' /\
         rp_nodes report2' = rp_nodes report' /\
         rb_inorder (sort_tree report2') = rb_inorder (sort_tree report')).
Proof.
  intros Hkeep Hempty Hnd Hready.
  assert (Hstart : forall r : tui_report, sort_tree r = rb_leaf ->
            Forall (fun x => x ∉ rb_inorder (sort_tree r)) (rb_inorder (name_tree r)) /\
            Forall (fun x => is_Some (rp_nodes r !! x)) (rb_inorder (sort_tree r)) /\
            StronglySorted (ranks_before (rp_nodes r)) (rb_inorder (sort_tree r))).
  { intros r ->. cbn [rb_inorder]. split; [|split; constructor].
    apply Forall_forall. intros x _ Hx. inversion Hx. }
  destruct (Hstart report Hempty) as (Hnew & Hval & Hs).
  destruct (sort_fold rb_insert_color Hkeep graphs _ report Hnd Hnew Hready Hval Hs)
    as (report' & Hfold & Hrank & Hname & Hs' & Hperm & _ & Hfin).
  exists report'. split; [exact Hfold|]. split; [exact Hname|]. split.
  { rewrite Hperm, Hempty. cbn [rb_inorder]. now rewrite app_nil_r. }
  split; [exact Hfin|]. split.
  - intros i j a b A B Hi Hj HA HB Hlt.
    destruct (Nat.lt_trichotomy i j) as [Hij|[->|Hji]]; [exact Hij| |].
    + rewrite Hi in Hj. injection Hj as ->. rewrite HA in HB. injection HB as ->. lia.
    + pose proof (StronglySorted_lookup _ _ _ _ _ _ Hs' Hj Hi Hji) as Hr.
      unfold ranks_before, total_of in Hr. rewrite HA, HB in Hr. cbn in Hr. lia.
  - intros rb2 report2 Hkeep2 Hempty2 Hnodes2 Hnames2.
    destruct (Hstart report2 Hempty2) as (Hnew2 & Hval2 & Hs2).
    destruct (sort_fold rb2 Hkeep2 graphs (rb_inorder (name_tree report2)) report2)
      as (report2' & Hfold2 & Hrank2 & _); try assumption.
    + now rewrite Hnames2.
    + now rewrite Hnames2, Hnodes2.
    + exists report2'. split; [exact Hfold2|].
      rewrite Hnames2, Hnodes2, Hempty2, <- Hempty, Hrank in Hrank2.
      injection Hrank2 as <- <-. split; reflexivity.
Qed.

Lemma sort_tui_report_ranking_witness :
  exists report',
    sort_tui_report (fun _ t => t) scenario_graphs scenario_report = Some report' /\
    rb_inorder (sort_tree report') = [0%nat; 1%nat] /\
    total_of (rp_nodes report') 0 = 70 /\
    total_of (rp_nodes report') 1 = 60.
Proof.
  assert (Hkeep : keeps_inorder (fun _ t => t)) by (intros x t; reflexivity).
  assert (Hnd : NoDup (rb_inorder (name_tree scenario_report))).
  { cbn. apply NoDup_cons. split; [|apply NoDup_singleton].
    intros H. apply list_elem_of_singleton in H. discriminate H. }
  assert (Hready : Forall (node_ready scenario_graphs (rp_nodes scenario_report))
                          (rb_inorder (name_tree scenario_report))).
  { cbn [scenario_report name_tree rb_inorder app rp_nodes].
    repeat (apply Forall_cons; split); [| |apply Forall_nil; exact I].
    - eexists. split; [reflexivity|]. cbn [r_head].
      repeat (apply Forall_cons; split); [|apply Forall_nil; exact I].
      vm_compute. eexists. reflexivity.
    - eexists. split; [reflexivity|]. cbn [r_head].
      repeat (apply Forall_cons; split); [| |apply Forall_nil; exact I];
        vm_compute; eexists; reflexivity. }
  destruct (sort_tui_report_ranking (fun _ t => t) scenario_graphs scenario_report
              Hkeep eq_refl Hnd Hready) as (report' & Hrun & _).
  exists report'. split; [exact Hrun|].
  vm_compute in Hrun. injection Hrun as <-. vm_compute. repeat split; reflexivity.
Defined.


(** * The builder: [build_tui_node] *)

Lemma name_tree_link_total nodes symname new t :
  Forall (fun x => is_Some (nodes !! x)) (rb_inorder t) ->
  (exists found node,
      name_tree_link nodes symname new t = Some (inl found) /\
      nodes !! found = Some node /\ r_name node = symname) \/
  (exists linked, name_tree_link nodes symname new t = Some (inr linked)).
Proof.
  induction t as [|c l IHl x r IHr]; intros Hval.
  - right. eexists. reflexivity.
  - cbn [rb_inorder] in Hval. apply Forall_app in Hval. destruct Hval as [Hl Hr].
    apply Forall_cons in Hr. destruct Hr as [[node Hx] Hr].
    cbn [name_tree_link]. rewrite Hx. cbn [mbind option_bind].
    destruct (strcmp (r_name node) symname) eqn:E.
    + left. exists x, node. split; [reflexivity|]. split; [exact Hx|].
      now apply String.compare_eq_iff.
    + destruct (IHl Hl) as [(f & n & -> & Hf)|(linked & ->)]; cbn [mbind option_bind].
      * left. exists f, n. split; [reflexivity | exact Hf].
      * right. eexists. reflexivity.
    + destruct (IHr Hr) as [(f & n & -> & Hf)|(linked & ->)]; cbn [mbind option_bind].
      * left. exists f, n. split; [reflexivity | exact Hf].
      * right. eexists. reflexivity.
Qed.

(** [find_report_node] returns the node of the name, which it allocates
    when the name is new; the nodes there were are as they were. *)
Lemma find_report_node_total rb_insert_color report symname :
  Forall (fun x => is_Some (rp_nodes report !! x)) (rb_inorder (name_tree report)) ->
  exists ptr report' node,
    find_report_node rb_insert_color report symname = Some (ptr, report') /\
    rp_nodes report' !! ptr = Some node /\
    r_name node = symname /\
    (forall x, is_Some (rp_nodes report !! x) ->
               rp_nodes report' !! x = rp_nodes report !! x).
Proof.
  intros Hval. unfold find_report_node.
  destruct (name_tree_link_total (rp_nodes report) symname
              (length (rp_nodes report)) (name_tree report) Hval)
    as [(f & n & -> & Hf & Hn)|(linked & ->)]; cbn [mbind option_bind].
  - exists f, report, n. split; [reflexivity|]. split; [exact Hf|]. split; [exact Hn|].
    reflexivity.
  - eexists _, _, (new_report_node symname). split; [reflexivity|]. cbn [rp_nodes].
    split; [|split; [reflexivity|]].
    + rewrite lookup_app_r by lia. now rewrite Nat.sub_diag.
    + intros x Hx. apply lookup_app_l. now apply lookup_lt_is_Some.
Qed.

Lemma frame_below_iff task fstack :
  0 <= stack_count task ->
  frame_below task fstack = true <-> recursive_frame task fstack.
Proof.
  intros Hc. unfold frame_below, recursive_frame. rewrite existsb_exists. split.
  - intros (frame & Hin & Heq). apply Z.eqb_eq in Heq.
    apply list_elem_of_In, list_elem_of_lookup_1 in Hin. destruct Hin as [i Hi].
    apply lookup_take_Some in Hi. destruct Hi as [Hi Hlt].
    exists i, frame. split; [lia|]. split; assumption.
  - intros (i & frame & Hlt & Hi & Heq). exists frame. split; [|now apply Z.eqb_eq].
    apply list_elem_of_In. apply (list_elem_of_lookup_2 _ i).
    apply lookup_take_Some. split; [exact Hi | lia].
Qed.

Lemma update_ptr_total graphs cursor node f :
  deref_ptr graphs cursor = Some node -> is_Some (update_ptr graphs cursor f).
Proof.
  destruct cursor as [|g p]; [discriminate|]. cbn [deref_ptr update_ptr].
  unfold deref_graph_node. cbn [fst snd].
  destruct (graphs !! g) as [gr|]; [|discriminate]. cbn [mbind option_bind].
  intros ->. cbn [mbind option_bind]. eexists. reflexivity.
Qed.

(** The block for [UFTRACE_EXIT]: it returns when the frame of the exit and
    the node under the cursor exist, and the recursive time of the report
    node of the name has grown by the total time of the frame exactly when
    the loop over the frames below meets the address. *)
Lemma build_exit_recursion rb_insert_color task tg name data fstack cursor graph_node :
  0 <= stack_count task ->
  func_stack task !! Z.to_nat (stack_count task) = Some fstack ->
  Forall (fun x => is_Some (rp_nodes (td_report data) !! x))
         (rb_inorder (name_tree (td_report data))) ->
  tg_node tg = Some cursor ->
  deref_ptr (td_graphs data) cursor = Some graph_node ->
  exists ptr report node node' data',
    find_report_node rb_insert_color (td_report data) name = Some (ptr, report) /\
    rp_nodes report !! ptr = Some node /\
    build_exit rb_insert_color task tg name data = Some data' /\
    rp_nodes (td_report data') !! ptr = Some node' /\
    r_name node' = name /\
    r_recursive_time node' =
      (if frame_below task fstack
       then wrap_u64 (r_recursive_time node + fs_total_time fstack)
       else r_recursive_time node) /\
    r_time node' = r_time node /\
    (forall x, x <> ptr ->
               rp_nodes (td_report data') !! x = rp_nodes report !! x).
Proof.
  intros Hc Hf Hval Hcur Hnode.
  destruct (find_report_node_total rb_insert_color (td_report data) name Hval)
    as (ptr & report & node & Hfind & Hptr & Hname & _).
  exists ptr, report, node.
  unfold build_exit. rewrite (proj2 (Z.ltb_ge _ _) Hc), Hf. cbn [mbind option_bind].
  rewrite Hfind. cbn [mbind option_bind]. rewrite Hptr. cbn [mbind option_bind].
  rewrite Hcur. cbn [mbind option_bind]. rewrite Hnode. cbn [mbind option_bind].
  assert (Hlen : (ptr < length (rp_nodes report))%nat) by (eapply lookup_lt_Some, Hptr).
  destruct (link graph_node); cbn [negb].
  - cbn [mbind option_bind]. destruct (frame_below task fstack);
      (eexists _, _; split; [reflexivity|]; split; [reflexivity|];
       split; [reflexivity|]; cbn [td_report set_rp_nodes rp_nodes];
       rewrite list_lookup_insert_eq by exact Hlen; split; [reflexivity|];
       split; [exact Hname|]; split; [reflexivity|]; split; [reflexivity|];
       intros x Hx; now apply list_lookup_insert_ne).
  - destruct cursor as [|g p]; [discriminate Hnode|].
    destruct (update_ptr_total (td_graphs data) (graph_node_at g p) graph_node
                (set_link true) Hnode) as [graphs ->].
    cbn [mbind option_bind]. destruct (frame_below task fstack);
      (eexists _, _; split; [reflexivity|]; split; [reflexivity|];
       split; [reflexivity|]; cbn [td_report set_rp_nodes rp_nodes];
       rewrite list_lookup_insert_eq by exact Hlen; split; [reflexivity|];
       split; [exact Hname|]; split; [reflexivity|]; split; [reflexivity|];
       intros x Hx; now apply list_lookup_insert_ne).
Qed.

(** A record that is no exit leaves the report as it is, and after an exit
    the report is the one of the block for the exit. *)
Lemma build_tui_node_report sessions rb_insert_color graph_add_node task rec tg
    data tg' data' :
  build_tui_node sessions rb_insert_color graph_add_node task rec tg data =
    Some (tg', data') ->
  let graph := get_graph sessions (td_graphs data) task (rec_time rec) (rec_addr rec) in
  let name := symbol_getname sessions (tid task) (rec_time rec) (rec_addr rec) in
  (rec_type rec <> UFTRACE_EXIT -> td_report data' = td_report data) /\
  (rec_type rec = UFTRACE_EXIT ->
   exists data1,
     build_exit rb_insert_color task (task_cursor graph tg) name data = Some data1 /\
     td_report data' = td_report data1).
Proof.
  intros H graph name. unfold build_tui_node in H. fold graph name in H.
  destruct (rec_type rec) eqn:T; cbn [mbind option_bind] in H.
  2: { destruct (build_exit _ _ _ _ _) as [data1|] eqn:E; [|discriminate H].
       cbn [mbind option_bind] in H.
       destruct (graph_add_node _ _ _ _ _) as [[tg1 graphs]|]; [|discriminate H].
       cbn [mbind option_bind] in H.
       destruct (match tg_node tg1 with Some _ => _ | None => _ end); [|discriminate H].
       cbn [mbind option_bind] in H. injection H as <- <-.
       split; [congruence|]. intros _. exists data1. split; reflexivity. }
  all: destruct (graph_add_node _ _ _ _ _) as [[tg1 graphs]|]; [|discriminate H];
    cbn [mbind option_bind] in H;
    destruct (match tg_node tg1 with Some _ => _ | None => _ end); [|discriminate H];
    cbn [mbind option_bind] in H; injection H as <- <-;
    split; [reflexivity | discriminate].
Qed.

Lemma rb_inorder_nil t : rb_inorder t = [] -> t = rb_leaf.
Proof.
  destruct t as [|c l x r]; [reflexivity|]. cbn [rb_inorder]. intros H.
  apply app_eq_nil in H. destruct H as [_ H]. discriminate H.
Qed.

Lemma rb_inorder_singleton t x :
  rb_inorder t = [x] -> exists c, t = rb_node c rb_leaf x rb_leaf.
Proof.
  destruct t as [|c l y r]; [discriminate|]. cbn [rb_inorder]. intros H.
  destruct (rb_inorder l) as [|a la] eqn:El.
  - cbn in H. injection H as -> Hr. apply rb_inorder_nil in El, Hr. subst.
    exists c. reflexivity.
  - cbn in H. injection H as _ H. apply app_eq_nil in H. destruct H as [_ H].
    discriminate H.
Qed.

(** The trace of the recursion, for any rebalancing of the trees. *)
Lemma recursion_report_eq rb_insert_color inner outer :
  keeps_inorder rb_insert_color ->
  exists report node,
    recursion_report rb_insert_color inner outer = Some report /\
    rp_nodes report = [node] /\
    r_name node = "f" /\
    r_recursive_time node = wrap_u64 (0 + inner) /\
    r_time node =
      wrap_u64 (wrap_u64 (wrap_u64 (0 + wrap_u64 (0 + inner)) + wrap_u64 (0 + outer))
                - wrap_u64 (0 + inner)).
Proof.
  intros Hkeep.
  destruct (rb_inorder_singleton
              (rb_insert_color 0%nat (rb_node RB_RED rb_leaf 0%nat rb_leaf)) 0%nat)
    as [c Hc]; [now rewrite Hkeep|].
  unfold recursion_report, build_tui_nodes, recursion_trace. cbn [foldl].
  set (s3 := (_ ← (_ ← (_ ← Some _; _); _); _)).
  cbv -[Z.add Z.sub wrap_u64 wrap_int wrap_u32] in (value of s3).
  subst s3. rewrite Hc.
  cbv -[Z.add Z.sub wrap_u64 wrap_int wrap_u32].
  eexists _, _. split; [reflexivity|]. split; [reflexivity|].
  split; [reflexivity|]. split; reflexivity.
Qed.

(** C3. On an exit record whose frame and cursor node exist,
    [build_tui_node] runs the block for the exit, which returns: the report
    node of the name of the record is found or made, and its recursive time
    has grown by the total time of the exiting frame if a frame below the
    exiting one has the address of that frame, and is as it was if there is
    none; its total is not written and no other report node changes.  A
    record that is no exit leaves the report as it is.  For the trace in
    which [f] enters itself once and both calls return, whatever the
    rebalancing of the trees, the report after [sort_tui_report] has the one
    node [f], whose recursive time is the total time of the inner call and
    whose total is the total time of the outer call. *)
Theorem build_tui_node_recursive_time :
  (forall sessions rb_insert_color graph_add_node task rec tg data fstack graph_node,
     let graph := get_graph sessions (td_graphs data) task (rec_time rec) (rec_addr rec) in
     let name := symbol_getname sessions (tid task) (rec_time rec) (rec_addr rec) in
     let cursor := task_cursor graph tg in
     rec_type rec = UFTRACE_EXIT ->
     0 <= stack_count task ->
     func_stack task !! Z.to_nat (stack_count task) = Some fstack ->
     Forall (fun x => is_Some (rp_nodes (td_report data) !! x))
            (rb_inorder (name_tree (td_report data))) ->
     tg_node cursor ≫= deref_ptr (td_graphs data) = Some graph_node ->
     exists ptr report node node' data1,
       find_report_node rb_insert_color (td_report data) name = Some (ptr, report) /\
       rp_nodes report !! ptr = Some node /\
       build_exit rb_insert_color task cursor name data = Some data1 /\
       rp_nodes (td_report data1) !! ptr = Some node' /\
       r_name node' = name /\
       (recursive_frame task fstack ->
        r_recursive_time node' =
          wrap_u64 (r_recursive_time node + fs_total_time fstack)) /\
       (~ recursive_frame task fstack ->
        r_recursive_time node' = r_recursive_time node) /\
       r_time node' = r_time node /\
       (forall x, x <> ptr ->
                  rp_nodes (td_report data1) !! x = rp_nodes report !! x) /\
       (forall tg' data',
          build_tui_node sessions rb_insert_color graph_add_node task rec tg data =
            Some (tg', data') ->
          td_report data' = td_report data1)) /\
  (forall sessions rb_insert_color graph_add_node task rec tg data tg' data',
     rec_type rec <> UFTRACE_EXIT ->
     build_tui_node sessions rb_insert_color graph_add_node task rec tg data =
       Some (tg', data') ->
     td_report data' = td_report data) /\
  (forall rb_insert_color inner outer,
     keeps_inorder rb_insert_color ->
     0 <= inner < 2 ^ 64 ->
     0 <= outer < 2 ^ 64 ->
     exists report node,
       recursion_report rb_insert_color inner outer = Some report /\
       rp_nodes report = [node] /\
       r_name node = "f" /\
       r_recursive_time node = inner /\
       r_time node = outer).
Proof.
  split; [|split].
  - intros sessions rb gan task rec tg data fstack graph_node graph name cursor
           Hexit Hc Hf Hval Hcur.
    destruct (tg_node cursor) as [ptr0|] eqn:Hptr0; [|discriminate Hcur].
    cbn [mbind option_bind] in Hcur.
    destruct (build_exit_recursion rb task cursor name data fstack ptr0 graph_node
                Hc Hf Hval Hptr0 Hcur)
      as (ptr & report & node & node' & data1 & H1 & H2 & H3 & H4 & H5 & H6 & H7 & H8).
    exists ptr, report, node, node', data1.
    do 5 (split; [assumption|]). split; [|split; [|split; [|split]]].
    + intros Hrec. apply (frame_below_iff _ _ Hc) in Hrec. now rewrite Hrec in H6.
    + intros Hrec. destruct (frame_below task fstack) eqn:E; [|exact H6].
      apply (frame_below_iff _ _ Hc) in E. contradiction.
    + exact H7.
    + exact H8.
    + intros tg' data' Hrun.
      destruct (build_tui_node_report _ _ _ _ _ _ _ _ _ Hrun) as [_ Hr].
      destruct (Hr Hexit) as (d1 & Hd1 & ->).
      fold graph name cursor in Hd1. congruence.
  - intros sessions rb gan task rec tg data tg' data' Hrec Hrun.
    now destruct (build_tui_node_report _ _ _ _ _ _ _ _ _ Hrun) as [Hr _]; apply Hr.
  - intros rb inner outer Hkeep Hi Ho.
    destruct (recursion_report_eq rb inner outer Hkeep)
      as (report & node & H1 & H2 & H3 & H4 & H5).
    exists report, node. do 3 (split; [assumption|]).
    rewrite H4, H5. unfold wrap_u64.
    rewrite !Z.add_0_l, !(Z.mod_small inner), !(Z.mod_small outer) by lia.
    split; [reflexivity|].
    rewrite Zminus_mod_idemp_l.
    replace (inner + outer - inner) with outer by lia. apply Z.mod_small. lia.
Qed.

Lemma build_tui_node_recursive_time_witness :
  (exists data1 node',
     build_exit (fun _ t => t)
                (TaskHandle 1 1 [Fstack 4096 0 0; Fstack 4096 30 0] 1)
                (TaskGraph (Some (graph_node_at 0 [0%nat; 0%nat])) (Some 0%nat))
                "f" recursion_entered = Some data1 /\
     rp_nodes (td_report data1) !! 0%nat = Some node' /\
     r_recursive_time node' = 30) /\
  (exists tg' data',
     build_tui_node recursion_sessions (fun _ t => t) graph_add_node
                    (TaskHandle 1 1 [Fstack 4096 0 0] 1)
                    (UftraceRecord UFTRACE_ENTRY 0 4096)
                    (TaskGraph None None) recursion_data = Some (tg', data') /\
     td_report data' = td_report recursion_data) /\
  (exists report node,
     recursion_report (fun _ t => t) 30 100 = Some report /\
     rp_nodes report = [node] /\
     r_recursive_time node = 30 /\ r_time node = 100).
Proof.
  destruct build_tui_node_recursive_time as (Hexit & Hentry & Htrace).
  split; [|split].
  - destruct (Hexit recursion_sessions (fun _ t => t) graph_add_node
                (TaskHandle 1 1 [Fstack 4096 0 0; Fstack 4096 30 0] 1)
                (UftraceRecord UFTRACE_EXIT 31 4096)
                (TaskGraph (Some (graph_node_at 0 [0%nat; 0%nat])) (Some 0%nat))
                recursion_entered (Fstack 4096 30 0)
                (new_graph_node (Some 0%nat) "f")
                eq_refl ltac:(cbn; lia) eq_refl (Forall_nil_2 _) eq_refl)
      as (ptr & report & node & node' & data1 & H1 & H2 & H3 & H4 & _ & H6 & _).
    vm_compute in H1. injection H1 as <- <-.
    vm_compute in H2. injection H2 as <-.
    exists data1, node'. split; [exact H3|]. split; [exact H4|].
    rewrite H6; [reflexivity|].
    exists 0%nat, (Fstack 4096 0 0). cbn. split; [lia|]. split; reflexivity.
  - eexists _, _. split; [vm_compute; reflexivity|].
    eapply (Hentry recursion_sessions (fun _ t => t) graph_add_node
              (TaskHandle 1 1 [Fstack 4096 0 0] 1)
              (UftraceRecord UFTRACE_ENTRY 0 4096) (TaskGraph None None)
              recursion_data); [discriminate | vm_compute; reflexivity].
  - destruct (Htrace (fun _ t => t) 30 100) as (report & node & H1 & H2 & _ & H4 & H5).
    + intros x t. reflexivity.
    + lia.
    + lia.
    + exists report, node. repeat split; assumption.
Defined.


(** * Records of no session *)

(** With no graph, the cursor of a task that had none, or had one in a
    graph, is put on [&graph->root] of the null pointer. *)
Lemma task_cursor_unresolved tg :
  tg_node tg = None \/ tg_graph tg <> None \/ tg_node tg = Some null_graph_root ->
  tg_node (task_cursor None tg) = Some null_graph_root.
Proof.
  unfold task_cursor. intros [H|[H|H]].
  - now rewrite H.
  - destruct (tg_node tg); [|reflexivity].
    now rewrite bool_decide_eq_true_2.
  - rewrite H. now destruct (bool_decide _).
Qed.

(** The block for the exit reads the node under the cursor, and there is
    none: whatever the report and the stack, it does not return. *)
Lemma build_exit_unresolved rb_insert_color task tg name data :
  tg_node tg = Some null_graph_root ->
  build_exit rb_insert_color task tg name data = None.
Proof.
  intros H. unfold build_exit. destruct (stack_count task <? 0); [reflexivity|].
  destruct (func_stack task !! _); [|reflexivity]. cbn [mbind option_bind].
  destruct (find_report_node _ _ _) as [[ptr report]|]; [|reflexivity].
  cbn [mbind option_bind].
  destruct (rp_nodes report !! ptr); [|reflexivity]. cbn [mbind option_bind].
  rewrite H. reflexivity.
Qed.

Lemma build_tui_node_unresolved_exit sessions rb_insert_color graph_add_node
    task rec tg data :
  get_graph sessions (td_graphs data) task (rec_time rec) (rec_addr rec) = None ->
  rec_type rec = UFTRACE_EXIT ->
  tg_node tg = None \/ tg_graph tg <> None \/ tg_node tg = Some null_graph_root ->
  build_tui_node sessions rb_insert_color graph_add_node task rec tg data = None.
Proof.
  intros Hg Hexit Htg. unfold build_tui_node. rewrite Hg, Hexit.
  rewrite build_exit_unresolved; [reflexivity|].
  now apply task_cursor_unresolved.
Qed.

(** C7. The exit record of a task that no session resolves, the address
    being none of the kernel: [get_graph] returns no graph, and
    [build_tui_node], whatever [graph_add_node] and the rebalancing do,
    does not drop the record.  It has [find_report_node] make the report
    node of the name, and then reads the node at [&graph->root] of the
    null pointer, where the model has no value for it. *)
Theorem build_tui_node_unresolved_not_dropped :
  get_graph unresolved_sessions (td_graphs recursion_data) unresolved_task
            (rec_time unresolved_exit) (rec_addr unresolved_exit) = None /\
  (forall rb_insert_color graph_add_node,
     build_tui_node unresolved_sessions rb_insert_color graph_add_node
                    unresolved_task unresolved_exit (TaskGraph None None)
                    recursion_data = None) /\
  (forall rb_insert_color,
     exists report,
       find_report_node rb_insert_color (td_report recursion_data) "f" =
         Some (0%nat, report) /\
       rp_nodes report = [new_report_node "f"] /\
       nr_func report = 1 /\
       report <> td_report recursion_data).
Proof.
  split; [reflexivity|]. split.
  - intros rb gan. apply build_tui_node_unresolved_exit; [reflexivity..|].
    left. reflexivity.
  - intros rb. eexists. split; [reflexivity|]. split; [reflexivity|].
    split; [reflexivity|]. discriminate.
Qed.


(** * Times on the screen *)

(** The loop of [print_time], unit by unit. *)
Lemma print_time_loop_eq ntime :
  0 <= ntime < 2 ^ 64 ->
  print_time_loop 5 0 ntime 0 =
    Some (if ntime / 1000 <? 1000 then (0%nat, ntime / 1000, ntime mod 1000)
          else if ntime / 1000000 <? 1000
               then (1%nat, ntime / 1000000, ntime / 1000 mod 1000)
          else if ntime / 1000000000 <? 60
               then (2%nat, ntime / 1000000000, ntime / 1000000 mod 1000)
          else if ntime / 60000000000 <? 24
               then (3%nat, ntime / 60000000000, ntime / 1000000000 mod 60)
          else (4%nat, ntime / 1440000000000, ntime / 60000000000 mod 24)).
Proof.
  intros H. cbn [print_time_loop time_limit lookup list_lookup mbind option_bind].
  cbn [list_lookup]. cbn [mbind option_bind].
  rewrite !Z.div_div by lia.
  change (1000 * 1000) with 1000000. change (1000000 * 1000) with 1000000000.
  change (1000000000 * 60) with 60000000000.
  change (60000000000 * 24) with 1440000000000.
  destruct (ntime / 1000 <? 1000); [reflexivity|].
  destruct (ntime / 1000000 <? 1000); [reflexivity|].
  destruct (ntime / 1000000000 <? 60); [reflexivity|].
  destruct (ntime / 60000000000 <? 24); [reflexivity|].
  assert (ntime / 1440000000000 < INT_MAX) as ->%Z.ltb_lt; [|reflexivity].
  unfold INT_MAX. apply Z.div_lt_upper_bound; lia.
Qed.

Lemma print_time_eq ntime :
  0 < ntime < 2 ^ 64 ->
  exists idx value fract out,
    print_time_loop 5 0 ntime 0 = Some (idx, value, fract) /\
    print_time ntime = Some out /\
    time_shown (if 999 <? value then 999 else value)
               (if 999 <? value then 999 else fract) idx out /\
    (idx <= 4)%nat.
Proof.
  intros H. pose proof (print_time_loop_eq ntime ltac:(lia)) as E.
  unfold print_time. rewrite (proj2 (Z.eqb_neq ntime 0)) by lia.
  change (length time_units) with 5%nat.
  destruct (print_time_loop 5 0 ntime 0) as [[[idx value] fract]|]; [|discriminate E].
  exists idx, value, fract. cbn [mbind option_bind].
  assert (Hidx : (idx <= 4)%nat).
  { injection E as E. repeat (destruct (_ <? _) in E; [injection E as <- _ _; lia|]).
    injection E as <- _ _. lia. }
  do 5 (destruct idx as [|idx]; [
    destruct (999 <? value); (eexists; split; [reflexivity|]; split; [reflexivity|];
      split; [|exact Hidx]; eexists _, _; split; [reflexivity|]; split; reflexivity)|]).
  lia.
Qed.

(** X1. For every non-zero time of 64 bits [print_time] stays inside its
    arrays [units], [pairs] and [limit], and what it prints fits the format
    of three digits, a point and three digits: both numbers are at most
    999.  The time zero is printed as ten blanks. *)
Theorem print_time_in_bounds ntime :
  0 <= ntime < 2 ^ 64 ->
  (ntime = 0 ->
   print_time ntime = Some [curses_printw "%7s %2s" [arg_string ""; arg_string ""]]) /\
  (ntime <> 0 ->
   exists value fract idx out,
     print_time ntime = Some out /\
     time_shown value fract idx out /\
     0 <= value <= 999 /\ 0 <= fract <= 999).
Proof.
  intros H. split; [intros ->; reflexivity|]. intros Hz.
  destruct (print_time_eq ntime ltac:(lia)) as (idx & value & fract & out & E & Hp & Hs & _).
  exists (if 999 <? value then 999 else value),
         (if 999 <? value then 999 else fract), idx, out.
  split; [exact Hp|]. split; [exact Hs|].
  rewrite print_time_loop_eq in E by lia. injection E as E.
  assert (Hm : forall a b, 0 < b -> 0 <= a mod b < b) by (intros; now apply Z.mod_pos_bound).
  assert (Hd : forall b, 0 < b -> 0 <= ntime / b) by (intros; apply Z.div_pos; lia).
  destruct (999 <? value) eqn:Hv; [lia|]. apply Z.ltb_ge in Hv.
  repeat (destruct (_ <? _) in E;
          [injection E as <- <- <-;
           split; [split; [apply Hd; lia | exact Hv]|];
           match goal with |- 0 <= ?a mod ?b <= _ => pose proof (Hm a b ltac:(lia)); lia end|]).
  injection E as <- <- <-. split; [split; [apply Hd; lia | exact Hv]|].
  pose proof (Hm (ntime / 60000000000) 24 ltac:(lia)). lia.
Qed.

Lemma print_time_in_bounds_witness :
  exists value fract idx out,
    print_time 1500 = Some out /\ time_shown value fract idx out /\
    0 <= value <= 999 /\ 0 <= fract <= 999.
Proof.
  apply (print_time_in_bounds 1500); [lia | discriminate].
Defined.

(** X2. The table of [print_time] for a non-zero time in nanoseconds:
    below a millisecond it shows the microseconds and the nanoseconds left,
    below a second the milliseconds and the microseconds left, below a
    minute the seconds and the milliseconds left, below 24 minutes the
    minutes and the seconds left.  From 24 minutes on the unit is [" h"],
    and the numbers are those of the division of the minutes by 24, or 999
    twice when the quotient is above 999. *)
Theorem print_time_table ntime :
  0 < ntime < 2 ^ 64 ->
  exists out,
    print_time ntime = Some out /\
    (ntime < 1000000 ->
     time_shown (ntime / 1000) (ntime mod 1000) 0 out) /\
    (1000000 <= ntime < 1000000000 ->
     time_shown (ntime / 1000000) (ntime / 1000 mod 1000) 1 out) /\
    (1000000000 <= ntime < 60000000000 ->
     time_shown (ntime / 1000000000) (ntime / 1000000 mod 1000) 2 out) /\
    (60000000000 <= ntime < 1440000000000 ->
     time_shown (ntime / 60000000000) (ntime / 1000000000 mod 60) 3 out) /\
    (1440000000000 <= ntime ->
     let minutes := ntime / 60000000000 in
     time_shown (if 999 <? minutes / 24 then 999 else minutes / 24)
                (if 999 <? minutes / 24 then 999 else minutes mod 24) 4 out).
Proof.
  intros H.
  destruct (print_time_eq ntime H) as (idx & value & fract & out & E & Hp & Hs & _).
  exists out. split; [exact Hp|].
  rewrite print_time_loop_eq in E by lia. injection E as E.
  assert (D : forall b c, 0 < b -> (ntime / b <? c) = true <-> ntime < b * c).
  { intros b c Hb. rewrite Z.ltb_lt. split; intros Hlt.
    - pose proof (Z.div_mod ntime b ltac:(lia)).
      pose proof (Z.mod_pos_bound ntime b Hb). nia.
    - apply Z.div_lt_upper_bound; lia. }
  assert (D' : forall b c, 0 < b -> (ntime / b <? c) = false <-> b * c <= ntime).
  { intros b c Hb. rewrite <- Bool.not_true_iff_false, D by lia. lia. }
  destruct (ntime / 1000 <? 1000) eqn:E0.
  { apply D in E0; [|lia]. injection E as <- <- <-.
    assert (V : (999 <? ntime / 1000) = false).
    { apply Z.ltb_ge. assert (ntime / 1000 < 1000) by (apply Z.div_lt_upper_bound; lia). lia. }
    rewrite V in Hs. repeat split; intros; try lia. exact Hs. }
  apply D' in E0; [|lia].
  destruct (ntime / 1000000 <? 1000) eqn:E1.
  { apply D in E1; [|lia]. injection E as <- <- <-.
    assert (V : (999 <? ntime / 1000000) = false).
    { apply Z.ltb_ge. assert (ntime / 1000000 < 1000) by (apply Z.div_lt_upper_bound; lia). lia. }
    rewrite V in Hs. repeat split; intros; try lia. exact Hs. }
  apply D' in E1; [|lia].
  destruct (ntime / 1000000000 <? 60) eqn:E2.
  { apply D in E2; [|lia]. injection E as <- <- <-.
    assert (V : (999 <? ntime / 1000000000) = false).
    { apply Z.ltb_ge. assert (ntime / 1000000000 < 60) by (apply Z.div_lt_upper_bound; lia). lia. }
    rewrite V in Hs. repeat split; intros; try lia. exact Hs. }
  apply D' in E2; [|lia].
  destruct (ntime / 60000000000 <? 24) eqn:E3.
  { apply D in E3; [|lia]. injection E as <- <- <-.
    assert (V : (999 <? ntime / 60000000000) = false).
    { apply Z.ltb_ge. assert (ntime / 60000000000 < 24) by (apply Z.div_lt_upper_bound; lia). lia. }
    rewrite V in Hs. repeat split; intros; try lia. exact Hs. }
  apply D' in E3; [|lia]. injection E as <- <- <-.
  repeat split; intros; try lia. subst minutes.
  rewrite Z.div_div by lia. exact Hs.
Qed.

Lemma print_time_table_witness :
  exists out,
    print_time 3600000000000 = Some out /\ time_shown 2 12 4 out.
Proof.
  destruct (print_time_table 3600000000000 ltac:(lia)) as (out & Hp & _ & _ & _ & _ & H).
  exists out. split; [exact Hp|]. apply H. lia.
Defined.


(** * The name tree *)

Lemma strcmp_lt_trans a b c :
  strcmp a b = Lt -> strcmp b c = Lt -> strcmp a c = Lt.
Proof.
  unfold strcmp. intros H1 H2.
  apply OrderedTypeEx.String_as_OT.cmp_lt in H1, H2.
  apply OrderedTypeEx.String_as_OT.cmp_lt.
  eapply OrderedTypeEx.String_as_OT.lt_trans; eassumption.
Qed.

Lemma strcmp_gt_lt a b : strcmp a b = Gt -> strcmp b a = Lt.
Proof.
  unfold strcmp. intros H. rewrite String.compare_antisym, H. reflexivity.
Qed.

Lemma strcmp_lt_neq a b : strcmp a b = Lt -> a <> b.
Proof.
  unfold strcmp. intros H ->.
  assert (E : String.compare b b = Eq) by now apply OrderedTypeEx.String_as_OT.cmp_eq.
  congruence.
Qed.

Lemma name_of_lookup nodes x node :
  nodes !! x = Some node -> name_of nodes x = r_name node.
Proof. unfold name_of. now intros ->. Qed.

(** The descent of [find_report_node] in a tree whose walk goes down the
    names: it finds the node of the name if the tree has one, and links
    the new node between the greater names and the smaller ones if not. *)
Lemma name_tree_link_sorted nodes symname new t :
  Forall (fun x => is_Some (nodes !! x)) (rb_inorder t) ->
  StronglySorted (name_above nodes) (rb_inorder t) ->
  (exists x, x ∈ rb_inorder t /\ name_of nodes x = symname /\
             name_tree_link nodes symname new t = Some (inl x)) \/
  ((forall x, x ∈ rb_inorder t -> name_of nodes x <> symname) /\
   exists linked l1 l2,
     name_tree_link nodes symname new t = Some (inr linked) /\
     rb_inorder t = l1 ++ l2 /\
     rb_inorder linked = l1 ++ new :: l2 /\
     Forall (fun a => strcmp symname (name_of nodes a) = Lt) l1 /\
     Forall (fun b => strcmp (name_of nodes b) symname = Lt) l2).
Proof.
  induction t as [|c l IHl x r IHr]; intros Hval Hs.
  - right. split; [intros x Hx; inversion Hx|].
    exists (rb_node RB_RED rb_leaf new rb_leaf), [], [].
    repeat split; constructor.
  - cbn [rb_inorder] in Hval, Hs.
    apply Forall_app in Hval. destruct Hval as [Hvl Hvr].
    apply Forall_cons in Hvr. destruct Hvr as [[node Hx] Hvr].
    apply StronglySorted_app in Hs. destruct Hs as (Hlr & Hsl & Hsr).
    apply StronglySorted_cons in Hsr. destruct Hsr as [Hxr Hsr].
    pose proof (name_of_lookup _ _ _ Hx) as Nx.
    cbn [name_tree_link rb_inorder]. rewrite Hx. cbn [mbind option_bind].
    destruct (strcmp (r_name node) symname) eqn:E.
    + left. exists x. split; [apply elem_of_app; right; left|].
      split; [|reflexivity]. rewrite Nx. now apply String.compare_eq_iff.
    + (* the name is the greater one: to the left *)
      assert (Fr : Forall (fun b => strcmp (name_of nodes b) symname = Lt)
                          (x :: rb_inorder r)).
      { constructor; [now rewrite Nx|].
        eapply Forall_impl; [exact Hxr|]. intros b Hb. unfold name_above in Hb.
        rewrite Nx in Hb. eapply strcmp_lt_trans; eassumption. }
      destruct (IHl Hvl Hsl)
        as [(y & Hy & Ny & ->)|(Hno & l' & l1 & l2 & -> & E1 & E2 & F1 & F2)];
        cbn [mbind option_bind].
      * left. exists y. split; [apply elem_of_app; now left|].
        split; [exact Ny | reflexivity].
      * right. split.
        { intros y Hy. apply elem_of_app in Hy. destruct Hy as [Hy|Hy]; [now apply Hno|].
          rewrite Forall_forall in Fr. apply strcmp_lt_neq. now apply Fr. }
        exists (rb_node c l' x r), l1, (l2 ++ x :: rb_inorder r).
        split; [reflexivity|]. cbn [rb_inorder]. rewrite E1, E2, <- !app_assoc.
        split; [reflexivity|]. split; [reflexivity|]. split; [exact F1|].
        apply Forall_app. split; assumption.
    + (* the name is the smaller one: to the right *)
      apply strcmp_gt_lt in E.
      assert (Fl : Forall (fun a => strcmp symname (name_of nodes a) = Lt)
                          (rb_inorder l ++ [x])).
      { apply Forall_app. split; [|constructor; [now rewrite Nx | constructor]].
        apply Forall_forall. intros a Ha.
        assert (Hax : name_above nodes a x) by (apply (Hlr a x Ha); left).
        unfold name_above in Hax. rewrite Nx in Hax.
        eapply strcmp_lt_trans; eassumption. }
      destruct (IHr Hvr Hsr)
        as [(y & Hy & Ny & ->)|(Hno & r' & l1 & l2 & -> & E1 & E2 & F1 & F2)];
        cbn [mbind option_bind].
      * left. exists y. split; [apply elem_of_app; right; now right|].
        split; [exact Ny | reflexivity].
      * right. split.
        { intros y Hy. apply elem_of_app in Hy. destruct Hy as [Hy|Hy].
          - rewrite Forall_forall in Fl. apply not_eq_sym, strcmp_lt_neq.
            apply Fl. apply elem_of_app. now left.
          - apply elem_of_cons in Hy. destruct Hy as [->|Hy]; [|now apply Hno].
            rewrite Forall_forall in Fl. apply not_eq_sym, strcmp_lt_neq.
            apply Fl. apply elem_of_app. right. left. }
        exists (rb_node c l x r'), (rb_inorder l ++ x :: l1), l2.
        split; [reflexivity|]. cbn [rb_inorder]. rewrite E1, E2, <- !app_assoc.
        split; [reflexivity|]. split; [reflexivity|]. split; [|exact F2].
        rewrite (app_assoc _ [x] l1 : rb_inorder l ++ x :: l1 = (rb_inorder l ++ [x]) ++ l1).
        apply Forall_app. split; assumption.
Qed.

Lemma name_above_unique nodes l a b :
  StronglySorted (name_above nodes) l ->
  a ∈ l -> b ∈ l -> name_of nodes a = name_of nodes b -> a = b.
Proof.
  intros Hs Ha Hb E.
  apply list_elem_of_lookup_1 in Ha, Hb. destruct Ha as [i Hi], Hb as [j Hj].
  destruct (Nat.lt_trichotomy i j) as [Hij|[->|Hji]].
  - pose proof (StronglySorted_lookup _ _ _ _ _ _ Hs Hi Hj Hij) as H.
    unfold name_above in H. rewrite E in H. now apply strcmp_lt_neq in H.
  - congruence.
  - pose proof (StronglySorted_lookup _ _ _ _ _ _ Hs Hj Hi Hji) as H.
    unfold name_above in H. rewrite E in H. now apply strcmp_lt_neq in H.
Qed.

(** A name that the tree has is found, and nothing is allocated. *)
Lemma find_report_node_found rb_insert_color report name x :
  name_tree_ok report ->
  x ∈ rb_inorder (name_tree report) ->
  name_of (rp_nodes report) x = name ->
  find_report_node rb_insert_color report name = Some (x, report).
Proof.
  intros [Hval Hs] Hx Nx. unfold find_report_node.
  destruct (name_tree_link_sorted (rp_nodes report) name (length (rp_nodes report))
              (name_tree report) Hval Hs)
    as [(y & Hy & Ny & ->)|(Hno & _)].
  - cbn [mbind option_bind]. f_equal. f_equal.
    eapply name_above_unique; [exact Hs|assumption..|congruence].
  - now destruct (Hno x Hx).
Qed.

(** X3. [find_report_node] on a name tree that goes down the names
    strictly, the rebalancing keeping the walk of the tree: it returns the
    node of the name and the tree still goes down the names strictly.  When
    a node of the tree has the name, the report is not changed; when none
    has, one node is allocated for the name, linked into the name tree and
    counted in [nr_func], and the ranking tree is not touched.  A second
    call for the name returns the same node and changes nothing. *)
Theorem find_report_node_lookup rb_insert_color report name :
  keeps_inorder rb_insert_color ->
  name_tree_ok report ->
  exists ptr report' node,
    find_report_node rb_insert_color report name = Some (ptr, report') /\
    name_tree_ok report' /\
    rp_nodes report' !! ptr = Some node /\
    r_name node = name /\
    ptr ∈ rb_inorder (name_tree report') /\
    ((exists x, x ∈ rb_inorder (name_tree report) /\
                name_of (rp_nodes report) x = name) ->
     report' = report) /\
    ((forall x, x ∈ rb_inorder (name_tree report) ->
                name_of (rp_nodes report) x <> name) ->
     ptr = length (rp_nodes report) /\
     rp_nodes report' = rp_nodes report ++ [new_report_node name] /\
     rb_inorder (name_tree report') ≡ₚ ptr :: rb_inorder (name_tree report) /\
     nr_func report' = wrap_int (nr_func report + 1) /\
     sort_tree report' = sort_tree report) /\
    find_report_node rb_insert_color report' name = Some (ptr, report').
Proof.
  intros Hkeep [Hval Hs].
  destruct (name_tree_link_sorted (rp_nodes report) name (length (rp_nodes report))
              (name_tree report) Hval Hs)
    as [(x & Hx & Nx & Hlink)|(Hno & linked & l1 & l2 & Hlink & E1 & E2 & F1 & F2)].
  - (* the name is in the tree *)
    assert (Hfind : find_report_node rb_insert_color report name = Some (x, report)).
    { unfold find_report_node. now rewrite Hlink. }
    rewrite Forall_forall in Hval. destruct (Hval x Hx) as [node Hnode].
    exists x, report, node. split; [exact Hfind|].
    split; [split; [now apply Forall_forall | exact Hs]|].
    split; [exact Hnode|]. split; [now rewrite <- (name_of_lookup _ _ _ Hnode)|].
    split; [exact Hx|]. split; [reflexivity|]. split; [|exact Hfind].
    intros Hnone. now destruct (Hnone x Hx).
  - (* the name is new *)
    set (new := length (rp_nodes report)) in *.
    set (nodes' := rp_nodes report ++ [new_report_node name]).
    set (report' := TuiReport nodes' (rb_insert_color new linked) (sort_tree report)
                              (nr_sess report) (wrap_int (nr_func report + 1))).
    assert (Hfind : find_report_node rb_insert_color report name = Some (new, report')).
    { unfold find_report_node. fold new. now rewrite Hlink. }
    assert (Hnew : nodes' !! new = Some (new_report_node name)).
    { unfold nodes', new. rewrite lookup_app_r by lia. now rewrite Nat.sub_diag. }
    assert (Hold : forall a, a ∈ l1 ++ l2 -> name_of nodes' a = name_of (rp_nodes report) a).
    { intros a Ha. rewrite <- E1 in Ha. rewrite Forall_forall in Hval.
      destruct (Hval a Ha) as [na Hna]. unfold name_of, nodes'.
      rewrite lookup_app_l by (eapply lookup_lt_Some, Hna). reflexivity. }
    assert (Nnew : name_of nodes' new = name) by (unfold name_of; now rewrite Hnew).
    assert (Hin : rb_inorder (name_tree report') = l1 ++ new :: l2).
    { unfold report'. cbn [name_tree]. now rewrite Hkeep. }
    assert (Hok : name_tree_ok report').
    { split; rewrite Hin; cbn [rp_nodes report'].
      - apply Forall_app. rewrite E1 in Hval. apply Forall_app in Hval.
        destruct Hval as [V1 V2].
        assert (V : forall l, Forall (fun x => is_Some (rp_nodes report !! x)) l ->
                              Forall (fun x => is_Some (nodes' !! x)) l).
        { intros l Hl. eapply Forall_impl; [exact Hl|]. intros a [na Hna]. exists na.
          unfold nodes'. apply lookup_app_l_Some. exact Hna. }
        split; [now apply V|]. constructor; [now rewrite Hnew | now apply V].
      - rewrite E1 in Hs. apply StronglySorted_app in Hs. destruct Hs as (H12 & S1 & S2).
        assert (T : forall l, (forall a, a ∈ l -> a ∈ l1 ++ l2) ->
                              StronglySorted (name_above (rp_nodes report)) l ->
                              StronglySorted (name_above nodes') l).
        { intros l Hl. apply StronglySorted_ext. intros a b Ha Hb. unfold name_above.
          now rewrite !Hold by (apply Hl; assumption). }
        apply StronglySorted_app. split; [|split].
        + intros a b Ha Hb. unfold name_above. apply elem_of_cons in Hb.
          rewrite (Hold a) by (apply elem_of_app; now left).
          destruct Hb as [->|Hb].
          * rewrite Nnew. rewrite Forall_forall in F1. now apply F1.
          * rewrite (Hold b) by (apply elem_of_app; now right). now apply H12.
        + apply T; [|exact S1]. intros a Ha. apply elem_of_app. now left.
        + constructor.
          * apply T; [|exact S2]. intros a Ha. apply elem_of_app. now right.
          * apply Forall_forall. intros b Hb. unfold name_above.
            rewrite Nnew, (Hold b) by (apply elem_of_app; now right).
            rewrite Forall_forall in F2. now apply F2. }
    assert (Hmem : new ∈ rb_inorder (name_tree report')).
    { rewrite Hin. apply elem_of_app. right. left. }
    exists new, report', (new_report_node name). split; [exact Hfind|].
    split; [exact Hok|]. split; [exact Hnew|]. split; [reflexivity|].
    split; [exact Hmem|]. split; [|split].
    + intros (x & Hx & Nx). now destruct (Hno x Hx).
    + intros _. split; [reflexivity|]. split; [reflexivity|].
      split; [|split; reflexivity].
      rewrite Hin, E1. symmetry. apply Permutation_middle.
    + apply find_report_node_found; assumption.
Qed.

Lemma find_report_node_lookup_witness :
  exists ptr report',
    find_report_node (fun _ t => t) sample_report "g" = Some (ptr, report') /\
    report' = sample_report /\
    find_report_node (fun _ t => t) report' "g" = Some (ptr, report').
Proof.
  assert (Hok : name_tree_ok sample_report).
  { split; cbn.
    - repeat constructor; eexists; reflexivity.
    - repeat constructor. }
  destruct (find_report_node_lookup (fun _ t => t) sample_report "g"
              ltac:(intros x t; reflexivity) Hok)
    as (ptr & report' & node & H1 & _ & _ & _ & _ & H2 & _ & H3).
  exists ptr, report'. split; [exact H1|]. split; [|exact H3].
  apply H2. exists 1%nat. split; [|reflexivity]. cbn. apply elem_of_cons. now left.
Defined.


(** * The exit block of the builder *)

(** The exit block, when the frame, the report node and the node under the
    cursor are there. *)
Lemma build_exit_eq rb_insert_color task tg name data fstack cursor graph_node
    ptr report node :
  0 <= stack_count task ->
  func_stack task !! Z.to_nat (stack_count task) = Some fstack ->
  find_report_node rb_insert_color (td_report data) name = Some (ptr, report) ->
  rp_nodes report !! ptr = Some node ->
  tg_node tg = Some cursor ->
  deref_ptr (td_graphs data) cursor = Some graph_node ->
  exists g p graphs',
    cursor = graph_node_at g p /\
    (if link graph_node then graphs' = td_graphs data
     else update_ptr (td_graphs data) cursor (set_link true) = Some graphs') /\
    build_exit rb_insert_color task tg name data =
      Some (TuiData graphs'
              (set_rp_nodes
                 (<[ptr := exit_node task fstack
                             (if link graph_node then node
                              else set_r_head (r_head node ++ [(g, p)]) node)]>
                    (rp_nodes report))
                 report)).
Proof.
  intros Hc Hf Hfind Hptr Hcur Hnode.
  destruct cursor as [|g p]; [discriminate Hnode|]. exists g, p.
  unfold build_exit. rewrite (proj2 (Z.ltb_ge _ _) Hc), Hf. cbn [mbind option_bind].
  rewrite Hfind. cbn [mbind option_bind]. rewrite Hptr. cbn [mbind option_bind].
  rewrite Hcur. cbn [mbind option_bind]. rewrite Hnode. cbn [mbind option_bind].
  destruct (link graph_node); cbn [negb].
  - exists (td_graphs data). split; [reflexivity|]. split; [reflexivity|].
    cbn [mbind option_bind]. unfold exit_node.
    destruct (frame_below task fstack); reflexivity.
  - destruct (update_ptr_total (td_graphs data) (graph_node_at g p) graph_node
                (set_link true) Hnode) as [graphs Hg].
    exists graphs. split; [reflexivity|]. split; [exact Hg|]. rewrite Hg.
    cbn [mbind option_bind]. unfold exit_node.
    destruct (frame_below task fstack); reflexivity.
Qed.

Lemma exit_node_bracket task fstack node :
  let node' := exit_node task fstack node in
  let total := fs_total_time fstack in
  let self := wrap_u64 (fs_total_time fstack - fs_child_time fstack) in
  r_min_time node' <= total <= r_max_time node' /\
  r_min_self_time node' <= self <= r_max_self_time node' /\
  r_max_time node' = Z.max (r_max_time node) total /\
  r_max_self_time node' = Z.max (r_max_self_time node) self /\
  r_min_time node' =
    (if r_min_time node =? 0 then total else Z.min (r_min_time node) total) /\
  r_min_self_time node' =
    (if r_min_self_time node =? 0 then self else Z.min (r_min_self_time node) self) /\
  r_head node' = r_head node /\ r_name node' = r_name node /\
  r_time node' = r_time node /\ r_self_time node' = r_self_time node /\
  r_calls node' = r_calls node.
Proof.
  intros node' total self. subst node' total self. unfold exit_node.
  set (total := fs_total_time fstack).
  set (self := wrap_u64 (total - fs_child_time fstack)).
  clearbody total self.
  destruct (frame_below task fstack);
    cbn [set_r_recursive_time set_r_min_max r_min_time r_max_time r_min_self_time
         r_max_self_time r_head r_name r_time r_self_time r_calls].
  all: destruct (r_min_time node =? 0) eqn:E1; cbn [orb];
    destruct (r_min_self_time node =? 0) eqn:E2; cbn [orb];
    destruct (total <? r_min_time node) eqn:E3;
    destruct (self <? r_min_self_time node) eqn:E4;
    destruct (r_max_time node <? total) eqn:E5;
    destruct (r_max_self_time node <? self) eqn:E6;
    rewrite ?Z.ltb_lt, ?Z.ltb_ge, ?Z.eqb_eq, ?Z.eqb_neq in *;
    repeat split; try reflexivity; lia.
Qed.

(** ** Writes through a pointer and the other nodes *)

(** A write below a node leaves the node with another list of children. *)
Lemma update_at_below n r f :
  r <> [] -> exists h, update_at n r f = set_head h n.
Proof.
  intros Hr. destruct (exists_last Hr) as (r' & i & ->).
  rewrite update_at_app. simpl.
  destruct (n_head n !! i) as [c|].
  - eexists. reflexivity.
  - exists (n_head n). now destruct n.
Qed.

(** The node at an ancestor of the place of the write, or at that place. *)
Lemma node_at_update_at_above root q r f :
  node_at (update_at root (r ++ q) f) q = (fun n => update_at n r f) <$> node_at root q.
Proof. rewrite update_at_app. apply node_at_update_at. Qed.

(** The nodes that are not above the place of a write which keeps the
    children are as they were. *)
Lemma node_at_update_at_other root p f :
  (forall n, n_head (f n) = n_head n) ->
  forall q, ~ q `suffix_of` p -> node_at (update_at root p f) q = node_at root q.
Proof.
  intros Hf q. induction q as [|j q IH]; intros Hq.
  - destruct Hq. apply suffix_nil.
  - cbn [node_at]. destruct (decide (q `suffix_of` p)) as [[r ->]|Hn].
    + rewrite node_at_update_at_above.
      destruct (node_at root q) as [n|]; [|reflexivity]. cbn [fmap option_fmap option_map].
      induction r as [|i0 r0 _] using rev_ind.
      * cbn [update_at app]. now rewrite Hf.
      * destruct (decide (i0 = j)) as [->|Hij].
        -- destruct Hq. exists r0. now rewrite <- app_assoc.
        -- now apply update_at_other_child.
    + now rewrite (IH Hn).
Qed.

(** What does not depend on the children is the same at every node other
    than the one written to. *)
Lemma node_at_update_at_frame {A} (proj : tui_graph_node -> A) root p f q :
  (forall h n, proj (set_head h n) = proj n) ->
  (forall n, n_head (f n) = n_head n) ->
  q <> p ->
  proj <$> node_at (update_at root p f) q = proj <$> node_at root q.
Proof.
  intros Hproj Hf Hqp. destruct (decide (q `suffix_of` p)) as [[r ->]|Hn].
  - rewrite node_at_update_at_above.
    destruct (node_at root q) as [n|]; [|reflexivity]. cbn.
    destruct (update_at_below n r f) as [h ->]; [|now rewrite Hproj].
    intros ->. now destruct Hqp.
  - now rewrite node_at_update_at_other.
Qed.

Lemma deref_update_ptr {A} (proj : tui_graph_node -> A) graphs g p f graphs' ref :
  (forall h n, proj (set_head h n) = proj n) ->
  (forall n, n_head (f n) = n_head n) ->
  update_ptr graphs (graph_node_at g p) f = Some graphs' ->
  (ref = (g, p) ->
   deref_graph_node graphs' ref = f <$> deref_graph_node graphs ref) /\
  (ref <> (g, p) ->
   proj <$> deref_graph_node graphs' ref = proj <$> deref_graph_node graphs ref).
Proof.
  intros Hproj Hf Hup. cbn [update_ptr] in Hup.
  destruct (graphs !! g) as [gr|] eqn:Hg; [|discriminate Hup].
  cbn [mbind option_bind] in Hup.
  destruct (node_at (ug_root gr) p) as [n|] eqn:Hn; [|discriminate Hup].
  cbn [mbind option_bind] in Hup. injection Hup as <-.
  assert (Hlen : (g < length graphs)%nat) by (eapply lookup_lt_Some, Hg).
  destruct ref as [g' q]. unfold deref_graph_node. cbn [fst snd]. split.
  - intros [= -> ->]. rewrite list_lookup_insert_eq by exact Hlen. rewrite Hg.
    cbn [mbind option_bind ug_root set_ug_root]. apply node_at_update_at.
  - intros Hne. destruct (decide (g' = g)) as [->|Hgg].
    + rewrite list_lookup_insert_eq by exact Hlen. rewrite Hg.
      cbn [mbind option_bind ug_root set_ug_root].
      apply node_at_update_at_frame; [assumption..|]. congruence.
    + now rewrite list_lookup_insert_ne by congruence.
Qed.

Lemma find_report_node_nodes rb_insert_color report name ptr report' :
  find_report_node rb_insert_color report name = Some (ptr, report') ->
  rp_nodes report' = rp_nodes report \/
  rp_nodes report' = rp_nodes report ++ [new_report_node name].
Proof.
  unfold find_report_node. intros H.
  destruct (name_tree_link _ _ _ _) as [[found|linked]|]; [| |discriminate H];
    cbn [mbind option_bind] in H; injection H as <- <-.
  - now left.
  - now right.
Qed.

Lemma concat_heads_insert (nodes : list tui_report_node) ptr node node' extra :
  nodes !! ptr = Some node ->
  r_head node' = r_head node ++ extra ->
  concat (map r_head (<[ptr := node']> nodes)) ≡ₚ
    extra ++ concat (map r_head nodes).
Proof.
  intros Hptr Hh.
  rewrite <- (take_drop_middle nodes ptr node Hptr) at 2.
  rewrite insert_take_drop by (eapply lookup_lt_Some, Hptr).
  rewrite !map_app, !concat_app. cbn [map concat]. rewrite Hh.
  rewrite <- !app_assoc.
  rewrite (app_assoc (r_head node) extra).
  rewrite (Permutation_app_comm (r_head node) extra).
  rewrite <- app_assoc.
  rewrite (app_assoc (concat _) extra).
  rewrite (Permutation_app_comm (concat _) extra).
  now rewrite <- app_assoc.
Qed.

Lemma elem_of_concat_heads (nodes : list tui_report_node) ref :
  ref ∈ concat (map r_head nodes) <->
  exists x node, nodes !! x = Some node /\ ref ∈ r_head node.
Proof.
  rewrite list_elem_of_In, in_concat. split.
  - intros (h & Hh & Hr). apply in_map_iff in Hh. destruct Hh as (node & <- & Hn).
    apply list_elem_of_In, list_elem_of_lookup_1 in Hn. destruct Hn as [x Hx].
    exists x, node. split; [exact Hx | now apply list_elem_of_In].
  - intros (x & node & Hx & Hr). exists (r_head node). split.
    + apply in_map. apply list_elem_of_In. eapply list_elem_of_lookup_2, Hx.
    + now apply list_elem_of_In.
Qed.

(** X4. After the exit block the total time of the exiting frame lies
    between the minimum and the maximum of its report node, and so does the
    self time between the two of the self time.  The maximum is the greater
    of the old maximum and the time of the frame; the minimum is the time of
    the frame when it was zero, which stands for no minimum yet, and the
    smaller of the two otherwise.  The totals and the number of calls of the
    report node are not written. *)
Theorem build_exit_min_max rb_insert_color task tg name data fstack cursor graph_node :
  0 <= stack_count task ->
  func_stack task !! Z.to_nat (stack_count task) = Some fstack ->
  Forall (fun x => is_Some (rp_nodes (td_report data) !! x))
         (rb_inorder (name_tree (td_report data))) ->
  tg_node tg = Some cursor ->
  deref_ptr (td_graphs data) cursor = Some graph_node ->
  exists ptr report node node' data',
    find_report_node rb_insert_color (td_report data) name = Some (ptr, report) /\
    rp_nodes report !! ptr = Some node /\
    build_exit rb_insert_color task tg name data = Some data' /\
    rp_nodes (td_report data') !! ptr = Some node' /\
    let total := fs_total_time fstack in
    let self := wrap_u64 (fs_total_time fstack - fs_child_time fstack) in
    r_min_time node' <= total <= r_max_time node' /\
    r_min_self_time node' <= self <= r_max_self_time node' /\
    r_max_time node' = Z.max (r_max_time node) total /\
    r_max_self_time node' = Z.max (r_max_self_time node) self /\
    r_min_time node' =
      (if r_min_time node =? 0 then total else Z.min (r_min_time node) total) /\
    r_min_self_time node' =
      (if r_min_self_time node =? 0 then self
       else Z.min (r_min_self_time node) self) /\
    r_time node' = r_time node /\ r_self_time node' = r_self_time node /\
    r_calls node' = r_calls node.
Proof.
  intros Hc Hf Hval Hcur Hnode.
  destruct (find_report_node_total rb_insert_color (td_report data) name Hval)
    as (ptr & report & node & Hfind & Hptr & _).
  destruct (build_exit_eq _ _ _ _ _ _ _ _ _ _ _ Hc Hf Hfind Hptr Hcur Hnode)
    as (g & p & graphs' & _ & _ & Hrun).
  eexists ptr, report, node, _, _. split; [exact Hfind|]. split; [exact Hptr|].
  split; [exact Hrun|]. cbn [td_report set_rp_nodes rp_nodes].
  split; [apply list_lookup_insert_eq; eapply lookup_lt_Some, Hptr|].
  match goal with |- context [exit_node task fstack ?n] =>
    pose proof (exit_node_bracket task fstack n) as B end.
  cbv zeta in B |- *.
  destruct B as (B1 & B2 & B3 & B4 & B5 & B6 & _ & _ & B9 & B10 & B11).
  destruct (link graph_node);
    cbn [set_r_head r_min_time r_max_time r_min_self_time r_max_self_time
         r_time r_self_time r_calls] in *;
    repeat split; assumption || lia.
Qed.

Lemma build_exit_min_max_witness :
  exists data' node',
    build_exit (fun _ t => t)
               (TaskHandle 1 1 [Fstack 4096 0 0; Fstack 4096 30 0] 1)
               (TaskGraph (Some (graph_node_at 0 [0%nat; 0%nat])) (Some 0%nat))
               "f" recursion_entered = Some data' /\
    rp_nodes (td_report data') !! 0%nat = Some node' /\
    r_min_time node' = 30 /\ r_max_time node' = 30.
Proof.
  destruct (build_exit_min_max (fun _ t => t)
              (TaskHandle 1 1 [Fstack 4096 0 0; Fstack 4096 30 0] 1)
              (TaskGraph (Some (graph_node_at 0 [0%nat; 0%nat])) (Some 0%nat))
              "f" recursion_entered (Fstack 4096 30 0)
              (graph_node_at 0 [0%nat; 0%nat]) (new_graph_node (Some 0%nat) "f")
              ltac:(cbn; lia) eq_refl (Forall_nil_2 _) eq_refl eq_refl)
    as (ptr & report & node & node' & data' & H1 & H2 & H3 & H4 & H5).
  vm_compute in H1. injection H1 as <- <-.
  vm_compute in H2. injection H2 as <-.
  cbv zeta in H5. destruct H5 as (_ & _ & B3 & _ & B5 & _).
  exists data', node'. split; [exact H3|]. split; [exact H4|].
  split; [exact B5 | exact B3].
Defined.

(** X5. The exit block keeps the lists of occurrences sound: if every
    listed occurrence is a graph node marked as linked and none is listed
    twice, this is so afterwards.  A node under the cursor that was not
    marked is marked and put at the end of the list of the report node of
    the name; one that was marked leaves the graphs as they were.  In both
    cases every other graph node keeps its mark. *)
Theorem build_exit_links rb_insert_color task tg name data fstack g p graph_node :
  0 <= stack_count task ->
  func_stack task !! Z.to_nat (stack_count task) = Some fstack ->
  Forall (fun x => is_Some (rp_nodes (td_report data) !! x))
         (rb_inorder (name_tree (td_report data))) ->
  tg_node tg = Some (graph_node_at g p) ->
  deref_graph_node (td_graphs data) (g, p) = Some graph_node ->
  links_ok data ->
  exists ptr report node node' data',
    find_report_node rb_insert_color (td_report data) name = Some (ptr, report) /\
    rp_nodes report !! ptr = Some node /\
    build_exit rb_insert_color task tg name data = Some data' /\
    rp_nodes (td_report data') !! ptr = Some node' /\
    links_ok data' /\
    (link graph_node = false ->
     r_head node' = r_head node ++ [(g, p)] /\
     (link <$> deref_graph_node (td_graphs data') (g, p)) = Some true) /\
    (link graph_node = true ->
     r_head node' = r_head node /\ td_graphs data' = td_graphs data) /\
    (forall ref, ref <> (g, p) ->
       link <$> deref_graph_node (td_graphs data') ref =
       link <$> deref_graph_node (td_graphs data) ref).
Proof.
  intros Hc Hf Hval Hcur Hnode [Hlinked Hnodup].
  destruct (find_report_node_total rb_insert_color (td_report data) name Hval)
    as (ptr & report & node & Hfind & Hptr & _).
  destruct (build_exit_eq _ _ _ _ _ _ (graph_node_at g p) graph_node _ _ _
              Hc Hf Hfind Hptr Hcur Hnode)
    as (g0 & p0 & graphs' & [= <- <-] & Hgraphs & Hrun).
  assert (Hlen : (ptr < length (rp_nodes report))%nat) by (eapply lookup_lt_Some, Hptr).
  (* the lists of the report after the lookup are those before it *)
  assert (Hheads : concat (map r_head (rp_nodes report)) =
                   concat (map r_head (rp_nodes (td_report data)))).
  { destruct (find_report_node_nodes _ _ _ _ _ Hfind) as [->| ->]; [reflexivity|].
    rewrite map_app, concat_app. cbn. now rewrite app_nil_r. }
  assert (Hlinked1 : forall ref, ref ∈ concat (map r_head (rp_nodes report)) ->
            exists gn, deref_graph_node (td_graphs data) ref = Some gn /\ link gn = true).
  { intros ref Hr. rewrite Hheads in Hr. apply elem_of_concat_heads in Hr.
    destruct Hr as (x & n & Hx & Hr). eapply Hlinked; eassumption. }
  eexists ptr, report, node, _, _. split; [exact Hfind|]. split; [exact Hptr|].
  split; [exact Hrun|]. cbn [td_report td_graphs set_rp_nodes rp_nodes].
  split; [now apply list_lookup_insert_eq|].
  match goal with |- context [exit_node task fstack ?n] =>
    pose proof (exit_node_bracket task fstack n) as B; cbv zeta in B;
    destruct B as (_ & _ & _ & _ & _ & _ & Bh & _) end.
  destruct (link graph_node) eqn:Hl.
  - (* the node was linked before *)
    subst graphs'. split; [|split; [discriminate|split; [|reflexivity]]].
    + assert (Hperm : concat (map r_head (<[ptr := exit_node task fstack node]>
                                            (rp_nodes report))) ≡ₚ
                      concat (map r_head (rp_nodes report))).
      { rewrite (concat_heads_insert _ ptr node _ [] Hptr); [reflexivity|].
        now rewrite Bh, app_nil_r. }
      split; cbn [td_report td_graphs set_rp_nodes rp_nodes].
      * intros x n ref Hx Hr. apply Hlinked1. rewrite <- Hperm.
        apply elem_of_concat_heads. eauto.
      * now rewrite Hperm, Hheads.
    + intros _. split; [exact Bh | reflexivity].
  - (* the node is linked now *)
    assert (Hfresh : (g, p) ∉ concat (map r_head (rp_nodes report))).
    { intros Hin. destruct (Hlinked1 _ Hin) as (gn & Hgn & Hgl). congruence. }
    pose proof (deref_update_ptr link (td_graphs data) g p (set_link true) graphs')
      as Hframe.
    assert (Hperm : concat (map r_head
                      (<[ptr := exit_node task fstack
                                  (set_r_head (r_head node ++ [(g, p)]) node)]>
                         (rp_nodes report))) ≡ₚ
                    [(g, p)] ++ concat (map r_head (rp_nodes report))).
    { apply (concat_heads_insert _ ptr node _ [(g, p)] Hptr). now rewrite Bh. }
    assert (Hnew : deref_graph_node graphs' (g, p) = Some (set_link true graph_node)).
    { destruct (Hframe (g, p)) as [Hsame _]; [reflexivity..|exact Hgraphs|].
      rewrite Hsame by reflexivity. now rewrite Hnode. }
    assert (Hother : forall ref, ref <> (g, p) ->
              link <$> deref_graph_node graphs' ref =
              link <$> deref_graph_node (td_graphs data) ref).
    { intros ref Hne. destruct (Hframe ref) as [_ Hkeep]; [reflexivity..|exact Hgraphs|].
      now apply Hkeep. }
    split; [|split; [|split; [discriminate|exact Hother]]].
    + split; cbn [td_report td_graphs set_rp_nodes rp_nodes].
      * intros x n ref Hx Hr.
        assert (Hin : ref ∈ [(g, p)] ++ concat (map r_head (rp_nodes report))).
        { rewrite <- Hperm. apply elem_of_concat_heads. eauto. }
        destruct (decide (ref = (g, p))) as [->|Hne].
        -- eexists. split; [exact Hnew | reflexivity].
        -- apply elem_of_app in Hin. destruct Hin as [Hin|Hin].
           { apply list_elem_of_singleton in Hin. contradiction. }
           destruct (Hlinked1 _ Hin) as (gn & Hgn & Hgl).
           specialize (Hother ref Hne). rewrite Hgn in Hother.
           destruct (deref_graph_node graphs' ref) as [gn'|]; [|discriminate Hother].
           exists gn'. split; [reflexivity|]. cbn in Hother. congruence.
      * rewrite Hperm. cbn [app]. apply NoDup_cons. split; [exact Hfresh|].
        now rewrite Hheads.
    + intros _. split; [exact Bh|]. now rewrite Hnew.
Qed.

Lemma build_exit_links_witness :
  exists data' node',
    build_exit (fun _ t => t)
               (TaskHandle 1 1 [Fstack 4096 0 0; Fstack 4096 30 0] 1)
               (TaskGraph (Some (graph_node_at 0 [0%nat; 0%nat])) (Some 0%nat))
               "f" recursion_entered = Some data' /\
    rp_nodes (td_report data') !! 0%nat = Some node' /\
    r_head node' = [(0%nat, [0%nat; 0%nat])] /\
    links_ok data'.
Proof.
  assert (Hok : links_ok recursion_entered).
  { split; [|constructor]. intros x node ref Hx. destruct x; discriminate Hx. }
  destruct (build_exit_links (fun _ t => t)
              (TaskHandle 1 1 [Fstack 4096 0 0; Fstack 4096 30 0] 1)
              (TaskGraph (Some (graph_node_at 0 [0%nat; 0%nat])) (Some 0%nat))
              "f" recursion_entered (Fstack 4096 30 0)
              0%nat [0%nat; 0%nat] (new_graph_node (Some 0%nat) "f")
              ltac:(cbn; lia) eq_refl (Forall_nil_2 _) eq_refl eq_refl Hok)
    as (ptr & report & node & node' & data' & H1 & H2 & H3 & H4 & H5 & H6 & _).
  vm_compute in H1. injection H1 as <- <-.
  vm_compute in H2. injection H2 as <-.
  exists data', node'. split; [exact H3|]. split; [exact H4|].
  split; [|exact H5]. now destruct (H6 eq_refl) as [-> _].
Defined.


(** * Pages of a window *)

Section engine_pages.
Context {N X : Type} `{EqDecision N}.
Variable ops : tui_window_ops N X.
Variable LINES : Z.
Variable rows : list N.
Variable B : nat.
Variable R : X -> Prop.
Variable blank : N -> N -> bool.

Hypothesis HLINES : 2 < LINES.
Hypothesis Hbound : 2 * Z.of_nat B + 2 <= INT_MAX.
Hypothesis Hfollow : follows_rows ops rows B R blank.

#[local] Abbreviation row := (row_index blank rows).
#[local] Abbreviation on_here := (on_rows rows B R blank).
#[local] Arguments row_index : simpl never.

Lemma follows_next win k x u :
    R (w_ext win) -> (k <= B)%nat -> rows !! k = Some x ->
    exists e, ops_next ops win x u = Some (rows !! S k, set_ext e win) /\ R e.
  Proof. destruct Hfollow as (H1 & _ & _). apply H1. Qed.

Lemma follows_prev win k x u :
    R (w_ext win) -> (k <= S B)%nat -> rows !! k = Some x ->
    exists e, ops_prev ops win x u =
              Some (match k with O => None | S k' => rows !! k' end,
                    set_ext e win) /\ R e.
  Proof. destruct Hfollow as (_ & H2 & _). apply H2. Qed.

Lemma follows_blank win a b : ops_needs_blank ops win a (Some b) = blank a b.
  Proof. destruct Hfollow as (_ & _ & H3). apply H3. Qed.

Lemma row_step k : row k + 1 <= row (S k) <= row k + 2.
  Proof. apply (row_index_step rows 0%nat blank k). Qed.

Lemma row_bounds k : Z.of_nat k <= row k <= 2 * Z.of_nat k.
  Proof. apply (row_index_bounds rows 0%nat blank k). Qed.

Lemma row_mono i j : (i <= j)%nat -> row i <= row j.
  Proof. apply (row_index_mono rows 0%nat blank i j). Qed.

Lemma row_lt i j : (i < j)%nat -> row i < row j.
  Proof. apply (row_index_lt rows 0%nat blank i j). Qed.

Lemma row_wrap k z :
    (k <= B)%nat -> 0 <= z <= row k + 2 -> wrap_int z = z.
  Proof.
    intros Hk Hz. apply wrap_int_small. pose proof (row_bounds k).
    unfold INT_MAX in *. lia.
  Qed.

  (** The index after a step down from the row [k], as the code computes
      it. *)
Lemma index_down win k a b :
    (k <= B)%nat -> rows !! k = Some a -> rows !! S k = Some b ->
    (if ops_needs_blank ops win a (Some b)
     then wrap_int (wrap_int (row k + 1) + 1) else wrap_int (row k + 1)) = row (S k).
  Proof.
    intros Hk Ha Hb. rewrite follows_blank, (row_index_S rows blank k a b Ha Hb).
    rewrite (row_wrap k (row k + 1)) by (try assumption; pose proof (row_bounds k); lia).
    destruct (blank a b); [|lia].
    rewrite (row_wrap k) by (try assumption; pose proof (row_bounds k); lia). lia.
  Qed.

  (** The index after a step up to the row [k]. *)
Lemma index_up win k a b :
    (k <= B)%nat -> rows !! k = Some a -> rows !! S k = Some b ->
    (if ops_needs_blank ops win a (Some b)
     then wrap_int (wrap_int (row (S k) - 1) - 1) else wrap_int (row (S k) - 1)) = row k.
  Proof.
    intros Hk Ha Hb. rewrite follows_blank, (row_index_S rows blank k a b Ha Hb).
    pose proof (row_bounds k).
    destruct (blank a b).
    - rewrite (row_wrap k (row k + 1 + 1 - 1)) by (try assumption; lia).
      rewrite (row_wrap k) by (try assumption; lia). lia.
    - rewrite (row_wrap k) by (try assumption; lia). lia.
  Qed.

  (** The loop that moves the top down: it stops at the first row from
      which the cursor is on the screen. *)
Lemma scroll_top_rows j rounds :
    forall win i,
      on_here win i j ->
      (Z.to_nat (row j - row i - (LINES - 2) + 1) <= rounds)%nat ->
      exists win' i',
        scroll_top ops LINES rounds win = Some win' /\
        on_here win' i' j /\ (i <= i')%nat /\
        row j - row i' < LINES - 2 /\
        (row j - row i < LINES - 2 -> i' = i /\ win' = win) /\
        ((i < i')%nat -> LINES - 2 <= row j - row (i' - 1)).
  Proof.
    induction rounds as [|rounds IH]; intros win i Hinv Hr.
    - exists win, i.
      destruct Hinv as (HR & Hij & HjB & Hj & Ht & Hcu & Hti & Hci).
      simpl. rewrite Hti, Hci.
      destruct (LINES - 2 <=? row j - row i) eqn:E; [apply Z.leb_le in E; lia|].
      apply Z.leb_gt in E. split; [reflexivity|].
      split; [unfold on_rows; tauto|]. repeat split; lia.
    - pose proof Hinv as (HR & Hij & HjB & [c Hc] & Ht & Hcu & Hti & Hci).
      cbn [scroll_top]. rewrite Hti, Hci.
      destruct (LINES - 2 <=? row j - row i) eqn:E.
      2:{ apply Z.leb_gt in E. exists win, i. split; [reflexivity|].
          split; [exact Hinv|]. repeat split; lia. }
      apply Z.leb_le in E.
      assert (Hlt : (i < j)%nat) by (destruct (decide (i = j)) as [->|]; lia).
      destruct (on_rows_top_Some _ _ _ _ _ _ _ Hinv) as [t Hrt].
      rewrite Ht, Hrt. cbn [mbind option_bind].
      destruct (follows_next win i t true HR ltac:(lia) Hrt) as (e & -> & HRe).
      cbn [mbind option_bind].
      assert (Hn : is_Some (rows !! S i)).
      { apply lookup_lt_is_Some. apply lookup_lt_Some in Hc. lia. }
      destruct Hn as [n Hn]. rewrite Hn.
      cbn [top_index set_top_index set_ext]. rewrite Hti.
      pose proof (index_down (set_top_index (wrap_int (row i + 1)) (set_ext e win))
                    i t n ltac:(lia) Hrt Hn) as Hidx.
      destruct (IH (set_top (Some n)
                      (set_top_index (row (S i)) (set_ext e win))) (S i))
        as (win' & i' & Hs & Hon & Hle & Hscr & _ & Hmin).
      + unfold on_rows. cbn. repeat split; eauto; try lia; congruence.
      + pose proof (row_step i). lia.
      + exists win', i'. split.
        { rewrite <- Hs. f_equal.
          destruct (ops_needs_blank ops _ t (Some n)); cbn in Hidx |- *;
            rewrite <- Hidx; reflexivity. }
        split; [exact Hon|]. split; [lia|]. split; [exact Hscr|].
        split; [lia|]. intros _.
        destruct (decide (i' = S i)) as [->|Hne].
        * now replace (S i - 1)%nat with i by lia.
        * apply Hmin. lia.
  Qed.

Lemma move_up_rows win i j :
    on_here win i j -> row j - row i < LINES - 2 ->
    exists win',
      tui_window_move_up ops win = Some win' /\
      on_here win' (Nat.min i (j - 1)) (j - 1) /\
      row (j - 1) - row (Nat.min i (j - 1)) < LINES - 2.
  Proof.
    intros Hinv Hscr.
    destruct (move_up_on_rows ops rows B R blank Hbound follows_prev follows_blank
                win i j Hinv) as (win' & Hup & Hon).
    exists win'. split; [exact Hup|]. split; [exact Hon|].
    destruct (Nat.min_spec i (j - 1)) as [[Hlt ->]|[Hge ->]]; [|lia].
    pose proof (row_mono (j - 1) j ltac:(lia)). lia.
  Qed.

Lemma move_down_rows win i j :
    on_here win i j -> (j < B)%nat ->
    exists win' i',
      tui_window_move_down ops LINES win = Some win' /\
      let j' := match rows !! S j with Some _ => S j | None => j end in
      on_here win' i' j' /\ (i <= i')%nat /\
      (row j - row i < LINES - 2 -> row j' - row i' < LINES - 2) /\
      (row j' - row i < LINES - 2 -> i' = i) /\
      ((i < i')%nat -> LINES - 2 <= row j' - row (i' - 1)).
  Proof.
    intros Hinv HB. pose proof Hinv as (HR & Hij & HjB & [c Hc] & Ht & Hcu & Hti & Hci).
    unfold tui_window_move_down. rewrite Hcu, Hc. cbn [mbind option_bind].
    destruct (follows_next win j c false HR ltac:(lia) Hc) as (e & -> & HRe).
    cbn [mbind option_bind].
    destruct (rows !! S j) as [n|] eqn:Hn.
    - cbn [curr_index set_curr_index set_ext]. rewrite Hci.
      pose proof (index_down (set_curr_index (wrap_int (row j + 1)) (set_ext e win))
                    j c n ltac:(lia) Hc Hn) as Hidx.
      destruct (scroll_top_rows (S j)
                  (scroll_rounds LINES
                     (set_curr (Some n) (set_curr_index (row (S j)) (set_ext e win))))
                  (set_curr (Some n) (set_curr_index (row (S j)) (set_ext e win))) i)
        as (win' & i' & Hs & Hon & Hle & Hscr & Hstay & Hmin).
      + unfold on_rows. cbn. repeat split; eauto; try lia; congruence.
      + unfold scroll_rounds. cbn. rewrite Hti. lia.
      + exists win', i'. split.
        { rewrite <- Hs.
          destruct (ops_needs_blank ops _ c (Some n)); cbn in Hidx |- *;
            rewrite <- Hidx; reflexivity. }
        cbv zeta. split; [exact Hon|]. split; [exact Hle|]. split; [intros _; exact Hscr|].
        split; [|exact Hmin]. intros Hs'. now destruct (Hstay Hs').
    - exists (set_ext e win), i. split; [reflexivity|]. cbv zeta.
      split; [unfold on_rows; cbn; repeat split; eauto; congruence|].
      repeat split; try lia.
  Qed.

  (** The first loop of [tui_window_move_end] walks to the last row. *)
Lemma move_end_loop_rows rounds :
    forall win i j,
      on_here win i j -> (length rows <= S B)%nat ->
      (length rows - 1 - j <= rounds)%nat ->
      exists win',
        move_end_loop ops rounds win = Some win' /\
        on_here win' i (length rows - 1).
  Proof.
    induction rounds as [|rounds IH]; intros win i j Hinv HB Hr;
      pose proof Hinv as (HR & Hij & HjB & [c Hc] & Ht & Hcu & Hti & Hci);
      pose proof (lookup_lt_Some _ _ _ Hc) as Hjl.
    - assert (j = (length rows - 1)%nat) by lia. subst j.
      cbn [move_end_loop]. rewrite Hcu, Hc. cbn [mbind option_bind].
      destruct (follows_next win _ c false HR HjB Hc) as (e & -> & HRe).
      cbn [mbind option_bind].
      rewrite (proj2 (lookup_ge_None rows (S (length rows - 1)))) by lia.
      exists (set_ext e win). split; [reflexivity|].
      unfold on_rows. cbn. repeat split; eauto; congruence.
    - cbn [move_end_loop]. rewrite Hcu, Hc. cbn [mbind option_bind].
      destruct (follows_next win j c false HR HjB Hc) as (e & -> & HRe).
      cbn [mbind option_bind].
      destruct (rows !! S j) as [n|] eqn:Hn.
      + pose proof (lookup_lt_Some _ _ _ Hn) as Hnl.
        cbn [curr_index set_curr_index set_ext]. rewrite Hci.
        pose proof (index_down (set_curr_index (wrap_int (row j + 1)) (set_ext e win))
                      j c n ltac:(lia) Hc Hn) as Hidx.
        destruct (IH (set_curr (Some n) (set_curr_index (row (S j)) (set_ext e win)))
                     i (S j)) as (win' & Hs & Hon).
        * unfold on_rows. cbn. repeat split; eauto; try lia; congruence.
        * exact HB.
        * lia.
        * exists win'. split; [|exact Hon]. rewrite <- Hs.
          destruct (ops_needs_blank ops _ c (Some n)); cbn in Hidx |- *;
            rewrite <- Hidx; reflexivity.
      + apply lookup_ge_None in Hn.
        assert (j = (length rows - 1)%nat) by lia. subst j.
        exists (set_ext e win). split; [reflexivity|].
        unfold on_rows. cbn. repeat split; eauto; congruence.
  Qed.

Lemma move_end_rows rounds win i j :
    on_here win i j -> (length rows <= S B)%nat ->
    (length rows - 1 - j <= rounds)%nat ->
    exists win' i',
      tui_window_move_end ops LINES rounds win = Some win' /\
      let last := (length rows - 1)%nat in
      on_here win' i' last /\ (i <= i')%nat /\
      row last - row i' < LINES - 2 /\
      (row last - row i < LINES - 2 -> i' = i) /\
      ((i < i')%nat -> LINES - 2 <= row last - row (i' - 1)).
  Proof.
    intros Hinv HB Hr.
    destruct (move_end_loop_rows rounds win i j Hinv HB Hr) as (w1 & H1 & Hon1).
    unfold tui_window_move_end. rewrite H1. cbn [mbind option_bind].
    destruct (scroll_top_rows (length rows - 1) (scroll_rounds LINES w1) w1 i Hon1)
      as (win' & i' & Hs & Hon & Hle & Hscr & Hstay & Hmin).
    { unfold scroll_rounds.
      destruct Hon1 as (_ & _ & _ & _ & _ & _ & -> & ->). lia. }
    exists win', i'. split; [exact Hs|]. cbv zeta.
    split; [exact Hon|]. split; [exact Hle|]. split; [exact Hscr|].
    split; [|exact Hmin]. intros Hs'. now destruct (Hstay Hs').
  Qed.

  (** The loop of [tui_window_page_up] from the top row [i]: the top goes
      up to the first row that is a page away, or to the first row. *)
Lemma page_up_loop_rows i rounds :
    forall win t,
      R (w_ext win) -> (t <= i)%nat -> (i <= B)%nat ->
      is_Some (rows !! t) -> w_top win = rows !! t ->
      top_index win = row i -> curr_index win = row t ->
      (Z.to_nat (LINES - 2 - (row i - row t)) <= rounds)%nat ->
      exists win' t',
        page_up_loop ops LINES rounds win = Some win' /\
        R (w_ext win') /\ (t' <= t)%nat /\ is_Some (rows !! t') /\
        w_top win' = rows !! t' /\ curr_index win' = row t' /\
        top_index win' = row i /\
        (t' = 0%nat \/ LINES - 2 <= row i - row t') /\
        ((t' < t)%nat -> row i - row (S t') < LINES - 2).
  Proof.
    induction rounds as [|rounds IH]; intros win t HR Hti HiB [x Hx] Ht Htop Hcur Hr.
    - exists win, t. cbn [page_up_loop]. rewrite Htop, Hcur.
      destruct (row i - row t <? LINES - 2) eqn:E; [apply Z.ltb_lt in E; lia|].
      apply Z.ltb_ge in E. split; [reflexivity|].
      repeat split; eauto; try lia; try congruence.
    - cbn [page_up_loop]. rewrite Htop, Hcur.
      destruct (row i - row t <? LINES - 2) eqn:E.
      2:{ apply Z.ltb_ge in E. exists win, t. split; [reflexivity|].
          repeat split; eauto; try lia; try congruence. }
      apply Z.ltb_lt in E. rewrite Ht, Hx. cbn [mbind option_bind].
      destruct (follows_prev win t x true HR ltac:(lia) Hx) as (e & -> & HRe).
      cbn [mbind option_bind]. destruct t as [|t0].
      + exists (set_ext e win), 0%nat. split; [reflexivity|].
        cbn. repeat split; eauto; try lia; try congruence.
      + assert (Hy : is_Some (rows !! t0)).
        { apply lookup_lt_is_Some. apply lookup_lt_Some in Hx. lia. }
        destruct Hy as [y Hy]. rewrite Hy.
        cbn [curr_index set_curr_index set_ext]. rewrite Hcur.
        pose proof (index_up (set_curr_index (wrap_int (row (S t0) - 1)) (set_ext e win))
                      t0 y x ltac:(lia) Hy Hx) as Hidx.
        destruct (IH (set_top (Some y) (set_curr_index (row t0) (set_ext e win))) t0)
          as (win' & t' & Hs & HR' & Hle & Hsome & Ht' & Hc' & Hti' & Hstop & Hmin).
        * exact HRe.
        * lia.
        * exact HiB.
        * eauto.
        * cbn. congruence.
        * cbn. exact Htop.
        * reflexivity.
        * pose proof (row_step t0). lia.
        * exists win', t'. split.
          { rewrite <- Hs.
            destruct (ops_needs_blank ops _ y (Some x)); cbn in Hidx |- *;
              rewrite <- Hidx; reflexivity. }
          repeat split; try assumption; try lia.
          intros _. destruct (decide (t' = t0)) as [->|Hne]; [exact E | apply Hmin; lia].
  Qed.

Lemma page_up_rows win i j :
    on_here win i j -> NoDup rows ->
    exists win' i',
      tui_window_page_up ops LINES win = Some win' /\
      on_here win' i' i' /\ (i' <= i)%nat /\
      (j <> i -> i' = i) /\
      (j = i ->
       (i' = 0%nat \/ LINES - 2 <= row i - row i') /\
       ((i' < i)%nat -> row i - row (S i') < LINES - 2)).
  Proof.
    intros Hinv Hnd. pose proof Hinv as (HR & Hij & HjB & [c Hc] & Ht & Hcu & Hti & Hci).
    destruct (on_rows_top_Some _ _ _ _ _ _ _ Hinv) as [t Hrt].
    unfold tui_window_page_up. rewrite Hcu, Ht.
    destruct (decide (j = i)) as [->|Hne].
    - rewrite bool_decide_eq_false_2 by (intros Hc'; now apply Hc').
      destruct (page_up_loop_rows i (page_up_rounds LINES win) win i)
        as (win' & t' & Hs & HR' & Hle & Hsome & Ht' & Hc' & Hti' & Hstop & Hmin);
        try assumption; try lia; eauto.
      { unfold page_up_rounds. rewrite Hti, Hci. lia. }
      rewrite Hs. cbn [mbind option_bind].
      exists (set_top_index (curr_index win') (set_curr (w_top win') win')), t'.
      split; [reflexivity|]. split.
      { unfold on_rows. cbn. repeat split; eauto; lia. }
      split; [exact Hle|]. split; [congruence|]. intros _. split; assumption.
    - rewrite bool_decide_eq_true_2.
      2:{ rewrite Hc, Hrt. intros [= ->].
          apply Hne. eapply NoDup_lookup; eassumption. }
      exists (set_curr_index (top_index win) (set_curr (rows !! i) win)), i.
      split; [reflexivity|]. split.
      { unfold on_rows. cbn. repeat split; eauto; lia. }
      split; [lia|]. split; [reflexivity | contradiction].
  Qed.

  (** The loop of [tui_window_page_down]: the cursor goes down to the last
      row that is less than a page after [orig]. *)
Lemma page_down_loop_rows orig rounds :
    forall win k x next_index,
      R (w_ext win) -> (length rows <= S B)%nat ->
      rows !! k = Some x -> next_index = row k ->
      row k - orig < LINES - 2 ->
      (Z.to_nat (LINES - 2 - (row k - orig)) <= S rounds)%nat ->
      exists win' k' e,
        page_down_loop ops LINES rounds orig next_index x win = Some win' /\
        win' = set_ext e (set_curr_index (row k') (set_curr (rows !! k') win)) /\
        R e /\ (k <= k')%nat /\ is_Some (rows !! k') /\
        row k' - orig < LINES - 2 /\
        (rows !! S k' = None \/ LINES - 2 <= row (S k') - orig).
  Proof.
    induction rounds as [|rounds IH]; intros win k x next_index HR HB Hx -> Hd Hr;
      pose proof (lookup_lt_Some _ _ _ Hx) as Hkl.
    - cbn [page_down_loop].
      destruct (follows_next (set_curr_index (row k) (set_curr (Some x) win)) k x false)
        as (e & -> & HRe); [exact HR | lia | exact Hx |].
      cbn [mbind option_bind].
      destruct (rows !! S k) as [n|] eqn:Hn.
      + rewrite (index_down _ k x n ltac:(lia) Hx Hn).
        pose proof (row_step k).
        destruct (row (S k) - orig <? LINES - 2) eqn:E; [apply Z.ltb_lt in E; lia|].
        apply Z.ltb_ge in E.
        exists (set_ext e (set_curr_index (row k) (set_curr (Some x) win))), k, e.
        split; [reflexivity|]. rewrite Hx.
        repeat split; eauto; try lia.
      + exists (set_ext e (set_curr_index (row k) (set_curr (Some x) win))), k, e.
        split; [reflexivity|]. rewrite Hx. repeat split; eauto; lia.
    - cbn [page_down_loop].
      destruct (follows_next (set_curr_index (row k) (set_curr (Some x) win)) k x false)
        as (e & -> & HRe); [exact HR | lia | exact Hx |].
      cbn [mbind option_bind].
      destruct (rows !! S k) as [n|] eqn:Hn.
      + rewrite (index_down _ k x n ltac:(lia) Hx Hn).
        pose proof (row_step k).
        destruct (row (S k) - orig <? LINES - 2) eqn:E.
        * apply Z.ltb_lt in E.
          destruct (IH (set_ext e (set_curr_index (row k) (set_curr (Some x) win)))
                       (S k) n (row (S k)))
            as (win' & k' & e' & Hs & Hw & HR' & Hle & Hsome & Hd' & Hstop);
            try assumption; try reflexivity; try lia.
          exists win', k', e'. split; [exact Hs|]. split.
          { rewrite Hw. reflexivity. }
          repeat split; try assumption; lia.
        * apply Z.ltb_ge in E.
          exists (set_ext e (set_curr_index (row k) (set_curr (Some x) win))), k, e.
          split; [reflexivity|]. rewrite Hx.
          repeat split; eauto; try lia.
      + exists (set_ext e (set_curr_index (row k) (set_curr (Some x) win))), k, e.
        split; [reflexivity|]. rewrite Hx. repeat split; eauto; lia.
  Qed.

Lemma page_down_rows win i j :
    on_here win i j -> (length rows <= S B)%nat ->
    row j - row i < LINES - 2 ->
    exists win' i' j',
      tui_window_page_down ops LINES win = Some win' /\
      on_here win' i' j' /\ (i <= i')%nat /\ (j <= j')%nat /\
      row j' - row i' < LINES - 2 /\
      (rows !! S j = None -> j' = j /\ i' = i) /\
      (is_Some (rows !! S j) ->
       let orig := if LINES - 2 <=? row (S j) - row i then row (S j) else row i in
       (S j <= j')%nat /\
       row j' - orig < LINES - 2 /\
       (rows !! S j' = None \/ LINES - 2 <= row (S j') - orig) /\
       (row (S j) - row i < LINES - 2 -> i' = i) /\
       ((i < i')%nat -> LINES - 2 <= row j' - row (i' - 1))).
  Proof.
    intros Hinv HB Hscr.
    pose proof Hinv as (HR & Hij & HjB & [c Hc] & Ht & Hcu & Hti & Hci).
    pose proof (lookup_lt_Some _ _ _ Hc) as Hjl.
    unfold tui_window_page_down. rewrite Hcu, Hc. cbn [mbind option_bind].
    destruct (follows_next win j c false HR HjB Hc) as (e & -> & HRe).
    cbn [mbind option_bind].
    destruct (rows !! S j) as [n|] eqn:Hn.
    - pose proof (lookup_lt_Some _ _ _ Hn) as Hnl.
      cbn [top_index set_ext]. rewrite Hci, Hti.
      rewrite (index_down (set_ext e win) j c n ltac:(lia) Hc Hn).
      set (orig := if LINES - 2 <=? row (S j) - row i then row (S j) else row i).
      pose proof (row_step j) as Hstep.
      assert (Horig : row (S j) - orig < LINES - 2 /\ 0 <= row (S j) - orig).
      { subst orig. destruct (LINES - 2 <=? row (S j) - row i) eqn:E.
        - lia.
        - apply Z.leb_gt in E. pose proof (row_mono i (S j) ltac:(lia)). lia. }
      destruct (page_down_loop_rows orig
                  (Z.to_nat (LINES - 2 - (row (S j) - orig))) (set_ext e win)
                  (S j) n (row (S j)))
        as (w1 & k' & e1 & Hs & Hw & HR1 & Hle & Hsome & Hd & Hstop);
        try assumption; try reflexivity; try lia.
      rewrite Hs. cbn [mbind option_bind].
      assert (Hk'B : (k' <= B)%nat).
      { destruct Hsome as [y Hy]. apply lookup_lt_Some in Hy. lia. }
      assert (Hon1 : on_here w1 i k').
      { rewrite Hw. unfold on_rows. cbn. repeat split; eauto; lia. }
      destruct (scroll_top_rows k' (scroll_rounds LINES w1) w1 i Hon1)
        as (win' & i' & Hs' & Hon & Hle' & Hscr' & Hstay & Hmin).
      { unfold scroll_rounds.
        destruct Hon1 as (_ & _ & _ & _ & _ & _ & -> & ->). lia. }
      exists win', i', k'. split; [exact Hs'|]. split; [exact Hon|].
      split; [exact Hle'|]. split; [lia|]. split; [exact Hscr'|].
      split; [discriminate|]. intros _. cbv zeta. fold orig.
      split; [exact Hle|]. split; [exact Hd|]. split; [exact Hstop|].
      split; [|exact Hmin]. intros Hfit.
      assert (orig = row i) as Ho.
      { subst orig. destruct (LINES - 2 <=? row (S j) - row i) eqn:E; [|reflexivity].
        apply Z.leb_le in E. lia. }
      apply Hstay. lia.
    - exists (set_ext e win), i, j. split; [reflexivity|].
      split; [unfold on_rows; cbn; repeat split; eauto; congruence|].
      split; [lia|]. split; [lia|]. split; [exact Hscr|].
      split; [intros _; split; reflexivity|]. intros [y Hy]. discriminate Hy.
  Qed.
End engine_pages.

(** ** The two views *)

Lemma graph_follows_rows root B :
  follows_rows graph_ops (graph_walk root (S (S B)) []) B
               (fun g => ug_root g = root)
               (fun a b => negb (is_first_child a b)).
Proof.
  split; [|split].
  - intros win k x u. apply win_next_graph_rows.
  - intros win k x u. apply win_prev_graph_rows.
  - reflexivity.
Qed.

Lemma report_follows_rows t B :
  NoDup (rb_inorder t) ->
  follows_rows report_ops (rb_inorder t) B (fun r => sort_tree r = t)
               (fun _ _ => false).
Proof.
  intros Hnd. split; [|split].
  - intros win k x u HR _ Hx. now apply win_next_report_rows.
  - intros win k x u HR _ Hx. now apply win_prev_report_rows.
  - reflexivity.
Qed.

Lemma on_rows_on_screen {N X} rows B (R : X -> Prop) blank LINES
    (win : tui_window N X) i j :
  on_rows rows B R blank win i j ->
  row_index blank rows j - row_index blank rows i < LINES - 2 ->
  on_screen LINES win.
Proof.
  intros (_ & Hij & _ & _ & _ & _ & Hti & Hci) H. unfold on_screen.
  rewrite Hti, Hci.
  pose proof (row_index_mono rows 0%nat blank i j Hij). lia.
Qed.

(** The report window of the two functions, on its first row. *)
Lemma sample_report_on_rows :
  NoDup (rb_inorder (sort_tree sample_report)) /\
  on_rows (rb_inorder (sort_tree sample_report)) 5
          (fun r => sort_tree r = sort_tree sample_report) (fun _ _ => false)
          sample_report_window 0 0.
Proof.
  split.
  - cbn. apply NoDup_cons. split; [|apply NoDup_singleton].
    intros H. apply list_elem_of_singleton in H. discriminate H.
  - unfold on_rows. cbn. repeat split; try lia. eexists. reflexivity.
Qed.

Lemma on_screen_rows {N X} rows B (R : X -> Prop) blank LINES
    (win : tui_window N X) i j :
  on_rows rows B R blank win i j -> on_screen LINES win ->
  row_index blank rows j - row_index blank rows i < LINES - 2.
Proof.
  intros (_ & _ & _ & _ & _ & _ & Hti & Hci) [_ H]. now rewrite <- Hti, <- Hci.
Qed.

(** X6. In a view whose steps follow its rows, with the cursor on the row
    [j], the top of the screen on the row [i] and the cursor on the screen:
    move-up puts the cursor on the row before, and the top on that row too
    if it was above the screen; move-down puts the cursor on the next row,
    if there is one, and moves the top down just as far as it takes to have
    the cursor on the screen, not at all if it is there already.  In both
    cases the indices are the screen rows of the two rows, blank rows
    counted, and the cursor is on the screen. *)
Theorem tui_window_move_keeps_screen {N X} `{EqDecision N}
    (ops : tui_window_ops N X) LINES rows B R blank win i j :
  2 < LINES -> 2 * Z.of_nat B + 2 <= INT_MAX ->
  follows_rows ops rows B R blank ->
  on_rows rows B R blank win i j -> on_screen LINES win ->
  let row := row_index blank rows in
  (exists win',
     tui_window_move_up ops win = Some win' /\
     on_rows rows B R blank win' (Nat.min i (j - 1)) (j - 1) /\
     on_screen LINES win') /\
  ((j < B)%nat ->
   exists win' i',
     tui_window_move_down ops LINES win = Some win' /\
     let j' := match rows !! S j with Some _ => S j | None => j end in
     on_rows rows B R blank win' i' j' /\ on_screen LINES win' /\
     (i <= i')%nat /\
     (row j' - row i < LINES - 2 -> i' = i) /\
     ((i < i')%nat -> LINES - 2 <= row j' - row (i' - 1)%nat)).
Proof.
  intros HL Hb Hfollow Hon Hscr row.
  pose proof (on_screen_rows _ _ _ _ _ _ _ _ Hon Hscr) as Hrow. split.
  - destruct (move_up_rows ops LINES rows B R blank HL Hb Hfollow win i j Hon Hrow)
      as (win' & Hup & Hon' & Hs').
    exists win'. split; [exact Hup|]. split; [exact Hon'|].
    eapply on_rows_on_screen; eassumption.
  - intros HjB.
    destruct (move_down_rows ops LINES rows B R blank HL Hb Hfollow win i j Hon HjB)
      as (win' & i' & Hdown & Hon' & Hle & Hs' & Hstay & Hmin).
    exists win', i'. split; [exact Hdown|]. cbv zeta in *.
    split; [exact Hon'|]. split; [|split; [exact Hle|split; assumption]].
    eapply on_rows_on_screen; [exact Hon'|]. now apply Hs'.
Qed.

Lemma tui_window_move_keeps_screen_witness :
  exists win' i',
    tui_window_move_down report_ops 24 sample_report_window = Some win' /\
    on_rows (rb_inorder (sort_tree sample_report)) 5
            (fun r => sort_tree r = sort_tree sample_report) (fun _ _ => false)
            win' i' 1 /\
    on_screen 24 win'.
Proof.
  destruct sample_report_on_rows as [Hnd Hon].
  destruct (tui_window_move_keeps_screen report_ops 24
              (rb_inorder (sort_tree sample_report)) 5
              (fun r => sort_tree r = sort_tree sample_report) (fun _ _ => false)
              sample_report_window 0 0 ltac:(lia) ltac:(vm_compute; discriminate)
              (report_follows_rows _ 5 Hnd) Hon ltac:(unfold on_screen; cbn; lia))
    as [_ Hdown].
  destruct (Hdown ltac:(lia)) as (win' & i' & H1 & H2 & H3 & _).
  exists win', i'. split; [exact H1|]. split; [exact H2 | exact H3].
Defined.



(** X8. In such a view without a row listed twice, page-up with the cursor
    below the top row puts the cursor on the top row and leaves the top
    where it is.  With the cursor on the top row it moves both up together:
    to the nearest row that is a whole page, [LINES - 2] screen rows or
    more, above the old top, or to the first row when there is none. *)
Theorem tui_window_page_up_top {N X} `{EqDecision N}
    (ops : tui_window_ops N X) LINES rows B R blank win i j :
  2 < LINES -> 2 * Z.of_nat B + 2 <= INT_MAX ->
  follows_rows ops rows B R blank ->
  on_rows rows B R blank win i j -> NoDup rows ->
  let row := row_index blank rows in
  exists win' i',
    tui_window_page_up ops LINES win = Some win' /\
    on_rows rows B R blank win' i' i' /\ on_screen LINES win' /\
    (i' <= i)%nat /\
    (j <> i -> i' = i) /\
    (j = i ->
     (i' = 0%nat \/ LINES - 2 <= row i - row i') /\
     ((i' < i)%nat -> row i - row (S i') < LINES - 2)).
Proof.
  intros HL Hb Hfollow Hon Hnd row.
  destruct (page_up_rows ops LINES rows B R blank Hb Hfollow win i j Hon Hnd)
    as (win' & i' & Hup & Hon' & Hle & Hne & Heq).
  exists win', i'. split; [exact Hup|]. split; [exact Hon'|].
  split; [|split; [exact Hle|split; assumption]].
  eapply on_rows_on_screen; [exact Hon'|]. lia.
Qed.

Lemma tui_window_page_up_top_witness :
  exists win',
    tui_window_page_up report_ops 24 sample_report_window = Some win' /\
    on_rows (rb_inorder (sort_tree sample_report)) 5
            (fun r => sort_tree r = sort_tree sample_report) (fun _ _ => false)
            win' 0 0.
Proof.
  destruct sample_report_on_rows as [Hnd Hon].
  destruct (tui_window_page_up_top report_ops 24
              (rb_inorder (sort_tree sample_report)) 5
              (fun r => sort_tree r = sort_tree sample_report) (fun _ _ => false)
              sample_report_window 0 0 ltac:(lia) ltac:(vm_compute; discriminate)
              (report_follows_rows _ 5 Hnd) Hon Hnd)
    as (win' & i' & H1 & H2 & _ & H4 & _).
  exists win'. split; [exact H1|]. now replace i' with 0%nat in H2 by lia.
Defined.




(** * The rows of the graph view *)

Lemma subtree_rows_eq top n p :
  subtree_rows top n p =
  p :: (if top || negb (folded n) then children_rows (n_head n) 0 p else []).
Proof.
  destruct n as [a nm e c t ct head g l f]. cbn [subtree_rows n_head folded].
  f_equal. destruct (top || negb f); [|reflexivity].
  generalize 0%nat. induction head as [|c0 cs IH]; intros i; [reflexivity|].
  cbn [children_rows]. now rewrite <- IH.
Qed.


(** Every row of a subtree is the node or lies below it. *)
Lemma subtree_rows_suffix top n p x :
  x ∈ subtree_rows top n p -> p `suffix_of` x.
Proof.
  revert top p x. induction n as [a nm e c t ct head g l f IH]
    using tui_graph_node_rect'; intros top p x.
  rewrite subtree_rows_eq. cbn [n_head folded].
  intros Hx. apply elem_of_cons in Hx. destruct Hx as [->|Hx]; [reflexivity|].
  destruct (top || negb f); [|inversion Hx].
  revert Hx. generalize 0%nat. induction IH as [|c0 cs Hc0 _ IHcs]; intros i Hx.
  - inversion Hx.
  - cbn [children_rows] in Hx. apply elem_of_app in Hx. destruct Hx as [Hx|Hx].
    + apply Hc0 in Hx. etransitivity; [|exact Hx]. apply suffix_cons_r. reflexivity.
    + now apply (IHcs (S i)).
Qed.

Lemma children_rows_suffix cs i p x :
  x ∈ children_rows cs i p ->
  exists k c, cs !! k = Some c /\ x ∈ subtree_rows false c ((i + k)%nat :: p).
Proof.
  revert i. induction cs as [|c0 cs IH]; intros i Hx; [inversion Hx|].
  cbn [children_rows] in Hx. apply elem_of_app in Hx. destruct Hx as [Hx|Hx].
  - exists 0%nat, c0. split; [reflexivity|]. now rewrite Nat.add_0_r.
  - destruct (IH (S i) Hx) as (k & c & Hk & Hc). exists (S k), c.
    split; [exact Hk|]. now replace (i + S k)%nat with (S i + k)%nat by lia.
Qed.

Lemma children_rows_elem cs i p k c x :
  cs !! k = Some c -> x ∈ subtree_rows false c ((i + k)%nat :: p) ->
  x ∈ children_rows cs i p.
Proof.
  revert i k. induction cs as [|c0 cs IH]; intros i k Hk Hx; [discriminate|].
  cbn [children_rows]. apply elem_of_app. destruct k as [|k].
  - injection Hk as ->. left. now rewrite Nat.add_0_r in Hx.
  - right. apply (IH (S i) k Hk). now replace (S i + k)%nat with (i + S k)%nat by lia.
Qed.

Lemma subtree_rows_head top n p : subtree_rows top n p !! 0%nat = Some p.
Proof. now rewrite subtree_rows_eq. Qed.

Lemma subtree_rows_length top n p : (0 < length (subtree_rows top n p))%nat.
Proof. rewrite subtree_rows_eq. cbn. lia. Qed.

Lemma next_of_eq root x n :
  node_at root x = Some n ->
  next_of root x =
    if negb (list_empty n) && (bool_decide (x = []) || negb (folded n))
    then Some (0%nat :: x) else climb_of root x.
Proof.
  intros Hn. unfold next_of, climb_of. rewrite graph_next_node_step, Hn.
  now destruct (negb (list_empty n) && _).
Qed.

Lemma climb_of_cons root i p n :
  node_at root p = Some n ->
  climb_of root (i :: p) =
    if bool_decide (S i = length (n_head n)) then climb_of root p
    else match n_head n !! S i with Some _ => Some (S i :: p) | None => None end.
Proof.
  intros Hn. unfold climb_of. rewrite climb_node_cons, Hn.
  destruct (bool_decide _); [reflexivity|]. now destruct (n_head n !! S i).
Qed.

(** The step from a row of the block of the children [cs] of the node [n]
    at [p], given the same for the subtree of each child. *)
Lemma children_rows_next root p n :
  node_at root p = Some n ->
  forall cs i,
    n_head n = take i (n_head n) ++ cs -> i = length (take i (n_head n)) ->
    Forall (fun c => forall p', node_at root p' = Some c -> p' <> [] ->
              forall k x, subtree_rows false c p' !! k = Some x ->
                next_of root x =
                  match subtree_rows false c p' !! S k with
                  | Some y => Some y
                  | None => climb_of root p'
                  end) cs ->
    forall k x, children_rows cs i p !! k = Some x ->
      next_of root x =
        match children_rows cs i p !! S k with
        | Some y => Some y
        | None => climb_of root p
        end.
Proof.
  intros Hn. induction cs as [|c0 cs IH]; intros i Hcs Hi Hall k x Hx; [discriminate|].
  apply Forall_cons in Hall. destruct Hall as [Hc0 Hall].
  assert (Hci : n_head n !! i = Some c0).
  { rewrite Hcs. rewrite lookup_app_r by lia. now rewrite <- Hi, Nat.sub_diag. }
  assert (Hlen : length (n_head n) = (i + S (length cs))%nat).
  { rewrite Hcs at 1. rewrite length_app. cbn. lia. }
  assert (Hnode : node_at root (i :: p) = Some c0) by (cbn; now rewrite Hn).
  cbn [children_rows] in Hx |- *.
  set (S0 := subtree_rows false c0 (i :: p)) in *.
  destruct (decide (k < length S0)%nat) as [Hk|Hk].
  - rewrite lookup_app_l in Hx by exact Hk.
    rewrite (Hc0 (i :: p) Hnode ltac:(discriminate) k x Hx). fold S0.
    destruct (decide (S k < length S0)%nat) as [Hk'|Hk'].
    + rewrite lookup_app_l by exact Hk'.
      destruct (lookup_lt_is_Some_2 S0 (S k) Hk') as [y ->]. reflexivity.
    + rewrite (proj2 (lookup_ge_None S0 (S k))) by lia.
      rewrite lookup_app_r by lia. replace (S k - length S0)%nat with 0%nat by lia.
      rewrite (climb_of_cons root i p n Hn).
      destruct cs as [|c1 cs'].
      * rewrite bool_decide_eq_true_2 by (cbn in Hlen; lia). reflexivity.
      * rewrite bool_decide_eq_false_2 by (cbn in Hlen; lia).
        assert (Hc1 : n_head n !! S i = Some c1).
        { rewrite Hcs. rewrite lookup_app_r by lia.
          now replace (S i - length (take i (n_head n)))%nat with 1%nat by lia. }
        rewrite Hc1. cbn [children_rows]. rewrite lookup_app_l by apply subtree_rows_length.
        now rewrite subtree_rows_head.
  - rewrite lookup_app_r in Hx by lia. rewrite lookup_app_r by lia.
    replace (S k - length S0)%nat with (S (k - length S0)) by lia.
    apply (IH (S i)); [| |exact Hall|exact Hx].
    + rewrite (take_S_r _ _ _ Hci), <- app_assoc. exact Hcs.
    + rewrite length_take. apply lookup_lt_Some in Hci. lia.
Qed.

(** From every row of a subtree [graph_next_node] steps to the next row of
    it, and from the last one to the row after the subtree. *)
Lemma subtree_rows_next root n :
  forall p, node_at root p = Some n ->
    forall k x, subtree_rows (bool_decide (p = [])) n p !! k = Some x ->
      next_of root x =
        match subtree_rows (bool_decide (p = [])) n p !! S k with
        | Some y => Some y
        | None => climb_of root p
        end.
Proof.
  induction n as [a nm e c t ct head g l f IH] using tui_graph_node_rect'.
  intros p Hn k x. set (n := TuiGraphNode a nm e c t ct head g l f) in *.
  rewrite subtree_rows_eq. change (n_head n) with head. change (folded n) with f.
  assert (Hblock : forall k x, children_rows head 0 p !! k = Some x ->
            next_of root x =
              match children_rows head 0 p !! S k with
              | Some y => Some y
              | None => climb_of root p
              end).
  { apply (children_rows_next root p n Hn head 0%nat); [reflexivity..|].
    eapply Forall_impl; [exact IH|]. intros c0 Hc0 p' Hp' Hne.
    specialize (Hc0 p' Hp'). now rewrite bool_decide_eq_false_2 in Hc0. }
  destruct k as [|k].
  - intros [= <-]. rewrite (next_of_eq root p n Hn). change (folded n) with f.
    unfold list_empty. change (n_head n) with head.
    change ((p :: ?T) !! 1%nat) with (T !! 0%nat).
    destruct (bool_decide (p = []) || negb f).
    + destruct head as [|c0 cs]; [reflexivity|]. cbn [negb andb children_rows].
      rewrite lookup_app_l by apply subtree_rows_length.
      now rewrite subtree_rows_head.
    + now rewrite andb_false_r.
  - change ((p :: ?T) !! S k) with (T !! k).
    change ((p :: ?T) !! S (S k)) with (T !! S k).
    destruct (bool_decide (p = []) || negb f); [apply Hblock | discriminate].
Qed.

Lemma graph_rows_next root k x :
  graph_rows root !! k = Some x -> next_of root x = graph_rows root !! S k.
Proof.
  intros Hx. unfold graph_rows in *.
  rewrite (subtree_rows_next root root [] eq_refl k x Hx).
  change (bool_decide ([] = [])) with true. change (@nil nat) with ([] : gpath).
  destruct (subtree_rows true root [] !! S k); reflexivity.
Qed.

(** The walk with [graph_next_node] from a row follows the rows. *)
Lemma graph_walk_rows root fuel :
  forall k x, graph_rows root !! k = Some x ->
    graph_walk root fuel x = take fuel (drop k (graph_rows root)).
Proof.
  induction fuel as [|fuel IH]; intros k x Hx; [reflexivity|].
  rewrite (drop_S _ _ _ Hx). cbn [take graph_walk]. f_equal.
  pose proof (graph_rows_next root k x Hx) as Hnext. unfold next_of in Hnext.
  destruct (graph_rows root !! S k) as [y|] eqn:Hy.
  - destruct (step_node (graph_next_node root x 0 None)) as [[z|]|]; try discriminate.
    injection Hnext as ->. now apply IH.
  - rewrite (drop_ge (graph_rows root) (S k)) by (now apply lookup_ge_None).
    rewrite take_nil.
    destruct (step_node (graph_next_node root x 0 None)) as [[z|]|]; try discriminate;
      reflexivity.
Qed.

Lemma graph_walk_take root fuel :
  graph_walk root fuel [] = take fuel (graph_rows root).
Proof.
  rewrite (graph_walk_rows root fuel 0 []); [reflexivity|].
  apply subtree_rows_head.
Qed.

Lemma suffix_same_length {A} (l1 l2 x : list A) :
  l1 `suffix_of` x -> l2 `suffix_of` x -> length l1 = length l2 -> l1 = l2.
Proof.
  intros [k1 ->] [k2 E] Hl. symmetry in E.
  apply app_inj_2 in E; [now destruct E | exact (eq_sym Hl)].
Qed.

Lemma subtree_rows_NoDup n : forall top p, NoDup (subtree_rows top n p).
Proof.
  induction n as [a nm e c t ct head g l f IH] using tui_graph_node_rect'.
  intros top p. rewrite subtree_rows_eq. cbn [n_head folded].
  destruct (top || negb f); [|apply NoDup_singleton].
  apply NoDup_cons. split.
  - intros Hp. apply children_rows_suffix in Hp. destruct Hp as (k & c0 & _ & Hp).
    apply subtree_rows_suffix in Hp. apply suffix_length in Hp. cbn in Hp. lia.
  - generalize 0%nat. induction IH as [|c0 cs Hc0 _ IHcs]; intros i; [constructor|].
    cbn [children_rows]. apply NoDup_app. split; [apply Hc0|]. split; [|apply IHcs].
    intros x Hx Hx'. apply subtree_rows_suffix in Hx.
    apply children_rows_suffix in Hx'. destruct Hx' as (k & c1 & _ & Hx').
    apply subtree_rows_suffix in Hx'.
    pose proof (suffix_same_length _ _ _ Hx Hx' eq_refl) as E.
    injection E as E. lia.
Qed.

(** A child of a row whose node is open is a row. *)
Lemma subtree_rows_child root n :
  forall p, node_at root p = Some n ->
    forall pp m i,
      pp ∈ subtree_rows (bool_decide (p = [])) n p ->
      node_at root pp = Some m -> (i < length (n_head m))%nat ->
      pp = [] \/ folded m = false ->
      (i :: pp) ∈ subtree_rows (bool_decide (p = [])) n p.
Proof.
  induction n as [a nm e c t ct head g l f IH] using tui_graph_node_rect'.
  intros p Hn pp m i. set (n := TuiGraphNode a nm e c t ct head g l f) in *.
  rewrite subtree_rows_eq. change (n_head n) with head. change (folded n) with f.
  intros Hpp Hm Hi Hopen. apply elem_of_cons. right.
  apply elem_of_cons in Hpp. destruct Hpp as [->|Hpp].
  - rewrite Hn in Hm. injection Hm as <-. change (n_head n) with head in Hi.
    assert (Ho : bool_decide (p = []) || negb f = true).
    { destruct Hopen as [->|Hf]; [reflexivity|].
      change (folded n) with f in Hf. rewrite Hf. apply orb_true_r. }
    rewrite Ho. destruct (lookup_lt_is_Some_2 head i Hi) as [c0 Hc0].
    apply (children_rows_elem head 0 p i c0); [exact Hc0|].
    cbn [Nat.add]. apply list_elem_of_lookup. exists 0%nat. apply subtree_rows_head.
  - destruct (bool_decide (p = []) || negb f); [|inversion Hpp].
    destruct (children_rows_suffix _ _ _ _ Hpp) as (k & c0 & Hk & Hin).
    cbn [Nat.add] in Hin.
    apply (children_rows_elem head 0 p k c0 _ Hk). cbn [Nat.add].
    rewrite Forall_forall in IH.
    assert (Hc0 : c0 ∈ head) by (eapply list_elem_of_lookup_2, Hk).
    assert (Hnode : node_at root (k :: p) = Some c0).
    { cbn. rewrite Hn. exact Hk. }
    pose proof (IH c0 Hc0 (k :: p) Hnode pp m i) as H.
    rewrite bool_decide_eq_false_2 in H by discriminate. now apply H.
Qed.

(** The rows are the nodes on display. *)
Lemma graph_rows_visible root x :
  x ∈ graph_rows root <-> visible root x = true.
Proof.
  split.
  - intros Hx. apply list_elem_of_lookup_1 in Hx. destruct Hx as [k Hk].
    apply (graph_walk_row_visible root (S k) k).
    rewrite graph_walk_take. rewrite lookup_take_lt by lia. exact Hk.
  - induction x as [|i pp IH]; intros Hv.
    + apply list_elem_of_lookup. exists 0%nat. apply subtree_rows_head.
    + destruct (visible_cons _ _ _ Hv) as (Hvp & m & Hm & Hi & Hopen).
      apply (subtree_rows_child root root [] eq_refl pp m i (IH Hvp) Hm Hi Hopen).
Qed.

(** The parent of a row other than the first is a row before it. *)
Lemma subtree_rows_parent n :
  forall top p j x,
    subtree_rows top n p !! S j = Some x ->
    exists i pp k, x = i :: pp /\ (k <= j)%nat /\ subtree_rows top n p !! k = Some pp.
Proof.
  induction n as [a nm e c t ct head g l f IH] using tui_graph_node_rect'.
  intros top p j x. rewrite subtree_rows_eq. cbn [n_head folded].
  change ((p :: ?T) !! S j) with (T !! j).
  destruct (top || negb f); [|discriminate].
  assert (Hblock : forall cs i0, Forall (fun c0 => forall top p j x,
              subtree_rows top c0 p !! S j = Some x ->
              exists i pp k, x = i :: pp /\ (k <= j)%nat /\
                             subtree_rows top c0 p !! k = Some pp) cs ->
            forall j x, children_rows cs i0 p !! j = Some x ->
              exists i pp, x = i :: pp /\
                (pp = p \/ exists k, (k < j)%nat /\ children_rows cs i0 p !! k = Some pp)).
  { clear. induction cs as [|c0 cs IHcs]; intros i0 Hall j x Hx; [discriminate|].
    apply Forall_cons in Hall. destruct Hall as [Hc0 Hall].
    cbn [children_rows] in Hx |- *.
    destruct (decide (j < length (subtree_rows false c0 (i0 :: p)))%nat) as [Hj|Hj].
    - rewrite lookup_app_l in Hx by exact Hj. destruct j as [|j].
      + rewrite subtree_rows_head in Hx. injection Hx as <-.
        exists i0, p. split; [reflexivity|]. now left.
      + destruct (Hc0 false (i0 :: p) j x Hx) as (i & pp & k & -> & Hk & Hpp).
        exists i, pp. split; [reflexivity|]. right. exists k. split; [lia|].
        rewrite lookup_app_l by (eapply lookup_lt_Some, Hpp). exact Hpp.
    - set (len := length (subtree_rows false c0 (i0 :: p))) in *.
      assert (Hge : (len <= j)%nat) by lia.
      rewrite lookup_app_r in Hx by exact Hge.
      change (@length (list nat) (subtree_rows false c0 (i0 :: p))) with len in Hx.
      destruct (IHcs (S i0) Hall _ x Hx) as (i & pp & -> & [->|(k & Hk & Hpp)]).
      + exists i, p. split; [reflexivity|]. now left.
      + exists i, pp. split; [reflexivity|]. right.
        exists (len + k)%nat. split; [lia|].
        rewrite lookup_app_r by (change (len <= len + k)%nat; lia).
        change (@length (list nat) (subtree_rows false c0 (i0 :: p))) with len.
        now replace (len + k - len)%nat with k by lia. }
  intros Hx. destruct (Hblock head 0%nat IH j x Hx) as (i & pp & -> & [->|(k & Hk & Hpp)]).
  - exists i, p, 0%nat. split; [reflexivity|]. split; [lia|]. reflexivity.
  - exists i, pp, (S k). split; [reflexivity|]. split; [lia|]. exact Hpp.
Qed.

(** The sibling before a row is a row before it. *)
Lemma children_rows_sibling cs : forall i0 p k b,
  children_rows cs i0 p !! k = Some ((i0 + S b)%nat :: p) ->
  exists k', (k' < k)%nat /\ children_rows cs i0 p !! k' = Some ((i0 + b)%nat :: p).
Proof.
  induction cs as [|c0 cs IH]; intros i0 p k b Hk; [discriminate|].
  cbn [children_rows] in Hk |- *.
  set (len := length (subtree_rows false c0 (i0 :: p))) in *.
  assert (Hpos : (0 < len)%nat) by apply subtree_rows_length.
  destruct (decide (k < len)%nat) as [Hlt|Hge].
  - rewrite lookup_app_l in Hk by exact Hlt.
    apply list_elem_of_lookup_2, subtree_rows_suffix in Hk.
    pose proof (suffix_same_length (i0 :: p) ((i0 + S b)%nat :: p) _
                  Hk ltac:(reflexivity) eq_refl) as E.
    injection E as E. lia.
  - assert (Hge' : (len <= k)%nat) by lia.
    rewrite lookup_app_r in Hk by exact Hge'.
    change (@length (list nat) (subtree_rows false c0 (i0 :: p))) with len in Hk.
    destruct b as [|b].
    + exists 0%nat. split; [lia|]. rewrite lookup_app_l by exact Hpos.
      rewrite Nat.add_0_r. apply subtree_rows_head.
    + replace (i0 + S (S b))%nat with (S i0 + S b)%nat in Hk by lia.
      destruct (IH (S i0) p _ b Hk) as (k' & Hk' & Hs).
      exists (len + k')%nat. split; [lia|].
      rewrite lookup_app_r by (change (len <= len + k')%nat; lia).
      change (@length (list nat) (subtree_rows false c0 (i0 :: p))) with len.
      replace (len + k' - len)%nat with k' by lia.
      now replace (i0 + S b)%nat with (S i0 + b)%nat by lia.
Qed.

Lemma subtree_rows_sibling n :
  forall top p j i pp,
    subtree_rows top n p !! S j = Some (S i :: pp) ->
    exists k, (k <= j)%nat /\ subtree_rows top n p !! k = Some (i :: pp).
Proof.
  induction n as [a nm e c t ct head g l f IH] using tui_graph_node_rect'.
  intros top p j i pp. rewrite subtree_rows_eq. cbn [n_head folded].
  change ((p :: ?T) !! S j) with (T !! j).
  destruct (top || negb f); [|discriminate].
  intros Hx.
  assert (Hblock : forall cs i0, Forall (fun c0 => forall top p j i pp,
              subtree_rows top c0 p !! S j = Some (S i :: pp) ->
              exists k, (k <= j)%nat /\ subtree_rows top c0 p !! k = Some (i :: pp)) cs ->
            forall j, children_rows cs i0 p !! j = Some (S i :: pp) ->
              pp = p \/ exists k, (k < j)%nat /\ children_rows cs i0 p !! k = Some (i :: pp)).
  { clear. induction cs as [|c0 cs IHcs]; intros i0 Hall j Hx; [discriminate|].
    apply Forall_cons in Hall. destruct Hall as [Hc0 Hall].
    cbn [children_rows] in Hx |- *.
    set (len := length (subtree_rows false c0 (i0 :: p))) in *.
    destruct (decide (j < len)%nat) as [Hj|Hj].
    - rewrite lookup_app_l in Hx by exact Hj. destruct j as [|j].
      + rewrite subtree_rows_head in Hx. injection Hx as -> ->. now left.
      + destruct (Hc0 false (i0 :: p) j i pp Hx) as (k & Hk & Hs).
        right. exists k. split; [lia|].
        rewrite lookup_app_l by (eapply lookup_lt_Some, Hs). exact Hs.
    - assert (Hge : (len <= j)%nat) by lia.
      rewrite lookup_app_r in Hx by exact Hge.
      change (@length (list nat) (subtree_rows false c0 (i0 :: p))) with len in Hx.
      destruct (IHcs (S i0) Hall _ Hx) as [->|(k & Hk & Hs)]; [now left|].
      right. exists (len + k)%nat. split; [lia|].
      rewrite lookup_app_r by (change (len <= len + k)%nat; lia).
      change (@length (list nat) (subtree_rows false c0 (i0 :: p))) with len.
      now replace (len + k - len)%nat with k by lia. }
  destruct (Hblock head 0%nat IH j Hx) as [->|(k & Hk & Hs)].
  - destruct (children_rows_sibling head 0 p j i Hx) as (k & Hk & Hs).
    exists (S k). split; [lia | exact Hs].
  - exists (S k). split; [lia | exact Hs].
Qed.

(** X10. The nodes that [graph_next_node] meets from the root on are the
    rows of the tree in pre-order, a folded node other than the root
    hiding its subtree: every node on display is met, none twice, and no
    other node is. *)
Theorem graph_walk_preorder root :
  (forall fuel, graph_walk root fuel [] = take fuel (graph_rows root)) /\
  NoDup (graph_rows root) /\
  (forall x, x ∈ graph_rows root <-> visible root x = true) /\
  (forall k x, graph_rows root !! k = Some x ->
               next_of root x = graph_rows root !! S k).
Proof.
  split; [intros fuel; apply graph_walk_take|].
  split; [apply subtree_rows_NoDup|].
  split; [apply graph_rows_visible | apply graph_rows_next].
Qed.


(** * Moves to a row *)

Section engine_targets.
Context {N X : Type} `{EqDecision N}.
Variable ops : tui_window_ops N X.
Variable LINES : Z.
Variable rows : list N.
Variable B : nat.
Variable R : X -> Prop.
Variable blank : N -> N -> bool.

Hypothesis HLINES : 2 < LINES.
Hypothesis Hbound : 2 * Z.of_nat B + 2 <= INT_MAX.
Hypothesis Hfollow : follows_rows ops rows B R blank.
Hypothesis Hnodup : NoDup rows.

#[local] Abbreviation row := (row_index blank rows).
#[local] Abbreviation on_here := (on_rows rows B R blank).

  (** [while (win->curr != target) tui_window_move_up(win)] for a target
      that is a row above the cursor. *)
Lemma move_until_up_rows target k rounds :
    forall win i j,
      on_here win i j -> row j - row i < LINES - 2 ->
      rows !! k = Some target -> (k <= j)%nat -> (j - k <= rounds)%nat ->
      exists win' i',
        move_until (tui_window_move_up ops) target rounds win = Some win' /\
        on_here win' i' k /\ row k - row i' < LINES - 2 /\ (i' <= i)%nat.
  Proof.
    induction rounds as [|rounds IH]; intros win i j Hon Hscr Hk Hkj Hr;
      pose proof Hon as (HR & Hij & HjB & [c Hc] & Ht & Hcu & Hti & Hci).
    - assert (j = k) by lia. subst j. exists win, i.
      cbn [move_until]. rewrite Hcu, Hk, bool_decide_eq_true_2 by reflexivity.
      split; [reflexivity|]. split; [exact Hon|]. split; [exact Hscr | lia].
    - cbn [move_until]. rewrite Hcu.
      destruct (decide (j = k)) as [->|Hne].
      + rewrite Hk, bool_decide_eq_true_2 by reflexivity. exists win, i.
        split; [reflexivity|]. split; [exact Hon|]. split; [exact Hscr | lia].
      + rewrite bool_decide_eq_false_2.
        2:{ rewrite Hc. intros [= ->]. apply Hne. eapply NoDup_lookup; eassumption. }
        destruct (move_up_rows ops LINES rows B R blank HLINES Hbound Hfollow
                    win i j Hon Hscr) as (w1 & -> & Hon1 & Hscr1).
        cbn [mbind option_bind].
        destruct (IH w1 _ _ Hon1 Hscr1 Hk ltac:(lia) ltac:(lia))
          as (win' & i' & Hs & Hon' & Hscr' & Hle).
        exists win', i'. split; [exact Hs|]. split; [exact Hon'|].
        split; [exact Hscr' | lia].
  Qed.

  (** [while (win->curr != target) tui_window_move_down(win)] for a target
      that is a row below the cursor. *)
Lemma move_until_down_rows target k rounds :
    forall win i j,
      on_here win i j -> row j - row i < LINES - 2 ->
      rows !! k = Some target -> (j <= k)%nat -> (k <= B)%nat ->
      (k - j <= rounds)%nat ->
      exists win' i',
        move_until (tui_window_move_down ops LINES) target rounds win = Some win' /\
        on_here win' i' k /\ row k - row i' < LINES - 2 /\ (i <= i')%nat.
  Proof.
    induction rounds as [|rounds IH]; intros win i j Hon Hscr Hk Hjk HkB Hr;
      pose proof Hon as (HR & Hij & HjB & [c Hc] & Ht & Hcu & Hti & Hci).
    - assert (j = k) by lia. subst j. exists win, i.
      cbn [move_until]. rewrite Hcu, Hk, bool_decide_eq_true_2 by reflexivity.
      split; [reflexivity|]. split; [exact Hon|]. split; [exact Hscr | lia].
    - cbn [move_until]. rewrite Hcu.
      destruct (decide (j = k)) as [->|Hne].
      + rewrite Hk, bool_decide_eq_true_2 by reflexivity. exists win, i.
        split; [reflexivity|]. split; [exact Hon|]. split; [exact Hscr | lia].
      + rewrite bool_decide_eq_false_2.
        2:{ rewrite Hc. intros [= ->]. apply Hne. eapply NoDup_lookup; eassumption. }
        destruct (move_down_rows ops LINES rows B R blank HLINES Hbound Hfollow
                    win i j Hon ltac:(lia))
          as (w1 & i1 & -> & Hon1 & Hle1 & Hscr1 & _).
        cbn [mbind option_bind]. cbv zeta in Hon1, Hscr1.
        assert (Hn : is_Some (rows !! S j)).
        { apply lookup_lt_is_Some. apply lookup_lt_Some in Hk. lia. }
        destruct Hn as [n Hn]. rewrite Hn in Hon1, Hscr1.
        destruct (IH w1 _ _ Hon1 (Hscr1 Hscr) Hk ltac:(lia) HkB ltac:(lia))
          as (win' & i' & Hs & Hon' & Hscr' & Hle).
        exists win', i'. split; [exact Hs|]. split; [exact Hon'|].
        split; [exact Hscr' | lia].
  Qed.
End engine_targets.

(** ** The graph view *)

Lemma graph_walk_NoDup root fuel : NoDup (graph_walk root fuel []).
Proof.
  rewrite graph_walk_take. eapply sublist_NoDup; [|apply sublist_take].
  apply subtree_rows_NoDup.
Qed.

Lemma graph_walk_lookup root fuel k x :
  graph_walk root fuel [] !! k = Some x <->
  graph_rows root !! k = Some x /\ (k < fuel)%nat.
Proof. rewrite graph_walk_take. apply lookup_take_Some. Qed.

(** X11. In the graph view, with the cursor on a row and on the screen and
    rounds for the rows above it: move-to-parent puts the cursor on the
    parent of the node, which is a row above, and does nothing at the root;
    move-to-previous-sibling puts it on the sibling before the node, which
    is a row above too, and does nothing at a first child or at the root;
    move-to-next-sibling does nothing at a last child or at the root, and
    puts the cursor on the sibling after the node otherwise, which is a row
    below.  The indices are those of the new rows and the cursor is on the
    screen. *)
Theorem graph_window_move_family LINES B rounds (win : graph_window) i j x :
  let root := ug_root (w_ext win) in
  let rows := graph_walk root (S (S B)) [] in
  let here := on_rows rows B (fun g => ug_root g = root)
                      (fun a b => negb (is_first_child a b)) in
  2 < LINES -> 2 * Z.of_nat B + 2 <= INT_MAX ->
  here win i j -> on_screen LINES win ->
  rows !! j = Some x -> (j <= rounds)%nat ->
  match x with
  | [] =>
      tui_window_move_parent graph_ops rounds win = Some win /\
      tui_window_move_prev graph_ops rounds win = Some win /\
      tui_window_move_next graph_ops LINES rounds win = Some win
  | s :: pp =>
      (exists win' i' k,
         tui_window_move_parent graph_ops rounds win = Some win' /\
         here win' i' k /\ rows !! k = Some pp /\ (k < j)%nat /\
         on_screen LINES win') /\
      match s with
      | O => tui_window_move_prev graph_ops rounds win = Some win
      | S s' =>
          exists win' i' k,
            tui_window_move_prev graph_ops rounds win = Some win' /\
            here win' i' k /\ rows !! k = Some (s' :: pp) /\ (k < j)%nat /\
            on_screen LINES win'
      end /\
      (if is_last_child root pp x
       then tui_window_move_next graph_ops LINES rounds win = Some win
       else forall k,
           rows !! k = Some (S s :: pp) -> (k <= B)%nat -> (k - j <= rounds)%nat ->
           exists win' i',
             tui_window_move_next graph_ops LINES rounds win = Some win' /\
             here win' i' k /\ (j < k)%nat /\ on_screen LINES win')
  end.
Proof.
  intros root rows here HL Hb Hon Hscr Hx Hr.
  pose proof Hon as (HR & Hij & HjB & _ & Ht & Hcu & Hti & Hci).
  pose proof (graph_follows_rows root B) as Hfollow. fold rows in Hfollow.
  pose proof (graph_walk_NoDup root (S (S B))) as Hnd. fold rows in Hnd.
  pose proof (on_screen_rows _ _ _ _ _ _ _ _ Hon Hscr) as Hrow.
  assert (Hvis : visible root x = true) by (eapply graph_walk_row_visible, Hx).
  destruct (visible_node_at _ _ Hvis) as [n Hn].
  assert (Hup : forall target k, rows !! k = Some target -> (k < j)%nat ->
            exists win' i' k',
              move_until (tui_window_move_up graph_ops) target rounds win = Some win' /\
              here win' i' k' /\ rows !! k' = Some target /\ (k' < j)%nat /\
              on_screen LINES win').
  { intros target k Hk Hkj.
    destruct (move_until_up_rows graph_ops LINES rows B _ _ HL Hb Hfollow Hnd
                target k rounds win i j Hon Hrow Hk ltac:(lia) ltac:(lia))
      as (win' & i' & Hs & Hon' & Hscr' & _).
    exists win', i', k. split; [exact Hs|]. split; [exact Hon'|].
    split; [exact Hk|]. split; [exact Hkj|].
    eapply on_rows_on_screen; eassumption. }
  assert (Hrow0 : rows !! 0%nat = Some []) by reflexivity.
  assert (Hc : w_curr win = Some x) by (rewrite Hcu; exact Hx).
  destruct x as [|s pp].
  - unfold tui_window_move_parent, tui_window_move_prev, tui_window_move_next.
    rewrite Hc. cbn [mbind option_bind ops_parent ops_sibling_prev
                          ops_sibling_next graph_ops].
    unfold win_parent_graph, win_sibling_prev_graph, win_sibling_next_graph.
    fold root. rewrite Hn. cbn [mbind option_bind]. repeat split; reflexivity.
  - destruct j as [|j0]; [rewrite Hrow0 in Hx; discriminate Hx|].
    apply graph_walk_lookup in Hx. destruct Hx as [Hx Hjf].
    split; [|split].
    + destruct (subtree_rows_parent root true [] j0 _ Hx) as (s0 & pp0 & k & [= <- <-] & Hk & Hpp).
      destruct (Hup pp k) as (win' & i' & k' & Hs & Hrest).
      { apply graph_walk_lookup. split; [exact Hpp | lia]. }
      { lia. }
      exists win', i', k'. split; [|exact Hrest].
      unfold tui_window_move_parent. rewrite Hc.
      cbn [mbind option_bind ops_parent graph_ops]. unfold win_parent_graph.
      fold root. rewrite Hn. cbn [mbind option_bind]. exact Hs.
    + destruct s as [|s'].
      * unfold tui_window_move_prev. rewrite Hc.
        cbn [mbind option_bind ops_sibling_prev graph_ops].
        unfold win_sibling_prev_graph. fold root. rewrite Hn. reflexivity.
      * destruct (subtree_rows_sibling root true [] j0 s' pp Hx) as (k & Hk & Hsib).
        destruct (Hup (s' :: pp) k) as (win' & i' & k' & Hs & Hrest).
        { apply graph_walk_lookup. split; [exact Hsib | lia]. }
        { lia. }
        exists win', i', k'. split; [|exact Hrest].
        unfold tui_window_move_prev. rewrite Hc.
        cbn [mbind option_bind ops_sibling_prev graph_ops].
        unfold win_sibling_prev_graph. fold root. rewrite Hn.
        cbn [mbind option_bind]. rewrite bool_decide_eq_false_2 by discriminate.
        replace (S s' - 1)%nat with s' by lia. exact Hs.
    + assert (Hnext : tui_window_move_next graph_ops LINES rounds win =
                if is_last_child root pp (s :: pp) then Some win
                else move_until (tui_window_move_down graph_ops LINES) (S s :: pp)
                                rounds win).
      { unfold tui_window_move_next. rewrite Hc.
        cbn [mbind option_bind ops_sibling_next graph_ops].
        unfold win_sibling_next_graph. fold root. rewrite Hn.
        cbn [mbind option_bind]. now destruct (is_last_child root pp (s :: pp)). }
      rewrite Hnext. destruct (is_last_child root pp (s :: pp)); [reflexivity|].
      intros k Hk HkB Hkr.
      assert (Hjk : (S j0 < k)%nat).
      { pose proof Hk as Hk'. apply graph_walk_lookup in Hk'. destruct Hk' as [Hk' _].
        destruct k as [|k0]; [rewrite Hrow0 in Hk; discriminate Hk|].
        destruct (subtree_rows_sibling root true [] k0 s pp Hk') as (k1 & Hk1 & Hsib).
        assert (k1 = S j0).
        { eapply NoDup_lookup; [apply subtree_rows_NoDup | exact Hsib | exact Hx]. }
        lia. }
      destruct (move_until_down_rows graph_ops LINES rows B _ _ HL Hb Hfollow Hnd
                  (S s :: pp) k rounds win i (S j0) Hon Hrow Hk ltac:(lia) HkB Hkr)
        as (win' & i' & Hs & Hon' & Hscr' & _).
      exists win', i'. split; [exact Hs|]. split; [exact Hon'|]. split; [exact Hjk|].
      eapply on_rows_on_screen; eassumption.
Qed.

Lemma graph_window_move_family_witness :
  2 < 24 /\ 2 * Z.of_nat 5 + 2 <= INT_MAX /\
  on_rows (graph_walk sample_fork 7 []) 5 (fun g => ug_root g = sample_fork)
          (fun a b => negb (is_first_child a b)) sample_fork_window 0 1 /\
  on_screen 24 sample_fork_window /\
  graph_walk sample_fork 7 [] !! 1%nat = Some [0%nat] /\ (1 <= 3)%nat /\
  (exists win' i' k,
     tui_window_move_parent graph_ops 3 sample_fork_window = Some win' /\
     on_rows (graph_walk sample_fork 7 []) 5 (fun g => ug_root g = sample_fork)
             (fun a b => negb (is_first_child a b)) win' i' k /\
     graph_walk sample_fork 7 [] !! k = Some [] /\ (k < 1)%nat /\
     on_screen 24 win') /\
  tui_window_move_prev graph_ops 3 sample_fork_window = Some sample_fork_window /\
  (exists win' i',
     tui_window_move_next graph_ops 24 3 sample_fork_window = Some win' /\
     on_rows (graph_walk sample_fork 7 []) 5 (fun g => ug_root g = sample_fork)
             (fun a b => negb (is_first_child a b)) win' i' 3 /\
     (1 < 3)%nat /\ on_screen 24 win').
Proof.
  assert (H1 : 2 < 24) by lia.
  assert (H2 : 2 * Z.of_nat 5 + 2 <= INT_MAX) by (vm_compute; discriminate).
  assert (H3 : on_rows (graph_walk sample_fork 7 []) 5
                 (fun g => ug_root g = sample_fork)
                 (fun a b => negb (is_first_child a b)) sample_fork_window 0 1).
  { unfold on_rows. cbn. repeat split; try lia. eexists. reflexivity. }
  assert (H4 : on_screen 24 sample_fork_window) by (unfold on_screen; cbn; lia).
  assert (H5 : graph_walk sample_fork 7 [] !! 1%nat = Some [0%nat]) by reflexivity.
  assert (H6 : (1 <= 3)%nat) by lia.
  split; [exact H1|]. split; [exact H2|]. split; [exact H3|]. split; [exact H4|].
  split; [exact H5|]. split; [exact H6|].
  destruct (graph_window_move_family 24 5 3 sample_fork_window 0 1 [0%nat]
              H1 H2 H3 H4 H5 H6) as (Hp & Hv & Hn).
  split; [exact Hp|]. split; [exact Hv|].
  apply (Hn 3%nat); [reflexivity | lia | lia].
Defined.


(** * Searching *)

Lemma set_ext_set_ext {N X} (e e' : X) (win : tui_window N X) :
  set_ext e' (set_ext e win) = set_ext e' win.
Proof. reflexivity. Qed.

Lemma on_rows_set_ext {N X} rows B (R : X -> Prop) blank
    (win : tui_window N X) i j e :
  on_rows rows B R blank win i j -> R e ->
  on_rows rows B R blank (set_ext e win) i j.
Proof.
  intros (_ & H) He. split; [exact He | exact H].
Qed.

Lemma filter_length_le {A} (m : A -> bool) l :
  (length (List.filter m l) <= length l)%nat.
Proof.
  induction l as [|a l IH]; cbn; [lia|]. destruct (m a); cbn; lia.
Qed.

Section engine_search.
Context {N X : Type} `{EqDecision N}.
Variable ops : tui_window_ops N X.
Variable LINES : Z.
Variable rows : list N.
Variable B : nat.
Variable R : X -> Prop.
Variable blank : N -> N -> bool.
Variable find : tui_window N X -> N -> string -> option bool.
Variable str : string.
Variable m : N -> bool.

Hypothesis Hbound : 2 * Z.of_nat B + 2 <= INT_MAX.
Hypothesis Hfollow : follows_rows ops rows B R blank.
Hypothesis Hfind : searches_rows find str rows R m.
Hypothesis Hlen : (length rows <= S B)%nat.

Lemma search_count_loop_rows rounds :
    forall win k,
      R (w_ext win) -> (k <= length rows)%nat ->
      (length rows - k <= rounds)%nat ->
      0 <= search_count win ->
      search_count win + Z.of_nat (length rows - k) <= INT_MAX ->
      exists e,
        search_count_loop ops find str rounds (rows !! k) win =
          Some (set_ext e (set_search_count
                  (search_count win +
                   Z.of_nat (length (List.filter m (drop k rows)))) win)) /\
        R e.
  Proof.
    induction rounds as [|rounds IH]; intros win k HR Hk Hr Hc0 Hc.
    - assert (k = length rows) by lia. subst k.
      rewrite (lookup_ge_None_2 rows _ (Nat.le_refl _)), drop_all. cbn.
      exists (w_ext win). split; [|exact HR].
      destruct win; unfold set_ext, set_search_count; cbn. do 2 f_equal. lia.
    - destruct (rows !! k) as [x|] eqn:Hx.
      + pose proof (lookup_lt_Some _ _ _ Hx) as Hlt.
        cbn [search_count_loop].
        rewrite (Hfind win x HR (list_elem_of_lookup_2 _ _ _ Hx)).
        cbn [mbind option_bind].
        set (win1 := if m x then _ else win).
        assert (HR1 : R (w_ext win1)) by (subst win1; destruct (m x); exact HR).
        destruct (follows_next ops rows B R blank Hfollow win1 k x false HR1
                    ltac:(lia) Hx) as (e & -> & He).
        cbn [mbind option_bind].
        assert (Hw : wrap_int (search_count win + 1) = search_count win + 1).
        { apply wrap_int_small. unfold INT_MAX in *. lia. }
        destruct (IH (set_ext e win1) (S k)) as (e' & -> & He').
        { exact He. }
        { lia. }
        { lia. }
        { subst win1. destruct (m x); cbn; [rewrite Hw|]; lia. }
        { subst win1. destruct (m x); cbn; [rewrite Hw|]; lia. }
        exists e'. split; [|exact He'].
        rewrite (drop_S _ _ _ Hx). cbn [List.filter].
        subst win1. destruct (m x); unfold set_ext, set_search_count; cbn;
          [rewrite Hw|]; do 2 f_equal; lia.
      + apply lookup_ge_None in Hx. rewrite drop_ge by lia. cbn.
        exists (w_ext win). split; [|exact HR].
        destruct win; unfold set_ext, set_search_count; cbn. do 2 f_equal. lia.
  Qed.

Lemma search_find_next_found rounds :
    forall win j x k y,
      R (w_ext win) -> rows !! j = Some x -> (j < k)%nat ->
      rows !! k = Some y -> m y = true ->
      (forall k' z, (j < k' < k)%nat -> rows !! k' = Some z -> m z = false) ->
      (k - j <= rounds)%nat ->
      exists e,
        search_find (ops_next ops) find str rounds x win =
          Some (Some y, set_ext e win) /\ R e.
  Proof.
    induction rounds as [|rounds IH]; intros win j x k y HR Hx Hjk Hy Hm Hno Hr;
      [lia|].
    pose proof (lookup_lt_Some _ _ _ Hy) as Hk.
    cbn [search_find].
    destruct (follows_next ops rows B R blank Hfollow win j x false HR
                ltac:(lia) Hx) as (e & -> & He).
    cbn [mbind option_bind].
    destruct (lookup_lt_is_Some_2 rows (S j) ltac:(lia)) as [z Hz].
    rewrite Hz.
    rewrite (Hfind (set_ext e win) z He (list_elem_of_lookup_2 _ _ _ Hz)).
    cbn [mbind option_bind].
    destruct (decide (S j = k)) as [Heq|Hne].
    - subst k. assert (z = y) by congruence. subst z. rewrite Hm.
      exists e. split; [reflexivity | exact He].
    - rewrite (Hno (S j) z ltac:(lia) Hz).
      destruct (IH (set_ext e win) (S j) z k y He Hz ltac:(lia) Hy Hm)
        as (e' & -> & He').
      + intros k' z' Hk' Hz'. apply (Hno k' z'); [lia | exact Hz'].
      + lia.
      + exists e'. split; [reflexivity | exact He'].
  Qed.

Lemma search_find_next_none rounds :
    forall win j x,
      R (w_ext win) -> rows !! j = Some x ->
      (forall k z, (j < k)%nat -> rows !! k = Some z -> m z = false) ->
      (length rows - j <= rounds)%nat ->
      exists e,
        search_find (ops_next ops) find str rounds x win =
          Some (None, set_ext e win) /\ R e.
  Proof.
    induction rounds as [|rounds IH]; intros win j x HR Hx Hno Hr.
    - apply lookup_lt_Some in Hx. lia.
    - pose proof (lookup_lt_Some _ _ _ Hx) as Hj.
      cbn [search_find].
      destruct (follows_next ops rows B R blank Hfollow win j x false HR
                  ltac:(lia) Hx) as (e & -> & He).
      cbn [mbind option_bind].
      destruct (rows !! S j) as [z|] eqn:Hz.
      + rewrite (Hfind (set_ext e win) z He (list_elem_of_lookup_2 _ _ _ Hz)).
        cbn [mbind option_bind].
        rewrite (Hno (S j) z ltac:(lia) Hz).
        destruct (IH (set_ext e win) (S j) z He Hz) as (e' & -> & He').
        * intros k z' Hk Hz'. apply (Hno k z'); [lia | exact Hz'].
        * lia.
        * exists e'. split; [reflexivity | exact He'].
      + exists e. split; [reflexivity | exact He].
  Qed.

Lemma search_find_prev_found rounds :
    forall win j x k y,
      R (w_ext win) -> rows !! j = Some x -> (k < j)%nat ->
      rows !! k = Some y -> m y = true ->
      (forall k' z, (k < k' < j)%nat -> rows !! k' = Some z -> m z = false) ->
      (j - k <= rounds)%nat ->
      exists e,
        search_find (ops_prev ops) find str rounds x win =
          Some (Some y, set_ext e win) /\ R e.
  Proof.
    induction rounds as [|rounds IH]; intros win j x k y HR Hx Hjk Hy Hm Hno Hr;
      [lia|].
    pose proof (lookup_lt_Some _ _ _ Hx) as Hj.
    cbn [search_find].
    destruct (follows_prev ops rows B R blank Hfollow win j x false HR
                ltac:(lia) Hx) as (e & -> & He).
    cbn [mbind option_bind].
    destruct j as [|j']; [lia|].
    destruct (lookup_lt_is_Some_2 rows j' ltac:(lia)) as [z Hz].
    rewrite Hz.
    rewrite (Hfind (set_ext e win) z He (list_elem_of_lookup_2 _ _ _ Hz)).
    cbn [mbind option_bind].
    destruct (decide (j' = k)) as [Heq|Hne].
    - subst k. assert (z = y) by congruence. subst z. rewrite Hm.
      exists e. split; [reflexivity | exact He].
    - rewrite (Hno j' z ltac:(lia) Hz).
      destruct (IH (set_ext e win) j' z k y He Hz ltac:(lia) Hy Hm)
        as (e' & -> & He').
      + intros k' z' Hk' Hz'. apply (Hno k' z'); [lia | exact Hz'].
      + lia.
      + exists e'. split; [reflexivity | exact He'].
  Qed.

Lemma search_find_prev_none rounds :
    forall win j x,
      R (w_ext win) -> rows !! j = Some x ->
      (forall k z, (k < j)%nat -> rows !! k = Some z -> m z = false) ->
      (j < rounds)%nat ->
      exists e,
        search_find (ops_prev ops) find str rounds x win =
          Some (None, set_ext e win) /\ R e.
  Proof.
    induction rounds as [|rounds IH]; intros win j x HR Hx Hno Hr; [lia|].
    pose proof (lookup_lt_Some _ _ _ Hx) as Hj.
    cbn [search_find].
    destruct (follows_prev ops rows B R blank Hfollow win j x false HR
                ltac:(lia) Hx) as (e & -> & He).
    cbn [mbind option_bind].
    destruct j as [|j'].
    - exists e. split; [reflexivity | exact He].
    - destruct (lookup_lt_is_Some_2 rows j' ltac:(lia)) as [z Hz].
      rewrite Hz.
      rewrite (Hfind (set_ext e win) z He (list_elem_of_lookup_2 _ _ _ Hz)).
      cbn [mbind option_bind].
      rewrite (Hno j' z ltac:(lia) Hz).
      destruct (IH (set_ext e win) j' z He Hz) as (e' & -> & He').
      + intros k z' Hk Hz'. apply (Hno k z'); [lia | exact Hz'].
      + lia.
      + exists e'. split; [reflexivity | exact He'].
  Qed.

Hypothesis HLINES : 2 < LINES.
Hypothesis Hnodup : NoDup rows.
Hypothesis Htop : top_of_rows ops rows R.

Lemma search_count_rows rounds win :
    R (w_ext win) -> (length rows <= rounds)%nat ->
    search_count win = -1 ->
    exists e,
      tui_window_search_count ops (Some find) (Some str) rounds win =
        Some (set_ext e (set_search_count
                (Z.of_nat (length (List.filter m rows))) win)) /\
      R e.
  Proof.
    intros HR Hr Hc. unfold tui_window_search_count. rewrite Hc. cbn [Z.eqb].
    destruct (Htop (set_search_count 0 win) false HR) as (e & -> & He).
    cbn [mbind option_bind].
    destruct (search_count_loop_rows rounds (set_ext e (set_search_count 0 win))
                0%nat) as (e' & -> & He').
    - exact He.
    - lia.
    - lia.
    - cbn. lia.
    - cbn. unfold INT_MAX in *. lia.
    - exists e'. split; [|exact He']. rewrite drop_0.
      destruct win; reflexivity.
  Qed.

Lemma search_next_rows rounds win i j :
    on_rows rows B R blank win i j ->
    row_index blank rows j - row_index blank rows i < LINES - 2 ->
    (length rows <= rounds)%nat ->
    (forall k y,
        (j < k)%nat -> rows !! k = Some y -> m y = true ->
        (forall k' z, (j < k' < k)%nat -> rows !! k' = Some z -> m z = false) ->
        exists win' i',
          tui_window_search_next ops LINES (Some find) (Some str) rounds win =
            Some win' /\
          on_rows rows B R blank win' i' k /\
          row_index blank rows k - row_index blank rows i' < LINES - 2) /\
    ((forall k z, (j < k)%nat -> rows !! k = Some z -> m z = false) ->
     exists e,
       tui_window_search_next ops LINES (Some find) (Some str) rounds win =
         Some (set_ext e win) /\ R e).
  Proof.
    intros Hon Hscr Hr.
    pose proof Hon as (HR & Hij & HjB & [x Hx] & Ht & Hcu & Hti & Hci).
    assert (Hc : w_curr win = Some x) by (rewrite Hcu; exact Hx).
    pose proof (lookup_lt_Some _ _ _ Hx) as Hj.
    split.
    - intros k y Hjk Hy Hm Hno.
      pose proof (lookup_lt_Some _ _ _ Hy) as Hk.
      unfold tui_window_search_next. rewrite Hc. cbn [mbind option_bind].
      destruct (search_find_next_found rounds win j x k y HR Hx Hjk Hy Hm Hno
                  ltac:(lia)) as (e & -> & He).
      cbn [mbind option_bind].
      destruct (move_until_down_rows ops LINES rows B R blank HLINES Hbound
                  Hfollow Hnodup y k rounds (set_ext e win) i j
                  (on_rows_set_ext _ _ _ _ _ _ _ _ Hon He) Hscr Hy
                  ltac:(lia) ltac:(lia) ltac:(lia))
        as (win' & i' & Hs & Hon' & Hscr' & _).
      exists win', i'. split; [exact Hs|]. split; [exact Hon' | exact Hscr'].
    - intros Hno.
      unfold tui_window_search_next. rewrite Hc. cbn [mbind option_bind].
      destruct (search_find_next_none rounds win j x HR Hx Hno ltac:(lia))
        as (e & -> & He).
      exists e. split; [reflexivity | exact He].
  Qed.

Lemma search_prev_rows rounds win i j :
    on_rows rows B R blank win i j ->
    row_index blank rows j - row_index blank rows i < LINES - 2 ->
    (length rows <= rounds)%nat ->
    (forall k y,
        (k < j)%nat -> rows !! k = Some y -> m y = true ->
        (forall k' z, (k < k' < j)%nat -> rows !! k' = Some z -> m z = false) ->
        exists win' i',
          tui_window_search_prev ops (Some find) (Some str) rounds win =
            Some win' /\
          on_rows rows B R blank win' i' k /\
          row_index blank rows k - row_index blank rows i' < LINES - 2) /\
    ((forall k z, (k < j)%nat -> rows !! k = Some z -> m z = false) ->
     exists e,
       tui_window_search_prev ops (Some find) (Some str) rounds win =
         Some (set_ext e win) /\ R e).
  Proof.
    intros Hon Hscr Hr.
    pose proof Hon as (HR & Hij & HjB & [x Hx] & Ht & Hcu & Hti & Hci).
    assert (Hc : w_curr win = Some x) by (rewrite Hcu; exact Hx).
    pose proof (lookup_lt_Some _ _ _ Hx) as Hj.
    split.
    - intros k y Hjk Hy Hm Hno.
      unfold tui_window_search_prev. rewrite Hc. cbn [mbind option_bind].
      destruct (search_find_prev_found rounds win j x k y HR Hx Hjk Hy Hm Hno
                  ltac:(lia)) as (e & -> & He).
      cbn [mbind option_bind].
      destruct (move_until_up_rows ops LINES rows B R blank HLINES Hbound
                  Hfollow Hnodup y k rounds (set_ext e win) i j
                  (on_rows_set_ext _ _ _ _ _ _ _ _ Hon He) Hscr Hy
                  ltac:(lia) ltac:(lia))
        as (win' & i' & Hs & Hon' & Hscr' & _).
      exists win', i'. split; [exact Hs|]. split; [exact Hon' | exact Hscr'].
    - intros Hno.
      unfold tui_window_search_prev. rewrite Hc. cbn [mbind option_bind].
      destruct (search_find_prev_none rounds win j x HR Hx Hno ltac:(lia))
        as (e & -> & He).
      exists e. split; [reflexivity | exact He].
  Qed.
End engine_search.

(** ** The graph view *)

Lemma graph_walk_all root B :
  (length (graph_rows root) <= S B)%nat ->
  graph_walk root (S (S B)) [] = graph_rows root.
Proof. intros H. rewrite graph_walk_take. apply take_ge. lia. Qed.

Lemma graph_top_of_rows root B :
  top_of_rows graph_ops (graph_walk root (S (S B)) [])
              (fun g => ug_root g = root).
Proof.
  intros win u HR. cbn [ops_top graph_ops]. unfold win_top_graph.
  destruct u.
  - eexists. split; [reflexivity|]. destruct (w_ext win); exact HR.
  - exists (w_ext win). rewrite set_ext_same. split; [reflexivity | exact HR].
Qed.

Lemma graph_top_of_rows_all root B :
  (length (graph_rows root) <= S B)%nat ->
  top_of_rows graph_ops (graph_rows root) (fun g => ug_root g = root).
Proof.
  intros H. rewrite <- (graph_walk_all root B H). apply graph_top_of_rows.
Qed.

Lemma graph_searches_rows root str fuel :
  searches_rows win_search_graph str (graph_walk root fuel [])
                (fun g => ug_root g = root) (graph_match root str).
Proof.
  intros win x HR Hx. unfold win_search_graph, graph_match. rewrite HR.
  apply list_elem_of_lookup_1 in Hx. destruct Hx as [k Hk].
  destruct (visible_node_at _ _ (graph_walk_row_visible _ _ _ _ Hk)) as [n ->].
  reflexivity.
Qed.

(** X12. The count of a search in the graph view, when it has to be made:
    it is the number of the nodes on display, those that no folded node
    hides, whose name contains the string.  The cursor, the top and the
    tree are left as they are.  A count that is already there is kept as it
    is, and nothing is counted without a search string. *)
Theorem graph_search_count root B str rounds (win : graph_window) :
  2 * Z.of_nat B + 2 <= INT_MAX ->
  ug_root (w_ext win) = root ->
  (length (graph_rows root) <= S B)%nat ->
  (length (graph_rows root) <= rounds)%nat ->
  (search_count win = -1 ->
   exists e,
     tui_window_search_count graph_ops (Some win_search_graph) (Some str)
                             rounds win =
       Some (set_ext e (set_search_count
               (Z.of_nat (length (List.filter (graph_match root str)
                                              (graph_rows root)))) win)) /\
     ug_root e = root) /\
  (search_count win <> -1 ->
   tui_window_search_count graph_ops (Some win_search_graph) (Some str)
                           rounds win = Some win) /\
  tui_window_search_count graph_ops (Some win_search_graph) None rounds win =
    Some win.
Proof.
  intros Hb HR Hlen Hr. split; [|split].
  - intros Hc.
    pose proof (search_count_rows graph_ops (graph_walk root (S (S B)) []) B
                  (fun g => ug_root g = root)
                  (fun a b => negb (is_first_child a b))
                  win_search_graph str (graph_match root str) Hb
                  (graph_follows_rows root B)
                  (graph_searches_rows root str _)) as H.
    rewrite (graph_walk_all root B Hlen) in H.
    apply (H Hlen (graph_top_of_rows_all root B Hlen) rounds win HR Hr Hc).
  - intros Hc. unfold tui_window_search_count.
    destruct (search_count win =? -1) eqn:E; [|reflexivity].
    apply Z.eqb_eq in E. contradiction.
  - reflexivity.
Qed.

Lemma graph_search_count_witness :
  2 * Z.of_nat 5 + 2 <= INT_MAX /\
  (length (graph_rows sample_fork) <= 6)%nat /\
  (length (graph_rows sample_fork) <= 4)%nat /\
  exists e,
    tui_window_search_count graph_ops (Some win_search_graph) (Some "a"%string)
                            4 (set_search_count (-1) sample_fork_window) =
      Some (set_ext e (set_search_count 2 sample_fork_window)) /\
    ug_root e = sample_fork.
Proof.
  assert (H1 : 2 * Z.of_nat 5 + 2 <= INT_MAX) by (vm_compute; discriminate).
  assert (H2 : (length (graph_rows sample_fork) <= 6)%nat) by (cbn; lia).
  assert (H3 : (length (graph_rows sample_fork) <= 4)%nat) by (cbn; lia).
  split; [exact H1|]. split; [exact H2|]. split; [exact H3|].
  destruct (graph_search_count sample_fork 5 "a" 4
              (set_search_count (-1) sample_fork_window) H1 eq_refl H2 H3)
    as (H & _).
  exact (H eq_refl).
Defined.




(** * Folding under the cursor *)

Lemma children_rows_app l1 l2 k p :
  children_rows (l1 ++ l2) k p =
  children_rows l1 k p ++ children_rows l2 (k + length l1) p.
Proof.
  revert k. induction l1 as [|c l1 IH]; intros k; cbn [app children_rows length].
  - now rewrite Nat.add_0_r.
  - rewrite IH, <- app_assoc. do 3 f_equal. lia.
Qed.

(** The rows of a tree around the subtree of a node on display, and what
    an update of the node makes of them. *)
Lemma rows_update_at root p :
  forall f n,
    visible root p = true -> node_at root p = Some n ->
    exists pre post,
      graph_rows root =
        pre ++ subtree_rows (bool_decide (p = [])) n p ++ post /\
      graph_rows (update_at root p f) =
        pre ++ subtree_rows (bool_decide (p = [])) (f n) p ++ post.
Proof.
  induction p as [|i pp IH]; intros f n Hv Hn.
  - cbn in Hn. injection Hn as <-. exists [], []. cbn [update_at app].
    rewrite !app_nil_r. split; reflexivity.
  - cbn [visible] in Hv. cbn [node_at] in Hn.
    destruct (node_at root pp) as [pn|] eqn:Hpn; [|discriminate].
    apply andb_true_iff in Hv. destruct Hv as [Hv Hvp].
    apply andb_true_iff in Hv. destruct Hv as [Hi Hshown].
    apply bool_decide_eq_true in Hi.
    cbn [update_at].
    set (f' := fun n0 : tui_graph_node =>
                 match n_head n0 !! i with
                 | Some c => set_head (<[i := f c]> (n_head n0)) n0
                 | None => n0
                 end).
    destruct (IH f' pn Hvp eq_refl) as (pre & post & E1 & E2).
    assert (Hf' : f' pn = set_head (<[i := f n]> (n_head pn)) pn).
    { unfold f'. now rewrite Hn. }
    rewrite Hf' in E2.
    rewrite subtree_rows_eq in E1, E2.
    cbn [n_head folded set_head] in E2.
    unfold gpath in *. rewrite Hshown in E1, E2.
    assert (Hsplit : n_head pn = take i (n_head pn) ++ n :: drop (S i) (n_head pn)).
    { symmetry. apply take_drop_middle. exact Hn. }
    assert (Hsplit' : <[i := f n]> (n_head pn) =
                      take i (n_head pn) ++ f n :: drop (S i) (n_head pn)).
    { apply insert_take_drop. exact Hi. }
    assert (Hlen : length (take i (n_head pn)) = i).
    { rewrite length_take. lia. }
    rewrite Hsplit in E1 at 1. rewrite Hsplit' in E2.
    rewrite children_rows_app in E1, E2. cbn [children_rows] in E1, E2.
    rewrite Hlen in E1, E2. cbn [Nat.add] in E1, E2.
    exists (pre ++ pp :: children_rows (take i (n_head pn)) 0 pp),
           (children_rows (drop (S i) (n_head pn)) (S i) pp ++ post).
    rewrite bool_decide_eq_false_2 by discriminate.
    split.
    + rewrite E1. rewrite <- !app_assoc. cbn [app]. rewrite <- !app_assoc.
      reflexivity.
    + rewrite E2. rewrite <- !app_assoc. cbn [app]. rewrite <- !app_assoc.
      reflexivity.
Qed.

Lemma row_index_agree {N} (blank : N -> N -> bool) rows rows' j :
  (forall k, (k <= j)%nat -> rows' !! k = rows !! k) ->
  row_index blank rows' j = row_index blank rows j.
Proof.
  induction j as [|j IH]; intros H; [reflexivity|].
  cbn [row_index]. rewrite IH by (intros k Hk; apply H; lia).
  rewrite (H j), (H (S j)) by lia. reflexivity.
Qed.

Lemma on_rows_agree {N X} rows rows' B (R R' : X -> Prop) blank
    (win : tui_window N X) i j e :
  on_rows rows B R blank win i j ->
  (forall k, (k <= j)%nat -> rows' !! k = rows !! k) -> R' e ->
  on_rows rows' B R' blank (set_ext e win) i j.
Proof.
  intros (_ & Hij & HjB & Hs & Ht & Hc & Hti & Hci) Hag He.
  split; [exact He|]. split; [exact Hij|]. split; [exact HjB|].
  split; [now rewrite Hag|].
  split; [now cbn; rewrite Hag|]. split; [now cbn; rewrite Hag|].
  split; cbn.
  - rewrite Hti. symmetry. apply row_index_agree.
    intros k Hk. apply Hag. lia.
  - rewrite Hci. symmetry. now apply row_index_agree.
Qed.

(** An update of the node under the cursor leaves the rows down to the
    cursor and the rows after the subtree as they are: the window stays on
    its rows. *)
Lemma graph_update_on_rows root B (win : graph_window) i j x n f :
  on_rows (graph_rows root) B (fun g => ug_root g = root)
          (fun a b => negb (is_first_child a b)) win i j ->
  graph_rows root !! j = Some x -> node_at root x = Some n ->
  exists pre post,
    length pre = j /\
    graph_rows root = pre ++ subtree_rows (bool_decide (x = [])) n x ++ post /\
    graph_rows (update_at root x f) =
      pre ++ subtree_rows (bool_decide (x = [])) (f n) x ++ post /\
    on_rows (graph_rows (update_at root x f)) B
            (fun g => ug_root g = update_at root x f)
            (fun a b => negb (is_first_child a b))
            (set_ext (set_ug_root (update_at root x f) (w_ext win)) win) i j.
Proof.
  intros Hon Hx Hn.
  assert (Hv : visible root x = true).
  { apply graph_rows_visible. eapply list_elem_of_lookup_2, Hx. }
  destruct (rows_update_at root x f n Hv Hn) as (pre & post & E1 & E2).
  assert (Hpre : length pre = j).
  { eapply NoDup_lookup; [apply (subtree_rows_NoDup root true []) | | exact Hx].
    fold (graph_rows root). rewrite E1.
    rewrite lookup_app_r by lia. rewrite Nat.sub_diag.
    rewrite lookup_app_l by apply subtree_rows_length.
    apply subtree_rows_head. }
  exists pre, post. split; [exact Hpre|]. split; [exact E1|]. split; [exact E2|].
  eapply on_rows_agree; [exact Hon | | reflexivity].
  intros k Hk. rewrite E1, E2.
  destruct (decide (k < length pre)%nat) as [Hlt|Hge].
  - rewrite (lookup_app_l pre _ k Hlt). symmetry. apply (lookup_app_l pre _ k Hlt).
  - assert (k = length pre) by lia. subst k.
    rewrite (lookup_app_r pre _ _ (Nat.le_refl _)).
    rewrite (lookup_app_r pre _ _ (Nat.le_refl _)). rewrite Nat.sub_diag.
    rewrite (lookup_app_l _ post _ (subtree_rows_length _ (f n) x)).
    rewrite (lookup_app_l _ post _ (subtree_rows_length _ n x)).
    now rewrite !subtree_rows_head.
Qed.

Lemma set_ug_root_back root root' (g : tui_graph) :
  ug_root g = root -> set_ug_root root (set_ug_root root' g) = g.
Proof. intros <-. now destruct g. Qed.

Lemma set_folded_back (n : tui_graph_node) :
  set_folded (negb (negb (folded n))) (set_folded (negb (folded n)) n) = n.
Proof. destruct n as [a nm e c t ct head g l f]. cbn. now rewrite negb_involutive. Qed.

(** X14. Enter on the node under the cursor of the graph view: at the root
    and at a leaf nothing is done and the answer is false.  At any other
    node the fold flag of the node is turned over and the answer is true:
    folding takes the rows of the nodes below the node off the display,
    unfolding puts them back, and the rows before and after them are as
    they were, so the cursor and the top are still on their rows with their
    indices.  A second enter gives back the window as it was. *)
Theorem graph_window_enter root B (win : graph_window) i j x :
  let rows := graph_rows root in
  let blank := fun a b : gpath => negb (is_first_child a b) in
  on_rows rows B (fun g => ug_root g = root) blank win i j ->
  rows !! j = Some x ->
  exists n,
    node_at root x = Some n /\
    if bool_decide (x = []) || list_empty n
    then tui_window_enter (Some win_enter_graph) win = Some (false, win)
    else
      exists win' pre post,
        let root' := ug_root (w_ext win') in
        tui_window_enter (Some win_enter_graph) win = Some (true, win') /\
        node_at root' x = Some (set_folded (negb (folded n)) n) /\
        length pre = j /\
        rows = pre ++ x :: (if folded n then []
                            else children_rows (n_head n) 0 x) ++ post /\
        graph_rows root' =
          pre ++ x :: (if folded n then children_rows (n_head n) 0 x
                       else []) ++ post /\
        on_rows (graph_rows root') B (fun g => ug_root g = root') blank win' i j /\
        tui_window_enter (Some win_enter_graph) win' = Some (true, win).
Proof.
  intros rows blank Hon Hx.
  pose proof Hon as (HR & Hij & HjB & _ & Ht & Hcu & Hti & Hci).
  assert (Hc : w_curr win = Some x) by (rewrite Hcu; exact Hx).
  assert (Hv : visible root x = true).
  { apply graph_rows_visible. eapply list_elem_of_lookup_2, Hx. }
  destruct (visible_node_at _ _ Hv) as [n Hn]. exists n. split; [exact Hn|].
  assert (Henter : tui_window_enter (Some win_enter_graph) win =
                   win_enter_graph win x).
  { unfold tui_window_enter. now rewrite Hc. }
  rewrite Henter. unfold win_enter_graph at 1. rewrite HR, Hn.
  cbn [mbind option_bind].
  destruct x as [|s pp]; [reflexivity|].
  rewrite bool_decide_eq_false_2 by discriminate. cbn [orb].
  destruct (list_empty n) eqn:Hempty; [reflexivity|].
  set (f := set_folded (negb (folded n))).
  destruct (graph_update_on_rows root B win i j (s :: pp) n f Hon Hx Hn)
    as (pre & post & Hpre & E1 & E2 & Hon').
  rewrite bool_decide_eq_false_2 in E1, E2 by discriminate.
  rewrite subtree_rows_eq in E1, E2.
  cbn [orb] in E1, E2.
  replace (folded (f n)) with (negb (folded n)) in E2
    by (destruct n; reflexivity).
  replace (n_head (f n)) with (n_head n) in E2 by (destruct n; reflexivity).
  set (win' := set_ext (set_ug_root (update_at root (s :: pp) f) (w_ext win)) win).
  exists win', pre, post.
  assert (Hroot' : ug_root (w_ext win') = update_at root (s :: pp) f) by reflexivity.
  cbv zeta. rewrite Hroot'.
  split; [unfold win_enter_graph; rewrite HR, Hn;
          cbn [mbind option_bind]; rewrite Hempty; reflexivity|].
  split; [rewrite node_at_update_at, Hn; reflexivity|].
  split; [exact Hpre|].
  split; [fold rows in E1; rewrite E1; now destruct (folded n)|].
  split; [rewrite E2; now destruct (folded n)|].
  split; [exact Hon'|].
  unfold tui_window_enter. change (w_curr win') with (w_curr win). rewrite Hc.
  cbn [mbind option_bind]. unfold win_enter_graph. rewrite Hroot'.
  rewrite node_at_update_at, Hn. cbn [fmap option_fmap option_map mbind option_bind].
  replace (list_empty (f n)) with (list_empty n) by (destruct n; reflexivity).
  rewrite Hempty. do 2 f_equal.
  rewrite update_at_twice.
  rewrite (update_at_ext_at root (s :: pp) _ (fun y => y) n Hn).
  - rewrite update_at_id. subst win'.
    change (w_ext (set_ext ?e win)) with e.
    rewrite (set_ug_root_back root _ (w_ext win) HR).
    rewrite set_ext_set_ext. apply set_ext_same.
  - replace (folded (f n)) with (negb (folded n)) by (destruct n; reflexivity).
    apply set_folded_back.
Qed.

Lemma graph_window_enter_witness :
  on_rows (graph_rows sample_fork) 5 (fun g => ug_root g = sample_fork)
          (fun a b => negb (is_first_child a b)) sample_fork_window 0 1 /\
  graph_rows sample_fork !! 1%nat = Some [0%nat] /\
  exists win',
    tui_window_enter (Some win_enter_graph) sample_fork_window = Some (true, win') /\
    graph_rows (ug_root (w_ext win')) = [[]; [0%nat]; [1%nat]] /\
    tui_window_enter (Some win_enter_graph) win' = Some (true, sample_fork_window).
Proof.
  assert (H1 : on_rows (graph_rows sample_fork) 5
                 (fun g => ug_root g = sample_fork)
                 (fun a b => negb (is_first_child a b)) sample_fork_window 0 1).
  { unfold on_rows. cbn. repeat split; try lia. eexists. reflexivity. }
  assert (H2 : graph_rows sample_fork !! 1%nat = Some [0%nat]) by reflexivity.
  split; [exact H1|]. split; [exact H2|].
  destruct (graph_window_enter sample_fork 5 sample_fork_window 0 1 [0%nat] H1 H2)
    as (n & Hn & H).
  cbn in Hn. injection Hn as <-. cbn [bool_decide orb list_empty n_head sample_node] in H.
  rewrite bool_decide_eq_false_2 in H by discriminate. cbn [orb] in H.
  destruct H as (win' & pre & post & E1 & _ & _ & _ & _ & _ & E7).
  exists win'. split; [exact E1|]. split; [|exact E7].
  cbn in E1. injection E1 as <-. reflexivity.
Defined.

(** ** Collapse and expand *)

Lemma collapse_children_rows cs : forall k p,
  children_rows (map (fold_tree true) cs) k p = imap (fun i _ => (k + i)%nat :: p) cs.
Proof.
  induction cs as [|c cs IH]; intros k p; [reflexivity|].
  cbn [map children_rows]. rewrite IH, subtree_rows_eq. cbn [orb].
  rewrite fold_tree_folded, fold_tree_head.
  cbn [imap]. rewrite Nat.add_0_r.
  assert (E : (if negb (if list_empty c then folded c else true)
               then children_rows (map (fold_tree true) (n_head c)) 0 (k :: p)
               else []) = []).
  { unfold list_empty. destruct (n_head c); [now destruct (negb (folded c))|reflexivity]. }
  rewrite E. cbn [app]. f_equal.
  apply imap_ext. intros i x _. cbn. f_equal. lia.
Qed.

Lemma expand_rows_length c : forall top p,
  Z.of_nat (length (subtree_rows top (fold_tree false c) p)) = nr_nodes c.
Proof.
  induction c as [a nm e cnt t ct head g l f IH] using tui_graph_node_rect'.
  intros top p. rewrite subtree_rows_eq, fold_tree_folded, fold_tree_head, nr_nodes_eq.
  cbn [n_head folded list_empty length].
  assert (Hsum : forall k, Z.of_nat (length (children_rows (map (fold_tree false) head) k p))
                           = sum_nodes head).
  { clear -IH. induction IH as [|c cs Hc _ IHcs]; intros k; [reflexivity|].
    cbn [map children_rows sum_nodes fold_right].
    rewrite length_app, Nat2Z.inj_add, Hc, IHcs. reflexivity. }
  unfold list_empty. cbn [n_head].
  destruct head as [|c0 cs].
  - cbn. now destruct (top || negb f).
  - cbn [negb]. rewrite orb_true_r. cbn [length].
    rewrite Nat2Z.inj_succ, Hsum. lia.
Qed.

Lemma expand_children_length cs : forall k p,
  Z.of_nat (length (children_rows (map (fold_tree false) cs) k p)) = sum_nodes cs.
Proof.
  induction cs as [|c cs IH]; intros k p; [reflexivity|].
  cbn [map children_rows sum_nodes fold_right].
  rewrite length_app, Nat2Z.inj_add, expand_rows_length, IH. reflexivity.
Qed.

Lemma win_fold_rows fold top n x :
  subtree_rows top (snd (win_fold fold n)) x =
  x :: (if top || negb (folded n)
        then children_rows (map (fold_tree fold) (n_head n)) 0 x else []).
Proof. rewrite win_fold_tree, subtree_rows_eq. reflexivity. Qed.

(** X15. Collapse and expand on the node under the cursor of the graph
    view leave the rows down to the cursor and the rows after the subtree
    of the node as they are, so the cursor and the top are still on their
    rows with their indices.  Below the cursor, unless the node itself is
    folded, collapse leaves on display the children of the node and
    nothing under them, and expand puts every node under the node on
    display.  When the node itself is folded, no row comes below it,
    whatever the two change under it. *)
Theorem graph_window_collapse_expand root B (win : graph_window) i j x :
  let rows := graph_rows root in
  let blank := fun a b : gpath => negb (is_first_child a b) in
  on_rows rows B (fun g => ug_root g = root) blank win i j ->
  rows !! j = Some x ->
  exists n pre post,
    node_at root x = Some n /\ length pre = j /\
    rows = pre ++ subtree_rows (bool_decide (x = [])) n x ++ post /\
    let shown := bool_decide (x = []) || negb (folded n) in
    (exists win',
       let root' := ug_root (w_ext win') in
       tui_window_collapse (Some (win_fold_graph win_collapse_graph)) win =
         Some (fst (win_collapse_graph n), win') /\
       graph_rows root' =
         pre ++ x :: (if shown then child_rows n x else []) ++ post /\
       on_rows (graph_rows root') B (fun g => ug_root g = root') blank win' i j) /\
    (exists win' below,
       let root' := ug_root (w_ext win') in
       tui_window_expand (Some (win_fold_graph win_expand_graph)) win =
         Some (fst (win_expand_graph n), win') /\
       graph_rows root' = pre ++ x :: (if shown then below else []) ++ post /\
       Z.of_nat (length below) = nr_nodes n - 1 /\
       on_rows (graph_rows root') B (fun g => ug_root g = root') blank win' i j).
Proof.
  intros rows blank Hon Hx.
  pose proof Hon as (HR & Hij & HjB & _ & Ht & Hcu & Hti & Hci).
  assert (Hc : w_curr win = Some x) by (rewrite Hcu; exact Hx).
  assert (Hv : visible root x = true).
  { apply graph_rows_visible. eapply list_elem_of_lookup_2, Hx. }
  destruct (visible_node_at _ _ Hv) as [n Hn].
  destruct (graph_update_on_rows root B win i j x n
              (fun c => snd (win_collapse_graph c)) Hon Hx Hn)
    as (pre & post & Hpre & E1 & Ec & Honc).
  destruct (graph_update_on_rows root B win i j x n
              (fun c => snd (win_expand_graph c)) Hon Hx Hn)
    as (pre' & post' & Hpre' & E1' & Ee & Hone).
  assert (Hsame : pre' = pre /\ post' = post).
  { rewrite E1 in E1'. apply app_inj_1 in E1'; [|congruence].
    destruct E1' as [-> E]. apply app_inv_head in E. now split. }
  destruct Hsame as [-> ->].
  exists n, pre, post. split; [exact Hn|]. split; [exact Hpre|].
  split; [exact E1|]. cbv zeta. split.
  - eexists. split; [|split; [|exact Honc]].
    + unfold tui_window_collapse. rewrite Hc. cbn [mbind option_bind].
      unfold win_fold_graph. rewrite HR, Hn. reflexivity.
    + cbn [w_ext set_ext ug_root set_ug_root]. rewrite Ec.
      rewrite win_collapse_graph_eq, win_fold_rows, collapse_children_rows.
      reflexivity.
  - exists (set_ext (set_ug_root
                       (update_at root x (fun c => snd (win_expand_graph c)))
                       (w_ext win)) win),
           (children_rows (map (fold_tree false) (n_head n)) 0 x).
    split; [|split; [|split; [|exact Hone]]].
    + unfold tui_window_expand. rewrite Hc. cbn [mbind option_bind].
      unfold win_fold_graph. rewrite HR, Hn. reflexivity.
    + cbn [w_ext set_ext ug_root set_ug_root]. rewrite Ee.
      rewrite win_expand_graph_eq, win_fold_rows. reflexivity.
    + rewrite expand_children_length, nr_nodes_eq. lia.
Qed.

Lemma graph_window_collapse_expand_witness :
  on_rows (graph_rows sample_fork) 5 (fun g => ug_root g = sample_fork)
          (fun a b => negb (is_first_child a b))
          (set_curr (Some []) (set_curr_index 0 sample_fork_window)) 0 0 /\
  graph_rows sample_fork !! 0%nat = Some [] /\
  (exists r win',
     tui_window_collapse (Some (win_fold_graph win_collapse_graph))
       (set_curr (Some []) (set_curr_index 0 sample_fork_window)) = Some (r, win') /\
     graph_rows (ug_root (w_ext win')) = [[]; [0%nat]; [1%nat]]) /\
  (exists r win',
     tui_window_expand (Some (win_fold_graph win_expand_graph))
       (set_curr (Some []) (set_curr_index 0 sample_fork_window)) = Some (r, win') /\
     length (graph_rows (ug_root (w_ext win'))) = 4%nat).
Proof.
  set (win := set_curr (Some []) (set_curr_index 0 sample_fork_window)).
  assert (H1 : on_rows (graph_rows sample_fork) 5
                 (fun g => ug_root g = sample_fork)
                 (fun a b => negb (is_first_child a b)) win 0 0).
  { unfold on_rows. cbn. repeat split; try lia. eexists. reflexivity. }
  assert (H2 : graph_rows sample_fork !! 0%nat = Some []) by reflexivity.
  split; [exact H1|]. split; [exact H2|].
  destruct (graph_window_collapse_expand sample_fork 5 win 0 0 [] H1 H2)
    as (n & pre & post & Hn & Hpre & E & (wc & Ec & Rc & _) & (we & below & Ee & Re & _)).
  split.
  - eexists _, wc. split; [exact Ec|].
    apply (f_equal (fun o => snd <$> o)) in Ec. cbn in Ec.
    injection Ec as <-. reflexivity.
  - eexists _, we. split; [exact Ee|].
    apply (f_equal (fun o => snd <$> o)) in Ee. cbn in Ee.
    injection Ee as <-. reflexivity.
Defined.


(** * The depth and the mask of the traversal *)

Lemma branch_depth_nonneg root x : 0 <= branch_depth root x.
Proof.
  induction x as [|i pp IH]; cbn [branch_depth]; [lia|].
  destruct (node_at root pp) as [p|]; [destruct (list_is_singular p)|]; lia.
Qed.

Lemma leave_mask_length root x :
  is_Some (node_at root x) ->
  Z.of_nat (length (leave_mask root x)) = branch_depth root x.
Proof.
  induction x as [|i pp IH]; intros Hx; [reflexivity|].
  cbn [leave_mask branch_depth]. cbn [node_at] in Hx.
  destruct (node_at root pp) as [p|]; [|destruct Hx; discriminate].
  specialize (IH ltac:(eexists; reflexivity)).
  destruct (list_is_singular p); [lia|]. rewrite length_app. cbn. lia.
Qed.

Lemma arrive_mask_length root x :
  is_Some (node_at root x) ->
  Z.of_nat (length (arrive_mask root x)) = branch_depth root x.
Proof.
  destruct x as [|i pp]; intros Hx; [reflexivity|].
  cbn [arrive_mask branch_depth]. cbn [node_at] in Hx.
  destruct (node_at root pp) as [p|] eqn:Hp; [|destruct Hx; discriminate].
  pose proof (leave_mask_length root pp ltac:(eexists; exact Hp)) as IH.
  destruct (list_is_singular p); [lia|]. rewrite length_app. cbn. lia.
Qed.

(** A prefix of a mask that has the length asked for. *)
Lemma take_length_le {A} (l : list A) (r : list A) n :
  take n l = r -> length r = n -> (n <= length l)%nat.
Proof.
  intros <- H. rewrite length_take in H. lia.
Qed.

Lemma take_insert_last {A} (l : list A) n b :
  (n < length l)%nat -> take (S n) (<[n := b]> l) = take n l ++ [b].
Proof.
  intros H. rewrite (take_S_r _ _ b).
  - now rewrite take_insert_ge by lia.
  - now apply list_lookup_insert_eq.
Qed.

Lemma take_app_last {A} (l r : list A) n b :
  take (S n) l = r ++ [b] -> length r = n -> take n l = r.
Proof.
  intros H Hr.
  assert (E : take n (take (S n) l) = take n l) by (rewrite take_take; f_equal; lia).
  rewrite <- E, H. rewrite take_app_le by lia. apply take_ge. lia.
Qed.

Section indent.
Variable root : tui_graph_node.

#[local] Abbreviation depth := (branch_depth root).

Lemma leave_mask_nat x :
    is_Some (node_at root x) ->
    length (leave_mask root x) = Z.to_nat (depth x).
  Proof. intros H. apply leave_mask_length in H. lia. Qed.

Lemma depth_cons i pp p :
    node_at root pp = Some p ->
    depth (i :: pp) = depth pp + (if list_is_singular p then 0 else 1).
  Proof. intros Hp. cbn [branch_depth]. now rewrite Hp. Qed.

  (** The first statement of [graph_next_node]: the column of a last child
      carries no line below it. *)
Lemma leaving_mask x n m :
    node_at root x = Some n ->
    take (Z.to_nat (depth x)) m = arrive_mask root x ->
    exists m',
      match parent_of root x with
      | Some p =>
          if negb (list_is_singular p) && is_last_child root (tail x) x
             && (0 <? depth x)
          then mask_set (depth x - 1) false (Some m) else Some m
      | None => Some m
      end = Some m' /\
      length m' = length m /\
      take (Z.to_nat (depth x)) m' = leave_mask root x.
  Proof.
    intros Hn Hm. destruct x as [|i pp].
    - exists m. repeat split; assumption.
    - cbn [parent_of tail]. cbn [node_at] in Hn.
      destruct (node_at root pp) as [p|] eqn:Hp; [|discriminate].
      pose proof (leave_mask_nat pp ltac:(eexists; exact Hp)) as Hlen.
      pose proof (branch_depth_nonneg root pp) as H0.
      rewrite (depth_cons i pp p Hp) in *.
      cbn [arrive_mask leave_mask] in *. rewrite Hp in *.
      destruct (list_is_singular p); cbn [negb andb].
      + exists m. repeat split; assumption.
      + replace (Z.to_nat (depth pp + 1)) with (S (Z.to_nat (depth pp))) in * by lia.
        pose proof (take_app_last _ _ _ _ Hm Hlen) as Hpre.
        assert (Hlt : (Z.to_nat (depth pp) < length m)%nat).
        { apply (take_length_le m _ (S (Z.to_nat (depth pp)))) in Hm; [lia|].
          rewrite length_app. cbn. lia. }
        destruct (is_last_child root pp (i :: pp)); cbn [negb andb].
        * rewrite (proj2 (Z.ltb_lt 0 (depth pp + 1))) by lia.
          eexists. split; [reflexivity|]. split; [apply length_insert|].
          replace (Z.to_nat (depth pp + 1 - 1)) with (Z.to_nat (depth pp)) by lia.
          rewrite take_insert_last by exact Hlt. now rewrite Hpre.
        * exists m. repeat split; assumption.
  Qed.

  (** The end of [graph_prev_node]: the column of the node arrived at
      carries its branch. *)
Lemma arriving_mask x n m :
    node_at root x = Some n ->
    take (Z.to_nat (depth x)) m = leave_mask root x ->
    exists m',
      match parent_of root x with
      | Some rp =>
          if negb (list_is_singular rp) && (0 <? depth x)
          then mask_set (depth x - 1) true (Some m) else Some m
      | None => Some m
      end = Some m' /\
      length m' = length m /\
      take (Z.to_nat (depth x)) m' = arrive_mask root x.
  Proof.
    intros Hn Hm. destruct x as [|i pp].
    - exists m. repeat split; assumption.
    - cbn [parent_of]. cbn [node_at] in Hn.
      destruct (node_at root pp) as [p|] eqn:Hp; [|discriminate].
      pose proof (leave_mask_nat pp ltac:(eexists; exact Hp)) as Hlen.
      pose proof (branch_depth_nonneg root pp) as H0.
      rewrite (depth_cons i pp p Hp) in *.
      cbn [arrive_mask leave_mask] in *. rewrite Hp in *.
      destruct (list_is_singular p); cbn [negb andb].
      + exists m. repeat split; assumption.
      + replace (Z.to_nat (depth pp + 1)) with (S (Z.to_nat (depth pp))) in * by lia.
        pose proof (take_app_last _ _ _ _ Hm Hlen) as Hpre.
        assert (Hlt : (Z.to_nat (depth pp) < length m)%nat).
        { apply (take_length_le m _ (S (Z.to_nat (depth pp)))) in Hm; [lia|].
          rewrite length_app. cbn. lia. }
        rewrite (proj2 (Z.ltb_lt 0 (depth pp + 1))) by lia.
        eexists. split; [reflexivity|]. split; [apply length_insert|].
        replace (Z.to_nat (depth pp + 1 - 1)) with (Z.to_nat (depth pp)) by lia.
        rewrite take_insert_last by exact Hlt. now rewrite Hpre.
  Qed.

Variable M : nat.
Hypothesis HM : Z.of_nat M <= INT_MAX.

  (** The upward loop of [graph_next_node]. *)
Lemma climb_indent x :
    forall m y,
      is_Some (node_at root x) ->
      length m = M ->
      take (Z.to_nat (depth x)) m = leave_mask root x ->
      climb_node root x = Some (Some y) ->
      (forall n, node_at root y = Some n -> is_special_node n = false) ->
      exists m',
        graph_next_climb root x (depth x) (Some m) =
          Some (Some y, depth y, Some m') /\
        length m' = M /\
        take (Z.to_nat (depth y)) m' = arrive_mask root y.
  Proof.
    induction x as [|i pp IH]; intros m y Hx HmM Hm Hcl Hsp.
    - discriminate Hcl.
    - cbn [node_at] in Hx.
      destruct (node_at root pp) as [p|] eqn:Hp; [|destruct Hx; discriminate].
      destruct Hx as [n Hn].
      pose proof (leave_mask_nat pp ltac:(eexists; exact Hp)) as Hlen.
      pose proof (branch_depth_nonneg root pp) as H0.
      rewrite climb_node_cons, Hp in Hcl.
      cbn [graph_next_climb]. rewrite Hp. cbn [mbind option_bind].
      assert (Hlast : is_last_child root pp (i :: pp) =
                      bool_decide (S i = length (n_head p))).
      { unfold is_last_child. rewrite Hp.
        now rewrite bool_decide_eq_true_2 by reflexivity. }
      rewrite Hlast.
      rewrite (depth_cons i pp p Hp) in *.
      cbn [leave_mask] in Hm. rewrite Hp, Hlast in Hm.
      destruct (bool_decide (S i = length (n_head p))) eqn:Hl; cbn [negb].
      + (* last child: look up the parent *)
        assert (Hgo : exists m1,
                   (if negb (list_is_singular p) &&
                       (0 <? depth pp + (if list_is_singular p then 0 else 1))
                    then (wrap_int (depth pp + (if list_is_singular p then 0 else 1) - 1),
                          mask_set (wrap_int (depth pp +
                                      (if list_is_singular p then 0 else 1) - 1))
                                   false (Some m))
                    else (depth pp + (if list_is_singular p then 0 else 1), Some m))
                   = (depth pp, Some m1) /\
                   length m1 = M /\
                   take (Z.to_nat (depth pp)) m1 = leave_mask root pp).
        { destruct (list_is_singular p); cbn [negb andb].
          - exists m. rewrite Z.add_0_r in *. repeat split; assumption.
          - replace (Z.to_nat (depth pp + 1)) with (S (Z.to_nat (depth pp))) in Hm by lia.
            pose proof (take_app_last _ _ _ _ Hm Hlen) as Hpre.
            rewrite (proj2 (Z.ltb_lt 0 (depth pp + 1))) by lia.
            assert (Hlt : (Z.to_nat (depth pp) < length m)%nat).
            { apply (take_length_le m _ (S (Z.to_nat (depth pp)))) in Hm; [lia|].
              rewrite length_app. cbn. lia. }
            replace (depth pp + 1 - 1) with (depth pp) by lia.
            rewrite wrap_int_small by (unfold INT_MAX in *; lia).
            eexists. split; [reflexivity|].
            split; [rewrite length_insert; exact HmM|].
            rewrite take_insert_ge by lia. exact Hpre. }
        destruct Hgo as (m1 & -> & Hm1M & Hm1).
        apply (IH m1 y); [eexists; reflexivity | exact Hm1M | exact Hm1
                         | exact Hcl | exact Hsp].
      + (* move to the sibling *)
        apply bool_decide_eq_false in Hl.
        destruct (n_head p !! S i) as [sib|] eqn:Hsib; [|discriminate].
        injection Hcl as <-. cbn [mbind option_bind].
        assert (Hsib' : node_at root (S i :: pp) = Some sib).
        { cbn [node_at]. now rewrite Hp. }
        rewrite (Hsp sib Hsib').
        assert (Hns : list_is_singular p = false).
        { unfold list_is_singular. revert Hsib.
          destruct (n_head p) as [|a [|b l]]; try reflexivity.
          intros Hsib. discriminate Hsib. }
        rewrite Hns in *.
        exists m. rewrite (depth_cons (S i) pp p Hp), Hns.
        split; [reflexivity|]. split; [exact HmM|].
        cbn [arrive_mask]. rewrite Hp, Hns. exact Hm.
  Qed.

  (** [graph_next_node] keeps the depth and the mask right. *)
Lemma graph_next_node_indent x m y :
    visible root x = true ->
    length m = M ->
    take (Z.to_nat (depth x)) m = arrive_mask root x ->
    next_of root x = Some y ->
    depth y <= Z.of_nat M ->
    (forall n, node_at root y = Some n -> is_special_node n = false) ->
    exists m',
      graph_next_node root x (depth x) (Some m) =
        Some (Some y, depth y, Some m') /\
      length m' = M /\
      take (Z.to_nat (depth y)) m' = arrive_mask root y.
  Proof.
    intros Hv HmM Hm Hnext HyM Hsp.
    destruct (visible_node_at _ _ Hv) as [n Hn].
    pose proof (branch_depth_nonneg root x) as H0.
    unfold next_of in Hnext.
    destruct (step_node (graph_next_node root x 0 None)) as [[y'|]|] eqn:Hstep;
      try discriminate.
    injection Hnext as ->.
    rewrite graph_next_node_step, Hn in Hstep.
    destruct (leaving_mask x n m Hn Hm) as (m1 & Hleave & Hm1M & Hm1).
    unfold graph_next_node. rewrite Hn. cbn [mbind option_bind].
    cbv zeta. rewrite Hleave.
    assert (Hp : match parent_of root x with None => true | Some _ => negb (folded n) end
                 = bool_decide (x = []) || negb (folded n)).
    { destruct x as [|i pp]; [reflexivity|]. cbn [parent_of].
      cbn [node_at] in Hn. destruct (node_at root pp); [|discriminate].
      now rewrite bool_decide_eq_false_2 by discriminate. }
    rewrite Hp.
    destruct (negb (list_empty n) && (bool_decide (x = []) || negb (folded n))) eqn:Hc.
    - (* the first child *)
      injection Hstep as <-.
      assert (Hfirst : exists first, n_head n !! 0%nat = Some first).
      { apply andb_true_iff in Hc. destruct Hc as [Hc _].
        unfold list_empty in Hc. destruct (n_head n) as [|a l]; [discriminate|].
        now exists a. }
      destruct Hfirst as [first Hfirst].
      assert (Hy : node_at root (0%nat :: x) = Some first).
      { cbn [node_at]. now rewrite Hn. }
      rewrite (depth_cons 0%nat x n Hn) in *.
      cbn [arrive_mask]. rewrite Hn.
      pose proof (leave_mask_nat x ltac:(eexists; exact Hn)) as Hlen.
      destruct (list_is_singular n); cbn [negb].
      + rewrite Hfirst. cbn [mbind option_bind]. rewrite (Hsp first Hy).
        exists m1. rewrite Z.add_0_r. repeat split; [congruence | exact Hm1].
      + rewrite Hfirst. cbn [mbind option_bind]. rewrite (Hsp first Hy).
        rewrite wrap_int_small by (unfold INT_MAX in *; lia).
        eexists. split; [reflexivity|].
        split; [rewrite length_insert; congruence|].
        replace (Z.to_nat (depth x + 1)) with (S (Z.to_nat (depth x))) by lia.
        rewrite take_insert_last by lia. now rewrite Hm1.
    - (* up to a sibling of the node or of a node above *)
      destruct (climb_indent x m1 y ltac:(eexists; exact Hn) ltac:(congruence)
                  Hm1 Hstep Hsp) as (m' & E & Hm'M & Hm').
      exists m'. split; [exact E|]. split; assumption.
  Qed.

Lemma branch_depth_app q p : depth p <= depth (q ++ p).
  Proof.
    induction q as [|i q IH]; cbn [app branch_depth]; [lia|].
    destruct (node_at root (q ++ p)) as [n|]; [destruct (list_is_singular n)|]; lia.
  Qed.

Lemma spine_depth_ge n p :
    node_at root p = Some n -> depth p <= depth (spine n p).
  Proof.
    intros Hp. destruct (spine_props root n p Hp) as (_ & _ & _ & q & ->).
    apply branch_depth_app.
  Qed.

  (** The downward loop of [graph_prev_node]. *)
Lemma descend_indent n :
    forall p m,
      node_at root p = Some n ->
      length m = M ->
      take (Z.to_nat (depth p)) m = leave_mask root p ->
      depth (spine n p) <= Z.of_nat M ->
      exists m',
        graph_prev_descend n p (depth p) (Some m) =
          (spine n p, depth (spine n p), Some m') /\
        length m' = M /\
        take (Z.to_nat (depth (spine n p))) m' = leave_mask root (spine n p).
  Proof.
    induction n as [a nm e c t ct head g l f IH] using tui_graph_node_rect'.
    intros p m Hp HmM Hm HsM.
    set (n := TuiGraphNode a nm e c t ct head g l f) in *.
    rewrite graph_prev_descend_eq. rewrite spine_eq in HsM |- *.
    destruct (negb (list_empty n) && negb (folded n)) eqn:Hc;
      [|exists m; repeat split; assumption].
    destruct (last (n_head n)) as [c0|] eqn:Hl.
    2:{ apply andb_true_iff in Hc. destruct Hc as [Hc _].
        unfold list_empty in Hc. destruct (n_head n); [discriminate|].
        apply last_None in Hl. discriminate Hl. }
    set (q := (length (n_head n) - 1)%nat :: p) in *.
    assert (Hq : node_at root q = Some c0).
    { subst q. cbn [node_at]. rewrite Hp. rewrite last_lookup in Hl.
      rewrite <- Hl. f_equal. lia. }
    assert (Hin : c0 ∈ head).
    { apply last_Some in Hl. destruct Hl as [l' Hl']. cbn [n_head n] in Hl'.
      rewrite Hl'. apply elem_of_app. right. now apply list_elem_of_singleton. }
    rewrite Forall_forall in IH. specialize (IH c0 Hin).
    pose proof (spine_depth_ge c0 q Hq) as Hge.
    pose proof (branch_depth_nonneg root p) as H0.
    pose proof (leave_mask_nat p ltac:(eexists; exact Hp)) as Hlen.
    assert (Hdq : depth q = depth p + (if list_is_singular n then 0 else 1)).
    { subst q. apply depth_cons. exact Hp. }
    assert (Hlastq : is_last_child root p q = true).
    { subst q. unfold is_last_child. rewrite Hp.
      rewrite bool_decide_eq_true_2 by reflexivity.
      apply bool_decide_eq_true_2.
      assert (0 < length (n_head n))%nat; [|lia].
      apply last_Some in Hl. destruct Hl as [l' ->]. rewrite length_app. cbn. lia. }
    assert (Hstep : exists m1,
               (if negb (list_is_singular n)
                then (wrap_int (depth p + 1), mask_set (depth p) false (Some m))
                else (depth p, Some m)) = (depth q, Some m1) /\
               length m1 = M /\
               take (Z.to_nat (depth q)) m1 = leave_mask root q).
    { rewrite Hdq. subst q. cbn [leave_mask]. rewrite Hp.
      fold (n_head n). change (?i :: p) with ((i :: p) : gpath).
      destruct (list_is_singular n) eqn:Hs; cbn [negb].
      - exists m. rewrite Z.add_0_r. repeat split; assumption.
      - rewrite wrap_int_small by (unfold INT_MAX in *; lia).
        eexists. split; [reflexivity|].
        split; [rewrite length_insert; exact HmM|].
        replace (Z.to_nat (depth p + 1)) with (S (Z.to_nat (depth p))) by lia.
        rewrite take_insert_last by lia. rewrite Hm. f_equal. f_equal.
        now rewrite Hlastq. }
    destruct Hstep as (m1 & E & Hm1M & Hm1).
    cbv zeta. rewrite E. cbn [fst snd].
    apply (IH q m1 Hq Hm1M Hm1 HsM).
  Qed.

  (** [graph_prev_node] keeps the depth and the mask right. *)
Lemma graph_prev_node_indent x m y :
    visible root x = true ->
    length m = M ->
    take (Z.to_nat (depth x)) m = arrive_mask root x ->
    step_node (graph_prev_node root x 0 None) = Some (Some y) ->
    depth y <= Z.of_nat M ->
    exists m',
      graph_prev_node root x (depth x) (Some m) =
        Some (Some y, depth y, Some m') /\
      length m' = M /\
      take (Z.to_nat (depth y)) m' = arrive_mask root y.
  Proof.
    intros Hv HmM Hm Hprev HyM.
    destruct (visible_node_at _ _ Hv) as [n Hn].
    rewrite graph_prev_node_step, Hn in Hprev.
    destruct x as [|i pp]; [discriminate|].
    pose proof Hn as Hn'. cbn [node_at] in Hn'.
    destruct (node_at root pp) as [p|] eqn:Hp; [|discriminate].
    pose proof (branch_depth_nonneg root pp) as H0.
    pose proof (leave_mask_nat pp ltac:(eexists; exact Hp)) as Hlen.
    unfold graph_prev_node. rewrite Hn. cbn [mbind option_bind]. rewrite Hp.
    cbn [mbind option_bind].
    rewrite (depth_cons i pp p Hp) in *.
    cbn [arrive_mask] in Hm. rewrite Hp in Hm.
    unfold is_first_child.
    destruct (bool_decide (i = 0%nat)) eqn:Hi.
    - (* the first child: move to the parent *)
      apply bool_decide_eq_true in Hi. subst i. injection Hprev as <-.
      rewrite bool_decide_eq_true_2 by reflexivity.
      assert (Hgo : exists m1,
                 (if negb (list_is_singular p) &&
                     (0 <? depth pp + (if list_is_singular p then 0 else 1))
                  then (wrap_int (depth pp + (if list_is_singular p then 0 else 1) - 1),
                        mask_set (wrap_int (depth pp +
                                    (if list_is_singular p then 0 else 1) - 1))
                                 false (Some m))
                  else (depth pp + (if list_is_singular p then 0 else 1), Some m))
                 = (depth pp, Some m1) /\
                 length m1 = M /\
                 take (Z.to_nat (depth pp)) m1 = leave_mask root pp).
      { destruct (list_is_singular p); cbn [negb andb].
        - exists m. rewrite Z.add_0_r in *. repeat split; assumption.
        - replace (Z.to_nat (depth pp + 1)) with (S (Z.to_nat (depth pp))) in Hm by lia.
          pose proof (take_app_last _ _ _ _ Hm Hlen) as Hpre.
          rewrite (proj2 (Z.ltb_lt 0 (depth pp + 1))) by lia.
          assert (Hlt : (Z.to_nat (depth pp) < length m)%nat).
          { apply (take_length_le m _ (S (Z.to_nat (depth pp)))) in Hm; [lia|].
            rewrite length_app. cbn. lia. }
          replace (depth pp + 1 - 1) with (depth pp) by lia.
          rewrite wrap_int_small by (unfold INT_MAX in *; lia).
          eexists. split; [reflexivity|].
          split; [rewrite length_insert; exact HmM|].
          rewrite take_insert_ge by lia. exact Hpre. }
      destruct Hgo as (m1 & -> & Hm1M & Hm1).
      cbn [mbind option_bind].
      destruct (arriving_mask pp p m1 Hp Hm1) as (m' & E & Hm'M & Hm').
      cbv zeta. rewrite E.
      exists m'. split; [reflexivity|]. split; [congruence | exact Hm'].
    - (* the sibling before, or the last row below it *)
      apply bool_decide_eq_false in Hi.
      rewrite bool_decide_eq_false_2 by congruence.
      destruct (n_head p !! (i - 1)%nat) as [sib|] eqn:Hsib; [|discriminate].
      injection Hprev as <-. cbn [mbind option_bind].
      set (s := ((i - 1)%nat :: pp) : gpath) in *.
      assert (Hs : node_at root s = Some sib).
      { subst s. cbn [node_at]. now rewrite Hp. }
      assert (Hlt : (i < length (n_head p))%nat) by (eapply lookup_lt_Some, Hn').
      assert (Hns : list_is_singular p = false).
      { unfold list_is_singular. revert Hlt.
        destruct (n_head p) as [|a0 [|b0 l0]]; try reflexivity. cbn. lia. }
      rewrite Hns in *.
      assert (Hds : depth s = depth pp + 1).
      { subst s. rewrite (depth_cons _ pp p Hp), Hns. reflexivity. }
      assert (Hms : take (Z.to_nat (depth s)) m = leave_mask root s).
      { rewrite Hds, Hm. subst s. cbn [leave_mask]. rewrite Hp, Hns.
        f_equal. f_equal. symmetry. apply negb_true_iff.
        unfold is_last_child. rewrite Hp.
        rewrite bool_decide_eq_true_2 by reflexivity.
        apply bool_decide_eq_false_2. lia. }
      rewrite <- Hds.
      destruct (descend_indent sib s m Hs HmM Hms HyM) as (m1 & -> & Hm1M & Hm1).
      cbn [mbind option_bind].
      destruct (spine_props root sib s Hs) as ((t & Ht & _) & _).
      destruct (arriving_mask (spine sib s) t m1 Ht Hm1) as (m' & E & Hm'M & Hm').
      cbv zeta. rewrite E.
      exists m'. split; [reflexivity|]. split; [congruence | exact Hm'].
  Qed.
End indent.

(** X16. The depth and the mask that [graph_next_node] and
    [graph_prev_node] keep while they step are those of the row arrived
    at: when they are right for the row of a node on display, and the mask
    has room for the depth of the row arrived at, the step returns that
    row with its depth, the number of the nodes above it that have more
    than one child, and with a mask of the same size that tells for each
    column whether it carries a line.  For [graph_next_node] the row
    arrived at is not a special node, where the depth starts again at
    zero. *)
Theorem graph_step_indent root x d m :
  visible root x = true ->
  Z.of_nat (length m) <= INT_MAX ->
  indent_ok root x d m ->
  (forall y,
      next_of root x = Some y ->
      branch_depth root y <= Z.of_nat (length m) ->
      (forall n, node_at root y = Some n -> is_special_node n = false) ->
      exists d' m',
        graph_next_node root x d (Some m) = Some (Some y, d', Some m') /\
        length m' = length m /\ indent_ok root y d' m') /\
  (forall y,
      step_node (graph_prev_node root x 0 None) = Some (Some y) ->
      branch_depth root y <= Z.of_nat (length m) ->
      exists d' m',
        graph_prev_node root x d (Some m) = Some (Some y, d', Some m') /\
        length m' = length m /\ indent_ok root y d' m').
Proof.
  intros Hv HM [-> Hm]. split.
  - intros y Hy HyM Hsp.
    destruct (graph_next_node_indent root (length m) HM x m y Hv eq_refl Hm
                Hy HyM Hsp) as (m' & E & Hlen & Hm').
    exists (branch_depth root y), m'. split; [exact E|]. split; [exact Hlen|].
    split; [reflexivity | exact Hm'].
  - intros y Hy HyM.
    destruct (graph_prev_node_indent root (length m) HM x m y Hv eq_refl Hm
                Hy HyM) as (m' & E & Hlen & Hm').
    exists (branch_depth root y), m'. split; [exact E|]. split; [exact Hlen|].
    split; [reflexivity | exact Hm'].
Qed.

Lemma graph_step_indent_witness :
  visible sample_levels [0%nat; 0%nat; 0%nat] = true /\
  Z.of_nat (length [true; true; false; false]) <= INT_MAX /\
  indent_ok sample_levels [0%nat; 0%nat; 0%nat] 2 [true; true; false; false] /\
  (exists d' m',
     graph_next_node sample_levels [0%nat; 0%nat; 0%nat] 2
                     (Some [true; true; false; false]) =
       Some (Some [1%nat; 0%nat; 0%nat], d', Some m') /\
     length m' = 4%nat /\
     indent_ok sample_levels [1%nat; 0%nat; 0%nat] d' m') /\
  (exists d' m',
     graph_prev_node sample_levels [0%nat; 0%nat; 0%nat] 2
                     (Some [true; true; false; false]) =
       Some (Some [0%nat; 0%nat], d', Some m') /\
     length m' = 4%nat /\
     indent_ok sample_levels [0%nat; 0%nat] d' m').
Proof.
  assert (H1 : visible sample_levels [0%nat; 0%nat; 0%nat] = true) by reflexivity.
  assert (H2 : Z.of_nat (length [true; true; false; false]) <= INT_MAX)
    by (vm_compute; discriminate).
  assert (H3 : indent_ok sample_levels [0%nat; 0%nat; 0%nat] 2
                         [true; true; false; false]) by (split; reflexivity).
  split; [exact H1|]. split; [exact H2|]. split; [exact H3|].
  destruct (graph_step_indent sample_levels _ _ _ H1 H2 H3) as [Hn Hp].
  split.
  - apply (Hn [1%nat; 0%nat; 0%nat] eq_refl).
    + vm_compute. discriminate.
    + intros n Hn'. cbn in Hn'. injection Hn' as <-. reflexivity.
  - apply (Hp [0%nat; 0%nat] eq_refl). vm_compute. discriminate.
Defined.


(** * The lines of the tree on the screen *)

Lemma map_seq_lookup {A} (G : bool -> A) (L : list bool) :
  map (fun i => G (default false (L !! i))) (seq 0 (length L)) = map G L.
Proof.
  induction L as [|b L IH]; [reflexivity|].
  cbn [length seq map]. f_equal.
  rewrite <- seq_shift, map_map. exact IH.
Qed.

Lemma print_graph_indent_mask (g : tui_graph) x d single L :
  take (Z.to_nat d) (disp_mask g) = L -> length L = Z.to_nat d ->
  print_graph_indent g x d single =
  map (fun i =>
         if negb (default false (L !! i)) then Printw "   " []
         else if (Z.of_nat i <? d - 1) || single then Printw "  │" []
         else if is_last_child (ug_root g) (tail x) x then Printw "  └" []
              else Printw "  ├" [])
      (seq 0 (length L)).
Proof.
  intros HL Hlen. unfold print_graph_indent. rewrite Hlen.
  apply map_ext_in. intros i Hi. apply in_seq in Hi.
  rewrite <- HL. rewrite lookup_take_lt by lia. reflexivity.
Qed.

(** The columns written before the label of a node when the depth and the
    mask of the display are those of its row. *)
Lemma print_graph_indent_lines (g : tui_graph) x n :
  node_at (ug_root g) x = Some n ->
  indent_ok (ug_root g) x (disp_depth g) (disp_mask g) ->
  print_graph_indent g x (disp_depth g)
    (match parent_of (ug_root g) x with
     | Some parent => list_is_singular parent
     | None => false
     end) = tree_lines (ug_root g) x.
Proof.
  intros Hn [Hd Hm]. set (root := ug_root g) in *.
  pose proof (arrive_mask_length root x ltac:(eexists; exact Hn)) as Hlen.
  rewrite (print_graph_indent_mask g x _ _ _ Hm) by lia.
  fold root. rewrite Hd. clear Hm Hd.
  destruct x as [|i pp]; [reflexivity|].
  cbn [parent_of tail tree_lines arrive_mask branch_depth] in *.
  cbn [node_at] in Hn.
  destruct (node_at root pp) as [p|] eqn:Hp; [|discriminate].
  pose proof (leave_mask_length root pp ltac:(eexists; exact Hp)) as HL.
  destruct (list_is_singular p).
  - rewrite app_nil_r.
    rewrite <- (map_seq_lookup (fun b => if b then Printw "  │" [] else Printw "   " [])).
    apply map_ext. intros k. rewrite orb_true_r.
    now destruct (default false (leave_mask root pp !! k)).
  - rewrite length_app. cbn [length]. rewrite Nat.add_1_r, seq_S, map_app.
    cbn [Nat.add map]. f_equal.
    + rewrite <- (map_seq_lookup (fun b => if b then Printw "  │" [] else Printw "   " [])).
      apply map_ext_in. intros k Hk. apply in_seq in Hk.
      rewrite lookup_app_l by lia.
      rewrite (proj2 (Z.ltb_lt (Z.of_nat k) _)) by lia.
      now destruct (default false (leave_mask root pp !! k)).
    + rewrite lookup_app_r by lia. rewrite Nat.sub_diag. cbn.
      rewrite (proj2 (Z.ltb_ge _ _)) by lia. reflexivity.
Qed.

(** The columns of a blank row. *)
Lemma print_graph_indent_blank (g : tui_graph) y :
  is_Some (node_at (ug_root g) y) ->
  indent_ok (ug_root g) y (disp_depth g) (disp_mask g) ->
  print_graph_indent g y (disp_depth g) true = blank_lines (ug_root g) y.
Proof.
  intros Hn [Hd Hm].
  pose proof (arrive_mask_length (ug_root g) y Hn) as Hlen.
  rewrite (print_graph_indent_mask g y _ _ _ Hm) by lia.
  unfold blank_lines.
  rewrite <- (map_seq_lookup (fun b => if b then Printw "  │" [] else Printw "   " [])).
  apply map_ext. intros k. rewrite orb_true_r.
  now destruct (default false (arrive_mask (ug_root g) y !! k)).
Qed.

(** X17. What [win_display_graph] writes for a row when the depth and the
    mask of the display are those of the row: after the fields, the lines
    of the tree of the node, one column for each node with siblings on the
    way down to it, with a line where a sibling comes after, and a branch
    for the node itself, an end piece if it is the last of its siblings;
    then the label and the padding.  For a blank row, it writes the empty
    fields and the columns of the row that comes next, with their lines
    and without a branch. *)
Theorem win_display_graph_lines fields COLS (win : graph_window) :
  let g := w_ext win in
  let root := ug_root g in
  (forall x n,
      node_at root x = Some n ->
      indent_ok root x (disp_depth g) (disp_mask g) ->
      exists fold_sign padding,
        win_display_graph fields COLS win (Some x) =
          Some (print_graph_field fields n
                ++ tree_lines root x
                ++ [if is_special_node n
                    then Printw "%s" [arg_string (n_name n)]
                    else Printw "%s(%d) %s"
                                [arg_string fold_sign; arg_int (n_nr_calls n);
                                 arg_string (n_name n)]]
                ++ padding)) /\
  (forall y,
      disp g = Some y -> is_Some (node_at root y) ->
      indent_ok root y (disp_depth g) (disp_mask g) ->
      win_display_graph fields COLS win None =
        Some (print_graph_empty fields ++ blank_lines root y)).
Proof.
  intros g root. split.
  - intros x n Hn Hok.
    pose proof (print_graph_indent_lines g x n Hn Hok) as Hlines.
    fold root in Hlines.
    unfold win_display_graph. fold g root. rewrite Hn. cbn [mbind option_bind].
    destruct (parent_of root x) as [parent|].
    + destruct (list_is_singular parent); rewrite <- Hlines;
        (destruct (is_special_node n); cbn [negb];
         [exists EmptyString|eexists]; eexists; reflexivity).
    + rewrite <- Hlines.
      destruct (is_special_node n); cbn [negb];
        [exists EmptyString|eexists]; eexists; reflexivity.
  - intros y Hy Hny Hok.
    unfold win_display_graph. fold g. rewrite Hy. cbn [mbind option_bind].
    now rewrite (print_graph_indent_blank g y Hny Hok).
Qed.

Lemma win_display_graph_lines_witness :
  node_at sample_levels [1%nat; 0%nat; 0%nat] = Some (sample_node "h" [] false) /\
  indent_ok sample_levels [1%nat; 0%nat; 0%nat] 2 [true; true; false; false] /\
  (exists fold_sign padding,
     win_display_graph [] 80 sample_levels_window (Some [1%nat; 0%nat; 0%nat]) =
       Some ([Printw "  │" []; Printw "  └" []]
             ++ [Printw "%s(%d) %s" [arg_string fold_sign; arg_int 1; arg_string "h"]]
             ++ padding)) /\
  win_display_graph [] 80 sample_levels_window None =
    Some [Printw "  │" []; Printw "  │" []].
Proof.
  assert (H1 : node_at sample_levels [1%nat; 0%nat; 0%nat] =
               Some (sample_node "h" [] false)) by reflexivity.
  assert (H2 : indent_ok sample_levels [1%nat; 0%nat; 0%nat] 2
                         [true; true; false; false]) by (split; reflexivity).
  split; [exact H1|]. split; [exact H2|].
  destruct (win_display_graph_lines [] 80 sample_levels_window) as [Hrow Hblank].
  split.
  - exact (Hrow _ _ H1 H2).
  - exact (Hblank _ eq_refl (mk_is_Some _ _ H1) H2).
Defined.


(** * The state of the top of the screen *)

(** A step of a bind that did not fault. *)
Ltac bind_in H :=
  match type of H with
  | (?m ≫= _) = Some _ =>
      let E := fresh "E" in
      destruct m as [?|] eqn:E; [cbn [mbind option_bind] in H | discriminate H]
  end.

Section engine_top.
Context {N X : Type} `{EqDecision N}.
Variable ops : tui_window_ops N X.
Variable LINES : Z.
  (** What is kept about the top of the screen and the state of the view. *)
Variable J : option N -> X -> Prop.

#[local] Abbreviation kept win := (J (w_top win) (w_ext win)).
#[local] Abbreviation quiet win win' :=
  (exists e, win' = set_ext e win /\ forall t, J t (w_ext win) -> J t e).

Hypothesis Hnext : forall win x y win',
    ops_next ops win x false = Some (y, win') -> quiet win win'.
Hypothesis Hprev : forall win x y win',
    ops_prev ops win x false = Some (y, win') -> quiet win win'.
Hypothesis Hnext_top : forall win t y win',
    w_top win = Some t -> ops_next ops win t true = Some (y, win') ->
    exists e, win' = set_ext e win /\ (J (Some t) (w_ext win) -> J y e).
Hypothesis Hprev_top : forall win t y win',
    w_top win = Some t -> ops_prev ops win t true = Some (y, win') ->
    exists e, win' = set_ext e win /\
              (J (Some t) (w_ext win) ->
               J (match y with Some _ => y | None => Some t end) e).
Hypothesis Hnone : forall t e, J t e -> J None e.
Hypothesis Htop : forall win t win',
    ops_top ops win true = Some (t, win') ->
    exists e, win' = set_ext e win /\ forall t0, J t0 (w_ext win) -> J t e.
Hypothesis Htop_quiet : forall win t win',
    ops_top ops win false = Some (t, win') -> quiet win win'.
Hypothesis Hsibling_prev : forall win x y win',
    ops_sibling_prev ops win x = Some (y, win') -> quiet win win'.
Hypothesis Hsibling_next : forall win x y win',
    ops_sibling_next ops win x = Some (y, win') -> quiet win win'.

Lemma move_home_top win win' :
    tui_window_move_home ops win = Some win' -> kept win -> kept win'.
  Proof.
    unfold tui_window_move_home. intros H HJ. bind_in H.
    destruct p as [t w1]. injection H as <-.
    destruct (Htop _ _ _ E) as (e & -> & He). cbn. eapply He, HJ.
  Qed.

Lemma move_up_top win win' :
    tui_window_move_up ops win = Some win' -> kept win -> kept win'.
  Proof.
    unfold tui_window_move_up. intros H HJ. bind_in H. bind_in H.
    destruct p as [node w1].
    destruct (Hprev _ _ _ _ E0) as (e & -> & He).
    destruct node as [node|]; [|injection H as <-; cbn; apply He, HJ].
    cbv zeta in H.
    set (w2 := if ops_needs_blank _ _ _ _ then _ else _) in H.
    assert (Hw2 : w_top w2 = w_top win /\ w_ext w2 = e).
    { subst w2. destruct (ops_needs_blank _ _ _ _); split; reflexivity. }
    clearbody w2. destruct Hw2 as [Ht2 He2].
    bind_in H. injection H as <-.
    destruct (curr_index w2 <? top_index w2).
    - bind_in E1. bind_in E1. destruct p as [top' w3]. injection E1 as <-.
      destruct (Hprev_top w2 _ top' w3 E2 E3) as (e' & -> & He').
      cbn. assert (HJ2 : J (Some n0) (w_ext w2)) by (rewrite Ht2, He2; apply He, HJ).
      apply He' in HJ2. destruct top'; [exact HJ2 | eapply Hnone, HJ2].
    - injection E1 as <-. cbn. rewrite Ht2, He2. apply He, HJ.
  Qed.

Lemma scroll_top_top rounds :
    forall win win',
      scroll_top ops LINES rounds win = Some win' -> kept win -> kept win'.
  Proof.
    induction rounds as [|rounds IH]; intros win win' H HJ; cbn [scroll_top] in H;
      destruct (LINES - 2 <=? curr_index win - top_index win);
      try discriminate; try (injection H as <-; exact HJ).
    bind_in H. bind_in H. destruct p as [node w1].
    destruct (Hnext_top win _ node w1 E E0) as (e & -> & He).
    cbv zeta in H.
    set (w2 := if ops_needs_blank _ _ _ _ then _ else _) in H.
    assert (Hw2 : w_ext w2 = e).
    { subst w2. destruct (ops_needs_blank _ _ _ _); reflexivity. }
    clearbody w2.
    apply IH in H; [exact H|]. cbn. rewrite Hw2. apply He. exact HJ.
  Qed.

Lemma move_down_top win win' :
    tui_window_move_down ops LINES win = Some win' -> kept win -> kept win'.
  Proof.
    unfold tui_window_move_down. intros H HJ. bind_in H. bind_in H.
    destruct p as [node w1].
    destruct (Hnext _ _ _ _ E0) as (e & -> & He).
    destruct node as [node|]; [|injection H as <-; cbn; apply He, HJ].
    cbv zeta in H.
    set (w2 := if ops_needs_blank _ _ _ _ then _ else _) in H.
    assert (Hw2 : w_top w2 = w_top win /\ w_ext w2 = e).
    { subst w2. destruct (ops_needs_blank _ _ _ _); split; reflexivity. }
    clearbody w2. destruct Hw2 as [Ht2 He2].
    apply scroll_top_top in H; [exact H|].
    cbn. rewrite Ht2, He2. apply He, HJ.
  Qed.

Lemma move_until_top step target rounds :
    (forall win win', step win = Some win' -> kept win -> kept win') ->
    forall win win',
      move_until step target rounds win = Some win' -> kept win -> kept win'.
  Proof.
    intros Hstep. induction rounds as [|rounds IH]; intros win win' H HJ;
      cbn [move_until] in H;
      destruct (bool_decide (w_curr win = Some target));
      try discriminate; try (injection H as <-; exact HJ).
    bind_in H. eapply IH; [exact H|]. eapply Hstep; eassumption.
  Qed.

Lemma move_prev_top rounds win win' :
    tui_window_move_prev ops rounds win = Some win' -> kept win -> kept win'.
  Proof.
    unfold tui_window_move_prev. intros H HJ. bind_in H. bind_in H.
    destruct p as [prev w1].
    destruct (Hsibling_prev _ _ _ _ E0) as (e & -> & He).
    assert (HJ1 : kept (set_ext e win)) by (cbn; apply He, HJ).
    destruct prev as [prev|]; [|injection H as <-; exact HJ1].
    eapply move_until_top; [|exact H|exact HJ1]. apply move_up_top.
  Qed.

Lemma move_next_top rounds win win' :
    tui_window_move_next ops LINES rounds win = Some win' -> kept win -> kept win'.
  Proof.
    unfold tui_window_move_next. intros H HJ. bind_in H. bind_in H.
    destruct p as [next w1].
    destruct (Hsibling_next _ _ _ _ E0) as (e & -> & He).
    assert (HJ1 : kept (set_ext e win)) by (cbn; apply He, HJ).
    destruct next as [next|]; [|injection H as <-; exact HJ1].
    eapply move_until_top; [|exact H|exact HJ1]. apply move_down_top.
  Qed.

Lemma move_parent_top rounds win win' :
    tui_window_move_parent ops rounds win = Some win' -> kept win -> kept win'.
  Proof.
    unfold tui_window_move_parent. intros H HJ. bind_in H. bind_in H.
    destruct o as [parent|]; [|injection H as <-; exact HJ].
    eapply move_until_top; [|exact H|exact HJ]. apply move_up_top.
  Qed.

Lemma page_up_loop_top rounds :
    forall win win',
      page_up_loop ops LINES rounds win = Some win' -> kept win -> kept win'.
  Proof.
    induction rounds as [|rounds IH]; intros win win' H HJ; cbn [page_up_loop] in H;
      destruct (top_index win - curr_index win <? LINES - 2);
      try discriminate; try (injection H as <-; exact HJ).
    bind_in H. bind_in H. destruct p as [node w1].
    destruct (Hprev_top win _ node w1 E E0) as (e & -> & He).
    apply He in HJ.
    destruct node as [node|]; [|injection H as <-; cbn; rewrite E; exact HJ].
    cbv zeta in H.
    set (w2 := if ops_needs_blank _ _ _ _ then _ else _) in H.
    assert (Hw2 : w_ext w2 = e).
    { subst w2. destruct (ops_needs_blank _ _ _ _); reflexivity. }
    clearbody w2.
    apply IH in H; [exact H|]. cbn. rewrite Hw2. exact HJ.
  Qed.

Lemma page_up_top win win' :
    tui_window_page_up ops LINES win = Some win' -> kept win -> kept win'.
  Proof.
    unfold tui_window_page_up. intros H HJ.
    destruct (bool_decide (w_curr win <> w_top win)).
    - injection H as <-. exact HJ.
    - bind_in H. injection H as <-. cbn.
      eapply page_up_loop_top; eassumption.
  Qed.

Lemma page_down_loop_top rounds :
    forall orig_index next_index node win win',
      page_down_loop ops LINES rounds orig_index next_index node win = Some win' ->
      kept win -> kept win'.
  Proof.
    induction rounds as [|rounds IH]; intros orig_index next_index node win win' H HJ;
      cbn [page_down_loop] in H; cbv zeta in H; bind_in H; destruct p as [next w1];
      destruct (Hnext _ _ _ _ E) as (e & -> & He);
      assert (HJ1 : kept (set_ext e win)) by (cbn; apply He, HJ);
      (destruct next as [next|]; [|injection H as <-; exact HJ1]);
      match type of H with
      | (if ?c then _ else _) = _ => destruct c
      end; try discriminate; try (injection H as <-; exact HJ1).
    eapply IH; [exact H | exact HJ1].
  Qed.

Lemma page_down_top win win' :
    tui_window_page_down ops LINES win = Some win' -> kept win -> kept win'.
  Proof.
    unfold tui_window_page_down. intros H HJ. cbv zeta in H.
    bind_in H. bind_in H. destruct p as [node w1].
    destruct (Hnext _ _ _ _ E0) as (e & -> & He).
    assert (HJ1 : kept (set_ext e win)) by (cbn; apply He, HJ).
    destruct node as [node|]; [|injection H as <-; exact HJ1].
    bind_in H.
    eapply scroll_top_top; [exact H|].
    eapply page_down_loop_top; [exact E1 | exact HJ1].
  Qed.

Lemma move_end_loop_top rounds :
    forall win win',
      move_end_loop ops rounds win = Some win' -> kept win -> kept win'.
  Proof.
    induction rounds as [|rounds IH]; intros win win' H HJ;
      cbn [move_end_loop] in H; bind_in H; bind_in H; destruct p as [node w1];
      destruct (Hnext _ _ _ _ E0) as (e & -> & He);
      assert (HJ1 : kept (set_ext e win)) by (cbn; apply He, HJ);
      (destruct node as [node|]; [|injection H as <-; exact HJ1]);
      try discriminate.
    cbv zeta in H.
    set (w2 := if ops_needs_blank _ _ _ _ then _ else _) in H.
    assert (Hw2 : w_top w2 = w_top win /\ w_ext w2 = e).
    { subst w2. destruct (ops_needs_blank _ _ _ _); split; reflexivity. }
    clearbody w2. destruct Hw2 as [Ht2 He2].
    eapply IH; [exact H|]. cbn. rewrite Ht2, He2. apply He, HJ.
  Qed.

Lemma move_end_top rounds win win' :
    tui_window_move_end ops LINES rounds win = Some win' -> kept win -> kept win'.
  Proof.
    unfold tui_window_move_end. intros H HJ. bind_in H.
    eapply scroll_top_top; [exact H|].
    eapply move_end_loop_top; eassumption.
  Qed.

Lemma search_find_next_top find str rounds :
    forall node win y win',
      search_find (ops_next ops) find str rounds node win = Some (y, win') ->
      kept win -> kept win'.
  Proof.
    induction rounds as [|rounds IH]; intros node win y win' H HJ;
      cbn [search_find] in H; [discriminate|].
    bind_in H. destruct p as [nx w1].
    destruct (Hnext _ _ _ _ E) as (e & -> & He).
    assert (HJ1 : kept (set_ext e win)) by (cbn; apply He, HJ).
    destruct nx as [nx|]; [|injection H as <- <-; exact HJ1].
    bind_in H. destruct b.
    - injection H as <- <-. exact HJ1.
    - eapply IH; [exact H | exact HJ1].
  Qed.

Lemma search_find_prev_top find str rounds :
    forall node win y win',
      search_find (ops_prev ops) find str rounds node win = Some (y, win') ->
      kept win -> kept win'.
  Proof.
    induction rounds as [|rounds IH]; intros node win y win' H HJ;
      cbn [search_find] in H; [discriminate|].
    bind_in H. destruct p as [nx w1].
    destruct (Hprev _ _ _ _ E) as (e & -> & He).
    assert (HJ1 : kept (set_ext e win)) by (cbn; apply He, HJ).
    destruct nx as [nx|]; [|injection H as <- <-; exact HJ1].
    bind_in H. destruct b.
    - injection H as <- <-. exact HJ1.
    - eapply IH; [exact H | exact HJ1].
  Qed.

Lemma search_next_top search tui_search rounds win win' :
    tui_window_search_next ops LINES search tui_search rounds win = Some win' ->
    kept win -> kept win'.
  Proof.
    unfold tui_window_search_next. intros H HJ.
    destruct tui_search as [str|]; [|injection H as <-; exact HJ].
    destruct search as [find|]; [|injection H as <-; exact HJ].
    bind_in H. bind_in H. destruct p as [y w1].
    apply search_find_next_top in E0; [|exact HJ].
    destruct y as [y|]; [|injection H as <-; exact E0].
    eapply move_until_top; [|exact H|exact E0]. apply move_down_top.
  Qed.

Lemma search_prev_top search tui_search rounds win win' :
    tui_window_search_prev ops search tui_search rounds win = Some win' ->
    kept win -> kept win'.
  Proof.
    unfold tui_window_search_prev. intros H HJ.
    destruct tui_search as [str|]; [|injection H as <-; exact HJ].
    destruct search as [find|]; [|injection H as <-; exact HJ].
    bind_in H. bind_in H. destruct p as [y w1].
    apply search_find_prev_top in E0; [|exact HJ].
    destruct y as [y|]; [|injection H as <-; exact E0].
    eapply move_until_top; [|exact H|exact E0]. apply move_up_top.
  Qed.

Lemma search_count_loop_top find str rounds :
    forall node win win',
      search_count_loop ops find str rounds node win = Some win' ->
      kept win -> kept win'.
  Proof.
    induction rounds as [|rounds IH]; intros node win win' H HJ;
      cbn [search_count_loop] in H;
      (destruct node as [n|]; [|injection H as <-; exact HJ]);
      [discriminate|].
    bind_in H. cbv zeta in H.
    set (w2 := if b then _ else win) in H.
    assert (Hw2 : w_top w2 = w_top win /\ w_ext w2 = w_ext win).
    { subst w2. destruct b; split; reflexivity. }
    clearbody w2. destruct Hw2 as [Ht2 He2].
    bind_in H. destruct p as [nx w3].
    destruct (Hnext _ _ _ _ E0) as (e & -> & He).
    eapply IH; [exact H|]. cbn. rewrite Ht2. apply He. rewrite He2. exact HJ.
  Qed.

Lemma search_count_top search tui_search rounds win win' :
    tui_window_search_count ops search tui_search rounds win = Some win' ->
    kept win -> kept win'.
  Proof.
    unfold tui_window_search_count. intros H HJ.
    destruct tui_search as [str|]; [|injection H as <-; exact HJ].
    destruct search as [find|]; [|injection H as <-; exact HJ].
    destruct (search_count win =? -1); [|injection H as <-; exact HJ].
    cbv zeta in H. bind_in H. destruct p as [node w1].
    destruct (Htop_quiet _ _ _ E) as (e & -> & He).
    eapply search_count_loop_top; [exact H|]. cbn. apply He. exact HJ.
  Qed.
End engine_top.


(** * The graph window between two keys *)

(** ** The size of the masks *)

Lemma mask_set_length i b m :
  exists m', mask_set i b (Some m) = Some m' /\ length m' = length m.
Proof. eexists. split; [reflexivity|]. apply length_insert. Qed.

Lemma graph_next_climb_length root x :
  forall d m y d' mo,
    graph_next_climb root x d (Some m) = Some (y, d', mo) ->
    exists m', mo = Some m' /\ length m' = length m.
Proof.
  induction x as [|i pp IH]; intros d m y d' mo H; cbn [graph_next_climb] in H.
  - injection H as <- <- <-. now exists m.
  - bind_in H. destruct (negb (is_last_child root pp (i :: pp))).
    + bind_in H. injection H as <- <- <-. now exists m.
    + destruct (negb (list_is_singular t) && (0 <? d)).
      * destruct (mask_set_length (wrap_int (d - 1)) false m) as (m1 & E1 & L1).
        rewrite E1 in H. destruct (IH _ _ _ _ _ H) as (m' & -> & L').
        exists m'. split; [reflexivity | congruence].
      * apply (IH _ _ _ _ _ H).
Qed.

Lemma graph_next_node_length root x d m y d' mo :
  graph_next_node root x d (Some m) = Some (y, d', mo) ->
  exists m', mo = Some m' /\ length m' = length m.
Proof.
  unfold graph_next_node. intros H. bind_in H. cbv zeta in H.
  unfold mask_set in H. cbn [fmap option_fmap option_map] in H.
  assert (Hclimb : forall m1, length m1 = length m ->
             graph_next_climb root x d (Some m1) = Some (y, d', mo) ->
             exists m', mo = Some m' /\ length m' = length m).
  { intros m1 L1 H1. destruct (graph_next_climb_length _ _ _ _ _ _ _ H1) as (m' & -> & L').
    exists m'. split; [reflexivity | congruence]. }
  destruct (parent_of root x) as [p|];
    [destruct (negb (list_is_singular p) && is_last_child root (tail x) x && (0 <? d))|];
    (destruct (negb (list_empty t) && _);
     [destruct (negb (list_is_singular t)); bind_in H; injection H as <- <- <-;
      eexists; (split; [reflexivity | rewrite ?length_insert; reflexivity])
     |eapply Hclimb; [|exact H]; rewrite ?length_insert; reflexivity]).
Qed.

Lemma graph_prev_descend_length n :
  forall p d m,
    exists m', (graph_prev_descend n p d (Some m)).2 = Some m' /\
               length m' = length m.
Proof.
  induction n as [a nm e c t ct head g l f IH] using tui_graph_node_rect'.
  intros p d m. rewrite graph_prev_descend_eq.
  destruct (negb (list_empty _) && negb (folded _)); [|now exists m].
  cbv zeta. cbn [n_head].
  set (di := if negb (list_is_singular _) then _ else _).
  assert (Hdi : exists m1, snd di = Some m1 /\ length m1 = length m).
  { subst di. destruct (negb (list_is_singular _)); cbn [snd]; [|now exists m].
    apply mask_set_length. }
  destruct Hdi as (m1 & E1 & L1). rewrite E1.
  destruct (last head) as [c0|] eqn:Hl.
  - rewrite Forall_forall in IH.
    assert (Hin : c0 ∈ head).
    { apply last_Some in Hl. destruct Hl as [l' ->].
      apply elem_of_app. right. now apply list_elem_of_singleton. }
    destruct (IH c0 Hin ((length head - 1)%nat :: p) (fst di) m1) as (m' & E & L).
    exists m'. split; [exact E | congruence].
  - exists m1. split; [reflexivity | exact L1].
Qed.

Lemma graph_prev_node_length root x d m y d' mo :
  graph_prev_node root x d (Some m) = Some (y, d', mo) ->
  exists m', mo = Some m' /\ length m' = length m.
Proof.
  unfold graph_prev_node. intros H. bind_in H.
  destruct x as [|i pp]; [injection H as <- <- <-; now exists m|].
  bind_in H. bind_in H. destruct p as [[r d1] m1]. cbv zeta in H.
  injection H as <- <- <-.
  assert (Hm1 : exists m1', m1 = Some m1' /\ length m1' = length m).
  { destruct (is_first_child pp (i :: pp)).
    - destruct (negb (list_is_singular t0) && (0 <? d)).
      + injection E1 as <- <- <-. apply mask_set_length.
      + injection E1 as <- <- <-. now exists m.
    - bind_in E1. injection E1 as E1.
      destruct (graph_prev_descend_length t1 ((i - 1)%nat :: pp) d m) as (m' & Em & L).
      rewrite E1 in Em. cbn in Em. now exists m'. }
  destruct Hm1 as (m1' & -> & L1).
  destruct (parent_of root r) as [rp|]; [|now exists m1'].
  destruct (negb (list_is_singular rp) && (0 <? d1)); [|now exists m1'].
  destruct (mask_set_length (d1 - 1) true m1') as (m2 & E2 & L2).
  exists m2. split; [exact E2 | congruence].
Qed.

(** ** The state of the top under the steps of the graph view *)

Lemma next_of_step root x d m y d' mo :
  graph_next_node root x d m = Some (Some y, d', mo) -> next_of root x = Some y.
Proof.
  intros H. unfold next_of.
  rewrite graph_next_node_step, <- (graph_next_node_step root x d m), H.
  reflexivity.
Qed.

Lemma prev_step root x d m y d' mo :
  graph_prev_node root x d m = Some (Some y, d', mo) ->
  step_node (graph_prev_node root x 0 None) = Some (Some y).
Proof.
  intros H.
  rewrite graph_prev_node_step, <- (graph_prev_node_step root x d m), H.
  reflexivity.
Qed.

Section graph_top.
Variable root : tui_graph_node.
Variables B M : nat.
Hypothesis Hfits : tree_fits B M root.
Hypothesis HM : Z.of_nat M <= INT_MAX.

#[local] Abbreviation J := (top_ok M root).

Lemma top_ok_none t e : J t e -> J None e.
  Proof. intros (H1 & H2 & _). split; [exact H1|]. split; [exact H2|]. discriminate. Qed.

Lemma top_ok_disp t (g : tui_graph) n d m :
    J t g -> J t (set_disp_state n d m g).
  Proof. intros H. destruct g. exact H. Qed.

Lemma graph_next_quiet (win : graph_window) x y win' :
    ops_next graph_ops win x false = Some (y, win') ->
    exists e, win' = set_ext e win /\ forall t, J t (w_ext win) -> J t e.
  Proof.
    cbn [ops_next graph_ops]. unfold win_next_graph. intros H.
    destruct (disp_update (w_ext win)).
    - bind_in H. destruct p as [[nx d] m]. injection H as <- <-.
      eexists. split; [reflexivity|]. intros t. apply top_ok_disp.
    - bind_in H. destruct p as [[nx d] m]. injection H as <- <-.
      exists (w_ext win). split; [symmetry; apply set_ext_same | tauto].
  Qed.

Lemma graph_prev_quiet (win : graph_window) x y win' :
    ops_prev graph_ops win x false = Some (y, win') ->
    exists e, win' = set_ext e win /\ forall t, J t (w_ext win) -> J t e.
  Proof.
    cbn [ops_prev graph_ops]. unfold win_prev_graph. intros H.
    bind_in H. destruct p as [[nx d] m]. injection H as <- <-.
    exists (w_ext win). split; [symmetry; apply set_ext_same | tauto].
  Qed.

Lemma graph_next_top (win : graph_window) t y win' :
    w_top win = Some t ->
    ops_next graph_ops win t true = Some (y, win') ->
    exists e, win' = set_ext e win /\ (J (Some t) (w_ext win) -> J y e).
  Proof.
    cbn [ops_next graph_ops]. unfold win_next_graph. intros _ H.
    bind_in H. destruct p as [[nx d] mo]. injection H as <- <-.
    eexists. split; [reflexivity|]. intros (HR & HL & Ht).
    destruct (Ht t eq_refl) as (Hv & Hd & Hm). rewrite HR in E.
    destruct (graph_next_node_length _ _ _ _ _ _ _ E) as (m' & -> & L').
    split; [destruct (w_ext win); exact HR|].
    split; [destruct (w_ext win); cbn in *; congruence|].
    intros y [= ->].
    pose proof (next_of_step _ _ _ _ _ _ _ E) as Hnext.
    destruct (graph_prev_next root t y 0 None Hv) as [Hvy _].
    { unfold next_of in Hnext.
      destruct (step_node (graph_next_node root t 0 None)) as [[z|]|];
        try discriminate. now injection Hnext as ->. }
    destruct (visible_node_at _ _ Hvy) as [ny Hny].
    destruct Hfits as [_ Hall]. destruct (Hall y ny Hny) as [HyM Hsp].
    rewrite Hd in E, Hm.
    destruct (graph_next_node_indent root M HM t (top_mask (w_ext win)) y Hv HL Hm
                Hnext HyM) as (m'' & E' & L'' & Hm'').
    { intros n Hn. rewrite Hny in Hn. now injection Hn as <-. }
    rewrite E' in E. injection E as <- <-.
    split; [exact Hvy|]. destruct (w_ext win). split; [reflexivity | exact Hm''].
  Qed.

Lemma graph_prev_top (win : graph_window) t y win' :
    w_top win = Some t ->
    ops_prev graph_ops win t true = Some (y, win') ->
    exists e, win' = set_ext e win /\
              (J (Some t) (w_ext win) ->
               J (match y with Some _ => y | None => Some t end) e).
  Proof.
    cbn [ops_prev graph_ops]. unfold win_prev_graph. intros _ H.
    bind_in H. destruct p as [[nx d] mo]. injection H as <- <-.
    eexists. split; [reflexivity|]. intros (HR & HL & Ht).
    destruct (Ht t eq_refl) as (Hv & Hd & Hm). rewrite HR in E.
    destruct (graph_prev_node_length _ _ _ _ _ _ _ E) as (m' & -> & L').
    split; [destruct (w_ext win); exact HR|].
    split; [destruct (w_ext win); cbn in *; congruence|].
    destruct nx as [y|].
    - intros y' [= <-].
      pose proof (prev_step _ _ _ _ _ _ _ E) as Hprev.
      destruct (graph_next_prev root t Hv) as (y' & Hy' & Hvy & _).
      { intros ->. cbn in E. discriminate E. }
      assert (y' = y).
      { specialize (Hy' 0 None). rewrite Hprev in Hy'. now injection Hy' as ->. }
      subst y'.
      destruct (visible_node_at _ _ Hvy) as [ny Hny].
      destruct Hfits as [_ Hall]. destruct (Hall y ny Hny) as [HyM _].
      rewrite Hd in E, Hm.
      destruct (graph_prev_node_indent root M HM t (top_mask (w_ext win)) y Hv HL Hm
                  Hprev HyM) as (m'' & E' & L'' & Hm'').
      rewrite E' in E. injection E as <- <-.
      split; [exact Hvy|]. destruct (w_ext win). split; [reflexivity | exact Hm''].
    - intros t' [= <-].
      destruct t as [|i pp].
      + cbn in E. injection E as <- <-. split; [reflexivity|].
        destruct (w_ext win). split; reflexivity.
      + unfold graph_prev_node in E. bind_in E. bind_in E. bind_in E.
        destruct p as [[r d1] m1]. discriminate E.
  Qed.

Lemma graph_top_top (win : graph_window) t win' :
    ops_top graph_ops win true = Some (t, win') ->
    exists e, win' = set_ext e win /\ forall t0, J t0 (w_ext win) -> J t e.
  Proof.
    cbn [ops_top graph_ops]. unfold win_top_graph. intros [= <- <-].
    eexists. split; [reflexivity|]. intros t0 (HR & HL & _).
    split; [destruct (w_ext win); exact HR|].
    split; [destruct (w_ext win); exact HL|].
    intros t [= <-]. split; [reflexivity|].
    destruct (w_ext win). split; reflexivity.
  Qed.

Lemma graph_top_quiet (win : graph_window) t win' :
    ops_top graph_ops win false = Some (t, win') ->
    exists e, win' = set_ext e win /\ forall t0, J t0 (w_ext win) -> J t0 e.
  Proof.
    cbn [ops_top graph_ops]. unfold win_top_graph. intros [= <- <-].
    exists (w_ext win). split; [symmetry; apply set_ext_same | tauto].
  Qed.

Lemma graph_sibling_prev_quiet (win : graph_window) x y win' :
    ops_sibling_prev graph_ops win x = Some (y, win') ->
    exists e, win' = set_ext e win /\ forall t, J t (w_ext win) -> J t e.
  Proof.
    cbn [ops_sibling_prev graph_ops]. unfold win_sibling_prev_graph. intros H.
    bind_in H. exists (w_ext win). split; [|tauto].
    rewrite set_ext_same. destruct x as [|i pp]; [now injection H|].
    destruct (bool_decide (i = 0%nat)); now injection H.
  Qed.

Lemma graph_sibling_next_quiet (win : graph_window) x y win' :
    ops_sibling_next graph_ops win x = Some (y, win') ->
    exists e, win' = set_ext e win /\ forall t, J t (w_ext win) -> J t e.
  Proof.
    cbn [ops_sibling_next graph_ops]. unfold win_sibling_next_graph. intros H.
    bind_in H. exists (w_ext win). split; [|tauto].
    rewrite set_ext_same. destruct x as [|i pp]; [now injection H|].
    destruct (is_last_child _ _ _); now injection H.
  Qed.
End graph_top.

(** ** The shape of the tree *)

Lemma clear_folds_eq n :
  clear_folds n =
  TuiGraphNode (n_addr n) (n_name n) (n_nr_edges n) (n_nr_calls n) (n_time n)
               (n_child_time n) (map clear_folds (n_head n)) (graph n) (link n)
               false.
Proof. now destruct n. Qed.

Lemma clear_folds_head n : n_head (clear_folds n) = map clear_folds (n_head n).
Proof. now destruct n. Qed.

Lemma node_at_clear root q :
  node_at (clear_folds root) q = clear_folds <$> node_at root q.
Proof.
  induction q as [|i q IH]; [reflexivity|]. cbn [node_at]. rewrite IH.
  destruct (node_at root q) as [n|]; [|reflexivity]. cbn.
  rewrite clear_folds_head. apply list_lookup_fmap.
Qed.

Lemma list_is_singular_clear n :
  list_is_singular (clear_folds n) = list_is_singular n.
Proof.
  unfold list_is_singular. rewrite clear_folds_head.
  now destruct (n_head n) as [|a [|b l]].
Qed.

Lemma is_special_node_clear n : is_special_node (clear_folds n) = is_special_node n.
Proof. now destruct n. Qed.

Lemma is_last_child_clear root p x :
  is_last_child (clear_folds root) p x = is_last_child root p x.
Proof.
  unfold is_last_child. rewrite node_at_clear.
  destruct (node_at root p) as [n|]; [|reflexivity]. cbn.
  now rewrite clear_folds_head, length_map.
Qed.

Lemma branch_depth_clear root x :
  branch_depth (clear_folds root) x = branch_depth root x.
Proof.
  induction x as [|i pp IH]; [reflexivity|]. cbn [branch_depth].
  rewrite IH, node_at_clear.
  destruct (node_at root pp) as [p|]; [|reflexivity]. cbn.
  now rewrite list_is_singular_clear.
Qed.

Lemma leave_mask_clear root x :
  leave_mask (clear_folds root) x = leave_mask root x.
Proof.
  induction x as [|i pp IH]; [reflexivity|]. cbn [leave_mask].
  rewrite IH, node_at_clear, is_last_child_clear.
  destruct (node_at root pp) as [p|]; [|reflexivity]. cbn.
  now rewrite list_is_singular_clear.
Qed.

Lemma arrive_mask_clear root x :
  arrive_mask (clear_folds root) x = arrive_mask root x.
Proof.
  destruct x as [|i pp]; [reflexivity|]. cbn [arrive_mask].
  rewrite leave_mask_clear, node_at_clear.
  destruct (node_at root pp) as [p|]; [|reflexivity]. cbn.
  now rewrite list_is_singular_clear.
Qed.

Lemma nr_nodes_clear n : nr_nodes (clear_folds n) = nr_nodes n.
Proof.
  induction n as [a nm e c t ct head g l f IH] using tui_graph_node_rect'.
  rewrite !nr_nodes_eq, clear_folds_head. cbn [n_head]. f_equal.
  induction IH as [|x xs Hx _ IHxs]; [reflexivity|].
  cbn [map sum_nodes fold_right]. fold (sum_nodes (map clear_folds xs)).
  fold (sum_nodes xs). now rewrite Hx, IHxs.
Qed.

Lemma indent_ok_shape a b x d m :
  clear_folds a = clear_folds b -> indent_ok a x d m -> indent_ok b x d m.
Proof.
  intros E [Hd Hm]. split.
  - now rewrite <- branch_depth_clear, <- E, branch_depth_clear.
  - now rewrite <- arrive_mask_clear, <- E, arrive_mask_clear.
Qed.

Lemma tree_fits_shape B M a b :
  clear_folds a = clear_folds b -> tree_fits B M a -> tree_fits B M b.
Proof.
  intros E [Hn Hall]. split.
  - now rewrite <- nr_nodes_clear, <- E, nr_nodes_clear.
  - intros y n Hy.
    assert (Ha : exists n', node_at a y = Some n' /\ clear_folds n' = clear_folds n).
    { pose proof (node_at_clear a y) as Hc. rewrite E, node_at_clear, Hy in Hc.
      destruct (node_at a y) as [n'|]; [|discriminate].
      exists n'. split; [reflexivity|]. cbn in Hc. now injection Hc. }
    destruct Ha as (n' & Ha & En). destruct (Hall y n' Ha) as [H1 H2]. split.
    + now rewrite <- branch_depth_clear, <- E, branch_depth_clear.
    + now rewrite <- is_special_node_clear, <- En, is_special_node_clear.
Qed.

Lemma update_at_clear root x :
  forall f, (forall n, clear_folds (f n) = clear_folds n) ->
            clear_folds (update_at root x f) = clear_folds root.
Proof.
  induction x as [|i pp IH]; intros f Hf; cbn [update_at]; [apply Hf|].
  apply IH. intros n. destruct (n_head n !! i) as [c|] eqn:Hc; [|reflexivity].
  rewrite !clear_folds_eq. destruct n as [a nm e cn t ct head g l fl].
  cbn [set_head n_head n_addr n_name n_nr_edges n_nr_calls n_time n_child_time
       graph link] in *.
  f_equal. rewrite list_fmap_insert, Hf.
  apply list_insert_id. rewrite list_lookup_fmap, Hc. reflexivity.
Qed.

Lemma set_folded_clear b n : clear_folds (set_folded b n) = clear_folds n.
Proof. now destruct n. Qed.

Lemma fold_tree_clear fold n : clear_folds (fold_tree fold n) = clear_folds n.
Proof.
  induction n as [a nm e c t ct head g l f IH] using tui_graph_node_rect'.
  set (n := TuiGraphNode a nm e c t ct head g l f).
  rewrite (clear_folds_eq (fold_tree fold n)), (clear_folds_eq n).
  destruct (fold_tree_payload fold n) as (H1 & H2 & H3 & H4 & H5 & H6 & H7 & H8 & _).
  rewrite <- H1, <- H2, <- H3, <- H4, <- H5, <- H6, <- H7, <- H8.
  f_equal. rewrite fold_tree_head, map_map. cbn [n_head n].
  apply map_ext_Forall. exact IH.
Qed.

Lemma win_fold_clear fold n : clear_folds (snd (win_fold fold n)) = clear_folds n.
Proof.
  rewrite win_fold_tree. rewrite !clear_folds_eq. destruct n. cbn.
  f_equal. rewrite map_map. apply map_ext. intros c. apply fold_tree_clear.
Qed.

(** The rows are nodes of the tree, each once. *)
Lemma subtree_rows_nodes n : forall top p,
  Z.of_nat (length (subtree_rows top n p)) <= nr_nodes n.
Proof.
  induction n as [a nm e c t ct head g l f IH] using tui_graph_node_rect'.
  intros top p. rewrite subtree_rows_eq, nr_nodes_eq. cbn [n_head folded length].
  assert (Hsum : forall k, Z.of_nat (length (children_rows head k p)) <= sum_nodes head).
  { clear -IH. induction IH as [|c cs Hc _ IHcs]; intros k; [reflexivity|].
    cbn [children_rows sum_nodes fold_right]. fold (sum_nodes cs).
    rewrite length_app, Nat2Z.inj_add. specialize (Hc false (k :: p)).
    specialize (IHcs (S k)). lia. }
  pose proof (sum_nodes_nonneg head).
  destruct (top || negb f); [specialize (Hsum 0%nat)|cbn [length]]; lia.
Qed.

(** ** The keys *)

Lemma last_match_before {A} (m : A -> bool) (rows : list A) j :
  (exists k y, (k < j)%nat /\ rows !! k = Some y /\ m y = true /\
               forall k' z, (k < k' < j)%nat -> rows !! k' = Some z -> m z = false) \/
  (forall k z, (k < j)%nat -> rows !! k = Some z -> m z = false).
Proof.
  induction j as [|j IH]; [right; intros; lia|].
  destruct (rows !! j) as [y|] eqn:Hy.
  - destruct (m y) eqn:Hm.
    + left. exists j, y. repeat split; try assumption; try lia.
    + destruct IH as [(k & y0 & Hk & Hy0 & Hm0 & Hno)|Hno].
      * left. exists k, y0. repeat split; try assumption; try lia.
        intros k' z Hk' Hz. destruct (decide (k' = j)) as [->|].
        -- congruence.
        -- apply (Hno k' z); [lia | exact Hz].
      * right. intros k z Hk Hz. destruct (decide (k = j)) as [->|].
        -- congruence.
        -- apply (Hno k z); [lia | exact Hz].
  - destruct IH as [(k & y0 & Hk & Hy0 & Hm0 & Hno)|Hno].
    + left. exists k, y0. repeat split; try assumption; try lia.
      intros k' z Hk' Hz. destruct (decide (k' = j)) as [->|].
      -- congruence.
      -- apply (Hno k' z); [lia | exact Hz].
    + right. intros k z Hk Hz. destruct (decide (k = j)) as [->|].
      -- congruence.
      -- apply (Hno k z); [lia | exact Hz].
Qed.

Lemma first_match_within {A} (m : A -> bool) (rows : list A) j n :
  (exists k y, (j < k <= j + n)%nat /\ rows !! k = Some y /\ m y = true /\
               forall k' z, (j < k' < k)%nat -> rows !! k' = Some z -> m z = false) \/
  (forall k z, (j < k <= j + n)%nat -> rows !! k = Some z -> m z = false).
Proof.
  induction n as [|n IH]; [right; intros; lia|].
  destruct IH as [(k & y & Hk & Hy & Hm & Hno)|Hno].
  - left. exists k, y. repeat split; try assumption; lia.
  - destruct (rows !! (j + S n)%nat) as [y|] eqn:Hy.
    + destruct (m y) eqn:Hm.
      * left. exists (j + S n)%nat, y. repeat split; try assumption; try lia.
        intros k' z Hk' Hz. apply (Hno k' z); [lia | exact Hz].
      * right. intros k z Hk Hz. destruct (decide (k = (j + S n)%nat)) as [->|].
        -- congruence.
        -- apply (Hno k z); [lia | exact Hz].
    + right. intros k z Hk Hz. destruct (decide (k = (j + S n)%nat)) as [->|].
      -- congruence.
      -- apply (Hno k z); [lia | exact Hz].
Qed.

Lemma first_match_after {A} (m : A -> bool) (rows : list A) j :
  (exists k y, (j < k)%nat /\ rows !! k = Some y /\ m y = true /\
               forall k' z, (j < k' < k)%nat -> rows !! k' = Some z -> m z = false) \/
  (forall k z, (j < k)%nat -> rows !! k = Some z -> m z = false).
Proof.
  destruct (first_match_within m rows j (length rows))
    as [(k & y & Hk & Hy & Hm & Hno)|Hno].
  - left. exists k, y. repeat split; try assumption; lia.
  - right. intros k z Hk Hz. apply (Hno k z); [|exact Hz].
    apply lookup_lt_Some in Hz. lia.
Qed.

Section graph_keys.
Variable LINES : Z.
Variables B M rounds : nat.
Variable tui_search : option string.
Hypothesis HLINES : 2 < LINES.
Hypothesis Hbound : 2 * Z.of_nat B + 2 <= INT_MAX.
Hypothesis HM : Z.of_nat M <= INT_MAX.
Hypothesis Hrounds : (B <= rounds)%nat.

#[local] Abbreviation blank := (fun a b : gpath => negb (is_first_child a b)).
#[local] Abbreviation inv := (graph_inv LINES B M).

Lemma graph_rows_fit root :
    tree_fits B M root -> (length (graph_rows root) <= B)%nat.
  Proof.
    intros [Hn _]. pose proof (subtree_rows_nodes root true []).
    unfold graph_rows. lia.
  Qed.

Lemma graph_rows_follow root :
    tree_fits B M root ->
    follows_rows graph_ops (graph_rows root) B (fun g => ug_root g = root) blank.
  Proof.
    intros Hfits. pose proof (graph_rows_fit root Hfits).
    rewrite <- (graph_walk_all root B) by lia. apply graph_follows_rows.
  Qed.

Lemma inv_intro root (win' : graph_window) i' j' :
    tree_fits B M root ->
    on_rows (graph_rows root) B (fun g => ug_root g = root) blank win' i' j' ->
    row_index blank (graph_rows root) j' - row_index blank (graph_rows root) i'
      < LINES - 2 ->
    top_ok M root (w_top win') (w_ext win') ->
    inv win'.
  Proof.
    intros Hfits Hon Hrow Htop. pose proof Hon as (HR & _).
    unfold graph_inv. cbv zeta. rewrite HR.
    split; [exact Hfits|]. split; [exists i', j'; exact Hon|].
    split; [eapply on_rows_on_screen; eassumption | exact Htop].
  Qed.

  (** A key that moves: what is left to show is that the state of the top
      is kept. *)
Lemma key_moves (f : graph_window -> option graph_window) win :
    inv win ->
    (forall win',
        f win = Some win' ->
        top_ok M (ug_root (w_ext win)) (w_top win) (w_ext win) ->
        top_ok M (ug_root (w_ext win)) (w_top win') (w_ext win')) ->
    (forall i j,
        on_rows (graph_rows (ug_root (w_ext win))) B
                (fun g => ug_root g = ug_root (w_ext win)) blank win i j ->
        exists win' i' j',
          f win = Some win' /\
          on_rows (graph_rows (ug_root (w_ext win))) B
                  (fun g => ug_root g = ug_root (w_ext win)) blank win' i' j' /\
          row_index blank (graph_rows (ug_root (w_ext win))) j' -
          row_index blank (graph_rows (ug_root (w_ext win))) i' < LINES - 2) ->
    exists win', f win = Some win' /\ inv win'.
  Proof.
    intros (Hfits & (i & j & Hon) & Hscr & Htop) Hkeep Hrows.
    destruct (Hrows i j Hon) as (win' & i' & j' & E & Hon' & Hrow').
    exists win'. split; [exact E|].
    eapply inv_intro; [exact Hfits | exact Hon' | exact Hrow' |].
    apply Hkeep; assumption.
  Qed.

Ltac top_steps Hfits :=
  first [ eapply graph_next_quiet | eapply graph_prev_quiet
        | eapply (graph_next_top _ _ _ Hfits HM)
        | eapply (graph_prev_top _ _ _ Hfits HM)
        | eapply top_ok_none | eapply graph_top_top | eapply graph_top_quiet
        | eapply graph_sibling_prev_quiet | eapply graph_sibling_next_quiet ].

Lemma key_up_inv win :
    inv win -> exists win', tui_window_move_up graph_ops win = Some win' /\ inv win'.
  Proof.
    intros Hinv. pose proof Hinv as (Hfits & _ & Hscr & _).
    apply key_moves; [exact Hinv| |].
    - intros win' E.
      eapply (move_up_top graph_ops (top_ok M _)); try exact E; top_steps Hfits.
    - intros i j Hon. pose proof (on_screen_rows _ _ _ _ _ _ _ _ Hon Hscr) as Hrow.
      destruct (move_up_rows graph_ops LINES _ B _ _ HLINES Hbound
                  (graph_rows_follow _ Hfits) win i j Hon Hrow)
        as (win' & E & Hon' & Hrow').
      exists win', (Nat.min i (j - 1)), (j - 1)%nat. auto.
  Qed.

Lemma key_down_inv win :
    inv win ->
    exists win', tui_window_move_down graph_ops LINES win = Some win' /\ inv win'.
  Proof.
    intros Hinv. pose proof Hinv as (Hfits & _ & Hscr & _).
    apply key_moves; [exact Hinv| |].
    - intros win' E.
      eapply (move_down_top graph_ops LINES (top_ok M _)); try exact E;
        top_steps Hfits.
    - intros i j Hon. pose proof (on_screen_rows _ _ _ _ _ _ _ _ Hon Hscr) as Hrow.
      pose proof (graph_rows_fit _ Hfits) as Hlen.
      assert (Hj : (j < B)%nat).
      { destruct Hon as (_ & _ & _ & Hj & _). apply lookup_lt_is_Some in Hj. lia. }
      destruct (move_down_rows graph_ops LINES _ B _ _ HLINES Hbound
                  (graph_rows_follow _ Hfits) win i j Hon Hj)
        as (win' & i' & E & Hon' & _ & Hrow' & _).
      exists win', i'. eexists. split; [exact E|]. split; [exact Hon'|]. apply Hrow', Hrow.
  Qed.

Lemma key_ppage_inv win :
    inv win ->
    exists win', tui_window_page_up graph_ops LINES win = Some win' /\ inv win'.
  Proof.
    intros Hinv. pose proof Hinv as (Hfits & _ & Hscr & _).
    apply key_moves; [exact Hinv| |].
    - intros win' E.
      eapply (page_up_top graph_ops LINES (top_ok M _)); try exact E;
        top_steps Hfits.
    - intros i j Hon.
      destruct (page_up_rows graph_ops LINES _ B _ _ Hbound
                  (graph_rows_follow _ Hfits) win i j Hon
                  (subtree_rows_NoDup _ true []))
        as (win' & i' & E & Hon' & _).
      exists win', i', i'. split; [exact E|]. split; [exact Hon'|]. lia.
  Qed.

Lemma key_npage_inv win :
    inv win ->
    exists win', tui_window_page_down graph_ops LINES win = Some win' /\ inv win'.
  Proof.
    intros Hinv. pose proof Hinv as (Hfits & _ & Hscr & _).
    apply key_moves; [exact Hinv| |].
    - intros win' E.
      eapply (page_down_top graph_ops LINES (top_ok M _)); try exact E;
        top_steps Hfits.
    - intros i j Hon. pose proof (on_screen_rows _ _ _ _ _ _ _ _ Hon Hscr) as Hrow.
      pose proof (graph_rows_fit _ Hfits) as Hlen.
      destruct (page_down_rows graph_ops LINES _ B _ _ HLINES Hbound
                  (graph_rows_follow _ Hfits) win i j Hon ltac:(lia) Hrow)
        as (win' & i' & j' & E & Hon' & _ & _ & Hrow' & _).
      exists win', i', j'. auto.
  Qed.

Lemma key_end_inv win :
    inv win ->
    exists win',
      tui_window_move_end graph_ops LINES rounds win = Some win' /\ inv win'.
  Proof.
    intros Hinv. pose proof Hinv as (Hfits & _ & Hscr & _).
    apply key_moves; [exact Hinv| |].
    - intros win' E.
      eapply (move_end_top graph_ops LINES (top_ok M _)); try exact E;
        top_steps Hfits.
    - intros i j Hon.
      pose proof (graph_rows_fit _ Hfits) as Hlen.
      destruct (move_end_rows graph_ops LINES _ B _ _ HLINES Hbound
                  (graph_rows_follow _ Hfits) rounds win i j Hon ltac:(lia)
                  ltac:(lia))
        as (win' & i' & E & Hon' & _ & Hrow' & _).
      exists win', i'. eexists. split; [exact E|]. split; [exact Hon' | exact Hrow'].
  Qed.

Lemma key_home_inv win :
    inv win ->
    exists win', tui_window_move_home graph_ops win = Some win' /\ inv win'.
  Proof.
    intros Hinv. pose proof Hinv as (Hfits & _ & Hscr & _).
    apply key_moves; [exact Hinv| |].
    - intros win' E.
      eapply (move_home_top graph_ops (top_ok M _)); try exact E; top_steps Hfits.
    - intros i j Hon. pose proof Hon as (HR & _).
      eexists _, 0%nat, 0%nat. split; [reflexivity|]. split; [|cbn; lia].
      split; [destruct (w_ext win); reflexivity|].
      split; [lia|]. split; [lia|].
      split; [eexists; apply subtree_rows_head|].
      repeat split; cbn; symmetry; apply subtree_rows_head.
  Qed.

  (** The rows of the parent and of the siblings of a row. *)
Lemma graph_rows_parent root j s pp :
    graph_rows root !! j = Some (s :: pp) ->
    exists k, (k < j)%nat /\ graph_rows root !! k = Some pp.
  Proof.
    intros Hx. destruct j as [|j0].
    - unfold graph_rows in Hx. rewrite subtree_rows_head in Hx. discriminate Hx.
    - destruct (subtree_rows_parent root true [] j0 _ Hx)
        as (s0 & pp0 & k & [= <- <-] & Hk & Hpp).
      exists k. split; [lia | exact Hpp].
  Qed.

Lemma graph_rows_sibling_prev root j s pp :
    graph_rows root !! j = Some (S s :: pp) ->
    exists k, (k < j)%nat /\ graph_rows root !! k = Some (s :: pp).
  Proof.
    intros Hx. destruct j as [|j0].
    - unfold graph_rows in Hx. rewrite subtree_rows_head in Hx. discriminate Hx.
    - destruct (subtree_rows_sibling root true [] j0 s pp Hx) as (k & Hk & Hsib).
      exists k. split; [lia | exact Hsib].
  Qed.

Lemma graph_rows_sibling_next root j s pp :
    graph_rows root !! j = Some (s :: pp) ->
    is_last_child root pp (s :: pp) = false ->
    exists k, (j < k)%nat /\ graph_rows root !! k = Some (S s :: pp).
  Proof.
    intros Hx Hlast.
    assert (Hv : visible root (s :: pp) = true).
    { apply graph_rows_visible. eapply list_elem_of_lookup_2, Hx. }
    destruct (visible_cons _ _ _ Hv) as (_ & parent & Hp & Hlt & _).
    unfold is_last_child in Hlast. rewrite Hp in Hlast.
    rewrite bool_decide_eq_true_2 in Hlast by reflexivity. cbn [andb] in Hlast.
    apply bool_decide_eq_false in Hlast.
    assert (Hv' : visible root (S s :: pp) = true).
    { apply (visible_sibling root s (S s) pp parent Hv Hp). lia. }
    apply graph_rows_visible in Hv'. apply list_elem_of_lookup_1 in Hv'.
    destruct Hv' as [k Hk]. exists k. split; [|exact Hk].
    destruct (graph_rows_sibling_prev root k s pp Hk) as (k' & Hk' & Hsib).
    assert (k' = j).
    { eapply NoDup_lookup; [apply (subtree_rows_NoDup root true []) | exact Hsib | exact Hx]. }
    lia.
  Qed.

Lemma key_u_inv win :
    inv win ->
    exists win',
      tui_window_move_parent graph_ops rounds win = Some win' /\ inv win'.
  Proof.
    intros Hinv. pose proof Hinv as (Hfits & _ & Hscr & _).
    apply key_moves; [exact Hinv| |].
    - intros win' E.
      eapply (move_parent_top graph_ops (top_ok M _)); try exact E; top_steps Hfits.
    - intros i j Hon. pose proof (on_screen_rows _ _ _ _ _ _ _ _ Hon Hscr) as Hrow.
      pose proof Hon as (HR & Hij & HjB & [x Hx] & Ht & Hcu & Hti & Hci).
      assert (Hc : w_curr win = Some x) by (rewrite Hcu; exact Hx).
      assert (Hv : visible (ug_root (w_ext win)) x = true).
      { apply graph_rows_visible. eapply list_elem_of_lookup_2, Hx. }
      destruct (visible_node_at _ _ Hv) as [n Hn].
      unfold tui_window_move_parent. rewrite Hc. cbn [mbind option_bind].
      cbn [ops_parent graph_ops]. unfold win_parent_graph. rewrite Hn.
      cbn [mbind option_bind].
      destruct x as [|s pp]; [exists win, i, j; auto|].
      destruct (graph_rows_parent _ _ _ _ Hx) as (k & Hk & Hpp).
      destruct (move_until_up_rows graph_ops LINES _ B _ _ HLINES Hbound
                  (graph_rows_follow _ Hfits) (subtree_rows_NoDup _ true [])
                  pp k rounds win i j Hon Hrow Hpp ltac:(lia) ltac:(lia))
        as (win' & i' & E & Hon' & Hrow' & _).
      exists win', i', k. auto.
  Qed.

Lemma key_p_inv win :
    inv win ->
    exists win', tui_window_move_prev graph_ops rounds win = Some win' /\ inv win'.
  Proof.
    intros Hinv. pose proof Hinv as (Hfits & _ & Hscr & _).
    apply key_moves; [exact Hinv| |].
    - intros win' E.
      eapply (move_prev_top graph_ops (top_ok M _)); try exact E; top_steps Hfits.
    - intros i j Hon. pose proof (on_screen_rows _ _ _ _ _ _ _ _ Hon Hscr) as Hrow.
      pose proof Hon as (HR & Hij & HjB & [x Hx] & Ht & Hcu & Hti & Hci).
      assert (Hc : w_curr win = Some x) by (rewrite Hcu; exact Hx).
      assert (Hv : visible (ug_root (w_ext win)) x = true).
      { apply graph_rows_visible. eapply list_elem_of_lookup_2, Hx. }
      destruct (visible_node_at _ _ Hv) as [n Hn].
      unfold tui_window_move_prev. rewrite Hc. cbn [mbind option_bind].
      cbn [ops_sibling_prev graph_ops]. unfold win_sibling_prev_graph. rewrite Hn.
      cbn [mbind option_bind].
      destruct x as [|[|s] pp]; try (exists win, i, j; auto; fail).
      rewrite bool_decide_eq_false_2 by discriminate.
      replace (S s - 1)%nat with s by lia.
      destruct (graph_rows_sibling_prev _ _ _ _ Hx) as (k & Hk & Hsib).
      destruct (move_until_up_rows graph_ops LINES _ B _ _ HLINES Hbound
                  (graph_rows_follow _ Hfits) (subtree_rows_NoDup _ true [])
                  (s :: pp) k rounds win i j Hon Hrow Hsib ltac:(lia) ltac:(lia))
        as (win' & i' & E & Hon' & Hrow' & _).
      exists win', i', k. auto.
  Qed.

Lemma key_n_inv win :
    inv win ->
    exists win',
      tui_window_move_next graph_ops LINES rounds win = Some win' /\ inv win'.
  Proof.
    intros Hinv. pose proof Hinv as (Hfits & _ & Hscr & _).
    apply key_moves; [exact Hinv| |].
    - intros win' E.
      eapply (move_next_top graph_ops LINES (top_ok M _)); try exact E;
        top_steps Hfits.
    - intros i j Hon. pose proof (on_screen_rows _ _ _ _ _ _ _ _ Hon Hscr) as Hrow.
      pose proof (graph_rows_fit _ Hfits) as Hlen.
      pose proof Hon as (HR & Hij & HjB & [x Hx] & Ht & Hcu & Hti & Hci).
      assert (Hc : w_curr win = Some x) by (rewrite Hcu; exact Hx).
      assert (Hv : visible (ug_root (w_ext win)) x = true).
      { apply graph_rows_visible. eapply list_elem_of_lookup_2, Hx. }
      destruct (visible_node_at _ _ Hv) as [n Hn].
      unfold tui_window_move_next. rewrite Hc. cbn [mbind option_bind].
      cbn [ops_sibling_next graph_ops]. unfold win_sibling_next_graph. rewrite Hn.
      cbn [mbind option_bind].
      destruct x as [|s pp]; [exists win, i, j; auto|].
      destruct (is_last_child (ug_root (w_ext win)) pp (s :: pp)) eqn:Hlast;
        [exists win, i, j; auto|].
      destruct (graph_rows_sibling_next _ _ _ _ Hx Hlast) as (k & Hk & Hsib).
      pose proof (lookup_lt_Some _ _ _ Hsib) as Hklen.
      assert (HkB : (k <= B)%nat) by (unfold gpath in *; lia).
      assert (Hkr : (k - j <= rounds)%nat) by lia.
      destruct (move_until_down_rows graph_ops LINES _ B _ _ HLINES Hbound
                  (graph_rows_follow _ Hfits) (subtree_rows_NoDup _ true [])
                  (S s :: pp) k rounds win i j Hon Hrow Hsib ltac:(lia) HkB Hkr)
        as (win' & i' & E & Hon' & Hrow' & _).
      exists win', i', k. auto.
  Qed.

Lemma graph_rows_search root str :
    tree_fits B M root ->
    searches_rows win_search_graph str (graph_rows root)
                  (fun g => ug_root g = root) (graph_match root str).
  Proof.
    intros Hfits. pose proof (graph_rows_fit root Hfits).
    rewrite <- (graph_walk_all root B) by lia. apply graph_searches_rows.
  Qed.

Lemma key_search_next_inv search win :
    inv win ->
    exists win',
      tui_window_search_next graph_ops LINES (Some win_search_graph) search
                             rounds win = Some win' /\ inv win'.
  Proof.
    intros Hinv. pose proof Hinv as (Hfits & _ & Hscr & _).
    destruct search as [str|]; [|exists win; split; [reflexivity | exact Hinv]].
    apply key_moves; [exact Hinv| |].
    - intros win' E.
      eapply (search_next_top graph_ops LINES (top_ok M _)); try exact E;
        top_steps Hfits.
    - intros i j Hon. pose proof (on_screen_rows _ _ _ _ _ _ _ _ Hon Hscr) as Hrow.
      pose proof (graph_rows_fit _ Hfits) as Hlen.
      destruct (search_next_rows graph_ops LINES _ B _ _ win_search_graph str _
                  Hbound (graph_rows_follow _ Hfits) (graph_rows_search _ str Hfits)
                  ltac:(lia) HLINES (subtree_rows_NoDup _ true []) rounds win i j
                  Hon Hrow ltac:(lia)) as (Hfound & Hnone).
      destruct (first_match_after (graph_match (ug_root (w_ext win)) str)
                  (graph_rows (ug_root (w_ext win))) j)
        as [(k & y & Hk & Hy & Hm & Hno)|Hno].
      + destruct (Hfound k y Hk Hy Hm Hno) as (win' & i' & E & Hon' & Hrow').
        exists win', i', k. auto.
      + destruct (Hnone Hno) as (e & E & He).
        exists (set_ext e win), i, j. split; [exact E|].
        split; [apply on_rows_set_ext; assumption | exact Hrow].
  Qed.

Lemma key_search_prev_inv search win :
    inv win ->
    exists win',
      tui_window_search_prev graph_ops (Some win_search_graph) search
                             rounds win = Some win' /\ inv win'.
  Proof.
    intros Hinv. pose proof Hinv as (Hfits & _ & Hscr & _).
    destruct search as [str|]; [|exists win; split; [reflexivity | exact Hinv]].
    apply key_moves; [exact Hinv| |].
    - intros win' E.
      eapply (search_prev_top graph_ops (top_ok M _)); try exact E;
        top_steps Hfits.
    - intros i j Hon. pose proof (on_screen_rows _ _ _ _ _ _ _ _ Hon Hscr) as Hrow.
      pose proof (graph_rows_fit _ Hfits) as Hlen.
      destruct (search_prev_rows graph_ops LINES _ B _ _ win_search_graph str _
                  Hbound (graph_rows_follow _ Hfits) (graph_rows_search _ str Hfits)
                  ltac:(lia) HLINES (subtree_rows_NoDup _ true []) rounds win i j
                  Hon Hrow ltac:(lia)) as (Hfound & Hnone).
      destruct (last_match_before (graph_match (ug_root (w_ext win)) str)
                  (graph_rows (ug_root (w_ext win))) j)
        as [(k & y & Hk & Hy & Hm & Hno)|Hno].
      + destruct (Hfound k y Hk Hy Hm Hno) as (win' & i' & E & Hon' & Hrow').
        exists win', i', k. auto.
      + destruct (Hnone Hno) as (e & E & He).
        exists (set_ext e win), i, j. split; [exact E|].
        split; [apply on_rows_set_ext; assumption | exact Hrow].
  Qed.

  (** A change of fold flags under the cursor. *)
Lemma graph_fold_inv (win : graph_window) x f :
    inv win -> w_curr win = Some x ->
    (forall n, clear_folds (f n) = clear_folds n) ->
    inv (set_ext (set_ug_root (update_at (ug_root (w_ext win)) x f) (w_ext win))
                 win).
  Proof.
    intros (Hfits & (i & j & Hon) & Hscr & Htop) Hc Hf.
    set (root := ug_root (w_ext win)) in *.
    set (root' := update_at root x f).
    pose proof Hon as (HR & Hij & HjB & [x' Hx] & Ht & Hcu & Hti & Hci).
    assert (x' = x) by congruence. subst x'.
    assert (Hv : visible root x = true).
    { apply graph_rows_visible. eapply list_elem_of_lookup_2, Hx. }
    destruct (visible_node_at _ _ Hv) as [n Hn].
    destruct (graph_update_on_rows root B win i j x n f Hon Hx Hn)
      as (pre & post & Hpre & E1 & E2 & Hon').
    fold root' in E2, Hon'.
    assert (Hshape : clear_folds root = clear_folds root').
    { symmetry. apply update_at_clear. exact Hf. }
    unfold graph_inv. cbv zeta.
    change (ug_root (w_ext (set_ext (set_ug_root root' (w_ext win)) win)))
      with (ug_root (set_ug_root root' (w_ext win))).
    replace (ug_root (set_ug_root root' (w_ext win))) with root'
      by (destruct (w_ext win); reflexivity).
    split; [eapply tree_fits_shape; eassumption|].
    split; [exists i, j; exact Hon'|].
    split; [exact Hscr|].
    destruct Htop as (_ & HL & Htop).
    split; [destruct (w_ext win); reflexivity|].
    split; [destruct (w_ext win); exact HL|].
    intros t Ht'. change (w_top (set_ext _ win)) with (w_top win) in Ht'.
    destruct (Htop t Ht') as [_ Hok].
    split.
    - apply graph_rows_visible.
      destruct Hon' as (_ & _ & _ & _ & Ht2 & _).
      change (w_top (set_ext _ win)) with (w_top win) in Ht2.
      rewrite Ht' in Ht2. eapply list_elem_of_lookup_2. symmetry. exact Ht2.
    - replace (top_depth (set_ug_root root' (w_ext win))) with (top_depth (w_ext win))
        by (destruct (w_ext win); reflexivity).
      replace (top_mask (set_ug_root root' (w_ext win))) with (top_mask (w_ext win))
        by (destruct (w_ext win); reflexivity).
      eapply indent_ok_shape; eassumption.
  Qed.

Lemma inv_curr win : inv win -> exists x n,
      w_curr win = Some x /\ node_at (ug_root (w_ext win)) x = Some n.
  Proof.
    intros (Hfits & (i & j & Hon) & _).
    pose proof Hon as (HR & Hij & HjB & [x Hx] & Ht & Hcu & Hti & Hci).
    assert (Hv : visible (ug_root (w_ext win)) x = true).
    { apply graph_rows_visible. eapply list_elem_of_lookup_2, Hx. }
    destruct (visible_node_at _ _ Hv) as [n Hn].
    exists x, n. split; [rewrite Hcu; exact Hx | exact Hn].
  Qed.

Lemma key_enter_inv win :
    inv win ->
    exists win',
      snd <$> tui_window_enter (Some win_enter_graph) win = Some win' /\ inv win'.
  Proof.
    intros Hinv. destruct (inv_curr win Hinv) as (x & n & Hc & Hn).
    unfold tui_window_enter. rewrite Hc. cbn [mbind option_bind].
    unfold win_enter_graph. rewrite Hn. cbn [mbind option_bind].
    destruct x as [|s pp]; [exists win; split; [reflexivity | exact Hinv]|].
    destruct (list_empty n); [exists win; split; [reflexivity | exact Hinv]|].
    eexists. split; [reflexivity|]. cbn [snd].
    apply graph_fold_inv; [exact Hinv | exact Hc |].
    intros n0. apply set_folded_clear.
  Qed.

Lemma key_c_inv win :
    inv win ->
    exists win',
      snd <$> tui_window_collapse (Some (win_fold_graph win_collapse_graph)) win
        = Some win' /\ inv win'.
  Proof.
    intros Hinv. destruct (inv_curr win Hinv) as (x & n & Hc & Hn).
    unfold tui_window_collapse. rewrite Hc. cbn [mbind option_bind].
    unfold win_fold_graph. rewrite Hn. cbn [mbind option_bind].
    eexists. split; [reflexivity|]. cbn [snd].
    apply graph_fold_inv; [exact Hinv | exact Hc |].
    intros n0. rewrite win_collapse_graph_eq. apply win_fold_clear.
  Qed.

Lemma key_e_inv win :
    inv win ->
    exists win',
      snd <$> tui_window_expand (Some (win_fold_graph win_expand_graph)) win
        = Some win' /\ inv win'.
  Proof.
    intros Hinv. destruct (inv_curr win Hinv) as (x & n & Hc & Hn).
    unfold tui_window_expand. rewrite Hc. cbn [mbind option_bind].
    unfold win_fold_graph. rewrite Hn. cbn [mbind option_bind].
    eexists. split; [reflexivity|]. cbn [snd].
    apply graph_fold_inv; [exact Hinv | exact Hc |].
    intros n0. rewrite win_expand_graph_eq. apply win_fold_clear.
  Qed.

Lemma switch_inv key win :
    inv win ->
    exists win',
      tui_main_loop_switch LINES rounds tui_search key win = Some win' /\
      inv win'.
  Proof.
    intros Hinv. destruct key; cbn [tui_main_loop_switch].
    - now apply key_up_inv.
    - now apply key_down_inv.
    - now apply key_ppage_inv.
    - now apply key_npage_inv.
    - now apply key_home_inv.
    - now apply key_end_inv.
    - now apply key_enter_inv.
    - now apply key_c_inv.
    - now apply key_e_inv.
    - now apply key_p_inv.
    - now apply key_n_inv.
    - now apply key_u_inv.
    - now apply key_search_prev_inv.
    - now apply key_search_next_inv.
  Qed.

Lemma keys_inv keys :
    forall win,
      inv win ->
      exists win',
        tui_main_loop_keys LINES rounds tui_search keys win = Some win' /\
        inv win'.
  Proof.
    induction keys as [|key keys IH]; intros win Hinv.
    - exists win. split; [reflexivity | exact Hinv].
    - destruct (switch_inv key win Hinv) as (win1 & E1 & Hinv1).
      destruct (IH win1 Hinv1) as (win' & E & Hinv').
      exists win'. cbn [tui_main_loop_keys]. rewrite E1. split; [exact E | exact Hinv'].
  Qed.
End graph_keys.

(** ** From the start *)

Lemma clear_folds_visible root y n :
  node_at root y = Some n -> visible (clear_folds root) y = true.
Proof.
  revert n. induction y as [|i pp IH]; intros n Hn; [reflexivity|].
  cbn [visible]. rewrite node_at_clear. cbn [node_at] in Hn.
  destruct (node_at root pp) as [p|] eqn:Hp; [|discriminate]. cbn.
  rewrite (IH p eq_refl), clear_folds_head, length_map.
  rewrite bool_decide_eq_true_2 by (eapply lookup_lt_Some, Hn).
  rewrite (clear_folds_eq p). cbn [folded negb]. now rewrite orb_true_r.
Qed.

Lemma tree_fitsb_ok B M root : tree_fitsb B M root = true -> tree_fits B M root.
Proof.
  unfold tree_fitsb. intros H. apply andb_true_iff in H. destruct H as [Hn Hall].
  split; [now apply Z.leb_le|].
  intros y n Hy. rewrite forallb_forall in Hall.
  specialize (Hall y). rewrite Hy in Hall.
  assert (Hin : In y (graph_rows (clear_folds root))).
  { apply list_elem_of_In. apply graph_rows_visible.
    eapply clear_folds_visible, Hy. }
  apply Hall in Hin. apply andb_true_iff in Hin. destruct Hin as [Hd Hs].
  split; [now apply Z.leb_le | now apply negb_true_iff].
Qed.

Lemma graph_init_inv LINES B M root :
  2 < LINES -> tree_fits B M root ->
  exists win0,
    tui_window_init graph_ops (sample_graph_window root M) = Some win0 /\
    graph_inv LINES B M win0.
Proof.
  intros HL Hfits. eexists. split; [reflexivity|].
  unfold graph_inv. cbn.
  split; [exact Hfits|]. split; [|split; [unfold on_screen; cbn; lia|]].
  - exists 0%nat, 0%nat. unfold on_rows. cbn.
    split; [reflexivity|]. split; [lia|]. split; [lia|].
    split; [eexists; apply subtree_rows_head|].
    repeat split; symmetry; apply subtree_rows_head.
  - split; [reflexivity|]. split; [apply length_replicate|].
    intros t [= <-]. split; [reflexivity|]. split; reflexivity.
Qed.

(** X18. On a screen of more than two lines ([2 < LINES]), and for a tree
    without special nodes that has at most [B] nodes, [2 * B + 2] fitting
    an [int], and no depth above the size [M] of the masks: from the window
    that [tui_graph_init] sets up, any sequence of the keys that move the
    cursor, fold or unfold under it, or follow a search runs without a
    fault (the loops that go from row to row being given [B] rounds), and
    between two keys: the cursor and the top of the screen are on rows of
    the tree as it is folded then, the top not below the cursor;
    [curr_index] and [top_index] are the screen rows of the two, blank rows
    counted; the cursor is on the screen; and the depth and the mask kept
    for the top are those of its row.  The same holds from any window of
    which this holds.  Nothing is said of a screen of one or two lines,
    where [tui_window_move_down] moves the top below the cursor. *)
Theorem tui_main_loop_keys_safe LINES B M rounds tui_search :
  2 < LINES -> 2 * Z.of_nat B + 2 <= INT_MAX -> Z.of_nat M <= INT_MAX ->
  (B <= rounds)%nat ->
  (forall root keys,
      tree_fits B M root ->
      exists win0 win',
        tui_window_init graph_ops (sample_graph_window root M) = Some win0 /\
        tui_main_loop_keys LINES rounds tui_search keys win0 = Some win' /\
        graph_inv LINES B M win') /\
  (forall win keys,
      graph_inv LINES B M win ->
      exists win',
        tui_main_loop_keys LINES rounds tui_search keys win = Some win' /\
        graph_inv LINES B M win').
Proof.
  intros HL Hb HM Hr. split.
  - intros root keys Hfits.
    destruct (graph_init_inv LINES B M root HL Hfits) as (win0 & E0 & Hinv0).
    destruct (keys_inv LINES B M rounds tui_search HL Hb HM Hr keys win0 Hinv0)
      as (win' & E & Hinv').
    exists win0, win'. split; [exact E0|]. split; [exact E | exact Hinv'].
  - intros win keys Hinv.
    exact (keys_inv LINES B M rounds tui_search HL Hb HM Hr keys win Hinv).
Qed.

Lemma tui_main_loop_keys_safe_witness :
  2 < 6 /\ 2 * Z.of_nat 8 + 2 <= INT_MAX /\ Z.of_nat 4 <= INT_MAX /\
  (8 <= 8)%nat /\ tree_fits 8 4 sample_levels /\
  exists win0 win',
    tui_window_init graph_ops (sample_graph_window sample_levels 4) = Some win0 /\
    tui_main_loop_keys 6 8 (Some "h"%string)
      [KEY_END; key_u; KEY_ENTER; KEY_HOME; key_search_next; KEY_NPAGE; key_c;
       KEY_UP; key_e; KEY_DOWN; key_p; key_n; KEY_PPAGE; key_search_prev]
      win0 = Some win' /\
    graph_inv 6 8 4 win'.
Proof.
  assert (H1 : 2 < 6) by lia.
  assert (H2 : 2 * Z.of_nat 8 + 2 <= INT_MAX) by (vm_compute; discriminate).
  assert (H3 : Z.of_nat 4 <= INT_MAX) by (vm_compute; discriminate).
  assert (H4 : (8 <= 8)%nat) by lia.
  assert (H5 : tree_fits 8 4 sample_levels) by (apply tree_fitsb_ok; reflexivity).
  split; [exact H1|]. split; [exact H2|]. split; [exact H3|]. split; [exact H4|].
  split; [exact H5|].
  destruct (tui_main_loop_keys_safe 6 8 4 8 (Some "h"%string) H1 H2 H3 H4)
    as [Hstart _].
  exact (Hstart sample_levels _ H5).
Defined.


(** * The screen of the graph view *)

(** What [win_display_graph] writes depends on the root, the width, the
    node and the depth of the display, and on the mask below that depth. *)
Lemma print_graph_indent_state (g1 g2 : tui_graph) x d single :
  ug_root g1 = ug_root g2 ->
  take (Z.to_nat d) (disp_mask g1) = take (Z.to_nat d) (disp_mask g2) ->
  length (take (Z.to_nat d) (disp_mask g1)) = Z.to_nat d ->
  print_graph_indent g1 x d single = print_graph_indent g2 x d single.
Proof.
  intros HR Hm Hlen.
  rewrite (print_graph_indent_mask g1 x d single _ eq_refl Hlen).
  rewrite (print_graph_indent_mask g2 x d single _ (eq_sym Hm) Hlen).
  now rewrite HR.
Qed.

Lemma win_display_graph_state fields COLS (win1 win2 : graph_window) node :
  ug_root (w_ext win1) = ug_root (w_ext win2) ->
  width (w_ext win1) = width (w_ext win2) ->
  disp (w_ext win1) = disp (w_ext win2) ->
  disp_depth (w_ext win1) = disp_depth (w_ext win2) ->
  take (Z.to_nat (disp_depth (w_ext win1))) (disp_mask (w_ext win1)) =
  take (Z.to_nat (disp_depth (w_ext win1))) (disp_mask (w_ext win2)) ->
  length (take (Z.to_nat (disp_depth (w_ext win1))) (disp_mask (w_ext win1))) =
  Z.to_nat (disp_depth (w_ext win1)) ->
  win_display_graph fields COLS win1 node = win_display_graph fields COLS win2 node.
Proof.
  intros HR Hw Hd Hdd Hm Hlen. unfold win_display_graph.
  rewrite <- HR, <- Hw, <- Hd, <- Hdd.
  destruct node as [x|].
  - destruct (node_at (ug_root (w_ext win1)) x) as [curr|]; [|reflexivity].
    cbn [mbind option_bind].
    destruct (match parent_of (ug_root (w_ext win1)) x with
              | Some parent => _ | None => _ end) as [sign single].
    rewrite (print_graph_indent_state (w_ext win1) (w_ext win2) x _ single HR Hm Hlen).
    reflexivity.
  - destruct (disp (w_ext win1)) as [shown|]; [|reflexivity].
    cbn [mbind option_bind].
    rewrite (print_graph_indent_state (w_ext win1) (w_ext win2) shown _ true HR Hm Hlen).
    reflexivity.
Qed.

Section graph_screen_rows.
Variable fields : list display_field.
Variable COLS : Z.
Variable root : tui_graph_node.
Variable M : nat.
Variable w : Z.

Lemma disp_ok_state (win : graph_window) x node :
    disp_ok M root w x (w_ext win) -> is_Some (node_at root x) ->
    win_display_graph fields COLS win node =
    win_display_graph fields COLS (row_window root w x) node.
  Proof.
    intros (HR & Hw & _ & Hd & HL & Hdd & Hm) Hn.
    pose proof (arrive_mask_length root x Hn) as Hlen.
    apply win_display_graph_state; cbn [w_ext row_window ug_root width disp
                                         disp_depth disp_mask];
      try assumption.
    - rewrite Hm. symmetry. apply take_ge. rewrite Hdd. lia.
    - rewrite Hm, Hdd. lia.
  Qed.

Lemma display_row (win : graph_window) x :
    disp_ok M root w x (w_ext win) -> is_Some (node_at root x) ->
    graph_display fields COLS win (Some x) = Some (row_text fields COLS root w x).
  Proof.
    intros Hok Hn. unfold row_text, graph_display.
    rewrite (disp_ok_state win x (Some x) Hok Hn).
    destruct Hn as [n Hn].
    destruct (win_display_graph_label fields COLS (row_window root w x) x n Hn)
      as (s & f & p & ->).
    reflexivity.
  Qed.

Lemma display_blank (win : graph_window) y :
    disp_ok M root w y (w_ext win) -> is_Some (node_at root y) ->
    graph_display fields COLS win None = Some (blank_text fields COLS root w y).
  Proof.
    intros Hok Hn. unfold blank_text, graph_display.
    rewrite (disp_ok_state win y None Hok Hn). reflexivity.
  Qed.
End graph_screen_rows.

Section graph_screen_loop.
Variable fields : list display_field.
Variable COLS : Z.
Variable LINES : Z.
Variable root : tui_graph_node.
Variables B M : nat.
Variable w : Z.
Hypothesis Hfits : tree_fits B M root.
Hypothesis HM : Z.of_nat M <= INT_MAX.
Hypothesis HLINES : LINES <= INT_MAX.

#[local] Abbreviation rows := (graph_rows root).

Lemma row_node k x : rows !! k = Some x -> is_Some (node_at root x).
  Proof.
    intros Hx. apply visible_node_at. apply graph_rows_visible.
    eapply list_elem_of_lookup_2, Hx.
  Qed.

  (** A step of the display from a row. *)
Lemma display_next (win : graph_window) k x :
    disp_ok M root w x (w_ext win) -> rows !! k = Some x ->
    exists e,
      ops_next graph_ops win x false = Some (rows !! S k, set_ext e win) /\
      ug_root e = root /\ width e = w /\
      top_depth e = top_depth (w_ext win) /\ top_mask e = top_mask (w_ext win) /\
      forall y, rows !! S k = Some y -> disp_ok M root w y e.
  Proof.
    intros (HR & Hw & Hu & Hd & HL & Hdd & Hm) Hx.
    assert (Hv : visible root x = true).
    { apply graph_rows_visible. eapply list_elem_of_lookup_2, Hx. }
    cbn [ops_next graph_ops]. unfold win_next_graph. rewrite Hu, HR.
    pose proof (graph_rows_next root k x Hx) as Hnext.
    destruct (rows !! S k) as [y|] eqn:Hy.
    - destruct (row_node _ _ Hy) as [ny Hny].
      destruct Hfits as [_ Hall]. destruct (Hall y ny Hny) as [HyM Hsp].
      rewrite Hdd.
      destruct (graph_next_node_indent root M HM x (disp_mask (w_ext win)) y Hv HL
                  ltac:(rewrite <- Hdd; exact Hm) Hnext HyM) as (m' & -> & L' & Hm').
      { intros n Hn. rewrite Hny in Hn. now injection Hn as <-. }
      cbn [mbind option_bind default].
      eexists. split; [reflexivity|].
      destruct (w_ext win); cbn in *.
      split; [exact HR|]. split; [exact Hw|]. split; [reflexivity|].
      split; [reflexivity|].
      intros y' [= <-]. unfold disp_ok, indent_ok. cbn.
      repeat split; assumption.
    - destruct (graph_next_node_total root x (disp_depth (w_ext win))
                  (Some (disp_mask (w_ext win))) (visible_node_at _ _ Hv))
        as (r & d' & m' & -> & Hr).
      unfold next_of in Hnext. rewrite Hr in Hnext.
      destruct r as [y|]; [discriminate|].
      cbn [mbind option_bind]. eexists. split; [reflexivity|].
      destruct (w_ext win); cbn in *.
      split; [exact HR|]. split; [exact Hw|]. split; [reflexivity|].
      split; [reflexivity|]. discriminate.
  Qed.

Lemma display_loop_rows full_redraw rounds :
    forall k x count (win : graph_window),
      disp_ok M root w x (w_ext win) -> rows !! k = Some x ->
      0 <= count -> (Z.to_nat (LINES - 2 - count) <= rounds)%nat ->
      exists e,
        display_loop graph_ops LINES (graph_display fields COLS) rounds
                     full_redraw count x win =
          Some (draw_rows fields COLS LINES root w
                  (fun y => full_redraw || bool_decide (Some y = w_curr win)
                            || bool_decide (Some y = w_old win))
                  (w_curr win) count (drop k rows),
                set_ext e win) /\
        ug_root e = root /\ width e = w /\
        top_depth e = top_depth (w_ext win) /\ top_mask e = top_mask (w_ext win).
  Proof.
    induction rounds as [|rounds IH]; intros k x count win Hok Hx Hc Hr;
      rewrite (drop_S _ _ _ Hx); cbn [display_loop draw_rows];
      destruct (count <? LINES - 2) eqn:Hlt;
      try (exists (w_ext win); rewrite set_ext_same;
           destruct Hok as (? & ? & _); repeat split; (reflexivity || assumption)).
    { apply Z.ltb_lt in Hlt. lia. }
    apply Z.ltb_lt in Hlt. cbv zeta.
    rewrite (display_row fields COLS root M w win x Hok (row_node _ _ Hx)).
    assert (W1 : wrap_int (count + 1) = count + 1).
    { apply wrap_int_small. unfold INT_MAX in *. lia. }
    assert (W2 : wrap_int (count + 1 + 1) = count + 2).
    { replace (count + 1 + 1) with (count + 2) by lia.
      apply wrap_int_small. unfold INT_MAX in *. lia. }
    rewrite !W1.
    set (here := if full_redraw || _ || _ then _ else _).
    assert (Hhere : exists l, here = Some l /\
              l = (if full_redraw || bool_decide (Some x = w_curr win)
                      || bool_decide (Some x = w_old win)
                   then (if bool_decide (Some x = w_curr win)
                         then [curses_attron A_REVERSE] else [])
                        ++ [curses_move (count + 1) 0]
                        ++ row_text fields COLS root w x
                        ++ (if bool_decide (Some x = w_curr win)
                            then [curses_attroff A_REVERSE] else [])
                   else [])).
    { subst here. destruct (full_redraw || _ || _); eexists; split; reflexivity. }
    destruct Hhere as (l & -> & Hl). cbn [mbind option_bind].
    destruct (display_next win k x Hok Hx) as (e & -> & HR & Hw & Htd & Htm & Hnext).
    cbn [mbind option_bind].
    destruct (rows !! S k) as [y|] eqn:Hy.
    - rewrite (drop_S _ _ _ Hy).
      specialize (Hnext y eq_refl).
      cbn [ops_needs_blank graph_ops win_needs_blank_graph].
      destruct (negb (is_first_child x y)).
      + rewrite (display_blank fields COLS root M w (set_ext e win) y Hnext
                   (row_node _ _ Hy)).
        cbn [mbind option_bind]. rewrite W2.
        destruct (IH (S k) y (count + 2) (set_ext e win) Hnext Hy ltac:(lia)
                    ltac:(lia)) as (e' & E & HR' & Hw' & Htd' & Htm').
        rewrite (drop_S _ _ _ Hy) in E. rewrite E. cbn [mbind option_bind].
        exists e'. rewrite set_ext_set_ext, Hl.
        change (w_ext (set_ext e win)) with e in Htd', Htm'.
        split; [reflexivity|]. repeat split; congruence.
      + cbn [mbind option_bind]. rewrite W1.
        destruct (IH (S k) y (count + 1) (set_ext e win) Hnext Hy ltac:(lia)
                    ltac:(lia)) as (e' & E & HR' & Hw' & Htd' & Htm').
        rewrite (drop_S _ _ _ Hy) in E. rewrite E. cbn [mbind option_bind].
        exists e'. rewrite set_ext_set_ext, Hl.
        change (w_ext (set_ext e win)) with e in Htd', Htm'.
        split; [reflexivity|]. repeat split; congruence.
    - rewrite (drop_ge rows (S k)) by (apply lookup_ge_None; exact Hy).
      exists e. rewrite Hl, app_nil_r. split; [reflexivity|].
      repeat split; assumption.
  Qed.
End graph_screen_loop.

Lemma top_ok_ext M root t (g e : tui_graph) :
  top_ok M root t g -> ug_root e = root ->
  top_depth e = top_depth g -> top_mask e = top_mask g ->
  top_ok M root t e.
Proof.
  intros (HR & HL & Ht) He Hd Hm. unfold top_ok. rewrite He, Hd, Hm.
  split; [reflexivity|]. split; [exact HL | exact Ht].
Qed.

(** X19. The screen of the graph view between two keys, when a field is
    chosen: after the header, [tui_window_display] writes the rows of the
    tree from the top of the screen on, each on the line of its screen row
    under the header and as [win_display_graph] writes it with the depth
    and the mask of that row, with a blank row before every row that is not
    a first child, and the row of the cursor in reverse; when the screen
    is not drawn anew, only the rows of the cursor and of the cursor before
    are written, and the blank rows.  It stops at the last row of the tree
    or of the screen, writes the footer, and leaves the window as it was
    but for the state of the display. *)
Theorem graph_display_rows fields COLS LINES B M field_header footer_text
    full_redraw (win : graph_window) :
  LINES <= INT_MAX -> Z.of_nat M <= INT_MAX -> fields <> [] ->
  graph_inv LINES B M win ->
  let root := ug_root (w_ext win) in
  let attrs := Z.lor (COLOR_PAIR C_HEADER) A_BOLD in
  let redraw := fun y => full_redraw || bool_decide (Some y = w_curr win)
                         || bool_decide (Some y = w_old win) in
  exists i j head foot e,
    on_rows (graph_rows root) B (fun g => ug_root g = root)
            (fun a b => negb (is_first_child a b)) win i j /\
    tui_window_display graph_ops LINES
      (win_header_graph fields COLS field_header) (graph_display fields COLS)
      (win_footer_graph COLS footer_text) full_redraw win =
      Some ([curses_move 0 0; curses_attron attrs] ++ head
            ++ [curses_attroff attrs]
            ++ draw_rows fields COLS LINES root (width e) redraw (w_curr win) 0
                         (drop i (graph_rows root))
            ++ [curses_move (LINES - 1) 0; curses_attron attrs] ++ foot
            ++ [curses_attroff attrs],
            set_ext e win) /\
    disp_update e = false /\
    graph_inv LINES B M (set_ext e win).
Proof.
  intros HL HM Hfields Hinv root attrs redraw.
  pose proof Hinv as (Hfits & (i & j & Hon) & Hscr & Htop).
  fold root in Hfits, Hon, Htop.
  pose proof Hon as (HR & Hij & HjB & Hj & Ht & Hcu & Hti & Hci).
  destruct (on_rows_top_Some _ _ _ _ _ _ _ Hon) as [t Hti'].
  assert (Htw : w_top win = Some t) by (rewrite Ht; exact Hti').
  assert (H2 : 2 < LINES) by (destruct Hscr; lia).
  exists i, j.
  unfold tui_window_display. rewrite (proj2 (Z.leb_gt LINES 2)) by lia.
  cbv zeta.
  destruct (win_header_graph fields COLS field_header win) as [head winh] eqn:Eh.
  assert (Hh : exists eh w, winh = set_ext eh win /\ disp_ok M root w t eh /\
               top_depth eh = top_depth (w_ext win) /\
               top_mask eh = top_mask (w_ext win)).
  { unfold win_header_graph in Eh. destruct fields as [|f0 fs]; [congruence|].
    cbv zeta in Eh. injection Eh as _ <-.
    destruct Htop as (_ & HLm & Htop). destruct (Htop t Htw) as [_ Hok].
    eexists _, _. split; [reflexivity|].
    rewrite Htw. destruct (w_ext win); cbn in *.
    split; [|split; reflexivity].
    unfold disp_ok. cbn. repeat split; try assumption; try reflexivity;
      apply Hok. }
  destruct Hh as (eh & w & -> & Hokh & Htdh & Htmh).
  rewrite Htw. cbn [mbind option_bind].
  destruct (display_loop_rows fields COLS LINES root B M w Hfits HM HL full_redraw
              (Z.to_nat (LINES - 2)) i t 0 (set_ext eh win) Hokh Hti' ltac:(lia)
              ltac:(lia)) as (e1 & -> & HR1 & Hw1 & Htd1 & Htm1).
  cbn [mbind option_bind]. rewrite set_ext_set_ext.
  unfold win_footer_graph. rewrite set_ext_set_ext.
  change (w_ext (set_ext e1 win)) with e1.
  change (w_ext (set_ext eh win)) with eh in Htd1, Htm1.
  exists head. eexists. exists (set_disp_update false e1).
  split; [exact Hon|].
  replace (width (set_disp_update false e1)) with w
    by (destruct e1; cbn in *; congruence).
  split; [reflexivity|].
  split; [destruct e1; reflexivity|].
  assert (HRe : ug_root (set_disp_update false e1) = root)
    by (destruct e1; exact HR1).
  eapply inv_intro with (root := root) (i' := i) (j' := j).
  - exact Hfits.
  - apply on_rows_set_ext; [exact Hon | exact HRe].
  - eapply on_screen_rows; eassumption.
  - eapply top_ok_ext; [exact Htop | exact HRe | |];
      destruct e1; cbn in *; congruence.
Qed.

Lemma graph_display_rows_witness :
  8 <= INT_MAX /\ Z.of_nat 4 <= INT_MAX /\ [sample_field] <> [] /\
  graph_inv 8 8 4 sample_levels_start /\
  exists out e,
    tui_window_display graph_ops 8
      (win_header_graph [sample_field] 80 (fun _ => "TOTAL"%string))
      (graph_display [sample_field] 80)
      (win_footer_graph 80 (fun _ => "uftrace graph"%string))
      true sample_levels_start = Some (out, set_ext e sample_levels_start) /\
    disp_update e = false /\
    graph_inv 8 8 4 (set_ext e sample_levels_start).
Proof.
  assert (H1 : 8 <= INT_MAX) by (vm_compute; discriminate).
  assert (H2 : Z.of_nat 4 <= INT_MAX) by (vm_compute; discriminate).
  assert (H3 : [sample_field] <> []) by discriminate.
  assert (H4 : graph_inv 8 8 4 sample_levels_start).
  { destruct (graph_init_inv 8 8 4 sample_levels ltac:(lia)
                (tree_fitsb_ok 8 4 sample_levels eq_refl)) as (win0 & E & Hinv).
    cbn in E. injection E as <-. exact Hinv. }
  split; [exact H1|]. split; [exact H2|]. split; [exact H3|]. split; [exact H4|].
  destruct (graph_display_rows [sample_field] 80 8 8 4 (fun _ => "TOTAL"%string)
              (fun _ => "uftrace graph"%string) true sample_levels_start
              H1 H2 H3 H4) as (i & j & head & foot & e & _ & E & Hu & Hinv).
  eexists _, e. split; [exact E|]. split; [exact Hu | exact Hinv].
Defined.


(** * The screen of the graph view when no field is chosen *)

(** While the display is not updated, [win_next_graph] gives the next row
    and leaves the window alone. *)
Lemma graph_next_still (win : graph_window) k x :
  disp_update (w_ext win) = false ->
  graph_rows (ug_root (w_ext win)) !! k = Some x ->
  ops_next graph_ops win x false =
  Some (graph_rows (ug_root (w_ext win)) !! S k, win).
Proof.
  intros Hu Hx. cbn [ops_next graph_ops]. unfold win_next_graph. rewrite Hu.
  pose proof (graph_rows_next _ k x Hx) as Hnext.
  assert (Hn : is_Some (node_at (ug_root (w_ext win)) x)).
  { apply visible_node_at, graph_rows_visible.
    eapply list_elem_of_lookup_2, Hx. }
  destruct (graph_next_node_total (ug_root (w_ext win)) x 0 None Hn)
    as (r & d' & m' & E & Hr).
  rewrite E. cbn [mbind option_bind].
  unfold next_of in Hnext. rewrite Hr in Hnext. rewrite <- Hnext.
  destruct r; reflexivity.
Qed.

Section graph_screen_no_field.
Variable COLS : Z.
Variable LINES : Z.
Hypothesis HLINES : LINES <= INT_MAX.

  (** The loop of [tui_window_display] with the display node unset: it
      stops with a fault at the first blank row, and else leaves the window
      as it is. *)
Lemma display_loop_no_field full_redraw rounds :
    forall k x count (win : graph_window),
      let rows := graph_rows (ug_root (w_ext win)) in
      let loop := display_loop graph_ops LINES (graph_display [] COLS) rounds
                               full_redraw count x win in
      disp (w_ext win) = None -> disp_update (w_ext win) = false ->
      rows !! k = Some x -> 0 <= count ->
      (Z.to_nat (LINES - 2 - count) <= rounds)%nat ->
      (loop = None /\
       exists k' x' y',
         (k <= k')%nat /\ count + Z.of_nat (k' - k) < LINES - 2 /\
         rows !! k' = Some x' /\ rows !! S k' = Some y' /\
         is_first_child x' y' = false) \/
      ((exists out, loop = Some (out, win)) /\
       forall k' x' y',
         (k <= k')%nat -> count + Z.of_nat (k' - k) < LINES - 2 ->
         rows !! k' = Some x' -> rows !! S k' = Some y' ->
         is_first_child x' y' = true).
  Proof.
    induction rounds as [|rounds IH]; intros k x count win rows loop Hd Hu Hx Hc Hr;
      subst rows loop; cbn [display_loop];
      destruct (count <? LINES - 2) eqn:Hlt;
      try (apply Z.ltb_ge in Hlt; right; split; [eexists; reflexivity|];
           intros; lia).
    { apply Z.ltb_lt in Hlt. lia. }
    apply Z.ltb_lt in Hlt. cbv zeta.
    assert (Hn : is_Some (node_at (ug_root (w_ext win)) x)).
    { apply visible_node_at, graph_rows_visible.
      eapply list_elem_of_lookup_2, Hx. }
    destruct Hn as [n Hn].
    destruct (win_display_graph_label [] COLS win x n Hn) as (s & f & p & Erow).
    change (graph_display [] COLS win (Some x))
      with (map curses_of <$> win_display_graph [] COLS win (Some x)).
    rewrite Erow.
    set (here := if full_redraw || _ || _ then _ else _).
    assert (Hhere : exists l, here = Some l).
    { subst here. destruct (full_redraw || _ || _); eexists; reflexivity. }
    destruct Hhere as (l & ->). cbn [mbind option_bind].
    rewrite (graph_next_still win k x Hu Hx). cbn [mbind option_bind].
    assert (W1 : wrap_int (count + 1) = count + 1).
    { apply wrap_int_small. unfold INT_MAX in *. lia. }
    destruct (graph_rows (ug_root (w_ext win)) !! S k) as [y|] eqn:Hy.
    - cbn [ops_needs_blank graph_ops win_needs_blank_graph].
      destruct (is_first_child x y) eqn:Hfirst; cbn [negb].
      + cbn [mbind option_bind]. rewrite W1.
        destruct (IH (S k) y (count + 1) win Hd Hu Hy ltac:(lia) ltac:(lia))
          as [(E & k' & x' & y' & Hk & Hcount & Hx' & Hy' & Hf)
             |((out & E) & Hall)].
        * left. rewrite E. split; [reflexivity|].
          exists k', x', y'. repeat split; try assumption; lia.
        * right. rewrite E. cbn [mbind option_bind].
          split; [eexists; reflexivity|].
          intros k' x' y' Hk Hcount Hx' Hy'.
          destruct (decide (k' = k)) as [Heq|Hne].
          -- subst k'. rewrite Hx in Hx'. rewrite Hy in Hy'.
             injection Hx' as <-. injection Hy' as <-. exact Hfirst.
          -- apply (Hall k' x' y'); try assumption; lia.
      + left. split.
        * change (graph_display [] COLS win None)
            with (map curses_of <$> win_display_graph [] COLS win None).
          unfold win_display_graph. rewrite Hd. reflexivity.
        * exists k, x, y. repeat split; try assumption; lia.
    - right. split; [eexists; reflexivity|].
      intros k' x' y' Hk _ _ Hy'.
      apply lookup_ge_None in Hy. apply lookup_lt_Some in Hy'. lia.
  Qed.
End graph_screen_no_field.

(** X20. The screen of the graph view when no field is chosen (the field
    list is empty): [win_header_graph] returns after the title and before
    it sets the display node, so that no step of [tui_window_display] sets
    it either.  With the display node unset, as it is in a graph just
    made, the display faults (the null display node is read by
    [print_graph_indent]) exactly when a row on the screen has a row below
    it that is not its first child, which is where a blank row is
    written.  When it does not fault it leaves the window as it was but
    for a width of zero, with the display node still unset. *)
Theorem graph_display_no_field COLS LINES field_header footer_text full_redraw
    (win : graph_window) i t :
  let rows := graph_rows (ug_root (w_ext win)) in
  let shown :=
    tui_window_display graph_ops LINES
      (win_header_graph [] COLS field_header) (graph_display [] COLS)
      (win_footer_graph COLS footer_text) full_redraw win in
  2 < LINES <= INT_MAX ->
  disp (w_ext win) = None -> disp_update (w_ext win) = false ->
  w_top win = Some t -> rows !! i = Some t ->
  (shown = None <->
   exists k x y,
     (i <= k)%nat /\ Z.of_nat (k - i) < LINES - 2 /\
     rows !! k = Some x /\ rows !! S k = Some y /\
     is_first_child x y = false) /\
  (forall r, shown = Some r ->
             exists out, r = (out, set_ext (set_width 0 (w_ext win)) win)).
Proof.
  intros rows shown HL Hd Hu Ht Hi. subst rows shown.
  unfold tui_window_display. rewrite (proj2 (Z.leb_gt LINES 2)) by lia.
  cbv zeta. unfold win_header_graph. cbn [fold_left]. rewrite Ht.
  cbn [mbind option_bind].
  set (winh := set_ext (set_width 0 (w_ext win)) win).
  assert (HR : ug_root (w_ext winh) = ug_root (w_ext win))
    by (subst winh; destruct win as [? ? ? ? ? ? []]; reflexivity).
  assert (Hdh : disp (w_ext winh) = None)
    by (subst winh; destruct win as [? ? ? ? ? ? []]; exact Hd).
  assert (Huh : disp_update (w_ext winh) = false)
    by (subst winh; destruct win as [? ? ? ? ? ? []]; exact Hu).
  assert (Hfoot : set_ext (set_disp_update false (w_ext winh)) winh = winh).
  { subst winh. destruct win as [? ? ? ? ? ? []]. cbn in Hu. subst.
    reflexivity. }
  assert (Hih : graph_rows (ug_root (w_ext winh)) !! i = Some t)
    by (rewrite HR; exact Hi).
  destruct (display_loop_no_field COLS LINES ltac:(lia) full_redraw
              (Z.to_nat (LINES - 2)) i t 0 winh Hdh Huh Hih ltac:(lia)
              ltac:(lia))
    as [(E & k & x & y & Hk & Hcount & Hx & Hy & Hf)|((out & E) & Hall)];
    rewrite E; cbn [mbind option_bind]; rewrite HR in *.
  - split; [|discriminate].
    split; [intros _|reflexivity].
    exists k, x, y. repeat split; try assumption; lia.
  - unfold win_footer_graph. rewrite Hfoot. split.
    + split; [discriminate|].
      intros (k & x & y & Hk & Hcount & Hx & Hy & Hf).
      rewrite (Hall k x y Hk ltac:(lia) Hx Hy) in Hf. discriminate.
    + intros r [= <-]. eexists. reflexivity.
Qed.

Lemma graph_display_no_field_witness :
  2 < 8 <= INT_MAX /\
  disp (w_ext sample_levels_start) = None /\
  disp_update (w_ext sample_levels_start) = false /\
  w_top sample_levels_start = Some [] /\
  graph_rows (ug_root (w_ext sample_levels_start)) !! 0%nat = Some [] /\
  tui_window_display graph_ops 8
    (win_header_graph [] 80 (fun _ => "TOTAL"%string)) (graph_display [] 80)
    (win_footer_graph 80 (fun _ => "uftrace graph"%string))
    true sample_levels_start = None.
Proof.
  assert (H1 : 2 < 8 <= INT_MAX) by (vm_compute; split; [reflexivity|discriminate]).
  split; [exact H1|]. do 4 (split; [reflexivity|]).
  apply (graph_display_no_field 80 8 (fun _ => "TOTAL"%string)
           (fun _ => "uftrace graph"%string) true sample_levels_start 0 []
           H1 eq_refl eq_refl eq_refl eq_refl).
  exists 3%nat, [0; 0; 0]%nat, [1; 0; 0]%nat.
  split; [lia|]. split; [lia|]. repeat split.
Defined.
